(* ===== verification/_CoqProject ===== *)
-Q . S2P
Prelude.v
GoStd.v
Utf8.v
JsonStream.v
AuditTypes.v
Parser.v
ParserFacts.v
ParserSpec.v
ParserTheorems.v
Quorum.v
RateLimit.v
Gate.v
Profile.v
Engine.v
EngineTheorems.v
Proxy.v
ProxyTheorems.v
Updater.v
UpdaterTheorems.v
Url.v
Reviewer.v
ReviewerTheorems.v
Db.v
TimeText.v
Config.v
StoreRules.v
StoreTheorems.v
StoreJobs.v
StoreJobsTheorems.v
StoreEvents.v
StoreEventsTheorems.v
StoreMigrate.v
StoreMigrateTheorems.v
StoreOpen.v
StoreOpenTheorems.v
StoreSettings.v
StoreOverview.v
StoreSettingsTheorems.v
Runtime.v
RuntimeTheorems.v
Admin.v
UpdaterAgent.v
Main.v
Demo.v
UpdaterAgentTheorems.v
AdminTheorems.v
MainTheorems.v
Invariant.v
Lifecycle.v
LifecycleTheorems.v
