(* ===== verification/Prelude.v ===== *)
(** * NoCyber Guard: verification library

    NoCyber Guard is a reverse proxy in front of an OpenAI-compatible upstream.
    It audits the instruction templates of coding clients, refuses those an
    administrator or a quorum of AI reviewers has marked as harmful, and lets
    everything pass when the audit itself cannot work.  This library models the
    Go program under [src/], without its administration pages, and proves what
    makes it correct.

    ** The program and the files that model it

    A request enters the proxy ([internal/proxy]).  The adapter of the runtime
    ([cmd/nocyber-guard]) pins the current configuration to it and hands the
    decoded body to the engine ([internal/audit]): the parser selects a field,
    its SHA-256 digest is looked up in a snapshot of the rules, and an unknown
    digest may be reviewed by an AI service, under a rate limit and a
    concurrency gate.  A block is stored with its evidence before the request
    is refused ([internal/storage]); other events are queued.  Every unknown
    digest also becomes a background job that three AI nodes vote on; a quorum
    promotes it to a rule and the runtime reloads its snapshot.  The
    administration server ([internal/admin]) changes settings and rules in the
    same database and then has the runtime and the proxy reloaded.

    - Foundations: [Prelude] (results, tactics, lists), [GoStd] (bytes and
      strings of Go, UTF-8, floats as [spec_float], durations), [Utf8],
      [Url] (URLs, [path.Clean], hexadecimal text), [TimeText] (RFC 3339 text
      of times), [JsonStream] (the token interface of [json.Decoder] and the
      state machine of its scanner).
    - [internal/audit]: [AuditTypes] (types.go), [Parser] with [ParserFacts],
      [ParserSpec] and [ParserTheorems] (parser.go), [Quorum] (quorum.go),
      [RateLimit] (rate_limit.go), [Gate] (bulkhead.go), [Profile]
      (profile.go), [Engine] with [EngineTheorems] (engine.go), [Reviewer]
      with [ReviewerTheorems] (openai_reviewer.go).
    - [internal/proxy]: [Proxy] with [ProxyTheorems].
    - [internal/storage/store.go]: [Db] (tables, statements, transactions),
      [StoreRules] (rule libraries), [StoreJobs] (jobs, votes, promotions),
      [StoreEvents] (events, evidence, the data migration to version 2),
      [StoreMigrate] (the order of the migrations and the one of rule texts to
      version 4), [StoreOpen] (the schema as data, the columns added since, the
      encryption of secrets, [Open]), [StoreOverview] (the aggregate query) and [StoreSettings]
      (configuration, profiles, AI endpoints and nodes, passwords, sessions),
      each with its theorems.
    - [internal/config]: [Config] (environment, secrets, listener checks).
    - [internal/admin/server.go]: [Admin] with [AdminTheorems]; a handler is a
      function on a [world] of the connection, the login limiter and the
      runtime.
    - [cmd/nocyber-guard/main.go]: [Runtime] with [RuntimeTheorems]; [Main] puts
      the two servers together, [MainTheorems] are about the whole program.
      [Invariant] interleaves the steps of all its parts on one database,
      [Lifecycle] with [LifecycleTheorems] adds what comes before (the
      configuration and the database file), the goroutines, the channels and
      the shutdown.
    - [cmd/nocyber-updater]: [Updater] with [UpdaterTheorems] (the tasks),
      [UpdaterAgent] with [UpdaterAgentTheorems] (options, socket, HTTP
      interface, JSON texts, files).
    - [Demo]: instances of the interfaces and a small database for witnesses.

    Definitions carry the names of the Go functions, types and constants;
    a Go struct [T] is the record [T.t].  An anonymous piece of a function (a
    loop, a branch, one SQL statement) is a definition of its own beside it.

    ** How effects are modelled

    - The store: [Db.Store] is a state and error monad over a connection (the
      tables and the number of statements executed).  Every statement first
      asks the oracle [io], so that a theorem that quantifies over [io] covers
      every pattern of failing statements; [Db.transaction] rolls back.
    - The engine: a state monad over clock readings, the limiter and a log of
      effects in program order.
    - Goroutines: the gate is a step relation whose steps are the critical
      sections; the quorum is a function of the votes of the nodes and of a
      schedule, which orders their arrival; the loops of the background worker, the event writer and the
      cleanup are functions for one round.  [Invariant.program_step] takes any
      of these rounds or one request; [Lifecycle.life_step] takes them where
      the goroutine that makes them is alive, with one relation per goroutine.
    - The updater: a state that holds the deployed image, the environment
      file and the answers of Docker; underneath, a monad of system calls on a
      map of files, each of which may fail, that records the files after every
      call, so that a theorem can speak about the death of the process.
    - Opening the database: the schema is a map from tables to columns, the
      statements that create and extend it are data, and a statement that
      needs a column the file lacks is an error.

    Machine integers are [Z] with the wrap-around written out where the code
    can reach it.  Fuel: the JSON decoder and the parser recurse with the
    length of the input plus one; [ParserTheorems.ParseResponses_terminates]
    shows that it is never used up.  The fuel of [Fields] and of the decimal
    and hexadecimal digits is the length of the input or the number of digits of a
    64-bit number.

    ** Interfaces to code that is not part of the program

    Type classes, each with the laws a theorem needs as a second class or a
    hypothesis: [Unicode] (tables of the [unicode] package), [Regexp] (RE2),
    [NetLib] and [CIDRLib] (addresses), [UrlLib] ([url.Parse], [URL.String]),
    [Cipher] (the store's encryption) and below it [AEAD] (AES-GCM), [Argon2], [SqlFunctions] (LIKE, julianday, the WAL
    checkpoint), [SqlAverage], [AdminRequest] (cookies, query values and JSON
    of an administrator's request), [TimeLib] ([time.Parse]), [HostLib] (host name, network interfaces), [ScanLib]
    (integer and duration syntax), [FloatLib] ([strconv.ParseFloat]),
    [ResponseJSON] ([json.Unmarshal] of the provider's envelope), and
    [TokenSource] and [ReviewLimiter] between components of the program.
    SHA-256 and HMAC are function arguments.

    ** What the theorems show

    - The audit is sound and fails open: a request is refused only on grounds
      and after event and evidence are stored, from the HTTP body to the rows
      of the database ([RuntimeTheorems.blocked_request_is_recorded],
      [EngineTheorems], [ProxyTheorems]); a forwarded request reaches the
      upstream unchanged ([ProxyTheorems.forwarded_unchanged]).
    - The parser terminates, refines a declarative reading of the JSON tree,
      and hashes the whole field.
    - The background review changes the rules only by a quorum of the nodes on
      the job's own text ([RuntimeTheorems.process_promotes_on_quorum],
      [Quorum]), claims are
      exclusive, attempts bounded, promotions atomic; the snapshot refines the
      lookup in the database.
    - Store invariants hold under every sequence of operations and failures;
      configuration updates are compare-and-swap; an AI endpoint refines a
      specification without encryption; sessions end when they expire.
    - Reviewer: what is sent does not depend on the text reviewed except in the
      user message, and what comes back is validated.
    - Administration: no handler without a live session and its CSRF token, at
      most five wrong passwords a minute ([AdminTheorems]); a change that was
      answered with success is in force on the data plane
      ([MainTheorems.saved_config_is_live],
      [MainTheorems.added_risk_rule_blocks]).
    - Together the parts never break the database
      ([Invariant.program_invariant]); at a shutdown no accepted event is lost
      and every goroutine ends before the database is closed
      ([LifecycleTheorems]).
    - [Open] brings a database of any earlier release up to date and keeps its
      rows ([StoreOpenTheorems.Open_upgrades]); the migration of rule texts adds
      only texts whose digest is that of the rule; the hourly points count the
      events of their hours.
    - Limiter, gate, evidence and sample bounds; round trips of times,
      passwords, evidence, encrypted texts, the image file and the agent's
      record; startup keeps its master key; which endpoints count as the program's
      own listeners ([Config.no_endpoint_on_own_listener]).
    - The updater deploys what it verified, finds it named already, or says
      that it failed, one task at a time; the version an administrator posts is
      the one it starts on; its files have their old or their new content after
      every system call, and its socket replaces only a socket
      ([UpdaterAgentTheorems]).

    ** Where the theorems stop

    - The quorum theorems need three nodes, as the program has, and numbers as
      confidences: for two nodes the loop and its policy differ
      ([Quorum.two_nodes_differ]), and for NaN, which the reviewer never
      returns.
    - The theorems on bodies need a limit below the largest [int64]
      ([ProxyTheorems.largest_limit_loses_body]); the settings allow 64 MiB.
    - A fixed window admits up to twice its limit in a span across its end.
    - A shutdown waits for handlers up to its time, and never for upgraded
      connections ([LifecycleTheorems.late_request_panics],
      [LifecycleTheorems.websocket_cut_off]).
    - A file the updater writes survives the death of the process, not a crash
      of the machine: nothing is synced.
    - An update that finds its digest named already succeeds without deploying
      it ([UpdaterTheorems.retry_of_broken_image]), and a name that resolves to
      the one address a listener is bound to is accepted as an endpoint
      ([Config.resolved_name]).

    ** Not modelled

    The pages under [src/web] and the tooling under [src/.github] and
    [src/deploy]; the HTTP servers of the library: listeners, [ServeMux] with
    its redirects, the file server, the delivery of signals; the commands the
    updater runs, of which only the answers are modelled; [SnapshotStore] of
    config.go, which nothing uses; logging everywhere; cancellation of contexts
    where the code only passes the context on; how long the reviewers and the
    nodes take (a review is its answer and its latency), so that nothing is
    shown about the time a request or a job waits; what passes over an upgraded
    connection; escaped forms of paths, a path being its decoded text.  A round of a background loop is
    one step, so that two rounds do not interleave statement by statement; the
    background worker, which the code starts before the first reload, starts
    with the servers. *)

From Stdlib Require Export ZArith NArith Ascii String Lia Bool.
From stdpp Require Export prelude gmap strings list fin_maps sorting.

#[export] Set Default Goal Selector "!".

(** ** Outcomes of fallible Go calls *)

(** A Go call that returns [(value, error)] and whose value is unused when the
    error is non-nil. *)
Inductive result (E A : Type) : Type :=
| Ok (a : A)
| Err (e : E).
Arguments Ok {E A} _.
Arguments Err {E A} _.

#[export] Instance result_eq_dec {E A} `{EqDecision E, EqDecision A} :
  EqDecision (result E A).
Proof. solve_decision. Defined.

#[export] Instance result_bind {E} : MBind (result E) :=
  λ A B f m, match m with Ok a => f a | Err e => Err e end.
#[export] Instance result_ret {E} : MRet (result E) := λ A a, Ok a.

Definition is_ok {E A} (r : result E A) : bool :=
  match r with Ok _ => true | Err _ => false end.

(** ** Tactics of the development *)

(** Destruct the scrutinee of the first [match] or [if] of the goal and
    simplify the equations this yields. *)
Ltac step_match :=
  match goal with
  | |- context [match ?x with _ => _ end] =>
      match x with
      | context [match _ with _ => _ end] => fail 1
      | _ => let E := fresh "E" in destruct x eqn:E; simplify_eq/=
      end
  end.
Ltac step_matches := repeat step_match.

(** The same for a hypothesis. *)
Ltac step_match_in H :=
  match type of H with
  | context [match ?x with _ => _ end] =>
      match x with
      | context [match _ with _ => _ end] => fail 1
      | _ => let E := fresh "E" in destruct x eqn:E; simplify_eq/=
      end
  end.
Ltac step_matches_in H := repeat step_match_in H.

(** Turn boolean comparisons in the context into propositions. *)
Ltac to_prop :=
  repeat match goal with
  | H : bool_decide _ = true |- _ => apply bool_decide_eq_true_1 in H
  | H : bool_decide _ = false |- _ => apply bool_decide_eq_false_1 in H
  | H : (_ && _) = true |- _ => apply andb_true_iff in H as [? ?]
  | H : (_ || _) = false |- _ => apply orb_false_iff in H as [? ?]
  | H : negb _ = true |- _ => apply negb_true_iff in H
  | H : negb _ = false |- _ => apply negb_false_iff in H
  | H : (_ <? _)%Z = true |- _ => apply Z.ltb_lt in H
  | H : (_ <? _)%Z = false |- _ => apply Z.ltb_ge in H
  | H : (_ <=? _)%Z = true |- _ => apply Z.leb_le in H
  | H : (_ <=? _)%Z = false |- _ => apply Z.leb_gt in H
  | H : (_ =? _)%Z = true |- _ => apply Z.eqb_eq in H
  | H : (_ =? _)%Z = false |- _ => apply Z.eqb_neq in H
  | H : (_ =? _)%string = true |- _ => apply String.eqb_eq in H
  | H : (_ =? _)%string = false |- _ => apply String.eqb_neq in H
  | H : (_ <? _)%nat = true |- _ => apply Nat.ltb_lt in H
  | H : (_ <? _)%nat = false |- _ => apply Nat.ltb_ge in H
  | H : (_ <=? _)%nat = true |- _ => apply Nat.leb_le in H
  | H : (_ <=? _)%nat = false |- _ => apply Nat.leb_gt in H
  end.

(** ** Generic list lemmas *)

Lemma forallb_Forall {A} (f : A → bool) (l : list A) :
  forallb f l = true ↔ Forall (λ x, f x = true) l.
Proof. rewrite forallb_forall, Forall_forall. by setoid_rewrite list_elem_of_In. Qed.

Lemma existsb_Exists {A} (f : A → bool) (l : list A) :
  existsb f l = true ↔ Exists (λ x, f x = true) l.
Proof.
  rewrite existsb_exists, Exists_exists. by setoid_rewrite list_elem_of_In.
Qed.

(** Counting the elements that satisfy a boolean test. *)
Fixpoint countb {A} (f : A → bool) (l : list A) : nat :=
  match l with
  | [] => 0
  | x :: l => (if f x then 1 else 0) + countb f l
  end.

Lemma countb_app {A} (f : A → bool) (l k : list A) :
  countb f (l ++ k) = countb f l + countb f k.
Proof. induction l as [|x l IH]; simpl; [done|]. rewrite IH. lia. Qed.

Lemma countb_le {A} (f : A → bool) (l : list A) : countb f l ≤ length l.
Proof. induction l as [|x l IH]; simpl; [lia|]. destruct (f x); lia. Qed.

Lemma countb_zero {A} (f : A → bool) (l : list A) :
  countb f l = 0 ↔ Forall (λ x, f x = false) l.
Proof.
  induction l as [|x l IH]; simpl; [split; auto|].
  rewrite Forall_cons. destruct (f x); simpl; [split; [lia|intuition congruence]|].
  rewrite IH. tauto.
Qed.

Lemma countb_Permutation {A} (f : A → bool) (l k : list A) :
  l ≡ₚ k → countb f l = countb f k.
Proof. induction 1; simpl; lia. Qed.

Lemma countb_ext {A} (f g : A → bool) (l : list A) :
  (∀ x, f x = g x) → countb f l = countb g l.
Proof. intros H. induction l as [|x l IH]; simpl; [done|]. by rewrite H, IH. Qed.

Lemma countb_prefix {A} (f : A → bool) (l k : list A) :
  l `prefix_of` k → countb f l ≤ countb f k.
Proof. intros [m ->]. rewrite countb_app. lia. Qed.

Lemma countb_mono {A} (f g : A → bool) (l : list A) :
  (∀ x, f x = true → g x = true) → countb f l ≤ countb g l.
Proof.
  intros H. induction l as [|x l IH]; simpl; [lia|]. specialize (H x).
  destruct (f x), (g x); lia.
Qed.
Lemma length_filter_countb {A} (f : A → bool) (l : list A) : length (List.filter f l) = countb f l.
Proof. induction l as [|x l IH]; simpl; [done|]. destruct (f x); simpl; lia. Qed.
Lemma countb_filter {A} (f g : A → bool) (l : list A) :
  (∀ x, g x = true → f x = true) → countb g (List.filter f l) = countb g l.
Proof.
  intros H. induction l as [|x l IH]; simpl; [done|]. specialize (H x).
  destruct (f x); simpl; [by rewrite IH|]. destruct (g x); [discriminate (H eq_refl)|done].
Qed.

#[export] Instance countb_proper {A} (f : A → bool) :
  Proper ((≡ₚ) ==> (=)) (countb f).
Proof. intros l k H. by apply countb_Permutation. Qed.

(** Duplicate-freeness as a boolean on string lists. *)
Fixpoint nodupb (l : list string) : bool :=
  match l with
  | [] => true
  | x :: l => negb (bool_decide (x ∈ l)) && nodupb l
  end.

Lemma nodupb_NoDup (l : list string) : nodupb l = true ↔ NoDup l.
Proof.
  induction l as [|x l IH]; simpl.
  - split; [intros _; constructor|done].
  - rewrite andb_true_iff, negb_true_iff, bool_decide_eq_false, NoDup_cons, IH. done.
Qed.

(** ** Hint databases *)

Create HintDb guard discriminated.
#[export] Hint Resolve countb_le : guard.
