(* ===== verification/GoStd.v ===== *)
(** * The parts of the Go language and standard library the program uses

    Go strings are byte sequences: [string] (a list of 8-bit [ascii]) is used
    for them, [bytes] for [[]byte] values and for computations on the bytes.
    UTF-8 decoding follows [unicode/utf8] (an invalid byte decodes to U+FFFD
    with width one), [strings.TrimSpace] strips Unicode white space,
    [time.Time] is a number of nanoseconds since the zero time and
    [time.Duration] an [int64], and [float64] is [spec_float] with binary64
    parameters.  Case mapping outside ASCII is the interface [Unicode]. *)

From Stdlib Require Export SpecFloat.
From S2P Require Export Prelude.

Abbreviation bytes := (list ascii) (only parsing).

Definition B (s : string) : bytes := list_ascii_of_string s.
Definition S_ (l : bytes) : string := string_of_list_ascii l.

Lemma B_S_ l : B (S_ l) = l.
Proof. apply list_ascii_of_string_of_list_ascii. Qed.
Lemma S_B s : S_ (B s) = s.
Proof. apply string_of_list_ascii_of_string. Qed.

Lemma B_inj s t : B s = B t → s = t.
Proof. intros H. by rewrite <- (S_B s), <- (S_B t), H. Qed.

Lemma B_app s t : B (s +:+ t) = B s ++ B t.
Proof. induction s as [|c s IH]; simpl; [done|]. unfold B in *. simpl. by rewrite IH. Qed.

Lemma string_app_nil_r s : s +:+ "" = s.
Proof. apply B_inj. by rewrite B_app, app_nil_r. Qed.
Lemma string_app_assoc s t u : s +:+ (t +:+ u) = (s +:+ t) +:+ u.
Proof. apply B_inj. by rewrite !B_app, app_assoc. Qed.

(** The number of bytes of a string, Go's [len(s)]. *)
Definition slen (s : string) : Z := Z.of_nat (length (B s)).

Lemma slen_nonneg s : (0 ≤ slen s)%Z.
Proof. unfold slen. lia. Qed.

Lemma slen_app s t : slen (s +:+ t) = (slen s + slen t)%Z.
Proof. unfold slen. rewrite B_app, length_app. lia. Qed.

Lemma slen_zero s : slen s = 0%Z ↔ s = ""%string.
Proof. unfold slen. destruct s; simpl; [done|]. split; [lia|done]. Qed.

Definition code (c : ascii) : N := N_of_ascii c.
Definition chr (n : N) : ascii := ascii_of_N n.

(** Text written with single quotes for the double quotes of JSON. *)
Definition json_text (s : string) : bytes :=
  map (λ c, if bool_decide (c = "'"%char) then "034"%char else c) (B s).

(** ** UTF-8 *)

Record rune_at : Type := mk_rune { rn : N; rsize : nat; rvalid : bool }.

Definition cont (c : ascii) : bool := (128 <=? code c)%N && (code c <=? 191)%N.

(** The accepted range of the second byte of a sequence (the table
    [acceptRanges] of [unicode/utf8]). *)
Definition second_ok (b0 b1 : ascii) : bool :=
  let n := code b1 in
  let '(lo, hi) :=
    if (code b0 =? 224)%N then (160, 191)%N
    else if (code b0 =? 237)%N then (128, 159)%N
    else if (code b0 =? 240)%N then (144, 191)%N
    else if (code b0 =? 244)%N then (128, 143)%N
    else (128, 191)%N in
  (lo <=? n)%N && (n <=? hi)%N.

Definition rune_error : rune_at := mk_rune 65533 1 false.

(** [utf8.DecodeRune] on a non-empty byte sequence. *)
Definition decode_rune (b0 : ascii) (t : bytes) : rune_at :=
  let c0 := code b0 in
  let low c := (code c - 128)%N in
  if (c0 <? 128)%N then mk_rune c0 1 true
  else if (194 <=? c0)%N && (c0 <=? 223)%N then
    match t with
    | b1 :: _ =>
        if cont b1 then mk_rune ((c0 - 192) * 64 + low b1)%N 2 true else rune_error
    | _ => rune_error
    end
  else if (224 <=? c0)%N && (c0 <=? 239)%N then
    match t with
    | b1 :: b2 :: _ =>
        if second_ok b0 b1 && cont b2
        then mk_rune ((c0 - 224) * 4096 + low b1 * 64 + low b2)%N 3 true
        else rune_error
    | _ => rune_error
    end
  else if (240 <=? c0)%N && (c0 <=? 244)%N then
    match t with
    | b1 :: b2 :: b3 :: _ =>
        if second_ok b0 b1 && cont b2 && cont b3
        then mk_rune ((c0 - 240) * 262144 + low b1 * 4096 + low b2 * 64 + low b3)%N 4 true
        else rune_error
    | _ => rune_error
    end
  else rune_error.

Fixpoint runes_fuel (n : nat) (l : bytes) : list rune_at :=
  match n, l with
  | S n, b0 :: t =>
      let r := decode_rune b0 t in r :: runes_fuel n (drop (rsize r) l)
  | _, _ => []
  end.

(** The runes of a [for range] loop over a string. *)
Definition runes (l : bytes) : list rune_at := runes_fuel (length l) l.

Definition valid_utf8 (l : bytes) : bool := forallb rvalid (runes l).
Definition rune_count (l : bytes) : nat := length (runes l).

(** [utf8.AppendRune]: surrogates and out-of-range values become U+FFFD. *)
Definition encode_rune (r : N) : bytes :=
  let tail k := chr (128 + (r / k) mod 64)%N in
  if (r <? 128)%N then [chr r]
  else if (r <? 2048)%N then [chr (192 + r / 64)%N; tail 1%N]
  else if ((55296 <=? r)%N && (r <=? 57343)%N) || (1114111 <? r)%N
  then map chr [239; 191; 189]%N
  else if (r <? 65536)%N then [chr (224 + r / 4096)%N; tail 64%N; tail 1%N]
  else [chr (240 + r / 262144)%N; tail 4096%N; tail 64%N; tail 1%N].

Lemma decode_rune_size b0 t :
  1 ≤ rsize (decode_rune b0 t) ≤ length (b0 :: t).
Proof.
  unfold decode_rune, rune_error.
  repeat case_match; simpl in *; lia.
Qed.

Lemma runes_fuel_enough n m l :
  length l ≤ n → length l ≤ m → runes_fuel n l = runes_fuel m l.
Proof.
  revert m l. induction n as [|n IH]; intros m l Hn Hm.
  - destruct l; [by destruct m|simpl in *; lia].
  - destruct l as [|b l], m as [|m]; simpl in *; try done; try lia.
    pose proof (decode_rune_size b l) as Hs. simpl in Hs.
    f_equal. apply IH; rewrite length_drop; simpl; lia.
Qed.

Lemma runes_nil : runes [] = [].
Proof. done. Qed.

Lemma runes_cons b l :
  runes (b :: l) =
    decode_rune b l :: runes (drop (rsize (decode_rune b l)) (b :: l)).
Proof.
  unfold runes at 1. simpl length. cbn [runes_fuel]. f_equal.
  pose proof (decode_rune_size b l) as Hs. simpl in Hs.
  apply runes_fuel_enough; [|done]. rewrite length_drop. simpl. lia.
Qed.

(** The widths of the runes add up to the length of the string. *)
Definition total_size (rs : list rune_at) : nat := sum_list_with rsize rs.

Lemma runes_ind (P : bytes → Prop) :
  P [] →
  (∀ b l, P (drop (rsize (decode_rune b l)) (b :: l)) → P (b :: l)) →
  ∀ l, P l.
Proof.
  intros H0 Hc l. induction (Nat.lt_wf_0_projected (@length ascii) l) as [l _ IH].
  destruct l as [|b l]; [done|]. apply Hc, IH.
  pose proof (decode_rune_size b l) as Hs. simpl in Hs.
  rewrite length_drop. simpl. lia.
Qed.

Lemma runes_total_size l : total_size (runes l) = length l.
Proof.
  induction l as [|b l IH] using runes_ind; [done|].
  rewrite runes_cons. unfold total_size in *. simpl sum_list_with. rewrite IH, length_drop.
  pose proof (decode_rune_size b l). simpl in *. lia.
Qed.

Lemma rune_count_le l : rune_count l ≤ length l.
Proof.
  unfold rune_count. induction l as [|b l IH] using runes_ind; [done|].
  rewrite runes_cons. simpl length. rewrite length_drop in IH.
  pose proof (decode_rune_size b l). simpl in *. lia.
Qed.

(** ** Characters outside ASCII

    The case tables of package [unicode] are not part of the program; the
    functions below use them through this interface.  [uc_fold] picks one
    representative of the simple-folding orbit of a rune. *)
Class Unicode := {
  uc_lower : N → N;
  uc_upper : N → N;
  uc_fold : N → N;
}.

(** A concrete table: ASCII folding and the two non-ASCII runes that fold to
    ASCII letters (KELVIN SIGN and LATIN SMALL LETTER LONG S). *)
#[export] Instance basic_unicode : Unicode := {|
  uc_lower r := if (r =? 8490)%N then 107%N else r;
  uc_upper r := if (r =? 383)%N then 83%N else r;
  uc_fold r := if (r =? 8490)%N then 107%N else if (r =? 383)%N then 115%N else r;
|}.

Definition ascii_lower (r : N) : N :=
  if (65 <=? r)%N && (r <=? 90)%N then (r + 32)%N else r.
Definition ascii_upper (r : N) : N :=
  if (97 <=? r)%N && (r <=? 122)%N then (r - 32)%N else r.

Section case_mapping.
Context `{U : Unicode}.

Definition lower_rune (r : N) : N :=
  if (r <? 128)%N then ascii_lower r else uc_lower r.
Definition upper_rune (r : N) : N :=
  if (r <? 128)%N then ascii_upper r else uc_upper r.
Definition fold_rune (r : N) : N :=
  if (r <? 128)%N then ascii_lower r else uc_fold r.

Definition map_runes (f : N → N) (s : string) : string :=
  S_ (concat (map (λ r, encode_rune (f (rn r))) (runes (B s)))).

(** [strings.ToLower], [strings.ToUpper], [strings.EqualFold] *)
Definition to_lower (s : string) : string := map_runes lower_rune s.
Definition to_upper (s : string) : string := map_runes upper_rune s.
Definition equal_fold (s t : string) : bool :=
  bool_decide (map (λ r, fold_rune (rn r)) (runes (B s)) =
               map (λ r, fold_rune (rn r)) (runes (B t))).

Lemma equal_fold_refl s : equal_fold s s = true.
Proof. unfold equal_fold. by rewrite bool_decide_true. Qed.

Lemma equal_fold_sym s t : equal_fold s t = equal_fold t s.
Proof. unfold equal_fold. apply bool_decide_ext. done. Qed.
End case_mapping.

(** [unicode.IsControl]: category Cc is exactly these two ranges. *)
Definition is_control (r : N) : bool :=
  (r <=? 31)%N || ((127 <=? r)%N && (r <=? 159)%N).

(** ** Prefixes, suffixes, splitting *)

Fixpoint has_prefix_b (l p : bytes) {struct p} : bool :=
  match p, l with
  | [], _ => true
  | x :: p, y :: l => bool_decide (x = y) && has_prefix_b l p
  | _ :: _, [] => false
  end.

Lemma has_prefix_b_spec l p : has_prefix_b l p = true ↔ ∃ k, l = p ++ k.
Proof.
  revert l. induction p as [|x p IH]; intros l; simpl.
  - split; [by exists l|done].
  - destruct l as [|y l].
    + split; [done|intros [k Hk]; done].
    + rewrite andb_true_iff, bool_decide_eq_true, IH. split.
      * intros [-> [k ->]]. by exists k.
      * intros [k Hk]. simplify_eq/=. split; [done|by exists k].
Qed.

Lemma has_prefix_b_app p k : has_prefix_b (p ++ k) p = true.
Proof. apply has_prefix_b_spec. by exists k. Qed.

Definition has_prefix (s p : string) : bool := has_prefix_b (B s) (B p).
Definition has_suffix (s p : string) : bool := has_prefix_b (rev (B s)) (rev (B p)).
Definition trim_prefix (s p : string) : string :=
  if has_prefix s p then S_ (drop (length (B p)) (B s)) else s.
Definition trim_suffix (s p : string) : string :=
  if has_suffix s p then S_ (take (length (B s) - length (B p)) (B s)) else s.

Lemma has_prefix_app p s : has_prefix (p +:+ s) p = true.
Proof. unfold has_prefix. rewrite B_app. apply has_prefix_b_app. Qed.

Lemma trim_prefix_app p s : trim_prefix (p +:+ s) p = s.
Proof.
  unfold trim_prefix. rewrite has_prefix_app, B_app, drop_app_length. apply S_B.
Qed.

(** [strings.Index] of a non-empty separator, as a split at the first match. *)
Fixpoint cut_fuel (n : nat) (l sep : bytes) : option (bytes * bytes) :=
  if has_prefix_b l sep then Some ([], drop (length sep) l) else
  match n, l with
  | S n, c :: l =>
      match cut_fuel n l sep with Some (a, b) => Some (c :: a, b) | None => None end
  | _, _ => None
  end.
Definition cut (l sep : bytes) : option (bytes * bytes) := cut_fuel (length l) l sep.

Definition contains (s sub : string) : bool :=
  match cut (B s) (B sub) with Some _ => true | None => false end.

(** [strings.ContainsAny] for an ASCII character set. *)
Definition contains_any (s : string) (set : bytes) : bool :=
  existsb (λ c, bool_decide (c ∈ set)) (B s).

Definition count_byte (s : string) (c : ascii) : nat :=
  countb (λ x, bool_decide (x = c)) (B s).

(** [strings.Split(s, sep)] for a one-byte separator. *)
Fixpoint split_bytes (l : bytes) (sep : ascii) : list bytes :=
  match l with
  | [] => [[]]
  | c :: l =>
      if bool_decide (c = sep) then [] :: split_bytes l sep
      else match split_bytes l sep with
           | w :: ws => (c :: w) :: ws
           | [] => [[c]]
           end
  end.
Definition split (s : string) (sep : ascii) : list string :=
  map S_ (split_bytes (B s) sep).

(** [strings.Join] *)
Fixpoint join (l : list string) (sep : string) : string :=
  match l with
  | [] => ""
  | [x] => x
  | x :: l => x +:+ sep +:+ join l sep
  end.

(** ** White space *)

(** The UTF-8 encodings of the runes of [unicode.IsSpace]. *)
Definition space_encodings : list bytes :=
  map encode_rune
    [9; 10; 11; 12; 13; 32; 133; 160; 5760; 8192; 8193; 8194; 8195; 8196; 8197;
     8198; 8199; 8200; 8201; 8202; 8232; 8233; 8239; 8287; 12288]%N.

Definition leading_space (encs : list bytes) (l : bytes) : option bytes :=
  match List.find (λ e, has_prefix_b l e) encs with
  | Some e => Some (drop (length e) l)
  | None => None
  end.

Fixpoint trim_with (encs : list bytes) (n : nat) (l : bytes) : bytes :=
  match n with
  | O => l
  | S n => match leading_space encs l with
           | Some l' => trim_with encs n l'
           | None => l
           end
  end.

Definition trim_left (l : bytes) : bytes := trim_with space_encodings (length l) l.
Definition trim_right (l : bytes) : bytes :=
  rev (trim_with (map (@rev ascii) space_encodings) (length l) (rev l)).

(** [strings.TrimSpace] *)
Definition trim_space (s : string) : string := S_ (trim_right (trim_left (B s))).

Definition blank (s : string) : bool := (trim_space s =? "")%string.

Example trim_space_ex : trim_space "  a b	 " = "a b"%string.
Proof. vm_compute. reflexivity. Qed.

(** Trimming keeps a contiguous part of the string. *)
Lemma trim_with_suffix encs n l : ∃ p, l = p ++ trim_with encs n l.
Proof.
  revert l. induction n as [|n IH]; intros l; simpl; [by exists []|].
  unfold leading_space. destruct (List.find _ encs) as [e|] eqn:Hf; [|by exists []].
  apply List.find_some in Hf as [_ Hf]. apply has_prefix_b_spec in Hf as [k ->].
  rewrite drop_app_length. destruct (IH k) as [p Hp].
  exists (e ++ p). by rewrite <- app_assoc, <- Hp.
Qed.

Lemma trim_right_prefix l : ∃ q, l = trim_right l ++ q.
Proof.
  unfold trim_right.
  destruct (trim_with_suffix (map (@rev ascii) space_encodings) (length l) (rev l)) as [p Hp].
  exists (rev p). by rewrite <- rev_app_distr, <- Hp, rev_involutive.
Qed.

Lemma trim_space_infix s : ∃ p q, s = p +:+ trim_space s +:+ q.
Proof.
  destruct (trim_with_suffix space_encodings (length (B s)) (B s)) as [p Hp].
  destruct (trim_right_prefix (trim_left (B s))) as [q Hq].
  exists (S_ p), (S_ q). apply B_inj. unfold trim_space.
  rewrite !B_app, !B_S_. fold (trim_left (B s)) in Hp. rewrite <- Hq. done.
Qed.

Lemma trim_space_len s : (slen (trim_space s) ≤ slen s)%Z.
Proof.
  destruct (trim_space_infix s) as (p & q & H). rewrite H at 2. rewrite !slen_app.
  pose proof (slen_nonneg p). pose proof (slen_nonneg q). lia.
Qed.

(** ** Integers, time and floating point *)

Definition int64_min : Z := (- 2 ^ 63)%Z.
Definition int64_max : Z := (2 ^ 63 - 1)%Z.
Definition wrap64 (z : Z) : Z := ((z + 2 ^ 63) mod 2 ^ 64 - 2 ^ 63)%Z.
Lemma wrap64_id z : (- 2 ^ 63 ≤ z < 2 ^ 63)%Z → wrap64 z = z.
Proof. intros H. unfold wrap64. rewrite Z.mod_small by lia. lia. Qed.

Abbreviation Time := Z (only parsing).
Abbreviation Duration := Z (only parsing).

Definition zero_time : Time := 0%Z.
Definition is_zero_time (t : Time) : bool := (t =? zero_time)%Z.
(** [Time.Sub] saturates. *)
Definition time_sub (t u : Time) : Duration :=
  Z.max int64_min (Z.min int64_max (t - u)).
Definition nanosecond : Duration := 1%Z.
Definition millisecond : Duration := 1000000%Z.
Definition second : Duration := 1000000000%Z.
Definition minute : Duration := (60 * second)%Z.
Definition hour : Duration := (60 * minute)%Z.
(** [Duration.Milliseconds] *)
Definition milliseconds (d : Duration) : Z := Z.quot d millisecond.

Abbreviation float64 := spec_float (only parsing).
Definition f64_eq (x y : float64) : bool := SFeqb x y.
Definition f64_lt (x y : float64) : bool := SFltb x y.
Definition f64_le (x y : float64) : bool := SFleb x y.
Definition f64_ge (x y : float64) : bool := SFleb y x.
Definition f64_gt (x y : float64) : bool := SFltb y x.
Definition f64_zero : float64 := S754_zero false.
Definition f64_one : float64 := S754_finite false (2 ^ 52) (-52).
Definition f64_half : float64 := S754_finite false (2 ^ 52) (-53).
(** 0.95 rounded to binary64. *)
Definition f64_0_95 : float64 := S754_finite false 8556839292003942 (-53).
Definition f64_is_nan (x : float64) : bool :=
  match x with S754_nan => true | _ => false end.

#[export] Instance spec_float_eq_dec : EqDecision spec_float.
Proof. solve_decision. Defined.

Lemma SFcompare_swap x y :
  SFcompare y x = match SFcompare x y with Some c => Some (CompOpp c) | None => None end.
Proof.
  destruct x as [[]|[]| |[] mx ex], y as [[]|[]| |[] my ey]; simpl; try done;
    rewrite (Z.compare_antisym ex ey); destruct (Z.compare ex ey); simpl; try done;
    change (Pos.compare_cont Eq ?a ?b) with (Pos.compare a b);
    by rewrite (Pos.compare_antisym mx my).
Qed.

Lemma SFcompare_nan x y :
  SFcompare x y = None → f64_is_nan x = true ∨ f64_is_nan y = true.
Proof.
  destruct x as [[]|[]| |[] mx ex], y as [[]|[]| |[] my ey]; simpl; auto; try done;
    by destruct (Z.compare ex ey).
Qed.

(** On numbers, [>=] is the negation of [<]. *)
Lemma f64_not_lt_ge x y :
  f64_lt x y = false → f64_is_nan x = false → f64_is_nan y = false → f64_ge x y = true.
Proof.
  unfold f64_lt, f64_ge, SFltb, SFleb. rewrite (SFcompare_swap x y). intros H Hx Hy.
  destruct (SFcompare x y) as [[]|] eqn:E; simpl; try done.
  apply SFcompare_nan in E as [|]; congruence.
Qed.

Lemma f64_lt_not_ge x y : f64_lt x y = true → f64_ge x y = false.
Proof.
  unfold f64_lt, f64_ge, SFltb, SFleb. rewrite (SFcompare_swap x y).
  by destruct (SFcompare x y) as [[]|].
Qed.

(** ** Splitting at a separator *)

Lemma split_bytes_cons_sep l sep : split_bytes (sep :: l) sep = [] :: split_bytes l sep.
Proof. simpl. by rewrite bool_decide_true. Qed.

Lemma split_bytes_app w l sep :
  sep ∉ w → split_bytes (w ++ sep :: l) sep = w :: split_bytes l sep.
Proof.
  induction w as [|c w IH]; intros Hw; [apply split_bytes_cons_sep|].
  apply not_elem_of_cons in Hw as [Hc Hw]. simpl. rewrite bool_decide_false by done.
  by rewrite IH.
Qed.

Lemma split_bytes_word w sep : sep ∉ w → split_bytes w sep = [w].
Proof.
  induction w as [|c w IH]; intros Hw; [done|].
  apply not_elem_of_cons in Hw as [Hc Hw]. simpl. rewrite bool_decide_false by done.
  by rewrite IH.
Qed.
