(* ===== verification/Utf8.v ===== *)
(** * Encoding inverts decoding on valid UTF-8 *)

From S2P Require Export GoStd.

#[local] Ltac Zify.zify_post_hook ::= Z.to_euclidean_division_equations.

Lemma code_lt c : (code c < 256)%N.
Proof. apply N_ascii_bounded. Qed.

Lemma chr_code c : chr (code c) = c.
Proof. apply ascii_N_embedding. Qed.

Lemma chr_eq n c : n = code c → chr n = c.
Proof. intros ->. apply chr_code. Qed.

(** Turn the boolean comparisons of [N] in the context into propositions. *)
Ltac n_prop :=
  repeat match goal with
  | H : (_ && _) = true |- _ => apply andb_true_iff in H as [? ?]
  | H : (_ <? _)%N = true |- _ => apply N.ltb_lt in H
  | H : (_ <? _)%N = false |- _ => apply N.ltb_ge in H
  | H : (_ <=? _)%N = true |- _ => apply N.leb_le in H
  | H : (_ =? _)%N = true |- _ => apply N.eqb_eq in H
  | H : (_ =? _)%N = false |- _ => apply N.eqb_neq in H
  end.

(** The shapes of the encoding. *)
Lemma encode_rune_1 r : (r < 128)%N → encode_rune r = [chr r].
Proof. intros H. unfold encode_rune. by rewrite (proj2 (N.ltb_lt _ _) H). Qed.

Lemma encode_rune_2 r :
  (128 ≤ r < 2048)%N → encode_rune r = [chr (192 + r / 64); chr (128 + r mod 64)]%N.
Proof.
  intros [H1 H2]. unfold encode_rune.
  rewrite (proj2 (N.ltb_ge _ _) H1), (proj2 (N.ltb_lt _ _) H2). by rewrite N.div_1_r.
Qed.

Lemma encode_rune_3 r :
  (2048 ≤ r < 65536)%N → (r < 55296 ∨ 57343 < r)%N →
  encode_rune r = [chr (224 + r / 4096); chr (128 + r / 64 mod 64); chr (128 + r mod 64)]%N.
Proof.
  intros [H1 H2] H3. unfold encode_rune.
  rewrite (proj2 (N.ltb_ge r 128)), (proj2 (N.ltb_ge r 2048)), (proj2 (N.ltb_lt r 65536)) by lia.
  replace ((55296 <=? r)%N && (r <=? 57343)%N) with false.
  - rewrite (proj2 (N.ltb_ge 1114111 r)) by lia. simpl. by rewrite N.div_1_r.
  - symmetry. apply andb_false_iff. rewrite !N.leb_gt. lia.
Qed.

Lemma encode_rune_4 r :
  (65536 ≤ r ≤ 1114111)%N →
  encode_rune r = [chr (240 + r / 262144); chr (128 + r / 4096 mod 64);
                   chr (128 + r / 64 mod 64); chr (128 + r mod 64)]%N.
Proof.
  intros [H1 H2]. unfold encode_rune.
  rewrite (proj2 (N.ltb_ge r 128)), (proj2 (N.ltb_ge r 2048)), (proj2 (N.ltb_ge r 65536)) by lia.
  replace (r <=? 57343)%N with false by (symmetry; apply N.leb_gt; lia).
  rewrite (proj2 (N.ltb_ge 1114111 r)) by lia. rewrite andb_false_r. simpl. by rewrite N.div_1_r.
Qed.

Lemma second_ok_cont b0 b1 : second_ok b0 b1 = true → cont b1 = true.
Proof.
  unfold second_ok, cont.
  repeat match goal with |- context [if ?c then _ else _] => destruct c end;
    intros [H1%N.leb_le H2%N.leb_le]%andb_true_iff; apply andb_true_iff;
    rewrite !N.leb_le; lia.
Qed.

Lemma encode_decode b0 t :
  rvalid (decode_rune b0 t) = true →
  encode_rune (rn (decode_rune b0 t)) = take (rsize (decode_rune b0 t)) (b0 :: t).
Proof.
  unfold decode_rune, rune_error.
  destruct (code b0 <? 128)%N eqn:E1; cbn [rvalid rn rsize]; n_prop.
  { intros _. rewrite encode_rune_1 by done. cbn [take]. by rewrite chr_code. }
  destruct ((194 <=? code b0)%N && _) eqn:E2.
  { destruct t as [|b1 t]; cbn [rvalid]; [done|]. destruct (cont b1) eqn:C1; cbn [rvalid rn rsize];
      [|done]. intros _. unfold cont in *. n_prop.
    rewrite encode_rune_2 by lia. cbn [take]. f_equal; [|f_equal]; apply chr_eq; lia. }
  destruct ((224 <=? code b0)%N && _) eqn:E3.
  { destruct t as [|b1 [|b2 t]]; cbn [rvalid]; [done..|].
    destruct (second_ok b0 b1 && cont b2) eqn:C; cbn [rvalid rn rsize]; [|done]. intros _.
    apply andb_true_iff in C as [C1 C2]. pose proof (second_ok_cont _ _ C1) as C1'.
    assert (code b0 = 224 → 160 ≤ code b1)%N as Hlo.
    { unfold second_ok in C1. intros He. rewrite He in C1. simpl in C1. n_prop. done. }
    assert (code b0 = 237 → code b1 ≤ 159)%N as Hhi.
    { unfold second_ok in C1. intros He. rewrite He in C1. simpl in C1. n_prop. done. }
    clear C1 E2. unfold cont in *. n_prop.
    rewrite encode_rune_3 by lia.
    cbn [take]. f_equal; [|f_equal; [|f_equal]]; apply chr_eq; lia. }
  destruct ((240 <=? code b0)%N && _) eqn:E4; [|done].
  destruct t as [|b1 [|b2 [|b3 t]]]; cbn [rvalid]; [done..|].
  destruct (second_ok b0 b1 && cont b2 && cont b3) eqn:C; cbn [rvalid rn rsize]; [|done]. intros _.
  apply andb_true_iff in C as [C C3]. apply andb_true_iff in C as [C1 C2].
  pose proof (second_ok_cont _ _ C1) as C1'.
  assert (code b0 = 240 → 144 ≤ code b1)%N as Hlo.
  { unfold second_ok in C1. intros He. rewrite He in C1. simpl in C1. n_prop. done. }
  assert (code b0 = 244 → code b1 ≤ 143)%N as Hhi.
  { unfold second_ok in C1. intros He. rewrite He in C1. simpl in C1. n_prop. done. }
  clear C1 E2 E3. unfold cont in *. n_prop.
  rewrite encode_rune_4 by lia.
  cbn [take]. f_equal; [|f_equal; [|f_equal; [|f_equal]]]; apply chr_eq; lia.
Qed.

(** Encoding the runes of a valid string gives the string back. *)
Lemma encode_runes l :
  valid_utf8 l = true → concat (map (λ r, encode_rune (rn r)) (runes l)) = l.
Proof.
  unfold valid_utf8. induction l as [|b l IH] using runes_ind; [done|].
  rewrite runes_cons. cbn [forallb map concat].
  intros [H1 H2]%andb_true_iff. rewrite encode_decode by done. rewrite IH by done.
  apply take_drop.
Qed.

(** A rune below 128 is its own byte. *)
Lemma decode_rune_ascii b t :
  (code b < 128)%N → decode_rune b t = mk_rune (code b) 1 true.
Proof. intros H. unfold decode_rune. by rewrite (proj2 (N.ltb_lt _ _) H). Qed.

Lemma decode_rune_high b t :
  (128 ≤ code b)%N → (128 ≤ rn (decode_rune b t))%N.
Proof.
  intros H. unfold decode_rune, rune_error. rewrite (proj2 (N.ltb_ge _ _) H).
  repeat match goal with
  | |- context [if ?c then _ else _] => let E := fresh in destruct c eqn:E
  | |- context [match ?l with [] => _ | _ :: _ => _ end] => destruct l
  end; cbn [rn]; try lia; n_prop; unfold second_ok, cont in *; try lia.
  all: repeat match goal with H : context [if ?c then _ else _] |- _ => destruct c eqn:? end;
    n_prop; lia.
Qed.

Lemma runes_ascii l :
  Forall (λ c, code c < 128)%N l → map rn (runes l) = map code l.
Proof.
  induction 1 as [|c l Hc _ IH]; [done|]. rewrite runes_cons, decode_rune_ascii by done.
  simpl. rewrite drop_0. by f_equal.
Qed.

Lemma runes_below l :
  Forall (λ r, rn r < 128)%N (runes l) → Forall (λ c, code c < 128)%N l.
Proof.
  induction l as [|b l IH] using runes_ind; [constructor|]. rewrite runes_cons.
  intros [Hb Hl]%Forall_cons.
  destruct (N.lt_ge_cases (code b) 128) as [Hlt|Hge].
  - rewrite decode_rune_ascii in IH, Hl by done. cbn [rsize drop] in IH, Hl. rewrite drop_0 in *.
    constructor; [done|]. by apply IH.
  - pose proof (decode_rune_high b l Hge). lia.
Qed.

(** ** Cutting at rune boundaries *)

Lemma decode_rune_take b t n :
  rsize (decode_rune b t) ≤ S n → decode_rune b (take n t) = decode_rune b t.
Proof.
  unfold decode_rune. destruct (code b <? 128)%N; [done|].
  destruct (_ && _).
  { destruct t as [|b1 t], n as [|n]; simpl; try done. destruct (cont b1); simpl; [lia|done]. }
  destruct (_ && _).
  { destruct t as [|b1 [|b2 t]], n as [|[|n]]; simpl; try done;
      destruct (second_ok b b1 && cont b2); simpl; lia || done. }
  destruct (_ && _); [|done].
  destruct t as [|b1 [|b2 [|b3 t]]], n as [|[|[|n]]]; simpl; try done;
    destruct (second_ok b b1 && cont b2 && cont b3); simpl; lia || done.
Qed.

(** The runes of the bytes of the first [k] runes, and of the others. *)
Lemma runes_split l k :
  runes (take (total_size (take k (runes l))) l) = take k (runes l) ∧
  runes (drop (total_size (take k (runes l))) l) = drop k (runes l).
Proof.
  revert k. induction l as [|b l IH] using runes_ind; intros k.
  { by rewrite runes_nil, !take_nil, !drop_nil, runes_nil. }
  destruct k as [|k]; [by rewrite !take_0|].
  rewrite runes_cons. pose proof (decode_rune_size b l) as Hs. simpl in Hs.
  cbn [take drop]. unfold total_size. cbn [sum_list_with]. fold (total_size (take k (runes (drop (rsize (decode_rune b l)) (b :: l))))).
  destruct (IH k) as [IH1 IH2].
  set (r := decode_rune b l) in *. set (m := total_size _) in *.
  destruct (rsize r) as [|sz] eqn:Hr; [lia|]. cbn [take plus].
  split.
  - rewrite runes_cons.
    assert (decode_rune b (take (sz + m) l) = r) as ->.
    { apply decode_rune_take. fold r. lia. }
    rewrite Hr. f_equal. rewrite <- IH1. f_equal. cbn [drop].
    rewrite skipn_firstn_comm. f_equal. lia.
  - rewrite <- IH2. f_equal. cbn [drop]. by rewrite drop_drop.
Qed.

(** A valid rune is decoded whatever follows it. *)
Lemma decode_rune_app b t k :
  rvalid (decode_rune b t) = true → decode_rune b (t ++ k) = decode_rune b t.
Proof.
  intros Hv. rewrite <- (decode_rune_take b (t ++ k) (length t)).
  - by rewrite take_app_length.
  - pose proof (decode_rune_size b t) as Hs. simpl in Hs. revert Hv. unfold decode_rune.
    destruct (code b <? 128)%N; [simpl; lia|].
    destruct (_ && _).
    { destruct t as [|b1 t]; simpl; [done|]. destruct (cont b1); simpl; [lia|done]. }
    destruct (_ && _).
    { destruct t as [|b1 [|b2 t]]; simpl; try done.
      destruct (second_ok b b1 && cont b2); simpl; [lia|done]. }
    destruct (_ && _); [|done].
    destruct t as [|b1 [|b2 [|b3 t]]]; simpl; try done.
    destruct (second_ok b b1 && cont b2 && cont b3); simpl; [lia|done].
Qed.

Lemma runes_app l k : valid_utf8 l = true → runes (l ++ k) = runes l ++ runes k.
Proof.
  unfold valid_utf8. induction l as [|b l IH] using runes_ind; [done|].
  rewrite runes_cons. cbn [forallb]. intros [Hb Hl]%andb_true_iff.
  cbn [app]. rewrite runes_cons, decode_rune_app by done. f_equal.
  rewrite <- IH by done. f_equal. rewrite app_comm_cons, drop_app_le; [done|].
  pose proof (decode_rune_size b l). simpl in *. lia.
Qed.

Lemma valid_app l k : valid_utf8 l = true → valid_utf8 k = true → valid_utf8 (l ++ k) = true.
Proof.
  intros Hl Hk. unfold valid_utf8 in *. by rewrite runes_app, forallb_app, Hl, Hk.
Qed.

(** The bytes of a valid rune after the first are continuation bytes. *)
Lemma rune_tail_cont b t i c :
  rvalid (decode_rune b t) = true → 0 < i < rsize (decode_rune b t) →
  (b :: t) !! i = Some c → cont c = true.
Proof.
  unfold decode_rune.
  destruct (code b <? 128)%N; [simpl; lia|].
  destruct (_ && _).
  { destruct t as [|b1 t]; simpl; [done|]. destruct (cont b1) eqn:E; simpl; [|done].
    intros _ Hi. destruct i as [|[|i]]; simpl; [lia| |lia]. by intros [= <-]. }
  destruct (_ && _).
  { destruct t as [|b1 [|b2 t]]; simpl; try done.
    destruct (second_ok b b1 && cont b2) eqn:E; simpl; [|done].
    apply andb_true_iff in E as [E1%second_ok_cont E2].
    intros _ Hi. destruct i as [|[|[|i]]]; simpl; [lia| | |lia]; by intros [= <-]. }
  destruct (_ && _); [|done].
  destruct t as [|b1 [|b2 [|b3 t]]]; simpl; try done.
  destruct (second_ok b b1 && cont b2 && cont b3) eqn:E; simpl; [|done].
  apply andb_true_iff in E as [[E1%second_ok_cont E2]%andb_true_iff E3].
  intros _ Hi. destruct i as [|[|[|[|i]]]]; simpl; [lia| | | |lia]; by intros [= <-].
Qed.

(** A valid string cut where no rune continues gives two valid strings. *)
Lemma valid_cut l n :
  valid_utf8 l = true → (∀ c, l !! n = Some c → cont c = false) →
  valid_utf8 (take n l) = true ∧ valid_utf8 (drop n l) = true.
Proof.
  revert n. induction l as [|b l IH] using runes_ind; intros n Hv Hn.
  { by rewrite take_nil, drop_nil. }
  destruct n as [|n]; [done|].
  pose proof Hv as Hv'. unfold valid_utf8 in Hv'. rewrite runes_cons in Hv'. cbn [forallb] in Hv'.
  apply andb_true_iff in Hv' as [Hb Hl].
  set (k := rsize (decode_rune b l)) in *.
  pose proof (decode_rune_size b l) as Hk. fold k in Hk.
  assert (k ≤ S n) as Hle.
  { destruct (Nat.le_gt_cases k (S n)) as [|Hlt]; [done|].
    destruct (lookup_lt_is_Some_2 (b :: l) (S n)) as [c Hc]; [lia|].
    pose proof (rune_tail_cont b l (S n) c Hb ltac:(fold k; lia) Hc). rewrite (Hn c Hc) in *. done. }
  destruct (IH (S n - k)) as [H1 H2]; [done| |].
  { intros c. rewrite lookup_drop. replace (k + (S n - k)) with (S n) by lia. apply Hn. }
  rewrite drop_drop in H2. replace (k + (S n - k)) with (S n) in H2 by lia.
  split; [|done].
  rewrite <- (take_drop k (take (S n) (b :: l))). apply valid_app.
  - rewrite take_take, Nat.min_l by lia.
    destruct (runes_split (b :: l) 1) as [Hr _]. rewrite runes_cons in Hr. cbn [take] in Hr.
    assert (total_size [decode_rune b l] = k) as Hts by (unfold total_size; simpl; lia).
    rewrite take_0, Hts in Hr. unfold valid_utf8. rewrite Hr. cbn [forallb]. by rewrite Hb.
  - rewrite skipn_firstn_comm. done.
Qed.

(** A valid rune does not begin with a continuation byte. *)
Lemma valid_head_start b t : rvalid (decode_rune b t) = true → cont b = false.
Proof.
  unfold decode_rune, cont, rune_error. intros H. apply andb_false_iff. rewrite !N.leb_gt.
  destruct (code b <? 128)%N eqn:E1; n_prop; [lia|].
  destruct ((194 <=? code b)%N && _) eqn:E2; [n_prop; lia|].
  destruct ((224 <=? code b)%N && _) eqn:E3; [n_prop; lia|].
  destruct ((240 <=? code b)%N && _) eqn:E4; [n_prop; lia|done].
Qed.

(** In a valid string a rune starts within the last four bytes before any
    place. *)
Lemma start_before l n :
  valid_utf8 l = true → n < length l →
  ∃ i, n ≤ i + 3 ∧ i ≤ n ∧ ∀ c, l !! i = Some c → cont c = false.
Proof.
  revert n. induction l as [|b l IH] using runes_ind; intros n Hv Hn; [simpl in Hn; lia|].
  pose proof Hv as Hv'. unfold valid_utf8 in Hv'. rewrite runes_cons in Hv'. cbn [forallb] in Hv'.
  apply andb_true_iff in Hv' as [Hb Hl]. pose proof (decode_rune_size b l) as Hk.
  set (k := rsize (decode_rune b l)) in *.
  assert (k ≤ 4) as Hk4.
  { subst k. unfold decode_rune, rune_error. repeat case_match; simpl; lia. }
  destruct (Nat.lt_ge_cases n k) as [Hlt|Hge].
  - exists 0. split; [lia|]. split; [lia|]. intros c [= <-]. by eapply valid_head_start.
  - destruct (IH (n - k) Hl) as (i & H1 & H2 & H3); [rewrite length_drop; lia|].
    exists (k + i). split; [lia|]. split; [lia|]. intros c Hc. apply H3. by rewrite lookup_drop.
Qed.

Lemma start_after l n :
  valid_utf8 l = true →
  ∃ i, n ≤ i ∧ i ≤ n + 3 ∧ ∀ c, l !! i = Some c → cont c = false.
Proof.
  intros Hv. destruct (Nat.lt_ge_cases (n + 3) (length l)) as [Hlt|Hge].
  - destruct (start_before l (n + 3) Hv Hlt) as (i & H1 & H2 & H3). exists i. split_and!; [lia|lia|done].
  - exists (n + 3). split_and!; [lia|lia|]. intros c Hc. apply lookup_lt_Some in Hc. lia.
Qed.

Lemma ascii_valid l : Forall (λ c, code c < 128)%N l → valid_utf8 l = true.
Proof.
  unfold valid_utf8. induction 1 as [|c l Hc _ IH]; [done|].
  rewrite runes_cons, decode_rune_ascii by done. simpl. by rewrite drop_0.
Qed.

(** [json.Marshal] replaces invalid UTF-8: the string a JSON round trip gives. *)
Definition json_string (s : string) : string := map_runes (λ r, r) s.

Lemma json_string_valid s : valid_utf8 (B s) = true → json_string s = s.
Proof. intros H. unfold json_string, map_runes. rewrite <-(S_B s) at 2. f_equal. by apply encode_runes. Qed.

(** ** Lower case of ASCII strings *)

Section lower.
Context `{U : Unicode}.

Definition lower_byte (c : ascii) : ascii := chr (ascii_lower (code c)).
Definition is_ascii (s : string) : Prop := Forall (λ c, code c < 128)%N (B s).

Lemma ascii_lower_lt n : (n < 128)%N → (ascii_lower n < 128)%N.
Proof.
  intros H. unfold ascii_lower. destruct (_ && _) eqn:E; [|done]. n_prop. lia.
Qed.

Lemma ascii_lower_idem n : ascii_lower (ascii_lower n) = ascii_lower n.
Proof.
  unfold ascii_lower. destruct ((65 <=? n)%N && (n <=? 90)%N) eqn:E; [|by rewrite E].
  n_prop. destruct (_ && _) eqn:E2; [|done]. n_prop. lia.
Qed.

Lemma code_chr n : (n < 256)%N → code (chr n) = n.
Proof. intros H. by apply N_ascii_embedding. Qed.

Lemma to_lower_ascii s : is_ascii s → to_lower s = S_ (map lower_byte (B s)).
Proof.
  intros Hs. unfold to_lower, map_runes. f_equal.
  rewrite <- (map_map rn (λ n, encode_rune (lower_rune n))), runes_ascii by done.
  rewrite map_map. induction Hs as [|c l Hc _ IH]; [done|]. simpl. rewrite IH.
  unfold lower_rune. rewrite (proj2 (N.ltb_lt _ _) Hc).
  by rewrite encode_rune_1 by (by apply ascii_lower_lt).
Qed.

Lemma to_lower_is_ascii s : is_ascii s → is_ascii (to_lower s).
Proof.
  intros Hs. unfold is_ascii. rewrite to_lower_ascii, B_S_ by done.
  apply List.Forall_map. eapply Forall_impl; [exact Hs|]. intros c Hc. cbv beta in Hc.
  unfold lower_byte. rewrite code_chr; [by apply ascii_lower_lt|].
  pose proof (ascii_lower_lt _ Hc). lia.
Qed.

Lemma to_lower_idem s : is_ascii s → to_lower (to_lower s) = to_lower s.
Proof.
  intros Hs. rewrite (to_lower_ascii (to_lower s)) by (by apply to_lower_is_ascii).
  rewrite (to_lower_ascii s) by done. f_equal. rewrite B_S_, map_map.
  apply map_ext_in. intros c Hc%list_elem_of_In. unfold is_ascii in Hs.
  rewrite Forall_forall in Hs. specialize (Hs c Hc). cbv beta in Hs.
  unfold lower_byte. pose proof (ascii_lower_lt _ Hs).
  rewrite code_chr by lia. by rewrite ascii_lower_idem.
Qed.
End lower.
