(* ===== verification/JsonStream.v ===== *)
(** * Streaming JSON decoding ([encoding/json.Decoder])

    The request parser and the verdict parser read JSON through
    [json.Decoder].  [TokenSource] is the interface they use ([Token], [More]
    and the end-of-input probe of [ensureJSONEOF]).  Two implementations are
    given: [Decoder], the state machine of the Go library on bytes (with
    [UseNumber] set), and [token_list], an already tokenised well-formed
    document, used to state what the parsers compute on a JSON tree. *)

From S2P Require Export GoStd.

Inductive token : Type :=
| TDelim (c : ascii)
| TStr (s : string)
| TNum (s : string)
| TBool (b : bool)
| TNull.

#[export] Instance token_eq_dec : EqDecision token.
Proof. solve_decision. Defined.

Definition chr_lbrace : ascii := "{"%char.
Definition chr_rbrace : ascii := "}"%char.
Definition chr_lbracket : ascii := "["%char.
Definition chr_rbracket : ascii := "]"%char.

(** Errors of the decoder: a syntax error or the end of the input. *)
Inductive json_err : Type := EOF | UnexpectedEOF | SyntaxError.

#[export] Instance json_err_eq_dec : EqDecision json_err.
Proof. solve_decision. Defined.

Class TokenSource (D : Type) := {
  src_token : D → result json_err (token * D);
  src_more : D → bool;
  src_at_eof : D → bool;
  src_size : D → nat;
}.

(** Every token consumes input; this is what makes the parsers terminate. *)
Class TokenSourceLaws (D : Type) `{TokenSource D} :=
  src_token_size : ∀ d t d', src_token d = Ok (t, d') → src_size d' < src_size d.

(** ** The decoder of the Go library *)

Module Decoder.
Inductive tstate : Type :=
| tokenTopValue | tokenArrayStart | tokenArrayValue | tokenArrayComma
| tokenObjectStart | tokenObjectKey | tokenObjectColon | tokenObjectValue
| tokenObjectComma.

Record decoder : Type := mk { rest : bytes; st : tstate; stack : list tstate }.

Definition new (b : bytes) : decoder := mk b tokenTopValue [].

Definition is_space (c : ascii) : bool :=
  let n := code c in (n =? 32)%N || (n =? 9)%N || (n =? 13)%N || (n =? 10)%N.

Fixpoint skip_space (l : bytes) : bytes :=
  match l with
  | c :: l' => if is_space c then skip_space l' else l
  | [] => []
  end.

Definition tokenValueAllowed (s : tstate) : bool :=
  match s with
  | tokenTopValue | tokenArrayStart | tokenArrayValue | tokenObjectValue => true
  | _ => false
  end.

Definition tokenValueEnd (s : tstate) : tstate :=
  match s with
  | tokenArrayStart | tokenArrayValue => tokenArrayComma
  | tokenObjectValue => tokenObjectComma
  | s => s
  end.

(** *** Strings: the scanner and [unquote] in one pass *)

Definition hex_digit (c : ascii) : option N :=
  let n := code c in
  if (48 <=? n)%N && (n <=? 57)%N then Some (n - 48)%N
  else if (97 <=? n)%N && (n <=? 102)%N then Some (n - 87)%N
  else if (65 <=? n)%N && (n <=? 70)%N then Some (n - 55)%N
  else None.

Definition hex4 (l : bytes) : option (N * bytes) :=
  match l with
  | a :: b :: c :: d :: l =>
      match hex_digit a, hex_digit b, hex_digit c, hex_digit d with
      | Some a, Some b, Some c, Some d => Some ((((a * 16 + b) * 16 + c) * 16 + d)%N, l)
      | _, _, _, _ => None
      end
  | _ => None
  end.

Definition is_high (r : N) : bool := (55296 <=? r)%N && (r <? 56320)%N.
Definition is_low (r : N) : bool := (56320 <=? r)%N && (r <? 57344)%N.

(** [\uXXXX] with surrogate pairs: the rune and the remaining input. *)
Definition unicode_escape (l : bytes) : option (N * bytes) :=
  match hex4 l with
  | None => None
  | Some (r, l1) =>
      if is_high r || is_low r then
        match l1 with
        | "\"%char :: "u"%char :: l2 =>
            match hex4 l2 with
            | Some (r2, l3) =>
                if is_high r && is_low r2
                then Some ((65536 + (r - 55296) * 1024 + (r2 - 56320))%N, l3)
                else Some (65533%N, l1)
            | None => Some (65533%N, l1)
            end
        | _ => Some (65533%N, l1)
        end
      else Some (r, l1)
  end.

Definition simple_escape (c : ascii) : option ascii :=
  let n := code c in
  if (n =? 34)%N || (n =? 92)%N || (n =? 47)%N then Some c
  else if (n =? 98)%N then Some (chr 8)
  else if (n =? 102)%N then Some (chr 12)
  else if (n =? 110)%N then Some (chr 10)
  else if (n =? 114)%N then Some (chr 13)
  else if (n =? 116)%N then Some (chr 9)
  else None.

(** The body of a string literal after the opening quote. *)
Fixpoint lex_string (fuel : nat) (l acc : bytes) : result json_err (bytes * bytes) :=
  match fuel with
  | O => Err UnexpectedEOF
  | S fuel =>
      match l with
      | [] => Err UnexpectedEOF
      | c :: l1 =>
          if (code c =? 34)%N then Ok (rev acc, l1)
          else if (code c =? 92)%N then
            match l1 with
            | [] => Err UnexpectedEOF
            | e :: l2 =>
                if (code e =? 117)%N then
                  match unicode_escape l2 with
                  | Some (r, l3) => lex_string fuel l3 (rev (encode_rune r) ++ acc)
                  | None => Err SyntaxError
                  end
                else match simple_escape e with
                     | Some x => lex_string fuel l2 (x :: acc)
                     | None => Err SyntaxError
                     end
            end
          else if (code c <? 32)%N then Err SyntaxError
          else if (code c <? 128)%N then lex_string fuel l1 (c :: acc)
          else
            let r := decode_rune c l1 in
            lex_string fuel (drop (rsize r) l) (rev (encode_rune (rn r)) ++ acc)
      end
  end.

(** *** Numbers and literals *)

Definition is_digit (c : ascii) : bool :=
  let n := code c in (48 <=? n)%N && (n <=? 57)%N.

Fixpoint span_digits (l : bytes) : bytes * bytes :=
  match l with
  | c :: l' => if is_digit c then let '(a, b) := span_digits l' in (c :: a, b)
               else ([], l)
  | [] => ([], [])
  end.

Definition lex_digits1 (l : bytes) : option (bytes * bytes) :=
  let '(ds, r) := span_digits l in
  match ds with [] => None | _ => Some (ds, r) end.

Definition lex_int (l : bytes) : option (bytes * bytes) :=
  match l with
  | "0"%char :: l => Some (["0"%char], l)
  | _ => lex_digits1 l
  end.

Definition lex_frac (l : bytes) : option (bytes * bytes) :=
  match l with
  | "."%char :: l =>
      match lex_digits1 l with Some (ds, r) => Some ("."%char :: ds, r) | None => None end
  | _ => Some ([], l)
  end.

Definition lex_exp (l : bytes) : option (bytes * bytes) :=
  match l with
  | e :: l1 =>
      if (code e =? 101)%N || (code e =? 69)%N then
        let '(sg, l2) :=
          match l1 with
          | s :: l2 => if (code s =? 43)%N || (code s =? 45)%N then ([s], l2) else ([], l1)
          | [] => ([], [])
          end in
        match lex_digits1 l2 with
        | Some (ds, r) => Some (e :: sg ++ ds, r)
        | None => None
        end
      else Some ([], l)
  | [] => Some ([], l)
  end.

Definition lex_number (l : bytes) : option (bytes * bytes) :=
  let '(sg, l1) := match l with "-"%char :: l' => (["-"%char], l') | _ => ([], l) end in
  match lex_int l1 with
  | None => None
  | Some (i, l2) =>
      match lex_frac l2 with
      | None => None
      | Some (f, l3) =>
          match lex_exp l3 with
          | None => None
          | Some (e, l4) => Some (sg ++ i ++ f ++ e, l4)
          end
      end
  end.

Definition lex_literal (l : bytes) : option (token * bytes) :=
  if has_prefix_b l (B "true") then Some (TBool true, drop 4 l)
  else if has_prefix_b l (B "false") then Some (TBool false, drop 5 l)
  else if has_prefix_b l (B "null") then Some (TNull, drop 4 l)
  else None.

(** A scalar value at the head of the input: [Decode(&x)] for a value that
    is not an array or an object. *)
Definition lex_scalar (l : bytes) : result json_err (token * bytes) :=
  match l with
  | "034"%char :: l1 =>
      match lex_string (length l1) l1 [] with
      | Ok (s, r) => Ok (TStr (S_ s), r)
      | Err e => Err e
      end
  | c :: _ =>
      if is_digit c || bool_decide (c = "-"%char) then
        match lex_number l with
        | Some (ds, r) => Ok (TNum (S_ ds), r)
        | None => Err SyntaxError
        end
      else match lex_literal l with
           | Some (t, r) => Ok (t, r)
           | None => Err SyntaxError
           end
  | [] => Err EOF
  end.

Definition push (d : decoder) (l : bytes) (s : tstate) : decoder :=
  mk l s (st d :: stack d).
Definition pop (d : decoder) (l : bytes) : option decoder :=
  match stack d with
  | s :: ss => Some (mk l (tokenValueEnd s) ss)
  | [] => None
  end.

(** [Decoder.Token]; [fuel] bounds the number of [','] and [':'] skipped
    before the token. *)
Fixpoint Token_fuel (fuel : nat) (d : decoder) : result json_err (token * decoder) :=
  match fuel with
  | O => Err SyntaxError
  | S fuel =>
      match skip_space (rest d) with
      | [] => Err EOF
      | c :: l =>
          let n := code c in
          if (n =? 91)%N then
            if tokenValueAllowed (st d) then Ok (TDelim c, push d l tokenArrayStart)
            else Err SyntaxError
          else if (n =? 93)%N then
            match st d with
            | tokenArrayStart | tokenArrayComma =>
                match pop d l with Some d' => Ok (TDelim c, d') | None => Err SyntaxError end
            | _ => Err SyntaxError
            end
          else if (n =? 123)%N then
            if tokenValueAllowed (st d) then Ok (TDelim c, push d l tokenObjectStart)
            else Err SyntaxError
          else if (n =? 125)%N then
            match st d with
            | tokenObjectStart | tokenObjectComma =>
                match pop d l with Some d' => Ok (TDelim c, d') | None => Err SyntaxError end
            | _ => Err SyntaxError
            end
          else if (n =? 58)%N then
            match st d with
            | tokenObjectColon => Token_fuel fuel (mk l tokenObjectValue (stack d))
            | _ => Err SyntaxError
            end
          else if (n =? 44)%N then
            match st d with
            | tokenArrayComma => Token_fuel fuel (mk l tokenArrayValue (stack d))
            | tokenObjectComma => Token_fuel fuel (mk l tokenObjectKey (stack d))
            | _ => Err SyntaxError
            end
          else if (n =? 34)%N &&
                  match st d with tokenObjectStart | tokenObjectKey => true | _ => false end then
            match lex_scalar (c :: l) with
            | Ok (t, r) => Ok (t, mk r tokenObjectColon (stack d))
            | Err e => Err e
            end
          else if tokenValueAllowed (st d) then
            match lex_scalar (c :: l) with
            | Ok (t, r) => Ok (t, mk r (tokenValueEnd (st d)) (stack d))
            | Err e => Err e
            end
          else Err SyntaxError
      end
  end.

Definition Token (d : decoder) : result json_err (token * decoder) :=
  Token_fuel (S (length (rest d))) d.

(** [Decoder.More] *)
Definition More (d : decoder) : bool :=
  match skip_space (rest d) with
  | [] => false
  | c :: _ => negb ((code c =? 93)%N || (code c =? 125)%N)
  end.

(** [Decode(&extra)] returns [io.EOF]: only white space is left. *)
Definition at_eof (d : decoder) : bool :=
  match skip_space (rest d) with [] => true | _ => false end.
End Decoder.

#[export] Instance decoder_source : TokenSource Decoder.decoder := {|
  src_token := Decoder.Token;
  src_more := Decoder.More;
  src_at_eof := Decoder.at_eof;
  src_size d := length (Decoder.rest d);
|}.

(** ** Every token of the byte decoder consumes input *)

Module DecoderFacts.
Import Decoder.

Lemma skip_space_length l : length (skip_space l) ≤ length l.
Proof. induction l as [|c l IH]; simpl; [lia|]. destruct (is_space c); simpl; lia. Qed.

Lemma hex4_length l r l' : hex4 l = Some (r, l') → length l' < length l.
Proof. unfold hex4. intros H. repeat case_match; simplify_eq/=; lia. Qed.

Lemma unicode_escape_length l r l' :
  unicode_escape l = Some (r, l') → length l' < length l.
Proof.
  unfold unicode_escape. intros H.
  destruct (hex4 l) as [[r1 l1]|] eqn:H1; [|done]. apply hex4_length in H1.
  destruct (_ || _); [|by simplify_eq].
  repeat case_match; simplify_eq/=; try done.
  match goal with H : hex4 _ = Some _ |- _ => apply hex4_length in H end. lia.
Qed.

Lemma lex_string_length fuel l acc s l' :
  lex_string fuel l acc = Ok (s, l') → length l' < length l.
Proof.
  revert l acc. induction fuel as [|fuel IH]; intros l acc; simpl; [done|].
  destruct l as [|c l1]; [done|]. simpl.
  destruct (code c =? 34)%N; [intros; simplify_eq; lia|].
  destruct (code c =? 92)%N.
  { destruct l1 as [|e l2]; [done|]. destruct (code e =? 117)%N.
    - destruct (unicode_escape l2) as [[r l3]|] eqn:Hu; [|done].
      apply unicode_escape_length in Hu. intros H%IH. simpl. lia.
    - destruct (simple_escape e); [|done]. intros H%IH. simpl. lia. }
  destruct (code c <? 32)%N; [done|].
  destruct (code c <? 128)%N; [intros H%IH; lia|].
  intros H%IH. rewrite length_drop in H. simpl in H.
  pose proof (decode_rune_size c l1). lia.
Qed.

Lemma span_digits_length l a b : span_digits l = (a, b) → length l = length a + length b.
Proof.
  revert a b. induction l as [|c l IH]; simpl; intros a b H; [by simplify_eq|].
  destruct (is_digit c); [|by simplify_eq].
  destruct (span_digits l) as [x y]. simplify_eq/=. by rewrite (IH _ _ eq_refl).
Qed.

Lemma lex_digits1_length l a b : lex_digits1 l = Some (a, b) → length b < length l.
Proof.
  unfold lex_digits1. destruct (span_digits l) as [x y] eqn:E.
  apply span_digits_length in E. destruct x; intros; simplify_eq/=. lia.
Qed.

Lemma lex_int_length l a b : lex_int l = Some (a, b) → length b < length l.
Proof.
  unfold lex_int. intros H.
  assert (lex_digits1 l = Some (a, b) ∨ ∃ c, l = c :: b) as [H'|[c ->]].
  { destruct l as [|c l]; [by left|].
    destruct c as [[] [] [] [] [] [] [] []]; auto; simplify_eq/=; eauto. }
  - by apply lex_digits1_length in H'.
  - simpl. lia.
Qed.

Lemma lex_frac_length l a b : lex_frac l = Some (a, b) → length b ≤ length l.
Proof.
  unfold lex_frac. intros H.
  assert (b = l ∨ ∃ c k ds, l = c :: k ∧ lex_digits1 k = Some (ds, b))
    as [->|(c & k & ds & -> & H')]; [|lia|].
  { destruct l as [|c l]; [simplify_eq; by left|].
    destruct c as [[] [] [] [] [] [] [] []]; simplify_eq/=; auto.
    destruct (lex_digits1 l) as [[ds r]|] eqn:E; [|done]. simplify_eq. right. eauto 6. }
  apply lex_digits1_length in H'. simpl. lia.
Qed.

Lemma lex_exp_length l a b : lex_exp l = Some (a, b) → length b ≤ length l.
Proof.
  unfold lex_exp. destruct l as [|e l1]; [intros; by simplify_eq|].
  destruct (_ || _); [|intros; by simplify_eq].
  destruct (match l1 with [] => _ | _ => _ end) as [sg l2] eqn:E.
  assert (length l2 ≤ length l1).
  { destruct l1; [|case_match]; simplify_eq/=; lia. }
  destruct (lex_digits1 l2) as [[ds r]|] eqn:H'; [|done].
  apply lex_digits1_length in H'. intros. simplify_eq/=. lia.
Qed.

Lemma lex_number_length l a b : lex_number l = Some (a, b) → length b < length l.
Proof.
  unfold lex_number.
  destruct (match l with [] => _ | _ => _ end) as [sg l1] eqn:E.
  assert (length l1 ≤ length l).
  { destruct l as [|c l]; [by simplify_eq|].
    destruct c as [[] [] [] [] [] [] [] []]; simplify_eq/=; lia. }
  destruct (lex_int l1) as [[i l2]|] eqn:Hi; [|done]. apply lex_int_length in Hi.
  destruct (lex_frac l2) as [[f l3]|] eqn:Hf; [|done]. apply lex_frac_length in Hf.
  destruct (lex_exp l3) as [[e l4]|] eqn:He; [|done]. apply lex_exp_length in He.
  intros. simplify_eq. lia.
Qed.

Lemma lex_literal_length l t b : lex_literal l = Some (t, b) → length b < length l.
Proof.
  unfold lex_literal. intros H.
  destruct (has_prefix_b l (B "true")) eqn:E1;
    [|destruct (has_prefix_b l (B "false")) eqn:E2;
      [|destruct (has_prefix_b l (B "null")) eqn:E3; [|done]]];
    simplify_eq; rewrite length_drop;
    match goal with H : has_prefix_b _ _ = true |- _ =>
      apply has_prefix_b_spec in H as [k ->] end;
    rewrite length_app; simpl; lia.
Qed.

Lemma lex_scalar_length l t b : lex_scalar l = Ok (t, b) → length b < length l.
Proof.
  intros H.
  assert ((∃ c k s, l = c :: k ∧ lex_string (length k) k [] = Ok (s, b)) ∨
          (∃ ds, lex_number l = Some (ds, b)) ∨ (∃ t, lex_literal l = Some (t, b)))
    as [(c & k & s & -> & H')|[[ds H']|[t' H']]].
  { destruct l as [|c l]; [done|]. unfold lex_scalar in H.
    destruct c as [[] [] [] [] [] [] [] []]; cbv beta iota in H;
      repeat case_match; simplify_eq; eauto 8. }
  - apply lex_string_length in H'. simpl. lia.
  - by apply lex_number_length in H'.
  - by apply lex_literal_length in H'.
Qed.

Lemma pop_rest d l d' : pop d l = Some d' → rest d' = l.
Proof. unfold pop. destruct (stack d); intros; by simplify_eq. Qed.

Lemma Token_fuel_size fuel d t d' :
  Token_fuel fuel d = Ok (t, d') → length (rest d') < length (rest d).
Proof.
  revert d. induction fuel as [|fuel IH]; intros d; [done|]. cbn [Token_fuel].
  pose proof (skip_space_length (rest d)) as Hs.
  destruct (skip_space (rest d)) as [|c l] eqn:E; [done|]. simpl in Hs.
  intros H.
  repeat match type of H with
  | (if ?b then _ else _) = _ => destruct b
  | match ?x with _ => _ end = Ok _ => destruct x eqn:?
  end; simplify_eq; simpl rest in *; try lia.
  all: match goal with
  | H : pop _ _ = Some _ |- _ => apply pop_rest in H; rewrite H; lia
  | H : Token_fuel _ _ = Ok _ |- _ => apply IH in H; simpl in H; lia
  | H : lex_scalar _ = Ok _ |- _ => apply lex_scalar_length in H; simpl in H; lia
  end.
Qed.
End DecoderFacts.

#[export] Instance decoder_laws : TokenSourceLaws Decoder.decoder.
Proof. intros d t d' H. by apply DecoderFacts.Token_fuel_size in H. Qed.

(** ** Token lists of well-formed documents *)

#[local] Unset Elimination Schemes.
Inductive json : Type :=
| JNull
| JBool (b : bool)
| JNum (s : string)
| JStr (s : string)
| JArr (l : list json)
| JObj (l : list (string * json)).
#[local] Set Elimination Schemes.

Section json_ind.
Context (P : json → Prop).
Context (Hnull : P JNull) (Hbool : ∀ b, P (JBool b)) (Hnum : ∀ s, P (JNum s))
        (Hstr : ∀ s, P (JStr s)) (Harr : ∀ l, Forall P l → P (JArr l))
        (Hobj : ∀ l, Forall (λ kv, P kv.2) l → P (JObj l)).

Fixpoint json_nested_ind (v : json) : P v :=
  match v with
  | JNull => Hnull
  | JBool b => Hbool b
  | JNum s => Hnum s
  | JStr s => Hstr s
  | JArr l => Harr l ((fix go l : Forall P l :=
      match l with
      | [] => Forall_nil_2 _
      | x :: l => Forall_cons_2 _ _ _ (json_nested_ind x) (go l)
      end) l)
  | JObj l => Hobj l ((fix go l : Forall (λ kv, P kv.2) l :=
      match l with
      | [] => Forall_nil_2 _
      | kv :: l => Forall_cons_2 _ _ _ (json_nested_ind kv.2) (go l)
      end) l)
  end.
End json_ind.

(** The tokens of a value, in the order [Token] returns them. *)
Fixpoint tokens_of (v : json) : list token :=
  match v with
  | JNull => [TNull]
  | JBool b => [TBool b]
  | JNum s => [TNum s]
  | JStr s => [TStr s]
  | JArr l => TDelim chr_lbracket :: concat (map tokens_of l) ++ [TDelim chr_rbracket]
  | JObj l =>
      TDelim chr_lbrace ::
      concat (map (λ kv, TStr kv.1 :: tokens_of kv.2) l) ++ [TDelim chr_rbrace]
  end.

Definition closes (t : token) : bool :=
  match t with
  | TDelim c => bool_decide (c = chr_rbracket) || bool_decide (c = chr_rbrace)
  | _ => false
  end.

Record token_list : Type := TokenList { toks : list token }.

#[export] Instance token_list_source : TokenSource token_list := {|
  src_token d := match toks d with [] => Err EOF | t :: l => Ok (t, TokenList l) end;
  src_more d := match toks d with [] => false | t :: _ => negb (closes t) end;
  src_at_eof d := match toks d with [] => true | _ => false end;
  src_size d := length (toks d);
|}.

#[export] Instance token_list_laws : TokenSourceLaws token_list.
Proof. intros [[|t l]] t' d' H; simplify_eq/=; lia. Qed.

Lemma tokens_of_head v : ∃ t l, tokens_of v = t :: l ∧ closes t = false.
Proof. destruct v; simpl; eauto. Qed.

(** The byte decoder returns those tokens on the text of a document. *)
Fixpoint all_tokens (fuel : nat) (d : Decoder.decoder) : list token :=
  match fuel with
  | O => []
  | S fuel =>
      match Decoder.Token d with
      | Ok (t, d') => t :: all_tokens fuel d'
      | Err _ => []
      end
  end.

Example decoder_ex :
  all_tokens 30 (Decoder.new (json_text "{'a': [1, -2.5e3, 'x\n\u00e9'], 'b': null }")) =
  tokens_of (JObj [("a", JArr [JNum "1"; JNum "-2.5e3"; JStr (S_ (B "x" ++ [chr 10; chr 195; chr 169]))]);
                   ("b", JNull)])%string.
Proof. vm_compute. reflexivity. Qed.
