(* ===== verification/AuditTypes.v ===== *)
(** * Package audit, the domain types ([internal/audit/types.go])

    Reasons, verdicts and events are the string-typed constants of the code.
    Every Go struct is a record in a module of its own, so that the field
    names are those of the source. *)

From S2P Require Export GoStd.

Definition ProtocolResponses : string := "openai_responses".
Definition DefaultMaxBodyBytes : Z := Z.shiftl 4 20.
Definition DefaultMaxPromptRunes : Z := 64000.
Definition DefaultJSONDepth : Z := 1024.
Definition DefaultAIConcurrency : Z := 16.
Definition DefaultAIQueueTimeout : Duration := (2 * second)%Z.
Definition DefaultAITimeout : Duration := (15 * second)%Z.
Definition DefaultRejectConfidence : float64 := f64_0_95.
Definition DefaultEventReasonMaxSize : Z := 128.
Definition DefaultEventClientMaxSize : Z := 512.

(** [type Reason string] *)
Abbreviation Reason := string (only parsing).

Definition ReasonDisabled : Reason := "disabled".
Definition ReasonRouteBypass : Reason := "route_bypass".
Definition ReasonProtocolBypass : Reason := "protocol_unreviewed_allow".
Definition ReasonUABypass : Reason := "ua_bypass".
Definition ReasonParseBypass : Reason := "parse_bypass".
Definition ReasonEmptyBypass : Reason := "empty_bypass".
Definition ReasonOversizeBypass : Reason := "oversize_bypass".
Definition ReasonRiskHashMatch : Reason := "risk_hash_match".
Definition ReasonTrustedHashMatch : Reason := "trusted_hash_match".
Definition ReasonAIReject : Reason := "ai_reject".
Definition ReasonAIPass : Reason := "ai_pass".
Definition ReasonAIUncertain : Reason := "ai_uncertain".
Definition ReasonAILowConfidence : Reason := "ai_low_confidence".
Definition ReasonAIUnavailable : Reason := "ai_unavailable".
Definition ReasonAIRateLimited : Reason := "ai_rate_limited".
Definition ReasonAITimeout : Reason := "ai_timeout".
Definition ReasonAIInvalid : Reason := "ai_invalid".
Definition ReasonAIBulkhead : Reason := "ai_bulkhead_fail_open".
Definition ReasonStorageFailOpen : Reason := "storage_fail_open".
Definition ReasonBodyReadBypass : Reason := "body_read_fail_open".
Definition ReasonEncodingBypass : Reason := "unsupported_content_encoding_fail_open".
Definition ReasonDecodeBypass : Reason := "content_decode_fail_open".
Definition ReasonWebSocketBypass : Reason := "websocket_unreviewed_allow".

(** [type FieldState string]; [FieldUnset] is the zero value, the empty string. *)
Inductive FieldState : Type := FieldUnset | FieldMissing | FieldEmpty | FieldValid | FieldInvalid.

#[export] Instance FieldState_eq_dec : EqDecision FieldState.
Proof. solve_decision. Defined.

Module Field.
Record t : Type := mk {
  Name : string;
  State : FieldState;
  Text : string;
  SHA256 : string;
  Bytes : Z;
  Runes : Z;
  AISample : string;
  AISampled : bool;
}.

(** [Field{Name: name, State: state}] *)
Definition of_state (name : string) (s : FieldState) : t :=
  mk name s "" "" 0 0 "" false.

Definition set_sample (f : t) (sample : string) (sampled : bool) : t :=
  mk (Name f) (State f) (Text f) (SHA256 f) (Bytes f) (Runes f) sample sampled.

Definition set_state (f : t) (s : FieldState) : t :=
  mk (Name f) s (Text f) (SHA256 f) (Bytes f) (Runes f) (AISample f) (AISampled f).

Definition IsValid (f : t) : bool :=
  bool_decide (State f = FieldValid) &&
  negb (Text f =? "")%string && negb (SHA256 f =? "")%string.
End Field.

#[export] Instance Field_eq_dec : EqDecision Field.t.
Proof. solve_decision. Defined.

Module Parsed.
Record t : Type := mk {
  Instructions : Field.t;
  Input1 : Field.t;
  Selected : Field.t;
  SelectedName : string;
  Model : string;
}.
Definition set_Instructions (p : t) (f : Field.t) : t :=
  mk f (Input1 p) (Selected p) (SelectedName p) (Model p).
Definition set_Input1 (p : t) (f : Field.t) : t :=
  mk (Instructions p) f (Selected p) (SelectedName p) (Model p).
Definition set_Model (p : t) (m : string) : t :=
  mk (Instructions p) (Input1 p) (Selected p) (SelectedName p) m.
Definition set_Selected (p : t) (n : string) (f : Field.t) : t :=
  mk (Instructions p) (Input1 p) f n (Model p).
End Parsed.

Module Request.
Record t : Type := mk {
  ID : string;
  Method : string;
  Path : string;
  Protocol : string;
  UserAgent : string;
  Model : string;
  Body : bytes;
  APIKeyFingerprint : string;
  APIKeyHint : string;
  ClientIP : string;
}.
Definition set_Method (r : t) (m : string) : t :=
  mk (ID r) m (Path r) (Protocol r) (UserAgent r) (Model r) (Body r)
     (APIKeyFingerprint r) (APIKeyHint r) (ClientIP r).
Definition set_Model (r : t) (m : string) : t :=
  mk (ID r) (Method r) (Path r) (Protocol r) (UserAgent r) m (Body r)
     (APIKeyFingerprint r) (APIKeyHint r) (ClientIP r).
End Request.

(** [type Verdict string] *)
Abbreviation Verdict := string (only parsing).
Definition VerdictPass : Verdict := "pass".
Definition VerdictReject : Verdict := "reject".
Definition VerdictUncertain : Verdict := "uncertain".

Module AIVerdict.
Record t : Type := mk {
  Result : Verdict;
  Confidence : float64;
  Reason : string;
  Category : string;
  Model : string;
  LatencyMS : Z;
}.
(** [AIVerdict{}] *)
Definition zero : t := mk "" f64_zero "" "" "" 0.
Definition set_LatencyMS (v : t) (ms : Z) : t :=
  mk (Result v) (Confidence v) (Reason v) (Category v) (Model v) ms.
End AIVerdict.

#[export] Instance AIVerdict_eq_dec : EqDecision AIVerdict.t.
Proof. solve_decision. Defined.

Module AIReviewRequest.
Record t : Type := mk {
  Field : string;
  Content : string;
  Sampled : bool;
  Model : string;
  Criteria : string;
  APIKeyFingerprint : string;
  ClientIP : string;
}.
End AIReviewRequest.

(** The error values of the package, the two errors of package context, an
    error of the JSON decoder and any other error; [errors.Is] on a sentinel
    is equality here, because wrapping keeps the constructor.  [OutOfFuel]
    is the model's own: the parser theorems show it is never returned. *)
Inductive audit_err : Type :=
| ErrInvalidJSON
| ErrJSONDepth
| ErrDuplicateKey (key : string)
| ErrNoPrompt
| ErrBodyTooLarge
| ErrAIUnavailable
| ErrAIInvalidResponse
| ErrAIQueueFull
| ContextCanceled
| ContextDeadlineExceeded
| DecoderError
| OtherError (msg : string)
| OutOfFuel.

#[export] Instance audit_err_eq_dec : EqDecision audit_err.
Proof. solve_decision. Defined.

Module HashMatch.
Record t : Type := mk { ID : Z; SHA256 : string; Kind : string; Note : string }.
End HashMatch.

#[export] Instance HashMatch_eq_dec : EqDecision HashMatch.t.
Proof. solve_decision. Defined.

(** [type EventAction string], [type EventOutcome string] *)
Definition EventActionAudit : string := "audit".
Definition EventActionBypass : string := "bypass".
Definition EventOutcomeAllow : string := "allow".
Definition EventOutcomeBlock : string := "block".
Definition EventOutcomeFailOpen : string := "fail_open".

Module Event.
Record t : Type := mk {
  RequestID : string;
  Method : string;
  Path : string;
  Protocol : string;
  Model : string;
  UserAgent : string;
  ProfileKey : string;
  APIKeyFingerprint : string;
  APIKeyHint : string;
  Decision : string;
  Action : string;
  Outcome : string;
  Reason : string;
  Field : string;
  SHA256 : string;
  PromptBytes : Z;
  PromptRunes : Z;
  AISampled : bool;
  AIVerdict : option AIVerdict.t;
  AuditLatency : Duration;
  AILatency : Duration;
  Latency : Duration;
  UpstreamAccessed : bool;
  CreatedAt : Time;
}.
End Event.

Definition DeriveEventContract (reason : Reason) (blocked : bool) : string * string :=
  if blocked then (EventActionAudit, EventOutcomeBlock)
  else if bool_decide (reason ∈ [ReasonDisabled; ReasonRouteBypass; ReasonProtocolBypass;
                                 ReasonUABypass; ReasonWebSocketBypass])
  then (EventActionBypass, EventOutcomeAllow)
  else if bool_decide (reason ∈ [ReasonBodyReadBypass; ReasonEncodingBypass; ReasonDecodeBypass])
  then (EventActionBypass, EventOutcomeFailOpen)
  else if bool_decide (reason ∈ [ReasonParseBypass; ReasonEmptyBypass; ReasonOversizeBypass;
                                 ReasonAIUncertain; ReasonAILowConfidence; ReasonAIUnavailable;
                                 ReasonAIRateLimited; ReasonAITimeout; ReasonAIInvalid;
                                 ReasonAIBulkhead; ReasonStorageFailOpen])
  then (EventActionAudit, EventOutcomeFailOpen)
  else (EventActionAudit, EventOutcomeAllow).

Module Result.
Record t : Type := mk {
  Allow : bool;
  Blocked : bool;
  Reason : string;
  ProfileKey : string;
  Field : string;
  Hash : string;
  PromptBytes : Z;
  PromptRunes : Z;
  AISampled : bool;
  ReviewContent : string;
  RuleContent : string;
  Model : string;
  AIVerdict : option AIVerdict.t;
  AuditLatency : Duration;
  AILatency : Duration;
}.

(** [Result{Allow: true, Reason: reason, ProfileKey: key}] *)
Definition allowed (reason : string) (key : string) : t :=
  mk true false reason key "" "" 0 0 false "" "" "" None 0 0.

Definition set_decision (r : t) (allow blocked : bool) (reason : string) : t :=
  mk allow blocked reason (ProfileKey r) (Field r) (Hash r) (PromptBytes r)
     (PromptRunes r) (AISampled r) (ReviewContent r) (RuleContent r) (Model r)
     (AIVerdict r) (AuditLatency r) (AILatency r).
Definition set_reason (r : t) (reason : string) : t :=
  set_decision r (Allow r) (Blocked r) reason.
Definition set_verdict (r : t) (v : AIVerdict.t) : t :=
  mk (Allow r) (Blocked r) (Reason r) (ProfileKey r) (Field r) (Hash r) (PromptBytes r)
     (PromptRunes r) (AISampled r) (ReviewContent r) (RuleContent r) (Model r)
     (Some v) (AuditLatency r) (AILatency r).
Definition set_AuditLatency (r : t) (d : Duration) : t :=
  mk (Allow r) (Blocked r) (Reason r) (ProfileKey r) (Field r) (Hash r) (PromptBytes r)
     (PromptRunes r) (AISampled r) (ReviewContent r) (RuleContent r) (Model r)
     (AIVerdict r) d (AILatency r).
Definition set_AILatency (r : t) (d : Duration) : t :=
  mk (Allow r) (Blocked r) (Reason r) (ProfileKey r) (Field r) (Hash r) (PromptBytes r)
     (PromptRunes r) (AISampled r) (ReviewContent r) (RuleContent r) (Model r)
     (AIVerdict r) (AuditLatency r) d.

Definition IsFailOpen (r : t) : bool :=
  let '(_, outcome) := DeriveEventContract (Reason r) (Blocked r) in
  Allow r && (outcome =? EventOutcomeFailOpen)%string.
End Result.

(** ** [ValidateAIVerdict] ([internal/audit/engine.go]) *)

Definition ValidateAIVerdict (verdict : AIVerdict.t) : option audit_err :=
  if bool_decide (AIVerdict.Result verdict ∉ [VerdictPass; VerdictReject; VerdictUncertain])
  then Some ErrAIInvalidResponse
  else if f64_lt (AIVerdict.Confidence verdict) f64_zero ||
          f64_gt (AIVerdict.Confidence verdict) f64_one ||
          blank (AIVerdict.Reason verdict) ||
          (1000 <? slen (AIVerdict.Reason verdict))%Z ||
          blank (AIVerdict.Category verdict) ||
          (120 <? slen (AIVerdict.Category verdict))%Z
  then Some ErrAIInvalidResponse
  else None.

(** A reviewer: its verdict, its error and the time the call took. *)
Abbreviation review_result := (AIVerdict.t * option audit_err * Duration)%type.
Abbreviation Reviewer := (AIReviewRequest.t → review_result).
