(* ===== verification/Parser.v ===== *)
(** * The request parser ([internal/audit/parser.go])

    [ParseResponses] walks the tokens of a request body once, keeping the
    [instructions] string, the text of [input[1].content] and the model name,
    and skipping everything else while checking object keys for duplicates
    and nesting for its limit.  The parser is written against [TokenSource];
    [ctx k] is the state of the context when the [k]-th token is requested.

    Recursion and loops carry fuel.  [fuel_for] (three units per unit of
    input, and a constant) is always enough: see the termination theorem. *)

From S2P Require Export JsonStream AuditTypes.

Definition sampleSeparator : string :=
  S_ ([chr 10; chr 10] ++ B "[... content sampled ...]" ++ [chr 10; chr 10]).

Definition validMetadataText (value : string) : bool :=
  valid_utf8 (B value) &&
  forallb (λ r, negb ((rn r <? 32)%N || (rn r =? 127)%N)) (runes (B value)).

Definition SelectField (parsed : Parsed.t) : string * Field.t :=
  if Field.IsValid (Parsed.Instructions parsed)
  then (Field.Name (Parsed.Instructions parsed), Parsed.Instructions parsed)
  else if Field.IsValid (Parsed.Input1 parsed)
  then (Field.Name (Parsed.Input1 parsed), Parsed.Input1 parsed)
  else (""%string, Field.of_state "" FieldEmpty).

(** ** Sampling for the reviewer *)

Fixpoint offset_loop (rs : list rune_at) (count runeOffset offset len : Z) : Z :=
  match rs with
  | [] => len
  | r :: rs =>
      if (count =? runeOffset)%Z then offset
      else offset_loop rs (count + 1) runeOffset (offset + Z.of_nat (rsize r)) len
  end.

Definition byteOffsetAtRune (value : string) (runeOffset : Z) : Z :=
  if (runeOffset <=? 0)%Z then 0
  else offset_loop (runes (B value)) 0 runeOffset 0 (slen value).

Definition PrepareAISample (field : Field.t) (maxRunes : Z) : Field.t :=
  if negb (Field.IsValid field) then field else
  let maxRunes := if (maxRunes <=? 0)%Z then DefaultMaxPromptRunes else maxRunes in
  if (Field.Runes field <=? maxRunes)%Z
  then Field.set_sample field (Field.Text field) false
  else
    let first := Z.quot (wrap64 (maxRunes * 2)) 3 in
    let last := (maxRunes - first)%Z in
    let firstEnd := byteOffsetAtRune (Field.Text field) first in
    let lastStart := byteOffsetAtRune (Field.Text field) (Field.Runes field - last) in
    let text := B (Field.Text field) in
    Field.set_sample field
      (S_ (take (Z.to_nat firstEnd) text) +:+ sampleSeparator +:+
       S_ (drop (Z.to_nat lastStart) text)) true.

Definition wrapJSONError (err : option audit_err) : audit_err :=
  match err with
  | None => ErrInvalidJSON
  | Some ErrInvalidJSON => ErrInvalidJSON
  | Some ErrJSONDepth => ErrJSONDepth
  | Some (ErrDuplicateKey k) => ErrDuplicateKey k
  | Some ContextCanceled => ContextCanceled
  | Some ContextDeadlineExceeded => ContextDeadlineExceeded
  | Some OutOfFuel => OutOfFuel
  | Some _ => ErrInvalidJSON
  end.

Section parser.
Context {D : Type} `{TokenSource D}.
(** The SHA-256 digest of a text in lower-case hexadecimal. *)
Context (sha256_hex : string → string).
Context (ctx : N → option audit_err) (maxDepth : Z).

Record cursor : Type := mk_cursor { decoder : D; tokens : N }.

Abbreviation cres A := (result audit_err A * cursor)%type.

Definition cursor_size (c : cursor) : nat := src_size (decoder c).
Definition more (c : cursor) : bool := src_more (decoder c).

Definition newTextField (name text : string) : Field.t :=
  if (text =? "")%string then Field.of_state name FieldEmpty
  else Field.mk name FieldValid text (sha256_hex text) (slen text)
         (Z.of_nat (rune_count (B text))) "" false.

Definition token (c : cursor) : cres token :=
  let k := (tokens c + 1)%N in
  match ctx k with
  | Some e => (Err e, mk_cursor (decoder c) k)
  | None =>
      match src_token (decoder c) with
      | Ok (t, d) => (Ok t, mk_cursor d k)
      | Err _ => (Err DecoderError, mk_cursor (decoder c) k)
      end
  end.

Definition objectKey (seen : gset string) (c : cursor) : cres (string * gset string) :=
  match token c with
  | (Err e, c) => (Err e, c)
  | (Ok (TStr key), c) =>
      if bool_decide (key ∈ seen) then (Err (ErrDuplicateKey key), c)
      else (Ok (key, {[key]} ∪ seen), c)
  | (Ok _, c) => (Err ErrInvalidJSON, c)
  end.

(** The end token of an array or an object. *)
Definition expect_end (d : ascii) (c : cursor) : cres unit :=
  match token c with
  | (Err e, c) => (Err (wrapJSONError (Some e)), c)
  | (Ok t, c) =>
      if bool_decide (t = TDelim d) then (Ok tt, c)
      else (Err (wrapJSONError None), c)
  end.

Fixpoint skipValue (n : nat) (depth : Z) (c : cursor) {struct n} : cres unit :=
  match n with
  | O => (Err OutOfFuel, c)
  | S n =>
      if (maxDepth <? depth)%Z then (Err ErrJSONDepth, c) else
      match token c with
      | (Err e, c) => (Err e, c)
      | (Ok (TDelim delimiter), c) => skipDelimited n delimiter depth c
      | (Ok _, c) => (Ok tt, c)
      end
  end
with skipDelimited (n : nat) (delimiter : ascii) (depth : Z) (c : cursor) {struct n} : cres unit :=
  match n with
  | O => (Err OutOfFuel, c)
  | S n =>
      if (maxDepth <? depth)%Z then (Err ErrJSONDepth, c)
      else if bool_decide (delimiter = chr_lbrace) then skipObject n ∅ depth c
      else if bool_decide (delimiter = chr_lbracket) then skipArray n depth c
      else (Err ErrInvalidJSON, c)
  end
with skipObject (n : nat) (seen : gset string) (depth : Z) (c : cursor) {struct n} : cres unit :=
  match n with
  | O => (Err OutOfFuel, c)
  | S n =>
      if more c then
        match objectKey seen c with
        | (Err e, c) => (Err e, c)
        | (Ok (_, seen), c) =>
            match skipValue n (depth + 1) c with
            | (Err e, c) => (Err e, c)
            | (Ok _, c) => skipObject n seen depth c
            end
        end
      else expect_end chr_rbrace c
  end
with skipArray (n : nat) (depth : Z) (c : cursor) {struct n} : cres unit :=
  match n with
  | O => (Err OutOfFuel, c)
  | S n =>
      if more c then
        match skipValue n (depth + 1) c with
        | (Err e, c) => (Err e, c)
        | (Ok _, c) => skipArray n depth c
        end
      else expect_end chr_rbracket c
  end.

(** The fuel of every loop and of every skipped value. *)
Context (F : nat).

Definition stringValue (depth : Z) (c : cursor) : cres (string * bool) :=
  match token c with
  | (Err e, c) => (Err e, c)
  | (Ok (TStr value), c) => (Ok (value, true), c)
  | (Ok (TDelim delimiter), c) =>
      match skipDelimited F delimiter depth c with
      | (Err e, c) => (Err e, c)
      | (Ok _, c) => (Ok (""%string, false), c)
      end
  | (Ok _, c) => (Ok (""%string, false), c)
  end.

(** A parse function returns its Go results [(value, error)] and the cursor. *)
Abbreviation pres A := (A * option audit_err * cursor)%type.

Definition parseInstructions (c : cursor) : pres Field.t :=
  let field := Field.of_state "instructions" FieldInvalid in
  match token c with
  | (Err e, c) => (field, Some e, c)
  | (Ok (TStr value), c) => (newTextField "instructions" value, None, c)
  | (Ok (TDelim delimiter), c) =>
      match skipDelimited F delimiter 1 c with
      | (Err e, c) => (field, Some e, c)
      | (Ok _, c) => (field, None, c)
      end
  | (Ok _, c) => (field, None, c)
  end.

Record block_state : Type := mk_block {
  blockType : string; textValue : string;
  typeSeen : bool; typeValid : bool; textSeen : bool; textValid : bool }.

Fixpoint block_loop (n : nat) (seen : gset string) (b : block_state) (c : cursor) :
    result audit_err block_state * cursor :=
  match n with
  | O => (Err OutOfFuel, c)
  | S n =>
      if more c then
        match objectKey seen c with
        | (Err e, c) => (Err e, c)
        | (Ok (key, seen), c) =>
            if (key =? "type")%string then
              match stringValue 5 c with
              | (Err e, c) => (Err e, c)
              | (Ok (s, v), c) =>
                  block_loop n seen (mk_block s (textValue b) true v (textSeen b) (textValid b)) c
              end
            else if (key =? "text")%string then
              match stringValue 5 c with
              | (Err e, c) => (Err e, c)
              | (Ok (s, v), c) =>
                  block_loop n seen (mk_block (blockType b) s (typeSeen b) (typeValid b) true v) c
              end
            else
              match skipValue F 5 c with
              | (Err e, c) => (Err e, c)
              | (Ok _, c) => block_loop n seen b c
              end
        end
      else
        match expect_end chr_rbrace c with
        | (Err e, c) => (Err e, c)
        | (Ok _, c) => (Ok b, c)
        end
  end.

(** Returns [(text, recognized, valid)]. *)
Definition parseContentBlock (c : cursor) : cres (string * bool * bool) :=
  match token c with
  | (Err e, c) => (Err e, c)
  | (Ok (TDelim delimiter), c) =>
      if bool_decide (delimiter = chr_lbrace) then
        match block_loop F ∅ (mk_block "" "" false false false false) c with
        | (Err e, c) => (Err e, c)
        | (Ok b, c) =>
            if negb (typeSeen b) || negb (typeValid b) || negb (blockType b =? "input_text")%string
            then (Ok (""%string, false, false), c)
            else (Ok (textValue b, true, textSeen b && textValid b), c)
        end
      else
        match skipDelimited F delimiter 4 c with
        | (Err e, c) => (Err e, c)
        | (Ok _, c) => (Ok (""%string, false, false), c)
        end
  | (Ok _, c) => (Ok (""%string, false, false), c)
  end.

(** The blocks of a content array: the text so far and the [invalid] flag. *)
Fixpoint content_loop (n : nat) (content : string) (invalid : bool) (c : cursor) :
    cres (string * bool) :=
  match n with
  | O => (Err OutOfFuel, c)
  | S n =>
      if more c then
        match parseContentBlock c with
        | (Err e, c) => (Err e, c)
        | (Ok (text, recognized, valid), c) =>
            if negb recognized || negb valid then content_loop n content true c
            else content_loop n (content +:+ text) invalid c
        end
      else
        match expect_end chr_rbracket c with
        | (Err e, c) => (Err e, c)
        | (Ok _, c) => (Ok (content, invalid), c)
        end
  end.

Definition parseContent (c : cursor) : pres Field.t :=
  let result := Field.of_state "input1" FieldInvalid in
  match token c with
  | (Err e, c) => (result, Some e, c)
  | (Ok (TStr value), c) => (newTextField "input1" value, None, c)
  | (Ok (TDelim delimiter), c) =>
      if bool_decide (delimiter = chr_lbracket) then
        match content_loop F "" false c with
        | (Err e, c) => (result, Some e, c)
        | (Ok (content, invalid), c) =>
            if invalid then (result, None, c)
            else (newTextField "input1" content, None, c)
        end
      else
        match skipDelimited F delimiter 3 c with
        | (Err e, c) => (result, Some e, c)
        | (Ok _, c) => (result, None, c)
        end
  | (Ok _, c) => (result, None, c)
  end.

Fixpoint item_loop (n : nat) (seen : gset string) (contentSeen : bool) (result : Field.t)
    (c : cursor) : pres Field.t :=
  match n with
  | O => (result, Some OutOfFuel, c)
  | S n =>
      if more c then
        match objectKey seen c with
        | (Err e, c) => (result, Some e, c)
        | (Ok (key, seen), c) =>
            if (key =? "content")%string then
              match parseContent c with
              | (result, Some e, c) => (result, Some e, c)
              | (result, None, c) => item_loop n seen true result c
              end
            else
              match skipValue F 3 c with
              | (Err e, c) => (result, Some e, c)
              | (Ok _, c) => item_loop n seen contentSeen result c
              end
        end
      else
        match expect_end chr_rbrace c with
        | (Err e, c) => (result, Some e, c)
        | (Ok _, c) =>
            if contentSeen then (result, None, c)
            else (Field.set_state result FieldInvalid, None, c)
        end
  end.

Definition parseInputItem (c : cursor) : pres Field.t :=
  let result := Field.of_state "input1" FieldInvalid in
  match token c with
  | (Err e, c) => (result, Some e, c)
  | (Ok (TDelim delimiter), c) =>
      if bool_decide (delimiter = chr_lbrace) then item_loop F ∅ false result c
      else
        match skipDelimited F delimiter 2 c with
        | (Err e, c) => (result, Some e, c)
        | (Ok _, c) => (result, None, c)
        end
  | (Ok _, c) => (result, None, c)
  end.

Fixpoint input_loop (n : nat) (index : N) (result : Field.t) (c : cursor) : pres Field.t :=
  let bad := Field.of_state "input1" FieldInvalid in
  match n with
  | O => (bad, Some OutOfFuel, c)
  | S n =>
      if more c then
        if (index =? 1)%N then
          match parseInputItem c with
          | (_, Some e, c) => (bad, Some e, c)
          | (result, None, c) => input_loop n (index + 1) result c
          end
        else
          match skipValue F 2 c with
          | (Err e, c) => (bad, Some e, c)
          | (Ok _, c) => input_loop n (index + 1) result c
          end
      else
        match expect_end chr_rbracket c with
        | (Err e, c) => (bad, Some e, c)
        | (Ok _, c) => (result, None, c)
        end
  end.

Definition parseInput (c : cursor) : pres Field.t :=
  let result := Field.of_state "input1" FieldMissing in
  match token c with
  | (Err e, c) => (result, Some e, c)
  | (Ok (TDelim delimiter), c) =>
      if bool_decide (delimiter = chr_lbracket) then input_loop F 0 result c
      else
        match skipDelimited F delimiter 1 c with
        | (Err e, c) => (result, Some e, c)
        | (Ok _, c) => (Field.set_state result FieldInvalid, None, c)
        end
  | (Ok _, c) => (Field.set_state result FieldInvalid, None, c)
  end.

(** One member of the top-level object: the switch on its key. *)
Definition parse_member (parsed : Parsed.t) (key : string) (c : cursor) : pres Parsed.t :=
  if (key =? "instructions")%string then
    let '(f, err, c) := parseInstructions c in (Parsed.set_Instructions parsed f, err, c)
  else if (key =? "input")%string then
    let '(f, err, c) := parseInput c in (Parsed.set_Input1 parsed f, err, c)
  else if (key =? "model")%string then
    match stringValue 1 c with
    | (Err e, c) => (Parsed.set_Model parsed "", Some e, c)
    | (Ok (m, valid), c) =>
        if negb valid || (256 <? slen m)%Z || negb (validMetadataText m)
        then (Parsed.set_Model parsed "", None, c)
        else (Parsed.set_Model parsed m, None, c)
    end
  else
    match skipValue F 1 c with
    | (Err e, c) => (parsed, Some e, c)
    | (Ok _, c) => (parsed, None, c)
    end.

Fixpoint top_loop (n : nat) (seen : gset string) (parsed : Parsed.t) (c : cursor) :
    pres Parsed.t :=
  match n with
  | O => (parsed, Some OutOfFuel, c)
  | S n =>
      if more c then
        match objectKey seen c with
        | (Err e, c) => (parsed, Some (wrapJSONError (Some e)), c)
        | (Ok (key, seen), c) =>
            match parse_member parsed key c with
            | (parsed, Some e, c) => (parsed, Some (wrapJSONError (Some e)), c)
            | (parsed, None, c) => top_loop n seen parsed c
            end
        end
      else
        match expect_end chr_rbrace c with
        | (Err e, c) => (parsed, Some e, c)
        | (Ok _, c) => (parsed, None, c)
        end
  end.

Definition initial_parsed : Parsed.t :=
  Parsed.mk (Field.of_state "instructions" FieldMissing)
    (Field.of_state "input1" FieldMissing) (Field.of_state "" FieldUnset) "" "".

(** [ParseResponses] from its first token on. *)
Definition parse_document (c : cursor) : Parsed.t * option audit_err :=
  let parsed := initial_parsed in
  match token c with
  | (Err e, _) => (parsed, Some (wrapJSONError (Some e)))
  | (Ok start, c) =>
      if negb (bool_decide (start = TDelim chr_lbrace))
      then (parsed, Some (wrapJSONError None))
      else
        match top_loop F ∅ parsed c with
        | (parsed, Some e, _) => (parsed, Some e)
        | (parsed, None, c) =>
            if src_at_eof (decoder c) then
              let '(name, f) := SelectField parsed in
              (Parsed.set_Selected parsed name f, None)
            else (parsed, Some (wrapJSONError (Some DecoderError)))
        end
  end.
End parser.

Arguments cursor D : clear implicits.
Arguments mk_cursor {D} _ _.
Arguments decoder {D} _.
Arguments tokens {D} _.

Definition fuel_for (size : nat) : nat := 3 * size + 4.

Definition ParseResponses (sha256_hex : string → string) (ctx : N → option audit_err)
    (body : bytes) (maxDepth : Z) : Parsed.t * option audit_err :=
  if bool_decide (body = []) || negb (valid_utf8 body)
  then (initial_parsed, Some ErrInvalidJSON)
  else
    let maxDepth := if (maxDepth <=? 0)%Z then DefaultJSONDepth else maxDepth in
    parse_document sha256_hex ctx maxDepth (fuel_for (length body))
      (mk_cursor (Decoder.new body) 0).
