(* ===== verification/ParserFacts.v ===== *)
(** * Facts about the request parser: termination

    Every parsing function consumes at least one token when it succeeds and
    never runs out of the fuel it is given. *)

From S2P Require Export Parser.

(** Unfolding equations of the mutual fixpoints. *)
Section equations.
Context {D : Type} `{TokenSource D} (ctx : N → option audit_err) (maxDepth : Z).

Lemma skipValue_S n depth (c : cursor D) :
  skipValue ctx maxDepth (S n) depth c =
    if (maxDepth <? depth)%Z then (Err ErrJSONDepth, c) else
    match token ctx c with
    | (Err e, c) => (Err e, c)
    | (Ok (TDelim delimiter), c) => skipDelimited ctx maxDepth n delimiter depth c
    | (Ok _, c) => (Ok tt, c)
    end.
Proof. done. Qed.

Lemma skipDelimited_S n delimiter depth (c : cursor D) :
  skipDelimited ctx maxDepth (S n) delimiter depth c =
    if (maxDepth <? depth)%Z then (Err ErrJSONDepth, c)
    else if bool_decide (delimiter = chr_lbrace) then skipObject ctx maxDepth n ∅ depth c
    else if bool_decide (delimiter = chr_lbracket) then skipArray ctx maxDepth n depth c
    else (Err ErrInvalidJSON, c).
Proof. done. Qed.

Lemma skipObject_S n seen depth (c : cursor D) :
  skipObject ctx maxDepth (S n) seen depth c =
    if more c then
      match objectKey ctx seen c with
      | (Err e, c) => (Err e, c)
      | (Ok (_, seen), c) =>
          match skipValue ctx maxDepth n (depth + 1) c with
          | (Err e, c) => (Err e, c)
          | (Ok _, c) => skipObject ctx maxDepth n seen depth c
          end
      end
    else expect_end ctx chr_rbrace c.
Proof. done. Qed.

Lemma skipArray_S n depth (c : cursor D) :
  skipArray ctx maxDepth (S n) depth c =
    if more c then
      match skipValue ctx maxDepth n (depth + 1) c with
      | (Err e, c) => (Err e, c)
      | (Ok _, c) => skipArray ctx maxDepth n depth c
      end
    else expect_end ctx chr_rbracket c.
Proof. done. Qed.
End equations.

Section progress.
Context {D : Type} `{TokenSourceLaws D}.
Context (sha256_hex : string → string).
Context (ctx : N → option audit_err) (maxDepth : Z).
Context (ctx_ok : ∀ k, ctx k ≠ Some OutOfFuel).

Abbreviation size := (cursor_size (D:=D)).
Abbreviation cres A := (result audit_err A * cursor D)%type.

(** On success some input was consumed; an error is a real one. *)
Definition progress {A} (c0 : cursor D) (r : cres A) : Prop :=
  match r with
  | (Ok _, c) => size c < size c0
  | (Err e, c) => e ≠ OutOfFuel ∧ size c ≤ size c0
  end.

Definition as_cres {A} (p : A * option audit_err * cursor D) : cres A :=
  match p with
  | (v, None, c) => (Ok v, c)
  | (_, Some e, c) => (Err e, c)
  end.

Lemma token_progress c : progress c (token ctx c).
Proof.
  unfold token, progress, cursor_size. pose proof (ctx_ok (tokens c + 1)).
  destruct (ctx (tokens c + 1)) as [e|]; [split; [congruence|simpl; lia]|].
  destruct (src_token (decoder c)) as [[t d]|e] eqn:E; simpl.
  - by apply src_token_size in E.
  - split; [done|lia].
Qed.

Lemma wrapJSONError_fuel e : e ≠ OutOfFuel → wrapJSONError (Some e) ≠ OutOfFuel.
Proof. by destruct e. Qed.

Ltac finish :=
  repeat match goal with H : _ ∧ _ |- _ => destruct H end;
  simpl in *; try (split; [auto using wrapJSONError_fuel; congruence|]); lia.

Lemma objectKey_progress seen c : progress c (objectKey ctx seen c).
Proof.
  unfold objectKey. pose proof (token_progress c) as Ht. unfold progress in *.
  destruct (token ctx c) as [[[]|] c']; try case_bool_decide; try finish; done.
Qed.

Lemma expect_end_progress d c : progress c (expect_end ctx d c).
Proof.
  unfold expect_end. pose proof (token_progress c) as Ht. unfold progress in *.
  destruct (token ctx c) as [[t|e] c']; [case_bool_decide; finish|].
  destruct Ht. split; [by apply wrapJSONError_fuel|lia].
Qed.

Lemma progress_weaken {A} c c0 (r : cres A) :
  size c < size c0 → progress c r → progress c0 r.
Proof. unfold progress. destruct r as [[]]; [lia|intros ? []; split; [done|lia]]. Qed.

Lemma skip_progress n :
  (∀ depth c, 3 * size c + 1 ≤ n → progress c (skipValue ctx maxDepth n depth c)) ∧
  (∀ d depth c, 3 * size c + 3 ≤ n → progress c (skipDelimited ctx maxDepth n d depth c)) ∧
  (∀ seen depth c, 3 * size c + 2 ≤ n → progress c (skipObject ctx maxDepth n seen depth c)) ∧
  (∀ depth c, 3 * size c + 2 ≤ n → progress c (skipArray ctx maxDepth n depth c)).
Proof.
  induction n as [|n (IHv & IHd & IHo & IHa)]; [repeat split; intros; lia|].
  repeat split; intros; simpl.
  - destruct (_ <? _)%Z; [by split|].
    pose proof (token_progress c) as Ht.
    destruct (token ctx c) as [[[dl|s|s|b|]|e] c']; try done.
    apply (progress_weaken c'); [done|]. apply IHd. unfold progress in Ht. lia.
  - destruct (_ <? _)%Z; [by split|].
    repeat case_bool_decide; [apply IHo; lia|apply IHa; lia|by split].
  - destruct (more c); [|apply expect_end_progress].
    pose proof (objectKey_progress seen c) as Hk.
    destruct (objectKey ctx seen c) as [[[k seen']|e] c1]; [|done]. simpl in Hk.
    assert (progress c1 (skipValue ctx maxDepth n (depth + 1) c1)) as Hv by (apply IHv; lia).
    destruct (skipValue _ _ _ _ _) as [[[]|e] c2]; simpl in Hv; [|split; [tauto|lia]].
    apply (progress_weaken c2); [lia|]. apply IHo. lia.
  - destruct (more c); [|apply expect_end_progress].
    assert (progress c (skipValue ctx maxDepth n (depth + 1) c)) as Hv by (apply IHv; lia).
    destruct (skipValue _ _ _ _ _) as [[[]|e] c2]; [|done]. simpl in Hv.
    apply (progress_weaken c2); [lia|]. apply IHa. lia.
Qed.

Context (F : nat).
Abbreviation enough c := (3 * size c + 3 ≤ F).

Lemma skipValue_progress depth c :
  enough c → progress c (skipValue ctx maxDepth F depth c).
Proof. intros. apply skip_progress. lia. Qed.
Lemma skipDelimited_progress d depth c :
  enough c → progress c (skipDelimited ctx maxDepth F d depth c).
Proof. intros. by apply skip_progress. Qed.

(** Close a goal about a call whose continuation skips a delimited value. *)
Ltac skip_case c' :=
  match goal with
  | |- context [skipDelimited ctx maxDepth F ?d ?k c'] =>
      let Hd := fresh "Hd" in
      assert (progress c' (skipDelimited ctx maxDepth F d k c')) as Hd
        by (apply skipDelimited_progress; simpl in *; lia);
      destruct (skipDelimited ctx maxDepth F d k c') as [[[]|] ?]; simpl in *;
      [lia|split; [tauto|lia]]
  end.

Lemma stringValue_progress depth c :
  enough c → progress c (stringValue ctx maxDepth F depth c).
Proof.
  intros HF. unfold stringValue. pose proof (token_progress c) as Ht.
  destruct (token ctx c) as [[[dl|s|s|b|]|e] c']; try done. skip_case c'.
Qed.

Lemma parseInstructions_progress c :
  enough c → progress c (as_cres (parseInstructions sha256_hex ctx maxDepth F c)).
Proof.
  intros HF. unfold parseInstructions. pose proof (token_progress c) as Ht.
  destruct (token ctx c) as [[[dl|s|s|b|]|e] c']; try done. skip_case c'.
Qed.

Lemma block_loop_progress n seen b c :
  enough c → size c < n → progress c (block_loop ctx maxDepth F n seen b c).
Proof.
  revert seen b c. induction n as [|n IH]; intros seen b c HF Hn; simpl; [lia|].
  destruct (more c).
  - pose proof (objectKey_progress seen c) as Hk.
    destruct (objectKey ctx seen c) as [[[key seen']|e] c1]; [|done]. simpl in Hk.
    assert (∀ k, progress c1 (stringValue ctx maxDepth F k c1)) as Hs
      by (intros; apply stringValue_progress; lia).
    assert (∀ k, progress c1 (skipValue ctx maxDepth F k c1)) as Hv
      by (intros; apply skipValue_progress; lia).
    specialize (Hs 5%Z). specialize (Hv 5%Z).
    destruct (key =? _)%string; [|destruct (key =? _)%string].
    1-2: destruct (stringValue _ _ _ _ _) as [[[s v]|e] c2]; simpl in Hs;
         [apply (progress_weaken c2); [lia|apply IH; lia]|split; [tauto|lia]].
    destruct (skipValue _ _ _ _ _) as [[[]|e] c2]; simpl in Hv;
      [apply (progress_weaken c2); [lia|apply IH; lia]|split; [tauto|lia]].
  - pose proof (expect_end_progress chr_rbrace c) as He.
    by destruct (expect_end _ _ _) as [[[]|] c2].
Qed.

Lemma parseContentBlock_progress c :
  enough c → progress c (parseContentBlock ctx maxDepth F c).
Proof.
  intros HF. unfold parseContentBlock. pose proof (token_progress c) as Ht.
  destruct (token ctx c) as [[[dl|s|s|b|]|e] c']; try done. simpl in Ht.
  case_bool_decide; [|skip_case c'].
  pose proof (block_loop_progress F ∅ (mk_block "" "" false false false false) c') as Hb.
  destruct (block_loop _ _ _ _ _ _ _) as [[b|e] c2]; simpl in Hb.
  - destruct (_ || _); simpl; lia.
  - split; [apply Hb; lia|]. destruct Hb; lia.
Qed.

Lemma content_loop_progress n s inv c :
  enough c → size c < n → progress c (content_loop ctx maxDepth F n s inv c).
Proof.
  revert s inv c. induction n as [|n IH]; intros s inv c HF Hn; simpl; [lia|].
  destruct (more c).
  - pose proof (parseContentBlock_progress c HF) as Hb.
    destruct (parseContentBlock _ _ _ _) as [[[[t r] v]|e] c1]; [|done]. simpl in Hb.
    destruct (_ || _); (apply (progress_weaken c1); [lia|apply IH; lia]).
  - pose proof (expect_end_progress chr_rbracket c) as He.
    by destruct (expect_end _ _ _) as [[[]|] c2].
Qed.

Lemma parseContent_progress c :
  enough c → progress c (as_cres (parseContent sha256_hex ctx maxDepth F c)).
Proof.
  intros HF. unfold parseContent. pose proof (token_progress c) as Ht.
  destruct (token ctx c) as [[[dl|s|s|b|]|e] c']; try done. simpl in Ht.
  case_bool_decide; [|skip_case c'].
  pose proof (content_loop_progress F "" false c') as Hb.
  destruct (content_loop _ _ _ _ _ _ _) as [[[t inv]|e] c2]; simpl in Hb.
  - destruct inv; simpl; lia.
  - split; [apply Hb; lia|]. destruct Hb; lia.
Qed.

Lemma item_loop_progress n seen cs r c :
  enough c → size c < n →
  progress c (as_cres (item_loop sha256_hex ctx maxDepth F n seen cs r c)).
Proof.
  revert seen cs r c. induction n as [|n IH]; intros seen cs r c HF Hn; simpl; [lia|].
  destruct (more c).
  - pose proof (objectKey_progress seen c) as Hk.
    destruct (objectKey ctx seen c) as [[[key seen']|e] c1]; [|done]. simpl in Hk.
    destruct (key =? _)%string.
    + pose proof (parseContent_progress c1) as Hb.
      destruct (parseContent _ _ _ _ _) as [[f [e|]] c2]; simpl in Hb.
      * split; [apply Hb; lia|]. destruct Hb; lia.
      * apply (progress_weaken c2); [lia|apply IH; lia].
    + pose proof (skipValue_progress 3 c1) as Hb.
      destruct (skipValue _ _ _ _ _) as [[[]|e] c2]; simpl in Hb.
      * apply (progress_weaken c2); [lia|apply IH; lia].
      * split; [apply Hb; lia|]. destruct Hb; lia.
  - pose proof (expect_end_progress chr_rbrace c) as He.
    destruct (expect_end _ _ _) as [[[]|] c2]; [|done]. by destruct cs.
Qed.

Lemma parseInputItem_progress c :
  enough c → progress c (as_cres (parseInputItem sha256_hex ctx maxDepth F c)).
Proof.
  intros HF. unfold parseInputItem. pose proof (token_progress c) as Ht.
  destruct (token ctx c) as [[[dl|s|s|b|]|e] c']; try done. simpl in Ht.
  case_bool_decide; [|skip_case c'].
  apply (progress_weaken c'); [lia|apply item_loop_progress; lia].
Qed.

Lemma input_loop_progress n i r c :
  enough c → size c < n →
  progress c (as_cres (input_loop sha256_hex ctx maxDepth F n i r c)).
Proof.
  revert i r c. induction n as [|n IH]; intros i r c HF Hn; simpl; [lia|].
  destruct (more c).
  - destruct (i =? 1)%N.
    + pose proof (parseInputItem_progress c HF) as Hb.
      destruct (parseInputItem _ _ _ _ _) as [[f [e|]] c2]; [done|]. simpl in Hb.
      apply (progress_weaken c2); [lia|apply IH; lia].
    + pose proof (skipValue_progress 2 c HF) as Hb.
      destruct (skipValue _ _ _ _ _) as [[[]|e] c2]; [|done]. simpl in Hb.
      apply (progress_weaken c2); [lia|apply IH; lia].
  - pose proof (expect_end_progress chr_rbracket c) as He.
    by destruct (expect_end _ _ _) as [[[]|] c2].
Qed.

Lemma parseInput_progress c :
  enough c → progress c (as_cres (parseInput sha256_hex ctx maxDepth F c)).
Proof.
  intros HF. unfold parseInput. pose proof (token_progress c) as Ht.
  destruct (token ctx c) as [[[dl|s|s|b|]|e] c']; try done. simpl in Ht.
  case_bool_decide; [|skip_case c'].
  apply (progress_weaken c'); [lia|apply input_loop_progress; lia].
Qed.

Lemma parse_member_progress p key c :
  enough c → progress c (as_cres (parse_member sha256_hex ctx maxDepth F p key c)).
Proof.
  intros HF. unfold parse_member.
  destruct (key =? _)%string; [|destruct (key =? _)%string; [|destruct (key =? _)%string]].
  - pose proof (parseInstructions_progress c HF) as Hb.
    by destruct (parseInstructions _ _ _ _ _) as [[f [e|]] c2].
  - pose proof (parseInput_progress c HF) as Hb.
    by destruct (parseInput _ _ _ _ _) as [[f [e|]] c2].
  - pose proof (stringValue_progress 1 c HF) as Hb.
    destruct (stringValue _ _ _ _ _) as [[[m v]|e] c2]; [|done].
    by destruct (_ || _).
  - pose proof (skipValue_progress 1 c HF) as Hb.
    by destruct (skipValue _ _ _ _ _) as [[[]|e] c2].
Qed.

Lemma top_loop_progress n seen p c :
  enough c → size c < n →
  progress c (as_cres (top_loop sha256_hex ctx maxDepth F n seen p c)).
Proof.
  revert seen p c. induction n as [|n IH]; intros seen p c HF Hn; simpl; [lia|].
  destruct (more c).
  - pose proof (objectKey_progress seen c) as Hk.
    destruct (objectKey ctx seen c) as [[[key seen']|e] c1]; simpl in Hk.
    + pose proof (parse_member_progress p key c1) as Hb.
      destruct (parse_member _ _ _ _ _ _ _) as [[p' [e|]] c2]; simpl in Hb.
      * split; [apply wrapJSONError_fuel, Hb; lia|]. destruct Hb; lia.
      * apply (progress_weaken c2); [lia|apply IH; lia].
    + destruct Hk. split; [by apply wrapJSONError_fuel|simpl; lia].
  - pose proof (expect_end_progress chr_rbrace c) as He.
    by destruct (expect_end _ _ _) as [[[]|] c2].
Qed.

Lemma parse_document_fuel c :
  enough c → (parse_document sha256_hex ctx maxDepth F c).2 ≠ Some OutOfFuel.
Proof.
  intros HF. unfold parse_document. pose proof (token_progress c) as Ht.
  destruct (token ctx c) as [[t|e] c1]; simpl in Ht.
  - destruct (negb _); [done|].
    pose proof (top_loop_progress F ∅ initial_parsed c1) as Hl.
    destruct (top_loop _ _ _ _ _ _ _ _) as [[p [e|]] c2]; simpl in Hl.
    + simpl. intros [= ->]. destruct Hl; [lia|lia|done].
    + destruct (src_at_eof _); [|done]. by destruct (SelectField p).
  - simpl. intros [= He]. apply wrapJSONError_fuel in He; tauto.
Qed.
End progress.
