(* ===== verification/ParserSpec.v ===== *)
(** * What the request parser computes on a JSON tree

    The reference definition of [ParseResponses] reads the fields of a JSON
    tree by key lookup: no tokens, no order of traversal, no state.  The
    streaming parser, run on the tokens of the tree, agrees with it, and
    fails exactly when an object of the tree repeats a key or a value is
    nested deeper than the limit. *)

From S2P Require Export ParserFacts.

Fixpoint assoc (key : string) (l : list (string * json)) : option json :=
  match l with
  | [] => None
  | (k, v) :: l => if (k =? key)%string then Some v else assoc key l
  end.

(** No object of the value repeats a key, and the value and its parts, which
    start at depth [d], are not nested below [maxDepth]. *)
Fixpoint value_ok (maxDepth d : Z) (v : json) : bool :=
  (d <=? maxDepth)%Z &&
  match v with
  | JArr l => forallb (value_ok maxDepth (d + 1)) l
  | JObj l => nodupb (map fst l) && forallb (λ kv, value_ok maxDepth (d + 1) kv.2) l
  | _ => true
  end.

Section reference.
Context (sha256_hex : string → string).

Definition instructions_spec (v : json) : Field.t :=
  match v with
  | JStr s => newTextField sha256_hex "instructions" s
  | _ => Field.of_state "instructions" FieldInvalid
  end.

(** The text of an [input_text] block. *)
Definition block_spec (v : json) : option string :=
  match v with
  | JObj l =>
      match assoc "type" l, assoc "text" l with
      | Some (JStr ty), Some (JStr tx) =>
          if (ty =? "input_text")%string then Some tx else None
      | _, _ => None
      end
  | _ => None
  end.

Definition input1_invalid : Field.t := Field.of_state "input1" FieldInvalid.

Definition content_spec (v : json) : Field.t :=
  match v with
  | JStr s => newTextField sha256_hex "input1" s
  | JArr l =>
      match mapM block_spec l with
      | Some texts => newTextField sha256_hex "input1" (foldr String.append "" texts)
      | None => input1_invalid
      end
  | _ => input1_invalid
  end.

Definition item_spec (v : json) : Field.t :=
  match v with
  | JObj l => match assoc "content" l with Some c => content_spec c | None => input1_invalid end
  | _ => input1_invalid
  end.

Definition input_spec (v : json) : Field.t :=
  match v with
  | JArr l =>
      match l !! 1 with
      | Some it => item_spec it
      | None => Field.of_state "input1" FieldMissing
      end
  | _ => input1_invalid
  end.

Definition model_spec (v : json) : string :=
  match v with
  | JStr m => if (slen m <=? 256)%Z && validMetadataText m then m else ""
  | _ => ""
  end.

Definition from_option_json {A} (f : json → A) (d : A) (o : option json) : A :=
  match o with Some v => f v | None => d end.

Definition fields_spec (l : list (string * json)) : Parsed.t :=
  Parsed.mk
    (from_option_json instructions_spec (Field.of_state "instructions" FieldMissing)
       (assoc "instructions" l))
    (from_option_json input_spec (Field.of_state "input1" FieldMissing) (assoc "input" l))
    (Field.of_state "" FieldUnset) ""
    (from_option_json model_spec "" (assoc "model" l)).

Definition parse_spec (l : list (string * json)) : Parsed.t :=
  let p := fields_spec l in
  let '(name, f) := SelectField p in Parsed.set_Selected p name f.
End reference.

(** Keys not seen before and pairwise distinct. *)
Fixpoint fresh_keys (seen : gset string) (l : list string) : bool :=
  match l with
  | [] => true
  | x :: l => negb (bool_decide (x ∈ seen)) && fresh_keys ({[x]} ∪ seen) l
  end.

Lemma fresh_keys_spec seen l :
  fresh_keys seen l = true ↔ NoDup l ∧ ∀ x, x ∈ l → x ∉ seen.
Proof.
  revert seen. induction l as [|x l IH]; intros seen; simpl.
  - split; [|done]. intros _. split; [constructor|by intros ? ?%elem_of_nil].
  - rewrite andb_true_iff, negb_true_iff, bool_decide_eq_false, IH, NoDup_cons. set_solver.
Qed.

Lemma fresh_keys_nodupb l : fresh_keys ∅ l = nodupb l.
Proof.
  apply eq_true_iff_eq. rewrite fresh_keys_spec, nodupb_NoDup. set_solver.
Qed.

Lemma fresh_assoc key seen l :
  fresh_keys ({[key]} ∪ seen) (map fst l) = true → assoc key l = None.
Proof.
  rewrite fresh_keys_spec. intros [_ H].
  induction l as [|[k v] l IH]; simpl in *; [done|].
  destruct (String.eqb_spec k key) as [->|]; [set_solver|]. apply IH. set_solver.
Qed.

(** ** The streaming parser on token lists *)

Section refinement.
Context (sha256_hex : string → string) (maxDepth : Z) (Hmax : (5 ≤ maxDepth)%Z).
Context (F : nat).

Abbreviation ctx0 := (λ _ : N, @None audit_err).
Abbreviation C l k := (mk_cursor (TokenList l) k).
Abbreviation cres A := (result audit_err A * cursor token_list)%type.

(** The call succeeded with [a] and consumed its tokens, or it failed. *)
Definition outcome {A} (r : cres A) (ok : bool) (a : A) (rest : list JsonStream.token) : Prop :=
  if ok then ∃ k, r = (Ok a, C rest k) else ∃ e c, r = (Err e, c).

(** The call has returned: read off its outcome. *)
Ltac done_outcome := solve [unfold outcome; simpl; eauto].

Lemma token_cons t l k : token ctx0 (C (t :: l) k) = (Ok t, C l (k + 1)).
Proof. done. Qed.

Lemma more_rbrace l k : more (C (TDelim chr_rbrace :: l) k) = false.
Proof. done. Qed.
Lemma more_rbracket l k : more (C (TDelim chr_rbracket :: l) k) = false.
Proof. done. Qed.

Lemma more_value v l k : more (C (tokens_of v ++ l) k) = true.
Proof.
  destruct (tokens_of_head v) as (t & l' & -> & Ht). unfold more. simpl. by rewrite Ht.
Qed.

Lemma more_key s l k : more (C (TStr s :: l) k) = true.
Proof. done. Qed.

Lemma objectKey_cons seen s l k :
  objectKey ctx0 seen (C (TStr s :: l) k) =
    if bool_decide (s ∈ seen) then (Err (ErrDuplicateKey s), C l (k + 1))
    else (Ok (s, {[s]} ∪ seen), C l (k + 1)).
Proof. done. Qed.

Lemma expect_end_cons d l k : expect_end ctx0 d (C (TDelim d :: l) k) = (Ok tt, C l (k + 1)).
Proof. unfold expect_end. rewrite token_cons. by rewrite bool_decide_true. Qed.

Abbreviation member_tokens l := (concat (map (λ kv, TStr kv.1 :: tokens_of kv.2) l)).

Lemma tokens_length_pos v : 0 < length (tokens_of v).
Proof. by destruct (tokens_of_head v) as (t & l & -> & _); simpl; lia. Qed.

(** *** Skipped values *)

Definition skips_value (v : json) : Prop := ∀ n d rest k,
  3 * length (tokens_of v ++ rest) + 1 ≤ n →
  outcome (skipValue ctx0 maxDepth n d (C (tokens_of v ++ rest) k)) (value_ok maxDepth d v) tt rest.

Lemma skipArray_spec l : Forall skips_value l → ∀ n d rest k,
  3 * length (concat (map tokens_of l) ++ TDelim chr_rbracket :: rest) + 2 ≤ n →
  outcome (skipArray ctx0 maxDepth n d (C (concat (map tokens_of l) ++ TDelim chr_rbracket :: rest) k))
    (forallb (value_ok maxDepth (d + 1)) l) tt rest.
Proof.
  induction 1 as [|v l Hv _ IH]; intros n d rest k Hn; (destruct n as [|n]; [lia|]).
  - simpl. rewrite expect_end_cons. done_outcome.
  - cbn [map concat forallb] in *. rewrite <- app_assoc in *. rewrite skipArray_S.
    rewrite more_value.
    specialize (Hv n (d + 1)%Z (concat (map tokens_of l) ++ TDelim chr_rbracket :: rest) k
                   ltac:(lia)).
    destruct (value_ok maxDepth (d + 1) v); simpl andb.
    + destruct Hv as [k' ->]. apply IH.
      rewrite length_app in Hn. pose proof (tokens_length_pos v). lia.
    + destruct Hv as (e & c & ->). done_outcome.
Qed.

Lemma skipObject_spec l : Forall (λ kv, skips_value kv.2) l → ∀ n seen d rest k,
  3 * length (member_tokens l ++ TDelim chr_rbrace :: rest) + 2 ≤ n →
  outcome (skipObject ctx0 maxDepth n seen d (C (member_tokens l ++ TDelim chr_rbrace :: rest) k))
    (fresh_keys seen (map fst l) && forallb (λ kv, value_ok maxDepth (d + 1) kv.2) l) tt rest.
Proof.
  induction 1 as [|[key v] l Hv _ IH]; intros n seen d rest k Hn; (destruct n as [|n]; [lia|]).
  - simpl. rewrite expect_end_cons. done_outcome.
  - cbn [map concat forallb fst snd fresh_keys app] in *. rewrite <- app_assoc in *.
    rewrite skipObject_S. rewrite more_key, objectKey_cons.
    case_bool_decide; [done_outcome|]. simpl negb.
    simpl length in Hn.
    specialize (Hv n (d + 1)%Z (member_tokens l ++ TDelim chr_rbrace :: rest) (k + 1)%N
                   ltac:(lia)).
    destruct (value_ok maxDepth (d + 1) v); rewrite ?andb_true_l, ?andb_false_l, ?andb_false_r.
    + destruct Hv as [k' ->]. apply IH. rewrite length_app in Hn. lia.
    + destruct Hv as (e & c & ->). done_outcome.
Qed.

Lemma skipDelimited_array_spec l : Forall skips_value l → ∀ n d rest k,
  3 * length (concat (map tokens_of l) ++ TDelim chr_rbracket :: rest) + 3 ≤ n →
  outcome (skipDelimited ctx0 maxDepth n chr_lbracket d
             (C (concat (map tokens_of l) ++ TDelim chr_rbracket :: rest) k))
    ((d <=? maxDepth)%Z && forallb (value_ok maxDepth (d + 1)) l) tt rest.
Proof.
  intros Hl n d rest k Hn. destruct n as [|n]; [lia|]. rewrite skipDelimited_S.
  destruct (maxDepth <? d)%Z eqn:Hd.
  - replace (d <=? maxDepth)%Z with false by lia. done_outcome.
  - replace (d <=? maxDepth)%Z with true by lia. simpl.
    apply skipArray_spec; [done|lia].
Qed.

Lemma skipDelimited_object_spec l : Forall (λ kv, skips_value kv.2) l → ∀ n d rest k,
  3 * length (member_tokens l ++ TDelim chr_rbrace :: rest) + 3 ≤ n →
  outcome (skipDelimited ctx0 maxDepth n chr_lbrace d
             (C (member_tokens l ++ TDelim chr_rbrace :: rest) k))
    ((d <=? maxDepth)%Z &&
     (nodupb (map fst l) && forallb (λ kv, value_ok maxDepth (d + 1) kv.2) l)) tt rest.
Proof.
  intros Hl n d rest k Hn. destruct n as [|n]; [lia|]. rewrite skipDelimited_S.
  destruct (maxDepth <? d)%Z eqn:Hd.
  - replace (d <=? maxDepth)%Z with false by lia. done_outcome.
  - replace (d <=? maxDepth)%Z with true by lia. simpl. rewrite <- fresh_keys_nodupb.
    apply skipObject_spec; [done|lia].
Qed.

Lemma skipValue_spec v : skips_value v.
Proof.
  induction v as [|b|s|s|l IH|l IH] using json_nested_ind; intros n d rest k Hn;
    (destruct n as [|n]; [lia|]); cbn [tokens_of app] in *; rewrite skipValue_S;
    cbn [value_ok]; rewrite ?andb_true_r, token_cons;
    destruct (maxDepth <? d)%Z eqn:Hd;
    try (replace (d <=? maxDepth)%Z with false by lia; done_outcome);
    try (replace (d <=? maxDepth)%Z with true by lia; done_outcome).
  - rewrite <- app_assoc in *. simpl app in *. simpl length in Hn.
    apply skipDelimited_array_spec; [done|lia].
  - rewrite <- app_assoc in *. simpl app in *. simpl length in Hn.
    apply skipDelimited_object_spec; [done|lia].
Qed.
(** *** Values read by the parser *)

Abbreviation fits l := (3 * length l + 3 ≤ F).

(** A composite value, after its opening delimiter. *)
Lemma array_spec l d rest k :
  fits (tokens_of (JArr l) ++ rest) →
  outcome (skipDelimited ctx0 maxDepth F chr_lbracket d
             (C (concat (map tokens_of l) ++ TDelim chr_rbracket :: rest) k))
    (value_ok maxDepth d (JArr l)) tt rest.
Proof.
  cbn [tokens_of app]. rewrite <- app_assoc. intros HF. simpl in HF.
  apply skipDelimited_array_spec; [|simpl; lia].
  apply Forall_forall. intros v _. apply skipValue_spec.
Qed.

Lemma object_spec l d rest k :
  fits (tokens_of (JObj l) ++ rest) →
  outcome (skipDelimited ctx0 maxDepth F chr_lbrace d
             (C (member_tokens l ++ TDelim chr_rbrace :: rest) k))
    (value_ok maxDepth d (JObj l)) tt rest.
Proof.
  cbn [tokens_of app]. rewrite <- app_assoc. intros HF. simpl in HF.
  apply skipDelimited_object_spec; [|simpl; lia].
  apply Forall_forall. intros kv _. apply skipValue_spec.
Qed.

Lemma array_tokens l rest :
  tokens_of (JArr l) ++ rest =
    TDelim chr_lbracket :: concat (map tokens_of l) ++ TDelim chr_rbracket :: rest.
Proof. cbn [tokens_of app]. by rewrite <- app_assoc. Qed.

Lemma object_tokens l rest :
  tokens_of (JObj l) ++ rest =
    TDelim chr_lbrace :: member_tokens l ++ TDelim chr_rbrace :: rest.
Proof. cbn [tokens_of app]. by rewrite <- app_assoc. Qed.

(** Skip the rest of an array or object the parser does not want. *)
Ltac skip_composite :=
  match goal with
  | HF : fits (tokens_of (JArr ?l) ++ ?rest) |- context [skipDelimited _ _ _ _ ?d (C _ ?k)] =>
      let Hs := fresh "Hs" in pose proof (array_spec l d rest k HF) as Hs;
      unfold outcome in Hs; destruct (value_ok maxDepth d (JArr l));
      [destruct Hs as [? ->]|destruct Hs as (? & ? & ->)]; done_outcome
  | HF : fits (tokens_of (JObj ?l) ++ ?rest) |- context [skipDelimited _ _ _ _ ?d (C _ ?k)] =>
      let Hs := fresh "Hs" in pose proof (object_spec l d rest k HF) as Hs;
      unfold outcome in Hs; destruct (value_ok maxDepth d (JObj l));
      [destruct Hs as [? ->]|destruct Hs as (? & ? & ->)]; done_outcome
  end.

(** A scalar at a depth of at most five is within the limit. *)
Ltac scalar d :=
  cbn [tokens_of app]; rewrite token_cons; cbn [value_ok]; rewrite ?andb_true_r;
  replace (d <=? maxDepth)%Z with true by lia; done_outcome.

Definition string_spec (v : json) : string * bool :=
  match v with JStr s => (s, true) | _ => (""%string, false) end.

Lemma stringValue_spec v d rest k :
  (d ≤ 5)%Z → fits (tokens_of v ++ rest) →
  outcome (stringValue ctx0 maxDepth F d (C (tokens_of v ++ rest) k))
    (value_ok maxDepth d v) (string_spec v) rest.
Proof.
  intros Hd HF. unfold stringValue.
  destruct v as [|b|s|s|l|l]; try scalar d;
    rewrite ?array_tokens, ?object_tokens, token_cons; skip_composite.
Qed.

Lemma parseInstructions_spec v rest k :
  fits (tokens_of v ++ rest) →
  outcome (as_cres (parseInstructions sha256_hex ctx0 maxDepth F (C (tokens_of v ++ rest) k)))
    (value_ok maxDepth 1 v) (instructions_spec sha256_hex v) rest.
Proof.
  intros HF. unfold parseInstructions.
  destruct v as [|b|s|s|l|l]; try scalar 1%Z;
    rewrite ?array_tokens, ?object_tokens, token_cons; skip_composite.
Qed.

Lemma skip_ok v d rest k :
  fits (tokens_of v ++ rest) →
  outcome (skipValue ctx0 maxDepth F d (C (tokens_of v ++ rest) k))
    (value_ok maxDepth d v) tt rest.
Proof. intros HF. apply skipValue_spec. lia. Qed.

(** *** Content blocks *)

Definition block_step (b : block_state) (kv : string * json) : block_state :=
  let '(s, v) := string_spec kv.2 in
  if (kv.1 =? "type")%string then mk_block s (textValue b) true v (textSeen b) (textValid b)
  else if (kv.1 =? "text")%string then mk_block (blockType b) s (typeSeen b) (typeValid b) true v
  else b.

Lemma block_loop_spec l n seen b rest k :
  fits (member_tokens l ++ TDelim chr_rbrace :: rest) → length l < n →
  outcome (block_loop ctx0 maxDepth F n seen b (C (member_tokens l ++ TDelim chr_rbrace :: rest) k))
    (fresh_keys seen (map fst l) && forallb (λ kv, value_ok maxDepth 5 kv.2) l)
    (fold_left block_step l b) rest.
Proof.
  revert n seen b k. induction l as [|[key v] l IH]; intros n seen b k HF Hn;
    (destruct n as [|n]; [simpl in Hn; lia|]).
  - cbn [map concat app block_loop]. rewrite more_rbrace, expect_end_cons. done_outcome.
  - cbn [map concat fst snd app forallb fresh_keys fold_left length] in *.
    rewrite <- app_assoc in *. simpl length in HF. cbn [block_loop].
    rewrite more_key, objectKey_cons. case_bool_decide; [done_outcome|]. simpl negb.
    rewrite andb_true_l.
    assert (fits (tokens_of v ++ member_tokens l ++ TDelim chr_rbrace :: rest)) as HF1 by lia.
    assert (fits (member_tokens l ++ TDelim chr_rbrace :: rest)) as HF2
      by (rewrite length_app in HF1; lia).
    pose proof (stringValue_spec v 5 _ (k + 1) ltac:(lia) HF1) as Hs.
    pose proof (skip_ok v 5 _ (k + 1) HF1) as Hv.
    unfold block_step at 2. cbn [fst snd]. destruct (string_spec v) as [s vd].
    unfold outcome in Hs, Hv.
    destruct (key =? "type")%string; [|destruct (key =? "text")%string];
      (destruct (value_ok maxDepth 5 v); rewrite ?andb_true_l, ?andb_false_l, ?andb_false_r;
       [destruct Hs as [? Hs], Hv as [? Hv]
       |destruct Hs as (? & ? & Hs), Hv as (? & ? & Hv)];
       rewrite ?Hs, ?Hv; [apply IH; [done|lia]|done_outcome]).
Qed.

Lemma block_fold l b :
  nodupb (map fst l) = true →
  fold_left block_step l b =
    mk_block
      (from_option_json (λ v, (string_spec v).1) (blockType b) (assoc "type" l))
      (from_option_json (λ v, (string_spec v).1) (textValue b) (assoc "text" l))
      (from_option_json (λ _, true) (typeSeen b) (assoc "type" l))
      (from_option_json (λ v, (string_spec v).2) (typeValid b) (assoc "type" l))
      (from_option_json (λ _, true) (textSeen b) (assoc "text" l))
      (from_option_json (λ v, (string_spec v).2) (textValid b) (assoc "text" l)).
Proof.
  revert b. induction l as [|[key v] l IH]; intros b Hn; [by destruct b|].
  cbn [map fst nodupb] in Hn. apply andb_true_iff in Hn as [Hk Hn].
  cbn [fold_left]. rewrite IH by done. clear IH.
  apply negb_true_iff, bool_decide_eq_false in Hk.
  assert (∀ k, (key =? k)%string = true → assoc k l = None) as Hfresh.
  { intros k Heq%String.eqb_eq. subst k. clear -Hk.
    induction l as [|[k v] l IH]; simpl in *; [done|].
    destruct (String.eqb_spec k key); [set_solver|]. apply IH. set_solver. }
  cbn [assoc]. unfold block_step. cbn [fst snd].
  destruct (string_spec v) as [s vd] eqn:Hs.
  destruct (key =? "type")%string eqn:E1; [|destruct (key =? "text")%string eqn:E2].
  - rewrite (Hfresh "type"%string E1). apply String.eqb_eq in E1. subst key. simpl.
    by rewrite Hs.
  - rewrite (Hfresh "text"%string E2). simpl. by rewrite Hs.
  - done.
Qed.
(** The value of a successful call may be rewritten. *)
Lemma outcome_value {A} (r : cres A) ok (a a' : A) rest :
  (ok = true → a = a') → outcome r ok a rest → outcome r ok a' rest.
Proof. destruct ok; [by intros ->|done]. Qed.

Lemma parseContentBlock_spec v rest k :
  fits (tokens_of v ++ rest) →
  ∃ t rec val,
    outcome (parseContentBlock ctx0 maxDepth F (C (tokens_of v ++ rest) k))
      (value_ok maxDepth 4 v) (t, rec, val) rest ∧
    (value_ok maxDepth 4 v = true → block_spec v = if rec && val then Some t else None).
Proof.
  intros HF. unfold parseContentBlock.
  destruct v as [|b|s|s|l|l];
    try (exists ""%string, false, false; split; [scalar 4%Z|done]).
  - exists ""%string, false, false. split; [|done].
    rewrite array_tokens, token_cons. simpl bool_decide. skip_composite.
  - rewrite object_tokens, token_cons. rewrite bool_decide_true by done.
    rewrite object_tokens in HF. simpl length in HF.
    pose proof (block_loop_spec l F ∅ (mk_block "" "" false false false false) rest (k + 1)
                  ltac:(lia)) as Hb.
    assert (length l < F) as Hl.
    { enough (length l ≤ length (member_tokens l)) by (rewrite length_app in HF; lia).
      clear. induction l as [|[]]; simpl; [lia|]. rewrite length_app. lia. }
    specialize (Hb Hl). rewrite fresh_keys_nodupb in Hb. cbn [value_ok].
    replace (4 <=? maxDepth)%Z with true by lia. rewrite andb_true_l.
    change (4 + 1)%Z with 5%Z.
    destruct (nodupb (map fst l) && _) eqn:Hok; unfold outcome in Hb |- *.
    2:{ destruct Hb as (e & c & ->). exists ""%string, false, false. split; [by eauto|done]. }
    apply andb_true_iff in Hok as [Hn _]. rewrite block_fold in Hb by done.
    destruct Hb as [k' ->].
    destruct (_ || _) eqn:Hty; (eexists _, _, _; split; [by eauto|]); intros _; cbn [block_spec].
    + simpl in Hty. destruct (assoc "type" l) as [[]|]; simpl in *; try done.
      destruct (s =? "input_text")%string; [done|]. by destruct (assoc "text" l) as [[]|].
    + simpl in *. destruct (assoc "type" l) as [[]|]; simpl in *; try done.
      destruct (s =? "input_text")%string; [|done].
      by destruct (assoc "text" l) as [[]|].
Qed.

Lemma content_loop_spec l n s inv rest k :
  fits (concat (map tokens_of l) ++ TDelim chr_rbracket :: rest) → length l < n →
  ∃ s' inv',
    outcome (content_loop ctx0 maxDepth F n s inv
               (C (concat (map tokens_of l) ++ TDelim chr_rbracket :: rest) k))
      (forallb (value_ok maxDepth 4) l) (s', inv') rest ∧
    (forallb (value_ok maxDepth 4) l = true →
     match mapM block_spec l with
     | Some texts => inv' = inv ∧ (inv = false → s' = s +:+ foldr String.append "" texts)
     | None => inv' = true
     end).
Proof.
  revert n s inv k. induction l as [|v l IH]; intros n s inv k HF Hn;
    (destruct n as [|n]; [simpl in Hn; lia|]).
  - exists s, inv. split; [|intros _; simpl; split; [done|]; intros _; by rewrite string_app_nil_r].
    cbn [map concat app content_loop]. rewrite more_rbracket, expect_end_cons. done_outcome.
  - cbn [map concat forallb length] in *. rewrite <- app_assoc in *. cbn [content_loop].
    rewrite more_value.
    assert (fits (concat (map tokens_of l) ++ TDelim chr_rbracket :: rest)) as HF2
      by (rewrite length_app in HF; lia).
    destruct (parseContentBlock_spec v _ k HF) as (t & rec & val & Hb & Hspec).
    unfold outcome in Hb. destruct (value_ok maxDepth 4 v);
      [destruct Hb as [k1 ->]
      |destruct Hb as (e & c & ->); exists s, inv; by split; [done_outcome|]].
    specialize (Hspec eq_refl). rewrite andb_true_l. cbn [mapM].
    rewrite Hspec.
    destruct rec, val; simpl;
      match goal with
      | |- context [content_loop _ _ _ n ?s0 ?i0 _] =>
          destruct (IH n s0 i0 k1 HF2 ltac:(lia)) as (s' & inv' & Ho & Hs')
      end;
      (exists s', inv'; split; [exact Ho|]; intros Hok; specialize (Hs' Hok)).
    + destruct (mapM block_spec l) as [texts|]; [|done]. simpl. destruct Hs' as [-> Hs'].
      split; [done|]. intros Hi. rewrite Hs' by done. by rewrite <- string_app_assoc.
    + by destruct (mapM block_spec l) as [texts|]; [destruct Hs'|].
    + by destruct (mapM block_spec l) as [texts|]; [destruct Hs'|].
    + by destruct (mapM block_spec l) as [texts|]; [destruct Hs'|].
Qed.
Lemma values_length l : length l ≤ length (concat (map tokens_of l)).
Proof.
  induction l as [|v l IH]; simpl; [lia|]. rewrite length_app.
  pose proof (tokens_length_pos v). lia.
Qed.

Lemma members_length l : length l ≤ length (member_tokens l).
Proof. induction l as [|[]]; simpl; [lia|]. rewrite length_app. lia. Qed.

Lemma parseContent_spec v rest k :
  fits (tokens_of v ++ rest) →
  outcome (as_cres (parseContent sha256_hex ctx0 maxDepth F (C (tokens_of v ++ rest) k)))
    (value_ok maxDepth 3 v) (content_spec sha256_hex v) rest.
Proof.
  intros HF. unfold parseContent.
  destruct v as [|b|s|s|l|l]; try scalar 3%Z.
  - rewrite array_tokens, token_cons, bool_decide_true by done.
    rewrite array_tokens in HF. simpl length in HF.
    pose proof (values_length l).
    destruct (content_loop_spec l F "" false rest (k + 1)) as (s & inv & Ho & Hs);
      [lia|rewrite length_app in HF; lia|].
    cbn [value_ok]. replace (3 <=? maxDepth)%Z with true by lia. rewrite andb_true_l.
    change (3 + 1)%Z with 4%Z. unfold outcome in Ho |- *.
    destruct (forallb _ l); [|destruct Ho as (e & c & ->); done_outcome].
    destruct Ho as [k' ->]. specialize (Hs eq_refl). cbn [content_spec].
    destruct (mapM block_spec l) as [texts|].
    + destruct Hs as [-> ->]; [|done]. simpl. eauto.
    + rewrite Hs. simpl. eauto.
  - rewrite object_tokens, token_cons, bool_decide_false by done. skip_composite.
Qed.

Lemma item_loop_spec l n seen cs r rest k :
  fits (member_tokens l ++ TDelim chr_rbrace :: rest) → length l < n →
  outcome (as_cres (item_loop sha256_hex ctx0 maxDepth F n seen cs r
                      (C (member_tokens l ++ TDelim chr_rbrace :: rest) k)))
    (fresh_keys seen (map fst l) && forallb (λ kv, value_ok maxDepth 3 kv.2) l)
    (match assoc "content" l with
     | Some v => content_spec sha256_hex v
     | None => if cs then r else Field.set_state r FieldInvalid
     end) rest.
Proof.
  revert n seen cs r k. induction l as [|[key v] l IH]; intros n seen cs r k HF Hn;
    (destruct n as [|n]; [simpl in Hn; lia|]).
  - cbn [map concat app item_loop]. rewrite more_rbrace, expect_end_cons.
    destruct cs; done_outcome.
  - cbn [map concat fst snd app forallb fresh_keys length assoc] in *.
    rewrite <- app_assoc in *. simpl length in HF. cbn [item_loop].
    rewrite more_key, objectKey_cons. case_bool_decide; [done_outcome|]. simpl negb.
    rewrite andb_true_l.
    assert (fits (tokens_of v ++ member_tokens l ++ TDelim chr_rbrace :: rest)) as HF1 by lia.
    assert (fits (member_tokens l ++ TDelim chr_rbrace :: rest)) as HF2
      by (rewrite length_app in HF1; lia).
    pose proof (parseContent_spec v _ (k + 1) HF1) as Hc.
    pose proof (skip_ok v 3 _ (k + 1) HF1) as Hv.
    unfold outcome in Hc, Hv.
    destruct (String.eqb_spec key "content") as [->|Hne].
    + destruct (value_ok maxDepth 3 v); rewrite ?andb_true_l, ?andb_false_l, ?andb_false_r.
      * destruct Hc as [k' Hc].
        destruct (parseContent _ _ _ _ _) as [[f [e|]] c]; simplify_eq/=.
        eapply outcome_value; [|apply IH; [done|lia]].
        intros [Hfr _]%andb_true_iff. by rewrite (fresh_assoc "content" seen l Hfr).
      * destruct Hc as (e & c & Hc).
        destruct (parseContent _ _ _ _ _) as [[f [e'|]] c']; simplify_eq/=. done_outcome.
    + destruct (value_ok maxDepth 3 v); rewrite ?andb_true_l, ?andb_false_l, ?andb_false_r.
      * destruct Hv as [k' ->]. apply IH; [done|lia].
      * destruct Hv as (e & c & ->). done_outcome.
Qed.

Lemma parseInputItem_spec v rest k :
  fits (tokens_of v ++ rest) →
  outcome (as_cres (parseInputItem sha256_hex ctx0 maxDepth F (C (tokens_of v ++ rest) k)))
    (value_ok maxDepth 2 v) (item_spec sha256_hex v) rest.
Proof.
  intros HF. unfold parseInputItem.
  destruct v as [|b|s|s|l|l]; try scalar 2%Z.
  - rewrite array_tokens, token_cons, bool_decide_false by done. skip_composite.
  - rewrite object_tokens, token_cons, bool_decide_true by done.
    rewrite object_tokens in HF. simpl length in HF. pose proof (members_length l).
    cbn [value_ok]. replace (2 <=? maxDepth)%Z with true by lia. rewrite andb_true_l.
    rewrite <- fresh_keys_nodupb.
    eapply outcome_value; [|apply item_loop_spec; rewrite ?length_app in *; simpl in *; lia].
    intros _. cbn [item_spec]. by destruct (assoc "content" l).
Qed.

Lemma input_loop_spec l n i r rest k :
  fits (concat (map tokens_of l) ++ TDelim chr_rbracket :: rest) → length l < n →
  outcome (as_cres (input_loop sha256_hex ctx0 maxDepth F n i r
                      (C (concat (map tokens_of l) ++ TDelim chr_rbracket :: rest) k)))
    (forallb (value_ok maxDepth 2) l)
    (if (i <=? 1)%N then
       match l !! N.to_nat (1 - i) with Some it => item_spec sha256_hex it | None => r end
     else r) rest.
Proof.
  revert n i r k. induction l as [|v l IH]; intros n i r k HF Hn;
    (destruct n as [|n]; [simpl in Hn; lia|]).
  - cbn [map concat app input_loop]. rewrite more_rbracket, expect_end_cons.
    destruct (i <=? 1)%N; done_outcome.
  - cbn [map concat forallb length] in *. rewrite <- app_assoc in *. cbn [input_loop].
    rewrite more_value.
    assert (fits (concat (map tokens_of l) ++ TDelim chr_rbracket :: rest)) as HF2
      by (rewrite length_app in HF; lia).
    pose proof (parseInputItem_spec v _ k HF) as Hc.
    pose proof (skip_ok v 2 _ k HF) as Hv. unfold outcome in Hc, Hv.
    destruct (N.eqb_spec i 1) as [->|Hi].
    + destruct (value_ok maxDepth 2 v); rewrite ?andb_true_l, ?andb_false_l.
      * destruct Hc as [k' Hc].
        destruct (parseInputItem _ _ _ _ _) as [[f [e|]] c]; simplify_eq/=.
        eapply outcome_value; [|apply IH; [done|lia]]. done.
      * destruct Hc as (e & c & Hc).
        destruct (parseInputItem _ _ _ _ _) as [[f [e'|]] c']; simplify_eq/=. done_outcome.
    + destruct (value_ok maxDepth 2 v); rewrite ?andb_true_l, ?andb_false_l.
      * destruct Hv as [k' ->].
        eapply outcome_value; [|apply IH; [done|lia]]. intros _.
        destruct (N.leb_spec (i + 1) 1), (N.leb_spec i 1); try lia; [|done].
        replace i with 0%N by lia. done.
      * destruct Hv as (e & c & ->). done_outcome.
Qed.

Lemma parseInput_spec v rest k :
  fits (tokens_of v ++ rest) →
  outcome (as_cres (parseInput sha256_hex ctx0 maxDepth F (C (tokens_of v ++ rest) k)))
    (value_ok maxDepth 1 v) (input_spec sha256_hex v) rest.
Proof.
  intros HF. unfold parseInput.
  destruct v as [|b|s|s|l|l]; try scalar 1%Z.
  - rewrite array_tokens, token_cons, bool_decide_true by done.
    rewrite array_tokens in HF. simpl length in HF. pose proof (values_length l).
    cbn [value_ok]. replace (1 <=? maxDepth)%Z with true by lia. rewrite andb_true_l.
    eapply outcome_value; [|apply input_loop_spec; rewrite ?length_app in *; simpl in *; lia].
    intros _. done.
  - rewrite object_tokens, token_cons, bool_decide_false by done. skip_composite.
Qed.

(** *** The top-level object *)

Definition member_step (p : Parsed.t) (kv : string * json) : Parsed.t :=
  if (kv.1 =? "instructions")%string
  then Parsed.set_Instructions p (instructions_spec sha256_hex kv.2)
  else if (kv.1 =? "input")%string then Parsed.set_Input1 p (input_spec sha256_hex kv.2)
  else if (kv.1 =? "model")%string then Parsed.set_Model p (model_spec kv.2)
  else p.

Lemma parse_member_spec p key v rest k :
  fits (tokens_of v ++ rest) →
  outcome (as_cres (parse_member sha256_hex ctx0 maxDepth F p key (C (tokens_of v ++ rest) k)))
    (value_ok maxDepth 1 v) (member_step p (key, v)) rest.
Proof.
  intros HF. unfold parse_member, member_step. cbn [fst snd].
  pose proof (parseInstructions_spec v rest k HF) as H1.
  pose proof (parseInput_spec v rest k HF) as H2.
  pose proof (stringValue_spec v 1 rest k ltac:(lia) HF) as H3.
  pose proof (skip_ok v 1 rest k HF) as H4. unfold outcome in *.
  destruct (key =? _)%string; [|destruct (key =? _)%string; [|destruct (key =? _)%string]].
  - destruct (parseInstructions _ _ _ _ _) as [[f [e|]] c]; destruct (value_ok maxDepth 1 v);
      naive_solver.
  - destruct (parseInput _ _ _ _ _) as [[f [e|]] c]; destruct (value_ok maxDepth 1 v);
      naive_solver.
  - destruct (value_ok maxDepth 1 v); [|destruct H3 as (e & c & ->); simpl; eauto].
    destruct H3 as [k' ->]. exists k'. unfold model_spec.
    destruct v; cbn [string_spec fst snd negb orb]; try done.
    destruct (256 <? slen s)%Z eqn:E; simpl.
    + by replace (slen s <=? 256)%Z with false by lia.
    + replace (slen s <=? 256)%Z with true by lia. by destruct (validMetadataText s).
  - destruct (value_ok maxDepth 1 v); [destruct H4 as [k' ->]|destruct H4 as (e & c & ->)];
      simpl; eauto.
Qed.

Lemma top_loop_spec l n seen p rest k :
  fits (member_tokens l ++ TDelim chr_rbrace :: rest) → length l < n →
  outcome (as_cres (top_loop sha256_hex ctx0 maxDepth F n seen p
                      (C (member_tokens l ++ TDelim chr_rbrace :: rest) k)))
    (fresh_keys seen (map fst l) && forallb (λ kv, value_ok maxDepth 1 kv.2) l)
    (fold_left member_step l p) rest.
Proof.
  revert n seen p k. induction l as [|[key v] l IH]; intros n seen p k HF Hn;
    (destruct n as [|n]; [simpl in Hn; lia|]).
  - cbn [map concat app top_loop]. rewrite more_rbrace, expect_end_cons. done_outcome.
  - cbn [map concat fst snd app forallb fresh_keys length fold_left] in *.
    rewrite <- app_assoc in *. simpl length in HF. cbn [top_loop].
    rewrite more_key, objectKey_cons. case_bool_decide; [done_outcome|]. simpl negb.
    rewrite andb_true_l.
    assert (fits (tokens_of v ++ member_tokens l ++ TDelim chr_rbrace :: rest)) as HF1 by lia.
    assert (fits (member_tokens l ++ TDelim chr_rbrace :: rest)) as HF2
      by (rewrite length_app in HF1; lia).
    pose proof (parse_member_spec p key v _ (k + 1) HF1) as Hm. unfold outcome in Hm.
    destruct (value_ok maxDepth 1 v); rewrite ?andb_true_l, ?andb_false_l, ?andb_false_r.
    + destruct Hm as [k' Hm].
      destruct (parse_member _ _ _ _ _ _ _) as [[p' [e|]] c]; simplify_eq/=.
      apply IH; [done|lia].
    + destruct Hm as (e & c & Hm).
      destruct (parse_member _ _ _ _ _ _ _) as [[p' [e'|]] c']; simplify_eq/=.
      done_outcome.
Qed.

Lemma member_fold l p :
  nodupb (map fst l) = true →
  fold_left member_step l p =
    Parsed.mk
      (from_option_json (instructions_spec sha256_hex) (Parsed.Instructions p)
         (assoc "instructions" l))
      (from_option_json (input_spec sha256_hex) (Parsed.Input1 p) (assoc "input" l))
      (Parsed.Selected p) (Parsed.SelectedName p)
      (from_option_json model_spec (Parsed.Model p) (assoc "model" l)).
Proof.
  revert p. induction l as [|[key v] l IH]; intros p Hn; [by destruct p|].
  rewrite <- fresh_keys_nodupb in Hn. cbn [map fst fresh_keys] in Hn.
  apply andb_true_iff in Hn as [_ Hn].
  pose proof (fresh_assoc key ∅ l Hn) as Hfresh.
  cbn [fold_left]. rewrite IH.
  2:{ apply nodupb_NoDup. by apply fresh_keys_spec in Hn as []. }
  cbn [assoc]. unfold member_step. cbn [fst snd].
  destruct (String.eqb_spec key "instructions") as [->|];
    [|destruct (String.eqb_spec key "input") as [->|];
      [|destruct (String.eqb_spec key "model") as [->|]]];
    rewrite ?Hfresh; try done.
Qed.
End refinement.
