(* ===== verification/ParserTheorems.v ===== *)
(** * The theorems about the request parser

    Totality on every body, agreement with the reference definition on JSON
    trees, the hash invariant of the fields, and the bound of the sample. *)

From S2P Require Export ParserSpec Utf8.

(** ** Totality *)

(** C8. [ParseResponses] always returns: on every byte sequence, under every
    behaviour of the context (live, or cancelled at any token) and every depth
    limit, the parse ends in a result or one of the errors of the code; the
    loops and the recursion over nested values never exhaust their fuel. *)
Theorem ParseResponses_terminates sha ctx body maxDepth :
  (∀ k, ctx k ≠ Some OutOfFuel) →
  (ParseResponses sha ctx body maxDepth).2 ≠ Some OutOfFuel.
Proof.
  intros Hctx. unfold ParseResponses. destruct (_ || _); [done|].
  apply parse_document_fuel; [done|]. unfold fuel_for, cursor_size. simpl. lia.
Qed.

(** ** Agreement with the tree *)

(** C7. On the tokens of a JSON object the streaming parser computes the
    reference definition (lookup of [instructions], [input[1].content] and
    [model], and the selection between them) exactly when no object anywhere in
    the document, skipped values included, repeats a key and no value is nested
    deeper than the limit; otherwise it returns an error. *)
Theorem parse_document_refines_spec sha maxDepth F l k :
  (5 ≤ maxDepth)%Z → 3 * length (tokens_of (JObj l)) + 3 ≤ F →
  let r := parse_document sha (λ _, None) maxDepth F
             (mk_cursor (TokenList (tokens_of (JObj l))) k) in
  if value_ok maxDepth 0 (JObj l) then r = (parse_spec sha l, None)
  else ∃ e, r.2 = Some e.
Proof.
  intros Hmax HF. unfold parse_document.
  rewrite <- (app_nil_r (tokens_of (JObj l))) in HF |- *. rewrite object_tokens in HF |- *.
  simpl length in HF. rewrite token_cons. simpl negb. cbv iota.
  pose proof (members_length l).
  pose proof (top_loop_spec sha maxDepth Hmax F l F ∅ initial_parsed [] (k + 1)
    ltac:(lia) ltac:(rewrite length_app in HF; simpl in HF; lia)) as Ht.
  rewrite fresh_keys_nodupb in Ht. cbn [value_ok].
  replace (0 <=? maxDepth)%Z with true by lia. rewrite andb_true_l.
  change (0 + 1)%Z with 1%Z. unfold outcome in Ht.
  destruct (nodupb (map fst l) && _) eqn:Hok.
  - destruct Ht as [k' Ht].
    destruct (top_loop _ _ _ _ _ _ _ _) as [[p [e|]] c]; simplify_eq/=.
    apply andb_true_iff in Hok as [Hn _]. rewrite member_fold by done.
    unfold parse_spec, fields_spec, initial_parsed. simpl.
    by destruct (SelectField _).
  - destruct Ht as (e & c & Ht).
    destruct (top_loop _ _ _ _ _ _ _ _) as [[p [e'|]] c']; simplify_eq/=. eauto.
Qed.

(** ** Fields carry the digest of their whole text *)

Section hash_invariant.
Context {D : Type} `{TokenSource D}.
Context (sha : string → string) (ctx : N → option audit_err) (maxDepth : Z) (F : nat).

Definition wf_field (f : Field.t) : Prop :=
  Field.IsValid f = true →
  Field.SHA256 f = sha (Field.Text f) ∧ Field.Bytes f = slen (Field.Text f) ∧
  Field.Runes f = Z.of_nat (rune_count (B (Field.Text f))) ∧ Field.Text f ≠ ""%string ∧
  (Field.Name f = "instructions"%string ∨ Field.Name f = "input1"%string).

Lemma wf_newTextField name text :
  name = "instructions"%string ∨ name = "input1"%string → wf_field (newTextField sha name text).
Proof.
  intros Hn. unfold newTextField, wf_field.
  destruct (String.eqb_spec text ""); [done|]. simpl. auto.
Qed.

Lemma wf_of_state name s : wf_field (Field.of_state name s).
Proof. unfold wf_field, Field.IsValid. simpl. by rewrite andb_false_r. Qed.

Lemma wf_set_state f s : s ≠ FieldValid → wf_field (Field.set_state f s).
Proof. unfold wf_field, Field.IsValid. simpl. by destruct s. Qed.

#[local] Hint Resolve wf_newTextField wf_of_state wf_set_state : guard.
Ltac wf := solve [eauto with guard | by apply wf_set_state
                 | apply wf_newTextField; by auto].

Lemma parseInstructions_wf (c : cursor D) :
  wf_field (parseInstructions sha ctx maxDepth F c).1.1.
Proof. unfold parseInstructions. step_matches; wf. Qed.

Lemma parseContent_wf (c : cursor D) : wf_field (parseContent sha ctx maxDepth F c).1.1.
Proof. unfold parseContent. step_matches; wf. Qed.

Lemma item_loop_wf n seen cs r (c : cursor D) :
  wf_field r → wf_field (item_loop sha ctx maxDepth F n seen cs r c).1.1.
Proof.
  revert seen cs r c. induction n as [|n IH]; intros seen cs r c Hr; simpl; [done|].
  destruct (more c); [|step_matches; wf].
  destruct (objectKey ctx seen c) as [[[key seen']|] c1]; [|done].
  destruct (key =? _)%string.
  - pose proof (parseContent_wf c1). destruct (parseContent _ _ _ _ _) as [[f []] c2]; auto.
  - destruct (skipValue _ _ _ _ _) as [[] ?]; auto.
Qed.

Lemma parseInputItem_wf (c : cursor D) :
  wf_field (parseInputItem sha ctx maxDepth F c).1.1.
Proof.
  unfold parseInputItem. destruct (token ctx c) as [[[]|] c']; try wf.
  case_bool_decide; [apply item_loop_wf; wf|].
  destruct (skipDelimited _ _ _ _ _ _) as [[] ?]; wf.
Qed.

Lemma input_loop_wf n i r (c : cursor D) :
  wf_field r → wf_field (input_loop sha ctx maxDepth F n i r c).1.1.
Proof.
  revert i r c. induction n as [|n IH]; intros i r c Hr; cbn [input_loop]; [wf|].
  destruct (more c); [|destruct (expect_end _ _ _) as [[] ?]; [done|wf]].
  destruct (i =? 1)%N.
  - pose proof (parseInputItem_wf c). destruct (parseInputItem _ _ _ _ _) as [[f []] c2];
      [wf|auto].
  - destruct (skipValue _ _ _ _ _) as [[] ?]; [auto|wf].
Qed.

Lemma parseInput_wf (c : cursor D) : wf_field (parseInput sha ctx maxDepth F c).1.1.
Proof.
  unfold parseInput. destruct (token ctx c) as [[[]|] c']; try wf.
  case_bool_decide; [apply input_loop_wf; wf|].
  destruct (skipDelimited _ _ _ _ _ _) as [[] ?]; wf.
Qed.

Definition wf_parsed (p : Parsed.t) : Prop :=
  wf_field (Parsed.Instructions p) ∧ wf_field (Parsed.Input1 p).

Lemma parse_member_wf p key (c : cursor D) :
  wf_parsed p → wf_parsed (parse_member sha ctx maxDepth F p key c).1.1.
Proof.
  intros [H1 H2]. unfold parse_member, wf_parsed.
  pose proof (parseInstructions_wf c). pose proof (parseInput_wf c).
  destruct (key =? _)%string; [|destruct (key =? _)%string; [|destruct (key =? _)%string]].
  - by destruct (parseInstructions _ _ _ _ _) as [[f e] c'].
  - by destruct (parseInput _ _ _ _ _) as [[f e] c'].
  - destruct (stringValue _ _ _ _ _) as [[[m v]|e] c']; [by destruct (_ || _)|done].
  - by destruct (skipValue _ _ _ _ _) as [[] c'].
Qed.

Lemma top_loop_wf n seen p (c : cursor D) :
  wf_parsed p → wf_parsed (top_loop sha ctx maxDepth F n seen p c).1.1.
Proof.
  revert seen p c. induction n as [|n IH]; intros seen p c Hp; cbn [top_loop]; [done|].
  destruct (more c); [|by destruct (expect_end _ _ _) as [[] ?]].
  destruct (objectKey ctx seen c) as [[[key seen']|] c1]; [|done].
  pose proof (parse_member_wf p key c1 Hp) as Hm.
  destruct (parse_member _ _ _ _ _ _ _) as [[p' []] c2]; auto.
Qed.

Lemma parse_document_wf (c : cursor D) :
  wf_parsed (parse_document sha ctx maxDepth F c).1.
Proof.
  unfold parse_document.
  assert (wf_parsed initial_parsed) as Hi by (split; wf).
  destruct (token ctx c) as [[t|] c1]; [|done]. destruct (negb _); [done|].
  pose proof (top_loop_wf F ∅ initial_parsed c1 Hi) as Ht.
  destruct (top_loop _ _ _ _ _ _ _ _) as [[p []] c2]; [done|].
  destruct (src_at_eof _); [|done]. by destruct (SelectField p).
Qed.

Lemma SelectField_wf p name f :
  wf_parsed p → SelectField p = (name, f) → name ≠ ""%string →
  wf_field f ∧ Field.IsValid f = true ∧ Field.Name f = name.
Proof.
  intros [H1 H2]. unfold SelectField.
  destruct (Field.IsValid (Parsed.Instructions p)) eqn:E1; [intros; by simplify_eq|].
  destruct (Field.IsValid (Parsed.Input1 p)) eqn:E2; intros; by simplify_eq.
Qed.
End hash_invariant.

Lemma ParseResponses_wf sha ctx body maxDepth :
  wf_parsed sha (ParseResponses sha ctx body maxDepth).1.
Proof.
  unfold ParseResponses. destruct (_ || _); [|apply parse_document_wf].
  split; apply wf_of_state.
Qed.

(** The field the parser selects is never a sample or a prefix: whenever
    [SelectField] names a field of a parsed body, its text is non-empty and its
    digest, byte count and rune count are those of the whole text. *)
Theorem selected_field_is_hashed_whole sha ctx body maxDepth name f :
  SelectField (ParseResponses sha ctx body maxDepth).1 = (name, f) → name ≠ ""%string →
  Field.SHA256 f = sha (Field.Text f) ∧ Field.Bytes f = slen (Field.Text f) ∧
  Field.Runes f = Z.of_nat (rune_count (B (Field.Text f))) ∧ Field.Text f ≠ ""%string.
Proof.
  intros Hs Hn.
  destruct (SelectField_wf sha _ _ _ (ParseResponses_wf sha ctx body maxDepth) Hs Hn)
    as (Hf & Hv & _).
  destruct (Hf Hv) as (? & ? & ? & ? & _). auto.
Qed.

(** ** Sampling *)

Lemma offset_loop_total rs count k off len :
  (count ≤ k)%Z → (k - count ≤ Z.of_nat (length rs))%Z →
  len = (off + Z.of_nat (total_size rs))%Z →
  offset_loop rs count k off len =
    (off + Z.of_nat (total_size (take (Z.to_nat (k - count)) rs)))%Z.
Proof.
  revert count off. induction rs as [|r rs IH]; intros count off Hc Hk Hlen; simpl in *.
  - rewrite take_nil. done.
  - destruct (Z.eqb_spec count k) as [->|Hne].
    + rewrite Z.sub_diag. simpl. lia.
    + unfold total_size in *. simpl in Hlen.
      rewrite IH by lia. replace (Z.to_nat (k - count)) with (S (Z.to_nat (k - (count + 1)))) by lia.
      simpl. lia.
Qed.

Lemma byteOffsetAtRune_total v k :
  (k ≤ Z.of_nat (rune_count (B v)))%Z →
  byteOffsetAtRune v k = Z.of_nat (total_size (take (Z.to_nat k) (runes (B v)))).
Proof.
  intros Hk. unfold byteOffsetAtRune. destruct (Z.leb_spec k 0).
  - replace (Z.to_nat k) with 0 by lia. done.
  - rewrite (offset_loop_total _ 0 k 0); [by rewrite Z.sub_0_r|lia| |].
    + unfold rune_count in Hk. lia.
    + unfold slen. by rewrite runes_total_size.
Qed.

(** The reviewer never sees more than [maxRunes] runes of a field (plus
    the separator).  A text within the limit is passed whole and marked
    unsampled; a longer one is cut, at rune boundaries, to its first and last
    runes, [maxRunes] in total, and marked sampled. The text and the digest of
    the field do not change. *)
Theorem PrepareAISample_bound f maxRunes :
  Field.IsValid f = true → Field.Runes f = Z.of_nat (rune_count (B (Field.Text f))) →
  (0 < maxRunes < 2 ^ 61)%Z →
  let f' := PrepareAISample f maxRunes in
  Field.Text f' = Field.Text f ∧ Field.SHA256 f' = Field.SHA256 f ∧
  Field.AISampled f' = (maxRunes <? Field.Runes f)%Z ∧
  (Field.AISampled f' = false → Field.AISample f' = Field.Text f) ∧
  (Field.AISampled f' = true → ∃ p m q,
     B (Field.Text f) = p ++ m ++ q ∧
     Field.AISample f' = S_ p +:+ sampleSeparator +:+ S_ q ∧
     Z.of_nat (rune_count p) = Z.quot (maxRunes * 2) 3 ∧
     Z.of_nat (rune_count p + rune_count q) = maxRunes).
Proof.
  intros Hv Hr Hm. unfold PrepareAISample. rewrite Hv. simpl negb. cbv iota.
  replace (maxRunes <=? 0)%Z with false by lia.
  destruct (Z.leb_spec (Field.Runes f) maxRunes) as [Hle|Hgt]; cbv zeta; simpl.
  { replace (maxRunes <? Field.Runes f)%Z with false by lia.
    split_and!; done. }
  replace (maxRunes <? Field.Runes f)%Z with true by lia.
  split_and!; try done. intros _.
  replace (wrap64 (maxRunes * 2)) with (maxRunes * 2)%Z
    by (unfold wrap64; rewrite Z.mod_small; lia).
  set (first := Z.quot (maxRunes * 2) 3).
  assert (0 ≤ first ∧ 3 * first ≤ maxRunes * 2 ∧ first ≤ maxRunes)%Z as (H1 & H2 & H3)
    by (subst first; rewrite Z.quot_div_nonneg by lia; Z.to_euclidean_division_equations; lia).
  set (l := B (Field.Text f)) in *. unfold rune_count in Hr.
  rewrite !byteOffsetAtRune_total by (unfold rune_count; fold l; lia). fold l.
  rewrite !Nat2Z.id.
  set (a := Z.to_nat first). set (b := Z.to_nat (Field.Runes f - (maxRunes - first))).
  assert (a ≤ b ∧ b ≤ length (runes l)) as [Hab Hb] by lia.
  destruct (runes_split l a) as [Ha1 _], (runes_split l b) as [_ Hb2].
  set (oa := total_size (take a (runes l))) in *.
  set (ob := total_size (take b (runes l))) in *.
  assert (oa ≤ ob) as Ho.
  { subst oa ob. unfold total_size. replace b with (a + (b - a)) by lia.
    rewrite <- (take_take_drop (runes l) a (b - a)), sum_list_with_app. lia. }
  exists (take oa l), (drop oa (take ob l)), (drop ob l). split_and!.
  - rewrite app_assoc.
    replace (take oa l) with (take oa (take ob l)) by (rewrite take_take; f_equal; lia).
    by rewrite !take_drop.
  - done.
  - unfold rune_count. rewrite Ha1, length_take. lia.
  - unfold rune_count. rewrite Ha1, Hb2, length_take, length_drop. lia.
Qed.

(** ** Witnesses *)

(** A digest function for the concrete runs. *)
Definition tag_digest (s : string) : string := "#" +:+ s.

Lemma ParseResponses_terminates_witness :
  let body := json_text "{'input':[[1],{'role':'user','content':[{'type':'input_text','text':'hi'}]}],'model':'m'}" in
  let r := ParseResponses tag_digest (λ _, None) body 0 in
  Field.Text (Parsed.Selected r.1) = "hi"%string ∧ Parsed.Model r.1 = "m"%string ∧
  r.2 ≠ Some OutOfFuel.
Proof.
  split; [vm_compute; reflexivity|]. split; [vm_compute; reflexivity|].
  apply ParseResponses_terminates. intros k. discriminate.
Defined.

Definition example_document : list (string * json) :=
  [("model", JStr "gpt"); ("input", JArr [JNull; JObj [("content", JArr
     [JObj [("type", JStr "input_text"); ("text", JStr "run ")];
      JObj [("text", JStr "it"); ("type", JStr "input_text")]])]]);
   ("meta", JObj [("a", JNum "1"); ("b", JNum "2")])]%string.

Lemma parse_document_refines_spec_witness :
  parse_spec tag_digest example_document =
    (Parsed.set_Selected (fields_spec tag_digest example_document) "input1"
       (newTextField tag_digest "input1" "run it")) ∧
  parse_document tag_digest (λ _, None) 8 200
    (mk_cursor (TokenList (tokens_of (JObj example_document))) 0) =
    (parse_spec tag_digest example_document, None).
Proof.
  split; [vm_compute; reflexivity|].
  apply (parse_document_refines_spec tag_digest 8 200 example_document 0).
  - lia.
  - vm_compute. lia.
Defined.

Lemma selected_field_is_hashed_whole_witness :
  let body := json_text "{'instructions':'You are a bot'}" in
  Field.SHA256 (Parsed.Selected (ParseResponses tag_digest (λ _, None) body 8).1) =
    tag_digest "You are a bot" ∧
  ∃ f, SelectField (ParseResponses tag_digest (λ _, None) body 8).1 = ("instructions"%string, f) ∧
       Field.SHA256 f = tag_digest (Field.Text f).
Proof.
  split; [vm_compute; reflexivity|].
  eexists. split; [vm_compute; reflexivity|].
  eapply (selected_field_is_hashed_whole tag_digest (λ _, None)
            (json_text "{'instructions':'You are a bot'}") 8 "instructions");
    [vm_compute; reflexivity|discriminate].
Defined.

Lemma PrepareAISample_bound_witness :
  let f := newTextField tag_digest "instructions" "abcdefghij" in
  Field.AISample (PrepareAISample f 6) = "abcd" +:+ sampleSeparator +:+ "ij" ∧
  Field.AISampled (PrepareAISample f 6) = (6 <? Field.Runes f)%Z.
Proof.
  split; [vm_compute; reflexivity|].
  apply (PrepareAISample_bound (newTextField tag_digest "instructions" "abcdefghij") 6);
    [vm_compute; reflexivity|vm_compute; reflexivity|lia].
Defined.
