(* ===== verification/Quorum.v ===== *)
(** * The asynchronous quorum ([internal/audit/quorum.go])

    Three reviewers are started at once and put their votes on a channel.
    The model of a run is the list of the votes in the order they reach the
    channel, and the number of votes that were already buffered when the loop
    drains the channel after two equal votes. *)

From S2P Require Export AuditTypes.

Module AsyncNodeReviewer.
Record t : Type := mk { Slot : string; Reviewer : option AuditTypes.Reviewer }.
End AsyncNodeReviewer.

Module AsyncVote.
Record t : Type := mk {
  Slot : string;
  Verdict : AIVerdict.t;
  Err : option audit_err;
  Latency : Duration;
}.
End AsyncVote.

Module QuorumResult.
Record t : Type := mk {
  Votes : list AsyncVote.t;
  Kind : string;
  Reached : bool;
  Conflict : bool;
}.
End QuorumResult.

(** The goroutine of one node. *)
Definition node_vote (request : AIReviewRequest.t) (node : AsyncNodeReviewer.t) : AsyncVote.t :=
  match AsyncNodeReviewer.Reviewer node with
  | None => AsyncVote.mk (AsyncNodeReviewer.Slot node) AIVerdict.zero (Some ErrAIUnavailable) 0
  | Some review =>
      let '(verdict, err, latency) := review request in
      let err := match err with None => ValidateAIVerdict verdict | Some e => Some e end in
      AsyncVote.mk (AsyncNodeReviewer.Slot node) verdict err latency
  end.

Definition normalize_threshold (threshold : float64) : float64 :=
  if f64_le threshold f64_zero then DefaultRejectConfidence else threshold.

(** A vote without error and with enough confidence, of the given result. *)
Definition counts (threshold : float64) (result : Verdict) (vote : AsyncVote.t) : bool :=
  bool_decide (AsyncVote.Err vote = None) &&
  f64_ge (AIVerdict.Confidence (AsyncVote.Verdict vote)) threshold &&
  (AIVerdict.Result (AsyncVote.Verdict vote) =? result)%string.

Definition tally (threshold : float64) (votes : list AsyncVote.t) : nat * nat :=
  (countb (counts threshold VerdictPass) votes, countb (counts threshold VerdictReject) votes).

(** [QuorumPromotion] *)
Definition QuorumPromotion (votes : list AsyncVote.t) (configured : Z) (threshold : float64) :
    string * bool :=
  if (configured <=? 0)%Z || bool_decide (votes = []) then (""%string, false) else
  let threshold := normalize_threshold threshold in
  let '(passes, rejects) := fold_left
    (λ '(passes, rejects) vote,
       if negb (bool_decide (AsyncVote.Err vote = None)) ||
          f64_lt (AIVerdict.Confidence (AsyncVote.Verdict vote)) threshold
       then (passes, rejects)
       else if (AIVerdict.Result (AsyncVote.Verdict vote) =? VerdictReject)%string
       then (passes, S rejects)
       else if (AIVerdict.Result (AsyncVote.Verdict vote) =? VerdictPass)%string
       then (S passes, rejects)
       else (passes, rejects)) votes (0, 0) in
  if (2 <=? rejects)%nat && (passes =? 0)%nat && (3 <=? configured)%Z then ("risk"%string, true)
  else if (2 <=? passes)%nat && (rejects =? 0)%nat && (3 <=? configured)%Z
  then ("trusted"%string, true)
  else (""%string, false).

(** One received vote: the two switches of the loop count the same way. *)
Definition receive (threshold : float64) (pr : nat * nat) (vote : AsyncVote.t) : nat * nat :=
  let '(passes, rejects) := pr in
  if bool_decide (AsyncVote.Err vote = None) &&
     f64_ge (AIVerdict.Confidence (AsyncVote.Verdict vote)) threshold
  then
    if (AIVerdict.Result (AsyncVote.Verdict vote) =? VerdictPass)%string then (S passes, rejects)
    else if (AIVerdict.Result (AsyncVote.Verdict vote) =? VerdictReject)%string
    then (passes, S rejects)
    else (passes, rejects)
  else (passes, rejects).

(** The receive loop: [pending] are the votes still to arrive, [ready] of
    them are buffered when the quorum is seen.  The result is the votes
    consumed, the two counters, and whether the loop ended on a quorum. *)
Fixpoint receive_loop (threshold : float64) (ready : nat) (pending votes : list AsyncVote.t)
    (pr : nat * nat) : list AsyncVote.t * (nat * nat) * bool :=
  match pending with
  | [] => (votes, pr, false)
  | vote :: pending =>
      let votes := votes ++ [vote] in
      let pr := receive threshold pr vote in
      if (2 <=? pr.1)%nat || (2 <=? pr.2)%nat then
        let extra := take ready pending in
        (votes ++ extra, fold_left (receive threshold) extra pr, true)
      else receive_loop threshold ready pending votes pr
  end.

(** [ReviewAsyncQuorum]: every node sends one vote, and the votes arrive in the
    order [arrivals], so that [len(nodes)] is the length of [arrivals]. *)
Definition ReviewAsyncQuorum (arrivals : list AsyncVote.t) (ready : nat)
    (threshold : float64) : QuorumResult.t :=
  let configured := Z.of_nat (length arrivals) in
  let threshold := normalize_threshold threshold in
  let '(votes, (passes, rejects), reached) := receive_loop threshold ready arrivals [] (0, 0) in
  let conflict := (0 <? passes)%nat && (0 <? rejects)%nat in
  if reached then
    let kind := if conflict then ""%string
                else if (2 <=? passes)%nat then "trusted"%string else "risk"%string in
    QuorumResult.mk votes kind true conflict
  else
    let '(kind, reached) := QuorumPromotion votes configured threshold in
    QuorumResult.mk votes kind reached conflict.

(** [ReviewAsync] *)
Definition ReviewAsync (arrivals : list AsyncVote.t) (ready : nat) : list AsyncVote.t :=
  QuorumResult.Votes (ReviewAsyncQuorum arrivals ready DefaultRejectConfidence).

(** The runs of the goroutines: some order of the votes of the nodes. *)
Definition vote_order (request : AIReviewRequest.t) (nodes : list AsyncNodeReviewer.t)
    (arrivals : list AsyncVote.t) : Prop :=
  arrivals ≡ₚ map (node_vote request) nodes.

(** The schedule of the goroutines as data: [places] says, vote by vote, how
    many of the votes of the later nodes arrive before it. *)
Fixpoint arrivals_of (places : list nat) (votes : list AsyncVote.t) : list AsyncVote.t :=
  match votes with
  | [] => []
  | vote :: votes =>
      let later := arrivals_of (tail places) votes in
      let place := default 0 (head places) in
      take place later ++ vote :: drop place later
  end.

(** What the caller promotes: [votes.Reached && !votes.Conflict]. *)
Definition promotion (r : QuorumResult.t) : option string :=
  if QuorumResult.Reached r && negb (QuorumResult.Conflict r) then Some (QuorumResult.Kind r)
  else None.

(** ** Lemmas *)

(** A threshold is usable when it is a number. *)
Definition proper_threshold (t : float64) : Prop := f64_is_nan t = false.

Lemma receive_countb t pr vote :
  receive t pr vote =
    (pr.1 + (if counts t VerdictPass vote then 1 else 0),
     pr.2 + (if counts t VerdictReject vote then 1 else 0)).
Proof.
  destruct pr as [p r]. unfold receive, counts.
  destruct (bool_decide _ && f64_ge _ _); simpl; [|f_equal; lia].
  destruct (String.eqb_spec (AIVerdict.Result (AsyncVote.Verdict vote)) VerdictPass) as [->|];
    simpl; [f_equal; lia|].
  destruct (_ =? VerdictReject)%string; simpl; f_equal; lia.
Qed.

Lemma receive_fold t votes pr :
  fold_left (receive t) votes pr = (pr.1 + (tally t votes).1, pr.2 + (tally t votes).2).
Proof.
  revert pr. induction votes as [|v votes IH]; intros pr; simpl.
  - destruct pr; simpl. f_equal; lia.
  - rewrite IH, receive_countb. simpl. f_equal; lia.
Qed.

Lemma tally_app t l k :
  tally t (l ++ k) = ((tally t l).1 + (tally t k).1, (tally t l).2 + (tally t k).2).
Proof. unfold tally. by rewrite !countb_app. Qed.

(** The loop keeps the tally of what it consumed, consumes a prefix of the
    arrivals, and stops early exactly on two votes of a kind. *)
Lemma receive_loop_spec t ready pending votes pr votes' pr' reached :
  pr = tally t votes →
  receive_loop t ready pending votes pr = (votes', pr', reached) →
  pr' = tally t votes' ∧ (∃ k, votes' = votes ++ k ∧ k `prefix_of` pending) ∧
  (if reached then 2 ≤ pr'.1 ∨ 2 ≤ pr'.2 else
   votes' = votes ++ pending ∧
   (pr.1 < 2 → pr.2 < 2 → pr'.1 < 2 ∧ pr'.2 < 2)).
Proof.
  revert votes pr. induction pending as [|v pending IH]; intros votes pr Hpr; cbn [receive_loop].
  - intros [= <- <- <-]. split; [done|]. split; [exists []; by rewrite app_nil_r|].
    by rewrite app_nil_r.
  - assert (receive t pr v = tally t (votes ++ [v])) as Hr.
    { subst pr. rewrite receive_countb, tally_app. simpl. f_equal; lia. }
    rewrite Hr. destruct (_ || _) eqn:Hq.
    + intros [= <- <- <-]. rewrite receive_fold.
      split; [by rewrite !tally_app|]. split.
      * exists (v :: take ready pending). split; [by rewrite <- app_assoc|].
        apply prefix_cons, prefix_take.
      * cbn [fst snd]. apply orb_true_iff in Hq as [Hq%Nat.leb_le|Hq%Nat.leb_le]; lia.
    + intros H. apply orb_false_iff in Hq as [Hq1 Hq2]. apply Nat.leb_gt in Hq1, Hq2.
      destruct (IH _ _ eq_refl H) as (H1 & (k & -> & Hk) & H3).
      split; [done|]. split.
      * exists (v :: k). rewrite <- app_assoc. split; [done|]. by apply prefix_cons.
      * destruct reached; [done|]. destruct H3 as [-> H3].
        rewrite <- app_assoc. split; [done|]. intros _ _. by apply H3.
Qed.

Lemma QuorumPromotion_fold t votes pr :
  proper_threshold t →
  Forall (λ v, f64_is_nan (AIVerdict.Confidence (AsyncVote.Verdict v)) = false) votes →
  fold_left
    (λ '(passes, rejects) vote,
       if negb (bool_decide (AsyncVote.Err vote = None)) ||
          f64_lt (AIVerdict.Confidence (AsyncVote.Verdict vote)) t
       then (passes, rejects)
       else if (AIVerdict.Result (AsyncVote.Verdict vote) =? VerdictReject)%string
       then (passes, S rejects)
       else if (AIVerdict.Result (AsyncVote.Verdict vote) =? VerdictPass)%string
       then (S passes, rejects)
       else (passes, rejects)) votes pr =
  (pr.1 + (tally t votes).1, pr.2 + (tally t votes).2).
Proof.
  intros Ht Hv. revert pr. induction Hv as [|v votes Hv _ IH]; intros [p r].
  - simpl. f_equal; lia.
  - cbn [fold_left]. rewrite IH. unfold tally. cbn [countb].
    set (P := countb _ _). set (R := countb _ _). unfold counts.
    destruct (bool_decide (AsyncVote.Err v = None)); simpl; [|f_equal; lia].
    destruct (f64_lt (AIVerdict.Confidence (AsyncVote.Verdict v)) t) eqn:Hlt.
    + assert (f64_ge (AIVerdict.Confidence (AsyncVote.Verdict v)) t = false) as ->.
      { by apply f64_lt_not_ge. }
      simpl. f_equal; lia.
    + rewrite (f64_not_lt_ge _ _ Hlt Hv Ht). simpl.
      destruct (String.eqb_spec (AIVerdict.Result (AsyncVote.Verdict v)) VerdictReject) as [->|];
        simpl; [f_equal; lia|].
      destruct (_ =? VerdictPass)%string; simpl; f_equal; lia.
Qed.

Lemma tally_prefix t l k :
  l `prefix_of` k → (tally t l).1 ≤ (tally t k).1 ∧ (tally t l).2 ≤ (tally t k).2.
Proof. intros H. split; by apply countb_prefix. Qed.

Lemma tally_Permutation t l k : l ≡ₚ k → tally t l = tally t k.
Proof. intros H. unfold tally. by rewrite H. Qed.

(** Votes with a comparable confidence. *)
Definition numeric_votes (votes : list AsyncVote.t) : Prop :=
  Forall (λ v, f64_is_nan (AIVerdict.Confidence (AsyncVote.Verdict v)) = false) votes.

Lemma normalize_proper t : proper_threshold t → proper_threshold (normalize_threshold t).
Proof. intros H. unfold normalize_threshold. by destruct (f64_le _ _). Qed.

Lemma normalize_idem t : normalize_threshold (normalize_threshold t) = normalize_threshold t.
Proof. unfold normalize_threshold. destruct (f64_le t f64_zero) eqn:E; [done|by rewrite E]. Qed.

(** The reference policy in terms of the tally. *)
Lemma QuorumPromotion_tally votes configured t :
  (0 < configured)%Z → votes ≠ [] → proper_threshold t → numeric_votes votes →
  QuorumPromotion votes configured t =
    let '(passes, rejects) := tally (normalize_threshold t) votes in
    if (2 <=? rejects)%nat && (passes =? 0)%nat && (3 <=? configured)%Z
    then ("risk"%string, true)
    else if (2 <=? passes)%nat && (rejects =? 0)%nat && (3 <=? configured)%Z
    then ("trusted"%string, true)
    else (""%string, false).
Proof.
  intros Hc Hn Ht Hv. unfold QuorumPromotion.
  replace (configured <=? 0)%Z with false by lia. rewrite bool_decide_false by done. simpl orb.
  cbv iota zeta. rewrite QuorumPromotion_fold by (done || by apply normalize_proper).
  done.
Qed.

Lemma QuorumPromotion_normalized votes configured t :
  QuorumPromotion votes configured (normalize_threshold t) = QuorumPromotion votes configured t.
Proof. unfold QuorumPromotion. by rewrite normalize_idem. Qed.

(** What the loop promotes is the policy on the consumed votes. *)
Lemma ReviewAsyncQuorum_consumed arrivals ready t :
  3 ≤ length arrivals → proper_threshold t → numeric_votes arrivals →
  let r := ReviewAsyncQuorum arrivals ready t in
  QuorumResult.Votes r `prefix_of` arrivals ∧
  (let '(kind, ok) := QuorumPromotion (QuorumResult.Votes r) (Z.of_nat (length arrivals)) t in
   promotion r = if ok then Some kind else None).
Proof.
  intros Hc Ht Hv. unfold ReviewAsyncQuorum.
  destruct (receive_loop _ _ _ _ _) as [[votes [passes rejects]] reached] eqn:Hl.
  apply receive_loop_spec in Hl as (Htally & (k & Hvotes & Hk) & Hr); [|done].
  simpl in Hvotes. subst k.
  assert (numeric_votes votes) as Hv' by (destruct Hk as [m ->]; by apply Forall_app in Hv as []).
  assert (votes ≠ [] ∧ (reached = false → votes = arrivals ∧ passes < 2 ∧ rejects < 2))
    as [Hvn Hsmall].
  { destruct reached.
    - split; [|done]. intros ->. cbn in Htally, Hr. injection Htally as -> ->. lia.
    - destruct Hr as [-> Hr]. split; [by destruct arrivals; simpl in *; [lia|]|].
      intros _. split; [done|]. apply Hr; simpl; lia. }
  pose proof (QuorumPromotion_tally votes (Z.of_nat (length arrivals)) t ltac:(lia) Hvn Ht Hv')
    as HQ.
  rewrite <- Htally in HQ. replace (3 <=? Z.of_nat (length arrivals))%Z with true in HQ by lia.
  rewrite !andb_true_r in HQ. cbv zeta. unfold promotion.
  destruct reached; cbn [QuorumResult.Votes QuorumResult.Reached QuorumResult.Conflict
                         QuorumResult.Kind].
  - split; [done|]. rewrite HQ. cbn [fst snd] in Hr.
    destruct passes as [|[|passes]], rejects as [|[|rejects]]; simpl in *; done || lia.
  - rewrite QuorumPromotion_normalized, HQ.
    destruct Hsmall as (-> & H1 & H2); [done|].
    destruct passes as [|[|passes]], rejects as [|[|rejects]]; cbn in HQ |- *; rewrite ?HQ; done || lia.
Qed.

Lemma vote_order_length request nodes arrivals :
  vote_order request nodes arrivals → length arrivals = length nodes.
Proof. intros ->. by rewrite length_map. Qed.

(** A schedule is an order of the votes of the nodes, and every order has a
    schedule. *)
Lemma arrivals_of_Permutation places votes : arrivals_of places votes ≡ₚ votes.
Proof.
  revert places. induction votes as [|v votes IH]; intros places; [done|]. cbn [arrivals_of].
  rewrite <- Permutation_middle, take_drop. by rewrite IH.
Qed.
Lemma arrivals_of_order request nodes places :
  vote_order request nodes (arrivals_of places (map (node_vote request) nodes)).
Proof. apply arrivals_of_Permutation. Qed.
Lemma arrivals_of_complete votes arrivals :
  arrivals ≡ₚ votes → ∃ places, arrivals_of places votes = arrivals.
Proof.
  revert arrivals. induction votes as [|v votes IH]; intros arrivals Hp.
  - exists []. symmetry. by apply Permutation_nil_r.
  - assert (v ∈ arrivals) as (before & after & ->)%list_elem_of_split by (rewrite Hp; by left).
    rewrite <- Permutation_middle in Hp. apply Permutation_cons_inv in Hp.
    destruct (IH _ Hp) as [places Hplaces]. exists (length before :: places). cbn [arrivals_of head tail default].
    rewrite Hplaces. cbn. by rewrite take_app_length, drop_app_length.
Qed.

(** A vote that may count for a result: no error, and its confidence is not
    below the threshold. *)
Definition backs (threshold : float64) (result : Verdict) (vote : AsyncVote.t) : bool :=
  bool_decide (AsyncVote.Err vote = None) &&
  negb (f64_lt (AIVerdict.Confidence (AsyncVote.Verdict vote)) threshold) &&
  (AIVerdict.Result (AsyncVote.Verdict vote) =? result)%string.

(** The result that two nodes must give for a kind to be promoted. *)
Definition verdict_of (kind : string) : Verdict :=
  if (kind =? "trusted")%string then VerdictPass else VerdictReject.

Lemma counts_backs t result v : counts t result v = true → backs t result v = true.
Proof.
  unfold counts, backs. rewrite !andb_true_iff. intros [[H1 H2] H3]. split_and!; [done| |done].
  apply negb_true_iff. destruct (f64_lt _ t) eqn:E; [|done]. apply f64_lt_not_ge in E. by rewrite E in H2.
Qed.
Lemma countb_imp {A} (p q : A → bool) l : (∀ x, p x = true → q x = true) → countb p l ≤ countb q l.
Proof.
  intros H. induction l as [|x l IH]; simpl; [done|]. specialize (H x).
  destruct (p x); [rewrite H by done; lia|]. destruct (q x); lia.
Qed.

(** [QuorumPromotion] counts every backing vote, numeric or not. *)
Lemma QuorumPromotion_backs votes configured t kind :
  QuorumPromotion votes configured t = (kind, true) →
  2 ≤ countb (backs (normalize_threshold t) (verdict_of kind)) votes.
Proof.
  unfold QuorumPromotion. destruct (_ || _); [done|]. set (th := normalize_threshold t).
  match goal with |- context [fold_left ?f votes (0, 0)] => set (F := f) end.
  assert (∀ pr, fold_left F votes pr =
    (pr.1 + countb (backs th VerdictPass) votes, pr.2 + countb (backs th VerdictReject) votes)) as HF.
  { clear. induction votes as [|v votes IH]; intros [p r]; [simpl; f_equal; lia|].
    cbn [fold_left countb]. rewrite IH. set (P := countb _ votes). set (R := countb _ votes). unfold F, backs.
    destruct (bool_decide (AsyncVote.Err v = None)); simpl; [|f_equal; lia].
    destruct (f64_lt _ th); simpl; [f_equal; lia|].
    destruct (String.eqb_spec (AIVerdict.Result (AsyncVote.Verdict v)) VerdictReject) as [->|]; simpl; [f_equal; lia|].
    destruct (_ =? VerdictPass)%string; simpl; f_equal; lia. }
  rewrite HF. cbn [fst snd plus].
  repeat match goal with |- context [if ?b then _ else _] => destruct b eqn:? end; try done; intros [= <-].
  - change (verdict_of "risk") with VerdictReject. to_prop. lia.
  - change (verdict_of "trusted") with VerdictPass. to_prop. lia.
Qed.

(** When an early exit stopped at [votes], the tally has a two. *)
Lemma reached_two arrivals ready t votes pr :
  receive_loop t ready arrivals [] (0, 0) = (votes, pr, true) →
  votes `prefix_of` arrivals ∧ pr = tally t votes ∧ (2 ≤ pr.1 ∨ 2 ≤ pr.2).
Proof.
  intros Hl. apply receive_loop_spec in Hl as (Htally & (k & -> & Hk) & Hr); [|done]. done.
Qed.

(** A promotion is backed by two of the votes, in every run. *)
Lemma promotion_backed arrivals ready t kind :
  promotion (ReviewAsyncQuorum arrivals ready t) = Some kind →
  2 ≤ countb (backs (normalize_threshold t) (verdict_of kind)) arrivals.
Proof.
  unfold ReviewAsyncQuorum, promotion.
  destruct (receive_loop _ _ _ _ _) as [[votes [p r]] reached] eqn:Hl. destruct reached.
  - apply reached_two in Hl as (Hpre & Htally & Htwo). cbn [QuorumResult.Reached QuorumResult.Conflict QuorumResult.Kind].
    injection Htally as -> ->. cbn [fst snd] in Htwo.
    set (th := normalize_threshold t) in *.
    assert (∀ res, countb (counts th res) votes ≤ countb (backs th res) arrivals) as Hle.
    { intros res. etrans; [by apply countb_prefix|]. apply countb_imp. apply counts_backs. }
    pose proof (Hle VerdictPass). pose proof (Hle VerdictReject).
    cbn [andb]. destruct (negb _) eqn:Ec; [|done]. apply negb_true_iff in Ec. rewrite Ec.
    assert (∀ b : bool, (b = true → 2 ≤ countb (counts th VerdictPass) votes) →
      (b = false → 2 ≤ countb (counts th VerdictReject) votes) →
      Some (if b then "trusted"%string else "risk"%string) = Some kind →
      2 ≤ countb (backs th (verdict_of kind)) arrivals) as Hb.
    { intros [] Ht Hf [= <-]; [change (verdict_of _) with VerdictPass|change (verdict_of _) with VerdictReject]; lia. }
    apply Hb; [by intros ?%Nat.leb_le|intros ?%Nat.leb_gt; lia].
  - apply receive_loop_spec in Hl as (_ & (k & Hk & _) & [-> _]); [|done].
    rewrite QuorumPromotion_normalized. destruct (QuorumPromotion _ _ _) as [kind' ok] eqn:E. simpl.
    destruct ok; simpl; [|done]. destruct (_ && _); [done|]. intros [= <-]. by eapply QuorumPromotion_backs.
Qed.

(** ** Theorems *)

(** C17. The early-exit loop implements the quorum policy for three or more
    nodes: when the threshold and the confidences of all votes are numbers (not
    NaN), then whatever the order in which the votes arrive and however many are
    buffered when two equal votes are seen, what is promoted is what
    [QuorumPromotion] decides on the votes that were consumed, and those are a
    prefix of the arrivals.  (With fewer nodes the two differ, see
    [two_nodes_differ]; the program only asks three.) *)
Theorem ReviewAsyncQuorum_implements_policy arrivals ready t :
  3 ≤ length arrivals → proper_threshold t → numeric_votes arrivals →
  let r := ReviewAsyncQuorum arrivals ready t in
  QuorumResult.Votes r `prefix_of` arrivals ∧
  (let '(kind, ok) := QuorumPromotion (QuorumResult.Votes r) (Z.of_nat (length arrivals)) t in
   promotion r = if ok then Some kind else None).
Proof. intros Hc Ht Hv r. by apply ReviewAsyncQuorum_consumed. Qed.

(** C18. The quorum decision of three or more nodes does not depend on their
    scheduling when no two confident votes disagree, the threshold is a number
    and so is every confidence (not NaN): every order in which the votes of the
    same nodes arrive promotes what the policy gives on the votes of all
    nodes. *)
Theorem ReviewAsyncQuorum_order_independent request nodes arrivals ready t :
  3 ≤ length nodes → proper_threshold t →
  numeric_votes (map (node_vote request) nodes) →
  (let '(passes, rejects) := tally (normalize_threshold t) (map (node_vote request) nodes) in
   passes = 0 ∨ rejects = 0) →
  vote_order request nodes arrivals →
  promotion (ReviewAsyncQuorum arrivals ready t) =
    (let '(kind, ok) :=
       QuorumPromotion (map (node_vote request) nodes) (Z.of_nat (length nodes)) t in
     if ok then Some kind else None).
Proof.
  intros Hn Ht Hv Hagree Hord.
  pose proof (vote_order_length _ _ _ Hord) as Hlen. unfold vote_order in Hord.
  pose proof (tally_Permutation (normalize_threshold t) _ _ Hord) as Htal.
  rewrite <- Htal in Hagree.
  assert (numeric_votes arrivals) as Hva by (unfold numeric_votes; by rewrite Hord).
  assert (arrivals ≠ [] ∧ map (node_vote request) nodes ≠ []) as [Hne Hne'].
  { destruct nodes; simpl in *; [lia|]. destruct arrivals; simpl in *; [lia|done]. }
  rewrite QuorumPromotion_tally by (done || lia). rewrite <- Htal.
  unfold ReviewAsyncQuorum, promotion.
  destruct (receive_loop _ _ _ _ _) as [[votes pr] []] eqn:Hl.
  - apply reached_two in Hl as (Hpre & -> & Htwo).
    pose proof (tally_prefix (normalize_threshold t) _ _ Hpre) as [Hp1 Hp2].
    destruct (tally _ votes) as [p r], (tally _ arrivals) as [P R]. cbn [fst snd] in *.
    replace (3 <=? Z.of_nat (length nodes))%Z with true by lia. cbn.
    destruct Hagree as [->| ->].
    + destruct p; [|lia]. cbn [fst snd] in Htwo.
      destruct r as [|[|r]], R as [|[|R]]; simpl in *; try lia; done.
    + destruct r; [|lia]. destruct p as [|[|p]], P as [|[|P]]; simpl in *; try lia; done.
  - apply receive_loop_spec in Hl as (-> & (k & Hk & _) & [-> Hlt]); [|done]. simpl app in *.
    destruct Hlt as [Hlt1 Hlt2]; [simpl; lia|simpl; lia|].
    rewrite QuorumPromotion_normalized, QuorumPromotion_tally by (done || lia). rewrite Hlen.
    destruct (tally _ arrivals) as [P R]. cbn [fst snd] in *.
    replace (3 <=? Z.of_nat (length nodes))%Z with true by lia.
    destruct P as [|[|P]], R as [|[|R]]; simpl; try done; lia.
Qed.

(** ** Witnesses *)

Definition vote_of (slot : string) (result : Verdict) : AsyncVote.t :=
  AsyncVote.mk slot (AIVerdict.mk result f64_one "r" "c" "" 0) None 0.

Definition node_of (slot : string) (result : Verdict) : AsyncNodeReviewer.t :=
  AsyncNodeReviewer.mk slot (Some (λ _, (AIVerdict.mk result f64_one "r" "c" "" 0, None, 0%Z))).

(** With two nodes the loop promotes what the policy on two configured nodes
    does not: the loop never looks at the number of nodes. *)
Example two_nodes_differ :
  let votes := [vote_of "1" VerdictReject; vote_of "2" VerdictReject] in
  promotion (ReviewAsyncQuorum votes 0 f64_0_95) = Some "risk"%string ∧
  QuorumPromotion votes 2 f64_0_95 = (""%string, false).
Proof. vm_compute. auto. Qed.

Lemma ReviewAsyncQuorum_implements_policy_witness :
  let r := ReviewAsyncQuorum [vote_of "1" VerdictReject; vote_of "2" VerdictReject;
                              vote_of "3" VerdictPass] 0 f64_zero in
  promotion r = Some "risk"%string ∧ length (QuorumResult.Votes r) = 2.
Proof.
  pose proof (ReviewAsyncQuorum_implements_policy
    [vote_of "1" VerdictReject; vote_of "2" VerdictReject; vote_of "3" VerdictPass]
    0 f64_zero ltac:(simpl; lia) eq_refl ltac:(repeat constructor)) as [_ H].
  split; [exact H|vm_compute; reflexivity].
Defined.

Lemma ReviewAsyncQuorum_order_independent_witness :
  let nodes := [node_of "1" VerdictPass; node_of "2" VerdictUncertain; node_of "3" VerdictPass] in
  let request := AIReviewRequest.mk "" "" false "" "" "" "" in
  promotion (ReviewAsyncQuorum (reverse (map (node_vote request) nodes)) 1 f64_0_95) =
    Some "trusted"%string.
Proof.
  intros nodes request.
  rewrite (ReviewAsyncQuorum_order_independent request nodes _ 1 f64_0_95).
  - vm_compute. reflexivity.
  - simpl. lia.
  - reflexivity.
  - repeat constructor.
  - vm_compute. right. reflexivity.
  - apply reverse_Permutation.
Defined.
