(* ===== verification/RateLimit.v ===== *)
(** * The reviewer rate limit ([internal/audit/rate_limit.go])

    A fixed-window counter per credential fingerprint and per client address.
    The mutex makes every call of [Allow] atomic, so a run is the list of the
    calls in the order they take the lock. *)

From S2P Require Export AuditTypes.

Definition maxRateLimitBuckets : Z := 8192.

Module rateBucket.
Record t : Type := mk { started : Time; count : Z }.
(** The value of a missing map key. *)
Definition zero : t := mk zero_time 0.
End rateBucket.

Module FixedWindowLimiter.
Record t : Type := mk {
  limit : Z;
  window : Duration;
  buckets : gmap string rateBucket.t;
}.
Definition set_buckets (l : t) (b : gmap string rateBucket.t) : t := mk (limit l) (window l) b.
End FixedWindowLimiter.
Abbreviation limiter := FixedWindowLimiter.t (only parsing).
Import FixedWindowLimiter.

Definition NewFixedWindowLimiter (limit : Z) (window : Duration) : limiter :=
  let limit := if (limit <? 1)%Z then 60%Z else limit in
  let window := if (window <=? 0)%Z then minute else window in
  FixedWindowLimiter.mk limit window ∅.

(** The keys a call is charged to. *)
Definition limiter_keys (fingerprint ip : string) : list string :=
  let keys := (if (fingerprint =? "")%string then [] else ["key:" +:+ fingerprint]) ++
              (if (ip =? "")%string then [] else ["ip:" +:+ ip]) in
  match keys with [] => ["anonymous"%string] | _ => keys end.

(** [now.Sub(bucket.started) >= l.window] *)
Definition expired (l : limiter) (now : Time) (b : rateBucket.t) : bool :=
  (window l <=? time_sub now (rateBucket.started b))%Z.

Definition bsize (m : gmap string rateBucket.t) : Z := Z.of_nat (size m).

(** The sweep under capacity pressure; the iteration order is irrelevant,
    because every bucket is judged on its own. *)
Definition prune (l : limiter) (now : Time) (nkeys : Z) : gmap string rateBucket.t :=
  if (maxRateLimitBuckets <? bsize (buckets l) + nkeys)%Z
  then filter (λ kb, expired l now kb.2 = false) (buckets l)
  else buckets l.

(** The bucket of a key as a call at time [now] sees it. *)
Definition current (l : limiter) (now : Time) (m : gmap string rateBucket.t) (key : string) :
    rateBucket.t :=
  let bucket := default rateBucket.zero (m !! key) in
  if is_zero_time (rateBucket.started bucket) || expired l now bucket
  then rateBucket.mk now 0 else bucket.

Definition charge (l : limiter) (now : Time) (m : gmap string rateBucket.t) (key : string) :
    gmap string rateBucket.t :=
  let bucket := current l now m key in
  <[key := rateBucket.mk (rateBucket.started bucket) (rateBucket.count bucket + 1)]> m.

Definition Allow_locked (l : limiter) (now : Time) (keys : list string) : bool * limiter :=
  let m := prune l now (Z.of_nat (length keys)) in
  let missing := Z.of_nat (countb (λ key, bool_decide (m !! key = None)) keys) in
  if (maxRateLimitBuckets <? bsize m + missing)%Z then (false, set_buckets l m)
  else if existsb (λ key, (limit l <=? rateBucket.count (current l now m key))%Z) keys
  then (false, set_buckets l m)
  else (true, set_buckets l (fold_left (charge l now) keys m)).

(** [Allow]; a nil limiter admits every call. *)
Definition Allow (l : option limiter) (now : Time) (fingerprint ip : string) :
    bool * option limiter :=
  match l with
  | None => (true, None)
  | Some l =>
      let '(ok, l) := Allow_locked l now (limiter_keys fingerprint ip) in (ok, Some l)
  end.

(** A run: calls at given times with given credentials. *)
Definition call : Type := Time * (string * string).

Fixpoint run (l : limiter) (calls : list call) : list bool * limiter :=
  match calls with
  | [] => ([], l)
  | (now, (fingerprint, ip)) :: calls =>
      let '(ok, l) := Allow_locked l now (limiter_keys fingerprint ip) in
      let '(oks, l) := run l calls in (ok :: oks, l)
  end.

(** How many calls of a run were admitted and charged to [key]. *)
Fixpoint admitted (l : limiter) (calls : list call) (key : string) : nat :=
  match calls with
  | [] => 0
  | (now, (fingerprint, ip)) :: calls =>
      let keys := limiter_keys fingerprint ip in
      let '(ok, l) := Allow_locked l now keys in
      (if ok && bool_decide (key ∈ keys) then 1 else 0) + admitted l calls key
  end.

(** ** Invariant *)

(** At most 8192 buckets, each with a count between one and the limit. *)
Record invariant (l : limiter) : Prop := {
  inv_limit : (1 ≤ limit l)%Z;
  inv_window : (0 < window l ≤ int64_max)%Z;
  inv_size : (bsize (buckets l) ≤ maxRateLimitBuckets)%Z;
  inv_count : map_Forall (λ _ b, (1 ≤ rateBucket.count b ≤ limit l)%Z) (buckets l);
}.

Lemma New_invariant lim win :
  (win ≤ int64_max)%Z → invariant (NewFixedWindowLimiter lim win).
Proof.
  intros Hw. unfold NewFixedWindowLimiter. constructor; simpl.
  - destruct (lim <? 1)%Z eqn:E; to_prop; lia.
  - destruct (win <=? 0)%Z eqn:E; to_prop; [|lia]. split; [done|]. by apply Z.leb_le.
  - unfold bsize. rewrite map_size_empty. done.
  - apply map_Forall_empty.
Qed.

Lemma limiter_keys_nodup f i : NoDup (limiter_keys f i).
Proof.
  unfold limiter_keys.
  destruct (f =? "")%string, (i =? "")%string; cbn [app];
    [apply NoDup_singleton..|].
  apply NoDup_cons. split; [|apply NoDup_singleton].
  by intros ?%list_elem_of_singleton.
Qed.

Lemma prune_subseteq l now n : prune l now n ⊆ buckets l.
Proof. unfold prune. destruct (_ <? _)%Z; [apply map_filter_subseteq|done]. Qed.

Lemma prune_lookup l now n k b :
  buckets l !! k = Some b → expired l now b = false → prune l now n !! k = Some b.
Proof.
  intros Hk He. unfold prune. destruct (_ <? _)%Z; [|done].
  by apply map_lookup_filter_Some.
Qed.

Lemma prune_dropped l now n k b :
  buckets l !! k = Some b → prune l now n !! k = None → expired l now b = true.
Proof.
  intros Hk Hp. destruct (expired l now b) eqn:E; [done|].
  by rewrite (prune_lookup l now n k b Hk E) in Hp.
Qed.

Lemma size_mono (m m' : gmap string rateBucket.t) : m ⊆ m' → (bsize m ≤ bsize m')%Z.
Proof.
  intros H. unfold bsize. apply inj_le. rewrite <- !size_dom.
  by apply subseteq_size, subseteq_dom.
Qed.

Lemma charge_lookup_ne l now m k k' :
  k ≠ k' → charge l now m k !! k' = m !! k'.
Proof. intros H. unfold charge. by rewrite lookup_insert_ne. Qed.

Lemma charge_fold_notin l now keys m k :
  k ∉ keys → fold_left (charge l now) keys m !! k = m !! k.
Proof.
  revert m. induction keys as [|x keys IH]; intros m Hk; [done|].
  apply not_elem_of_cons in Hk as [Hx Hk]. simpl. rewrite IH by done.
  by apply charge_lookup_ne.
Qed.

Definition bump (b : rateBucket.t) : rateBucket.t :=
  rateBucket.mk (rateBucket.started b) (rateBucket.count b + 1).

Lemma charge_fold_in l now keys m k :
  NoDup keys → k ∈ keys →
  fold_left (charge l now) keys m !! k = Some (bump (current l now m k)).
Proof.
  intros Hnd. revert m. induction Hnd as [|x keys Hx Hnd IH]; intros m Hk; [by apply elem_of_nil in Hk|].
  simpl. apply elem_of_cons in Hk as [->|Hk].
  - rewrite charge_fold_notin by done. unfold charge. by rewrite lookup_insert_eq.
  - rewrite IH by done. f_equal. unfold current. rewrite charge_lookup_ne; [done|].
    intros ->. done.
Qed.

Lemma charge_fold_size l now keys m :
  NoDup keys →
  bsize (fold_left (charge l now) keys m) =
    (bsize m + Z.of_nat (countb (λ key, bool_decide (m !! key = None)) keys))%Z.
Proof.
  intros Hnd. revert m. induction Hnd as [|x keys Hx Hnd IH]; intros m; simpl; [lia|].
  rewrite IH.
  assert (countb (λ key, bool_decide (charge l now m x !! key = None)) keys =
          countb (λ key, bool_decide (m !! key = None)) keys) as ->.
  { clear IH Hnd. induction keys as [|y keys IH]; [done|]. simpl.
    apply not_elem_of_cons in Hx as [Hy Hx]. rewrite IH by done.
    by rewrite charge_lookup_ne by done. }
  unfold charge, bsize. destruct (m !! x) as [b|] eqn:Hm.
  - rewrite map_size_insert_Some by done. simpl. lia.
  - rewrite map_size_insert_None by done. rewrite bool_decide_true by done. lia.
Qed.

(** What one call does, in the terms of the map it leaves. *)
Lemma Allow_locked_cases l now keys :
  let m := prune l now (Z.of_nat (length keys)) in
  Allow_locked l now keys = (false, set_buckets l m) ∨
  (Allow_locked l now keys = (true, set_buckets l (fold_left (charge l now) keys m)) ∧
   (bsize m + Z.of_nat (countb (λ key, bool_decide (m !! key = None)) keys)
      ≤ maxRateLimitBuckets)%Z ∧
   ∀ key, key ∈ keys → (rateBucket.count (current l now m key) < limit l)%Z).
Proof.
  intros m. unfold Allow_locked. fold m.
  destruct (_ <? bsize m + _)%Z eqn:Hsz; [by left|]. to_prop.
  destruct (existsb _ _) eqn:He; [by left|]. right. split; [done|]. split; [done|].
  intros key Hkey.
  destruct (limit l <=? rateBucket.count (current l now m key))%Z eqn:Hc; to_prop; [|done].
  assert (existsb (λ key, (limit l <=? rateBucket.count (current l now m key))%Z) keys = true)
    as Ht; [|congruence].
  apply existsb_Exists, Exists_exists. exists key. split; [done|]. by apply Z.leb_le.
Qed.

Lemma Allow_locked_config l now keys ok l' :
  Allow_locked l now keys = (ok, l') → limit l' = limit l ∧ window l' = window l.
Proof.
  intros H. destruct (Allow_locked_cases l now keys) as [E|(E & _)];
    rewrite E in H; by injection H as <- <-.
Qed.

Lemma current_count_pos l now m key :
  map_Forall (λ _ b, (1 ≤ rateBucket.count b ≤ limit l)%Z) m →
  (0 ≤ rateBucket.count (current l now m key))%Z.
Proof.
  intros Hm. unfold current. destruct (m !! key) as [b|] eqn:E; simpl.
  - destruct (_ || _); simpl; [lia|]. apply Hm in E. lia.
  - repeat case_match; simpl; lia.
Qed.

Lemma Allow_locked_invariant l now keys ok l' :
  NoDup keys → invariant l → Allow_locked l now keys = (ok, l') → invariant l'.
Proof.
  intros Hnd [H1 H2 H3 H4] H.
  pose proof (prune_subseteq l now (Z.of_nat (length keys))) as Hsub.
  assert (map_Forall (λ _ b, (1 ≤ rateBucket.count b ≤ limit l)%Z)
            (prune l now (Z.of_nat (length keys)))) as Hpc.
  { intros k b Hk. apply (H4 k b). by eapply lookup_weaken. }
  destruct (Allow_locked_cases l now keys) as [E|(E & Hsz & Hlt)];
    rewrite E in H; injection H as <- <-; constructor; simpl; try done.
  - pose proof (size_mono _ _ Hsub). lia.
  - rewrite charge_fold_size by done. lia.
  - intros k b Hk. destruct (decide (k ∈ keys)) as [Hin|Hin].
    + rewrite charge_fold_in in Hk by done. simplify_eq/=.
      pose proof (current_count_pos l now _ k Hpc). specialize (Hlt k Hin). lia.
    + rewrite charge_fold_notin in Hk by done. by apply (Hpc k b).
Qed.

Lemma run_invariant l calls oks l' :
  invariant l → run l calls = (oks, l') → invariant l'.
Proof.
  revert l oks. induction calls as [|[now [f i]] calls IH]; intros l oks Hl; simpl.
  - by intros [= <- <-].
  - destruct (Allow_locked _ _ _) as [ok l1] eqn:E1. destruct (run l1 calls) as [oks1 l2] eqn:E2.
    intros [= <- <-]. eapply IH; [|done].
    eapply Allow_locked_invariant; [|done..]. apply limiter_keys_nodup.
Qed.

(** ** Windows *)

(** A time span no longer than the window of the limiter. *)
Definition within (l : limiter) (a : Time) (calls : list call) : Prop :=
  Forall (λ c, (a ≤ c.1 < a + window l)%Z) calls.

Lemma not_expired l now b a :
  (0 < window l ≤ int64_max)%Z → (a ≤ rateBucket.started b)%Z → (now < a + window l)%Z →
  expired l now b = false.
Proof.
  intros Hw Ha Hn. unfold expired, time_sub. apply Z.leb_gt.
  unfold int64_min, int64_max in *. lia.
Qed.

Definition count_of (l : limiter) (key : string) : Z :=
  match buckets l !! key with Some b => rateBucket.count b | None => 0%Z end.

(** A bucket opened inside the span is neither swept nor restarted by a call
    of the span: its count is the number of calls charged to it. *)
Lemma live_bucket_step l now keys ok l' key b a :
  NoDup keys → (0 < window l ≤ int64_max)%Z → (0 < a)%Z → (now < a + window l)%Z →
  buckets l !! key = Some b → (a ≤ rateBucket.started b)%Z →
  Allow_locked l now keys = (ok, l') →
  buckets l' !! key = Some (if ok && bool_decide (key ∈ keys) then bump b else b).
Proof.
  intros Hnd Hw Ha Hn Hb Hst H.
  pose proof (not_expired l now b a Hw Hst Hn) as He.
  pose proof (prune_lookup l now (Z.of_nat (length keys)) key b Hb He) as Hp.
  destruct (Allow_locked_cases l now keys) as [E|(E & _ & Hlt)];
    rewrite E in H; injection H as <- <-; simpl; [done|].
  case_bool_decide as Hin.
  - rewrite charge_fold_in by done. unfold current. rewrite Hp. simpl.
    rewrite He, orb_false_r. unfold is_zero_time, zero_time.
    replace (rateBucket.started b =? 0)%Z with false by lia. done.
  - by rewrite charge_fold_notin by done.
Qed.

Lemma admitted_live l calls key b a :
  invariant l → (0 < a)%Z → within l a calls →
  buckets l !! key = Some b → (a ≤ rateBucket.started b)%Z →
  (Z.of_nat (admitted l calls key) + rateBucket.count b ≤ limit l)%Z.
Proof.
  revert l b. induction calls as [|[now [f i]] calls IH]; intros l b Hl Ha Hw Hb Hst.
  - simpl. destruct Hl as [_ _ _ Hc]. specialize (Hc _ _ Hb). simpl in Hc. lia.
  - cbn [admitted]. destruct (Allow_locked _ _ _) as [ok l'] eqn:E.
    apply Forall_cons in Hw as [[_ Hn] Hw]. simpl in Hn.
    pose proof (limiter_keys_nodup f i) as Hnd.
    pose proof (Allow_locked_invariant _ _ _ _ _ Hnd Hl E) as Hl'.
    pose proof (Allow_locked_config _ _ _ _ _ E) as [Hlim Hwin].
    pose proof (live_bucket_step _ _ _ _ _ _ _ _ Hnd (inv_window l Hl) Ha Hn Hb Hst E) as Hb'.
    assert (within l' a calls) as Hw' by (unfold within; by rewrite Hwin).
    specialize (IH l' _ Hl' Ha Hw' Hb'). rewrite Hlim in IH.
    destruct (ok && bool_decide _); simpl in *; specialize (IH ltac:(lia)); lia.
Qed.

(** What one call does to the bucket of a key. *)
Lemma bucket_step l now keys ok l' key :
  NoDup keys → Allow_locked l now keys = (ok, l') →
  if ok && bool_decide (key ∈ keys) then
    buckets l' !! key = Some (rateBucket.mk now 1) ∨
    ∃ b, buckets l !! key = Some b ∧ buckets l' !! key = Some (bump b)
  else buckets l' !! key = None ∨ buckets l' !! key = buckets l !! key.
Proof.
  intros Hnd H. set (m := prune l now (Z.of_nat (length keys))).
  assert (m !! key = None ∨ m !! key = buckets l !! key) as Hm.
  { destruct (m !! key) as [b|] eqn:Hk; [|by left]. right. symmetry.
    eapply lookup_weaken; [done|]. apply prune_subseteq. }
  destruct (Allow_locked_cases l now keys) as [E|(E & _ & _)];
    rewrite E in H; injection H as <- <-; cbn [andb set_buckets buckets]; [done|].
  case_bool_decide as Hin.
  - rewrite charge_fold_in by done. unfold current. fold m.
    destruct (m !! key) as [b|]; simpl.
    + destruct (_ || _); [by left|]. right. destruct Hm as [Hm|Hm]; [done|]. by exists b.
    + left. done.
  - by rewrite charge_fold_notin by done.
Qed.

Lemma admitted_absent l calls key a :
  invariant l → (0 < a)%Z → within l a calls → buckets l !! key = None →
  (Z.of_nat (admitted l calls key) ≤ limit l)%Z.
Proof.
  revert l. induction calls as [|[now [f i]] calls IH]; intros l Hl Ha Hw Hb.
  - destruct Hl. simpl. lia.
  - cbn [admitted]. destruct (Allow_locked _ _ _) as [ok l'] eqn:E.
    apply Forall_cons in Hw as [[Hn0 Hn] Hw]. simpl in Hn0, Hn.
    pose proof (limiter_keys_nodup f i) as Hnd.
    pose proof (Allow_locked_invariant _ _ _ _ _ Hnd Hl E) as Hl'.
    pose proof (Allow_locked_config _ _ _ _ _ E) as [Hlim Hwin].
    assert (within l' a calls) as Hw' by (unfold within; by rewrite Hwin).
    pose proof (bucket_step _ _ _ _ _ key Hnd E) as Hstep.
    destruct (ok && _).
    + destruct Hstep as [Hb'|(b & Hb' & _)]; [|congruence].
      pose proof (admitted_live l' calls key _ a Hl' Ha Hw' Hb' Hn0) as H. simpl in H. lia.
    + specialize (IH l' Hl' Ha Hw'). rewrite Hlim in IH. apply IH.
      destruct Hstep as [->| ->]; done.
Qed.

Lemma admitted_present l calls key b a :
  invariant l → (0 < a)%Z → within l a calls → buckets l !! key = Some b →
  (Z.of_nat (admitted l calls key) + rateBucket.count b ≤ 2 * limit l)%Z.
Proof.
  revert l b. induction calls as [|[now [f i]] calls IH]; intros l b Hl Ha Hw Hb;
    pose proof (inv_count l Hl _ _ Hb) as Hc; simpl in Hc.
  - simpl. lia.
  - cbn [admitted]. destruct (Allow_locked _ _ _) as [ok l'] eqn:E.
    apply Forall_cons in Hw as [[Hn0 Hn] Hw]. simpl in Hn0, Hn.
    pose proof (limiter_keys_nodup f i) as Hnd.
    pose proof (Allow_locked_invariant _ _ _ _ _ Hnd Hl E) as Hl'.
    pose proof (Allow_locked_config _ _ _ _ _ E) as [Hlim Hwin].
    assert (within l' a calls) as Hw' by (unfold within; by rewrite Hwin).
    pose proof (bucket_step _ _ _ _ _ key Hnd E) as Hstep.
    destruct (ok && _).
    + destruct Hstep as [Hb'|(b' & Hb1 & Hb')].
      * pose proof (admitted_live l' calls key _ a Hl' Ha Hw' Hb' Hn0) as H. simpl in H. lia.
      * simplify_eq. specialize (IH l' _ Hl' Ha Hw' Hb'). simpl in IH. lia.
    + destruct Hstep as [Hb'|Hb'].
      * pose proof (admitted_absent l' calls key a Hl' Ha Hw' Hb'). lia.
      * rewrite Hb in Hb'. specialize (IH l' _ Hl' Ha Hw' Hb'). lia.
Qed.

(** A call that is charged to a bucket whose window is over restarts it. *)
Lemma expired_bucket_step l now keys l' key b :
  NoDup keys → buckets l !! key = Some b → expired l now b = true → key ∈ keys →
  Allow_locked l now keys = (true, l') → buckets l' !! key = Some (rateBucket.mk now 1).
Proof.
  intros Hnd Hb He Hin H. destruct (Allow_locked_cases l now keys) as [E|(E & _ & _)];
    rewrite E in H; [done|]. injection H as <-. cbn [set_buckets buckets].
  set (m := prune l now _). rewrite charge_fold_in by done. unfold current.
  destruct (m !! key) as [b'|] eqn:Hm; [|done].
  assert (buckets l !! key = Some b') as Hb' by (eapply lookup_weaken; [exact Hm|apply prune_subseteq]).
  rewrite Hb in Hb'. injection Hb' as <-. simpl. by rewrite He, orb_true_r.
Qed.

Lemma admitted_over l calls key b a :
  invariant l → (0 < a)%Z → within l a calls → buckets l !! key = Some b →
  (rateBucket.started b + window l ≤ a)%Z → (Z.of_nat (admitted l calls key) ≤ limit l)%Z.
Proof.
  revert l. induction calls as [|[now [f i]] calls IH]; intros l Hl Ha Hw Hb Hover.
  - destruct Hl. simpl. lia.
  - cbn [admitted]. destruct (Allow_locked _ _ _) as [ok l'] eqn:E.
    apply Forall_cons in Hw as [[Hn0 Hn] Hw]. simpl in Hn0, Hn.
    pose proof (limiter_keys_nodup f i) as Hnd.
    pose proof (Allow_locked_invariant _ _ _ _ _ Hnd Hl E) as Hl'.
    pose proof (Allow_locked_config _ _ _ _ _ E) as [Hlim Hwin].
    assert (within l' a calls) as Hw' by (unfold within; by rewrite Hwin).
    pose proof (bucket_step _ _ _ _ _ key Hnd E) as Hstep.
    destruct (ok && bool_decide _) eqn:Eok.
    + apply andb_true_iff in Eok as [-> Hin%bool_decide_eq_true_1].
      assert (expired l now b = true) as He.
      { pose proof (inv_window l Hl). unfold expired, time_sub, int64_min, int64_max in *. apply Z.leb_le. lia. }
      pose proof (expired_bucket_step l now _ l' key b Hnd Hb He Hin E) as Hb'.
      pose proof (admitted_live l' calls key _ a Hl' Ha Hw' Hb' Hn0) as H. simpl in H. lia.
    + destruct Hstep as [Hb'|Hb'].
      * pose proof (admitted_absent l' calls key a Hl' Ha Hw' Hb'). lia.
      * rewrite Hb in Hb'. rewrite <- Hwin in Hover. specialize (IH l' Hl' Ha Hw' Hb' Hover). lia.
Qed.

(** ** Theorems *)

(** C22. Within any time span no longer than the window, and whatever else the
    limiter is asked and in whatever order the clock readings come, one
    credential or address gets at most twice the limit of reviewer calls.  It
    gets at most the limit when at the start of the span its bucket does not
    exist or its window is over, and when its bucket was opened inside the span
    the calls counted before are included in the limit.  (Twice the limit is
    left for a span that begins in one window and ends in the next.) *)
Theorem admitted_bound l calls key a :
  invariant l → (0 < a)%Z → within l a calls →
  (Z.of_nat (admitted l calls key) ≤ 2 * limit l)%Z ∧
  match buckets l !! key with
  | None => (Z.of_nat (admitted l calls key) ≤ limit l)%Z
  | Some b =>
      ((rateBucket.started b + window l ≤ a)%Z → (Z.of_nat (admitted l calls key) ≤ limit l)%Z) ∧
      ((a ≤ rateBucket.started b)%Z →
       (Z.of_nat (admitted l calls key) + rateBucket.count b ≤ limit l)%Z)
  end.
Proof.
  intros Hl Ha Hw. destruct (buckets l !! key) as [b|] eqn:Hb.
  - pose proof (admitted_present l calls key b a Hl Ha Hw Hb).
    pose proof (inv_count l Hl _ _ Hb). simpl in *. split; [lia|]. split; intros Hs.
    + by apply admitted_over with b a.
    + by apply admitted_live with a.
  - pose proof (admitted_absent l calls key a Hl Ha Hw Hb). destruct Hl. split; [lia|done].
Qed.

(** The memory of the limiter is bounded: however many different
    credentials are seen, no run of a fresh limiter makes more than 8192
    buckets, and no count exceeds the limit. *)
Theorem limiter_bounded lim win calls oks l :
  (win ≤ int64_max)%Z → run (NewFixedWindowLimiter lim win) calls = (oks, l) →
  (bsize (buckets l) ≤ maxRateLimitBuckets)%Z ∧
  map_Forall (λ _ b, (1 ≤ rateBucket.count b ≤ limit l)%Z) (buckets l).
Proof.
  intros Hw H. eapply run_invariant in H; [|by apply New_invariant]. by destruct H.
Qed.

(** A refused call only sweeps expired buckets; it is charged to nobody. *)
Theorem denied_call_not_charged l now fingerprint ip l' key b :
  Allow (Some l) now fingerprint ip = (false, Some l') →
  buckets l !! key = Some b → expired l now b = false →
  buckets l' !! key = Some b ∧ buckets l' ⊆ buckets l.
Proof.
  unfold Allow. destruct (Allow_locked _ _ _) as [ok l1] eqn:E. intros [= -> ->] Hb He.
  destruct (Allow_locked_cases l now (limiter_keys fingerprint ip)) as [E'|(E' & _)];
    rewrite E' in E; simplify_eq/=.
  split; [by apply prune_lookup|apply prune_subseteq].
Qed.

(** ** Witnesses *)

Lemma admitted_bound_witness :
  let l := NewFixedWindowLimiter 2 minute in
  let calls := [(second, ("k", "")); (second + 1, ("k", "")); (second + 2, ("k", ""))]%string%Z in
  admitted l calls "key:k" = 2 ∧ (Z.of_nat (admitted l calls "key:k") ≤ limit l)%Z.
Proof.
  intros l calls. split; [vm_compute; reflexivity|].
  destruct (admitted_bound l calls "key:k" second) as [_ H].
  - apply New_invariant. vm_compute. discriminate.
  - reflexivity.
  - unfold within, calls. do 3 (apply Forall_cons; split; [split; vm_compute; congruence|]).
    by apply Forall_nil.
  - exact H.
Defined.

Lemma limiter_bounded_witness :
  let r := run (NewFixedWindowLimiter 1 minute) [(second, ("k", "ip")%string)] in
  r.1 = [true] ∧ (bsize (buckets r.2) ≤ maxRateLimitBuckets)%Z.
Proof.
  intros r. split; [vm_compute; reflexivity|].
  assert (minute ≤ int64_max)%Z as Hw by (vm_compute; discriminate).
  assert (r = (r.1, r.2)) as Hr by (destruct r; reflexivity).
  exact (proj1 (limiter_bounded 1 minute _ _ _ Hw Hr)).
Defined.
