(* ===== verification/Gate.v ===== *)
(** * The concurrency gate ([internal/audit/bulkhead.go])

    [ConcurrencyGate] bounds the reviews in flight across configuration
    reloads.  The mutex makes each critical section atomic, so the gate is a
    step relation: a world is the gate and the goroutines that have called
    [Acquire], and a step is one critical section or one [select] case.  The
    channel [changed] is a generation number: [notifyLocked] closes the current
    generation and makes the next, so a generation is closed when it is
    smaller than the one of the gate. *)

From S2P Require Export AuditTypes.

Module ConcurrencyGate.
Record t : Type := mk { limit : Z; inUse : Z; changed : nat }.
End ConcurrencyGate.
Import ConcurrencyGate.

Definition NewConcurrencyGate (limit : Z) : ConcurrencyGate.t :=
  ConcurrencyGate.mk (if (limit <? 1)%Z then DefaultAIConcurrency else limit) 0 0.

Definition notifyLocked (g : ConcurrencyGate.t) : ConcurrencyGate.t :=
  ConcurrencyGate.mk (limit g) (inUse g) (S (changed g)).

Definition SetLimit (g : ConcurrencyGate.t) (n : Z) : ConcurrencyGate.t :=
  if (n <? 1)%Z then g
  else if (limit g =? n)%Z then g
  else notifyLocked (ConcurrencyGate.mk n (inUse g) (changed g)).

(** The locked part of one round of the loop of [Acquire]: a slot, or the
    channel to wait on. *)
Definition try_acquire (g : ConcurrencyGate.t) : ConcurrencyGate.t * option nat :=
  if (inUse g <? limit g)%Z
  then (ConcurrencyGate.mk (limit g) (inUse g + 1) (changed g), None)
  else (g, Some (changed g)).

(** The body of the release function, which [sync.Once] runs at most once. *)
Definition release (g : ConcurrencyGate.t) : ConcurrencyGate.t :=
  notifyLocked (ConcurrencyGate.mk (limit g)
    (if (0 <? inUse g)%Z then inUse g - 1 else inUse g) (changed g)).

(** Where a goroutine is in [Acquire] or after it. *)
Inductive phase : Type :=
| Trying
| Waiting (channel : nat)
| Holding
| Released
| Failed (err : audit_err).

Definition holding (p : phase) : bool := match p with Holding => true | _ => false end.

Record world : Type := mk_world { gate : ConcurrencyGate.t; threads : list phase }.

Definition holders (w : world) : nat := countb holding (threads w).

Definition closed (g : ConcurrencyGate.t) (channel : nat) : Prop := channel < changed g.

Inductive step : world → world → Prop :=
| step_call g ts : step (mk_world g ts) (mk_world g (ts ++ [Trying]))
| step_try g ts i g' r :
    ts !! i = Some Trying → try_acquire g = (g', r) →
    step (mk_world g ts)
         (mk_world g' (<[i := match r with None => Holding | Some c => Waiting c end]> ts))
| step_wake g ts i c :
    ts !! i = Some (Waiting c) → closed g c →
    step (mk_world g ts) (mk_world g (<[i := Trying]> ts))
| step_timer g ts i c :
    ts !! i = Some (Waiting c) →
    step (mk_world g ts) (mk_world g (<[i := Failed ErrAIQueueFull]> ts))
| step_done g ts i c err :
    ts !! i = Some (Waiting c) → err ∈ [ContextCanceled; ContextDeadlineExceeded] →
    step (mk_world g ts) (mk_world g (<[i := Failed err]> ts))
| step_release g ts i :
    ts !! i = Some Holding →
    step (mk_world g ts) (mk_world (release g) (<[i := Released]> ts))
| step_release_again g ts i :
    ts !! i = Some Released →
    step (mk_world g ts) (mk_world g ts)
| step_SetLimit g ts n :
    step (mk_world g ts) (mk_world (SetLimit g n) ts).

Definition init (n : Z) : world := mk_world (NewConcurrencyGate n) [].

(** ** Invariants *)

Lemma countb_insert {A} (f : A → bool) (l : list A) i x y :
  l !! i = Some x →
  countb f (<[i := y]> l) + (if f x then 1 else 0) = countb f l + (if f y then 1 else 0).
Proof.
  revert i. induction l as [|z l IH]; intros [|i] H; simplify_eq/=; [lia|].
  specialize (IH i H). lia.
Qed.

(** The counter is the number of holders, the limit is positive, and a
    goroutine waits on an open channel only while there is no free slot. *)
Record invariant (w : world) : Prop := {
  inv_inUse : inUse (gate w) = Z.of_nat (holders w);
  inv_limit : (1 ≤ limit (gate w))%Z;
  inv_channel : ∀ i c, threads w !! i = Some (Waiting c) →
    c ≤ changed (gate w) ∧ (c = changed (gate w) → (limit (gate w) ≤ inUse (gate w))%Z);
}.

Lemma init_invariant n : invariant (init n).
Proof.
  split; simpl; [done| |done].
  destruct (n <? 1)%Z eqn:E; to_prop; [vm_compute; congruence|done].
Qed.

Ltac lookup_cases H :=
  match type of H with
  | <[?i := _]> ?l !! ?j = Some _ =>
      destruct (decide (i = j)) as [->|?];
      [rewrite list_lookup_insert_eq in H by (by eapply lookup_lt_Some); simplify_eq
      |rewrite list_lookup_insert_ne in H by done]
  end.

Lemma step_invariant w w' : invariant w → step w w' → invariant w'.
Proof.
  intros [Hu Hl Hc] Hs. unfold holders in *.
  destruct Hs as [g ts|g ts i g' r Hi Ht|g ts i c Hi Hcl|g ts i c Hi|g ts i c err Hi _
                 |g ts i Hi|g ts i Hi|g ts n]; simpl in *.
  - split; simpl; [unfold holders; simpl; rewrite countb_app; simpl; lia|done|].
    intros i c [H|[_ H]]%lookup_app_Some; [by eapply Hc|]. by apply list_lookup_singleton_Some in H as [_ ?].
  - unfold try_acquire in Ht. destruct (_ <? _)%Z eqn:E; simplify_eq; to_prop;
      (split; unfold holders; simpl; [|done|]).
    + pose proof (countb_insert holding ts i Trying Holding Hi). simpl in *. lia.
    + intros j c Hj. lookup_cases Hj. destruct (Hc j c Hj). split; [done|]. lia.
    + pose proof (countb_insert holding ts i Trying (Waiting (changed g')) Hi). simpl in *. lia.
    + intros j c Hj. lookup_cases Hj; [|by eapply Hc]. done.
  - split; unfold holders; simpl; [|done|].
    + pose proof (countb_insert holding ts i _ Trying Hi). simpl in *. lia.
    + intros j c' Hj. lookup_cases Hj. by eapply Hc.
  - split; unfold holders; simpl; [|done|].
    + pose proof (countb_insert holding ts i _ (Failed ErrAIQueueFull) Hi). simpl in *. lia.
    + intros j c' Hj. lookup_cases Hj. by eapply Hc.
  - split; unfold holders; simpl; [|done|].
    + pose proof (countb_insert holding ts i _ (Failed err) Hi). simpl in *. lia.
    + intros j c' Hj. lookup_cases Hj. by eapply Hc.
  - split; unfold holders; simpl; [|done|].
    + pose proof (countb_insert holding ts i _ Released Hi). simpl in *.
      replace (0 <? inUse g)%Z with true by lia. lia.
    + intros j c Hj. lookup_cases Hj. destruct (Hc j c Hj). split; lia.
  - by split.
  - unfold SetLimit. destruct (n <? 1)%Z eqn:E1; [by split|].
    destruct (limit g =? n)%Z eqn:E2; [by split|]. to_prop.
    split; simpl; [done|lia|]. intros i c Hi. destruct (Hc i c Hi). split; lia.
Qed.

Lemma reachable_invariant n w : rtc step (init n) w → invariant w.
Proof.
  intros H. pose proof (init_invariant n) as Hi.
  induction H as [w|w1 w2 w3 H12 _ IH]; [done|]. apply IH. by eapply step_invariant.
Qed.

(** ** Theorems *)

(** C23. The slots in use are exactly the holders whose release function has not
    run, in every reachable world: no slot leaks and none is freed twice. *)
Theorem inUse_is_holders n w :
  rtc step (init n) w → inUse (gate w) = Z.of_nat (holders w).
Proof. intros H. by apply reachable_invariant in H as []. Qed.

(** Runs in which every limit that is set is at most [L]. *)
Definition step_upto (L : Z) (w w' : world) : Prop :=
  step w w' ∧ (limit (gate w') ≤ L)%Z.

(** The number of reviews in flight never exceeds the largest limit that
    was configured, reloads included. *)
Theorem holders_bounded n L w :
  (limit (gate (init n)) ≤ L)%Z → rtc (step_upto L) (init n) w → (Z.of_nat (holders w) ≤ L)%Z.
Proof.
  intros HL H.
  assert (invariant w ∧ (inUse (gate w) ≤ L)%Z ∧ (limit (gate w) ≤ L)%Z) as (Hw & ? & _).
  { revert H. apply (rtc_ind_r (λ w, invariant w ∧ (inUse (gate w) ≤ L)%Z ∧ (limit (gate w) ≤ L)%Z)).
    - split; [apply init_invariant|]. simpl in *. pose proof (inv_limit _ (init_invariant n)).
      simpl in *. lia.
    - intros w1 w2 _ [Hs HL2] (Hi & Hu & HL1). split; [by eapply step_invariant|].
      split; [|done]. destruct Hs as [| g ts i g' r Hi' Ht| | | | | |]; simpl in *; try done.
      + unfold try_acquire in Ht. destruct (inUse g <? limit g)%Z eqn:E; simplify_eq/=; to_prop; lia.
      + destruct (0 <? inUse g)%Z; lia.
      + unfold SetLimit. by repeat case_match. }
  destruct Hw as [<- _ _]. done.
Qed.

(** C24. No wakeup is lost: when a slot is free, every goroutine that waits in
    [Acquire] has its channel closed, and two of its steps give it the slot. *)
Theorem free_slot_wakes_waiters n w i c :
  rtc step (init n) w → (inUse (gate w) < limit (gate w))%Z →
  threads w !! i = Some (Waiting c) →
  closed (gate w) c ∧
  ∃ w1 w2, step w w1 ∧ step w1 w2 ∧ threads w2 !! i = Some Holding ∧
           holders w2 = S (holders w).
Proof.
  intros Hr Hlt Hi. apply reachable_invariant in Hr as [Hu Hl Hc].
  destruct (Hc i c Hi) as [Hle Heq]. assert (closed (gate w) c) as Hcl.
  { unfold closed. destruct (decide (c = changed (gate w))) as [->|]; [|lia].
    specialize (Heq eq_refl). lia. }
  split; [done|]. destruct w as [g ts]; simpl in *.
  pose proof (lookup_lt_Some _ _ _ Hi) as Hlen.
  assert (<[i := Trying]> ts !! i = Some Trying) as Hi1 by (by apply list_lookup_insert_eq).
  exists (mk_world g (<[i := Trying]> ts)), (mk_world (try_acquire g).1 (<[i := Holding]> (<[i := Trying]> ts))).
  assert (try_acquire g = ((try_acquire g).1, None)) as Ht.
  { unfold try_acquire. by replace (inUse g <? limit g)%Z with true by lia. }
  split_and!.
  - by eapply step_wake.
  - exact (step_try g _ i _ None Hi1 Ht).
  - simpl. apply list_lookup_insert_eq. by rewrite length_insert.
  - unfold holders. simpl.
    pose proof (countb_insert holding ts i _ Trying Hi).
    pose proof (countb_insert holding _ i _ Holding Hi1). simpl in *. lia.
Qed.

(** ** Witnesses *)

(** One slot, held by the first goroutine; the second waits. *)
Definition one_waiter : world := mk_world (ConcurrencyGate.mk 1 1 0) [Holding; Waiting 0].

Lemma one_waiter_reachable : rtc (step_upto 1) (init 1) one_waiter.
Proof.
  apply rtc_l with (mk_world (ConcurrencyGate.mk 1 0 0) [Trying]);
    [split; [exact (step_call (ConcurrencyGate.mk 1 0 0) [])|done]|].
  apply rtc_l with (mk_world (ConcurrencyGate.mk 1 1 0) [Holding]);
    [split; [exact (step_try (ConcurrencyGate.mk 1 0 0) [Trying] 0 _ None eq_refl eq_refl)|done]|].
  apply rtc_l with (mk_world (ConcurrencyGate.mk 1 1 0) [Holding; Trying]);
    [split; [exact (step_call (ConcurrencyGate.mk 1 1 0) [Holding])|done]|].
  apply rtc_once. split; [exact (step_try (ConcurrencyGate.mk 1 1 0) [Holding; Trying] 1 _ (Some 0) eq_refl eq_refl)|done].
Qed.

Lemma step_upto_step L w w' : rtc (step_upto L) w w' → rtc step w w'.
Proof.
  induction 1 as [w|w1 w2 w3 [H _] _ IH]; [done|]. by eapply rtc_l.
Qed.

Definition after_release : world := mk_world (release (gate one_waiter)) [Released; Waiting 0].

Lemma after_release_reachable : rtc step (init 1) after_release.
Proof.
  eapply rtc_r; [eapply step_upto_step, one_waiter_reachable|].
  exact (step_release (ConcurrencyGate.mk 1 1 0) [Holding; Waiting 0] 0 eq_refl).
Qed.

Lemma inUse_is_holders_witness : inUse (gate one_waiter) = 1%Z.
Proof. exact (inUse_is_holders 1 one_waiter (step_upto_step 1 _ _ one_waiter_reachable)). Defined.

Lemma holders_bounded_witness : (Z.of_nat (holders one_waiter) ≤ 1)%Z.
Proof. apply (holders_bounded 1 1); [vm_compute; discriminate|apply one_waiter_reachable]. Defined.

Lemma free_slot_wakes_waiters_witness : closed (gate after_release) 0.
Proof.
  apply (free_slot_wakes_waiters 1 after_release 1 0).
  - apply after_release_reachable.
  - vm_compute. reflexivity.
  - reflexivity.
Defined.
