(* ===== verification/Profile.v ===== *)
(** * Client profiles ([internal/audit/profile.go])

    Administrators register client profiles with matchers on the User-Agent
    header; [NewProfileMatcher] validates and sorts them and [Match] finds the
    first profile that recognises a client.  RE2 is not part of the program:
    [regexp.Compile] and [MatchString] are the interface [Regexp]. *)

From S2P Require Export AuditTypes Utf8.

Class Regexp := {
  regexp : Type;
  regexp_Compile : string → option regexp;
  regexp_MatchString : regexp → string → bool;
}.

Module Matcher.
Record t : Type := mk { Type_ : string; Value : string; CaseSensitive : bool }.
End Matcher.

Module ClientProfile.
Record t : Type := mk {
  Key : string;
  Name : string;
  Description : string;
  Priority : Z;
  Enabled : bool;
  Matchers : list Matcher.t;
}.
Definition zero : t := mk "" "" "" 0 false [].
End ClientProfile.

#[export] Instance Matcher_eq_dec : EqDecision Matcher.t.
Proof. solve_decision. Defined.
#[export] Instance ClientProfile_eq_dec : EqDecision ClientProfile.t.
Proof. solve_decision. Defined.

Definition in_range (lo hi : ascii) (c : ascii) : bool :=
  (code lo <=? code c)%N && (code c <=? code hi)%N.
Definition lower_alpha : ascii → bool := in_range "a" "z".
Definition digit : ascii → bool := in_range "0" "9".

(** [^[a-z][a-z0-9_]{1,63}$] *)
Definition profileKeyPattern (s : string) : bool :=
  match B s with
  | [] => false
  | c :: l =>
      lower_alpha c && forallb (λ c, lower_alpha c || digit c || bool_decide (c = "_"%char)) l &&
      (1 <=? length l)%nat && (length l <=? 63)%nat
  end.

(** Go's [<] on strings compares bytes. *)
Fixpoint bytes_lt (l k : bytes) : bool :=
  match l, k with
  | _, [] => false
  | [], _ :: _ => true
  | x :: l, y :: k =>
      (code x <? code y)%N || (bool_decide (x = y) && bytes_lt l k)
  end.
Definition string_lt (s t : string) : bool := bytes_lt (B s) (B t).

(** The stable sort of [sort.SliceStable]. *)
Section stable_sort.
Context {A : Type} (less : A → A → bool).
Fixpoint insert_stable (x : A) (l : list A) : list A :=
  match l with
  | [] => [x]
  | y :: l => if less y x then y :: insert_stable x l else x :: y :: l
  end.
Definition sort_stable (l : list A) : list A := foldr insert_stable [] l.
End stable_sort.

(** The errors of this file. *)
Inductive profile_err : Type :=
| InvalidProfile (key : string)
| DuplicateProfile (key : string)
| MatcherCount (key : string)
| MatcherEmptyOrTooLong
| InvalidRE2
| MatcherType.

#[export] Instance profile_err_eq_dec : EqDecision profile_err.
Proof. solve_decision. Defined.

Section profile.
Context `{U : Unicode, R : Regexp}.

Record compiledMatcher : Type := mk_compiledMatcher {
  kind : string;
  value : string;
  caseSensitive : bool;
  regex : option regexp;
}.

Record compiledProfile : Type := mk_compiledProfile {
  profile : ClientProfile.t;
  matchers : list compiledMatcher;
}.

(** [type ProfileMatcher struct { profiles []compiledProfile }] *)
Definition ProfileMatcher : Type := list compiledProfile.

Definition compileMatcher (matcher : Matcher.t) : result profile_err compiledMatcher :=
  let kind := to_lower (trim_space (Matcher.Type_ matcher)) in
  let value := trim_space (Matcher.Value matcher) in
  if (value =? "")%string || (512 <? slen value)%Z then Err MatcherEmptyOrTooLong else
  let result := mk_compiledMatcher kind value (Matcher.CaseSensitive matcher) in
  if (kind =? "prefix")%string then Ok (result None)
  else if (kind =? "exact")%string then Ok (result None)
  else if (kind =? "regex")%string then
    let pattern := if Matcher.CaseSensitive matcher then value else "(?i:" +:+ value +:+ ")" in
    match regexp_Compile pattern with
    | Some compiled => Ok (result (Some compiled))
    | None => Err InvalidRE2
    end
  else Err MatcherType.

Fixpoint compile_all (ms : list Matcher.t) : result profile_err (list compiledMatcher) :=
  match ms with
  | [] => Ok []
  | m :: ms => c ← compileMatcher m; cs ← compile_all ms; Ok (c :: cs)
  end.

(** The trimmed copy of a profile that the loop works on. *)
Definition trim_profile (p : ClientProfile.t) : ClientProfile.t :=
  ClientProfile.mk (to_lower (trim_space (ClientProfile.Key p)))
    (trim_space (ClientProfile.Name p)) (trim_space (ClientProfile.Description p))
    (ClientProfile.Priority p) (ClientProfile.Enabled p) (ClientProfile.Matchers p).

(** One round of the loop of [NewProfileMatcher]. *)
Definition compile_profile (seen : list string) (p : ClientProfile.t) :
    result profile_err compiledProfile :=
  let p := trim_profile p in
  let key := ClientProfile.Key p in
  if negb (profileKeyPattern key) || (ClientProfile.Name p =? "")%string ||
     (120 <? slen (ClientProfile.Name p))%Z || (500 <? slen (ClientProfile.Description p))%Z
  then Err (InvalidProfile key)
  else if bool_decide (key ∈ seen) then Err (DuplicateProfile key)
  else if (length (ClientProfile.Matchers p) =? 0)%nat ||
          (32 <? length (ClientProfile.Matchers p))%nat then Err (MatcherCount key)
  else ms ← compile_all (ClientProfile.Matchers p); Ok (mk_compiledProfile p ms).

Fixpoint compile_profiles (seen : list string) (compiled : list compiledProfile)
    (ps : list ClientProfile.t) : result profile_err (list compiledProfile) :=
  match ps with
  | [] => Ok compiled
  | p :: ps =>
      c ← compile_profile seen p;
      compile_profiles (ClientProfile.Key (profile c) :: seen)
        (if ClientProfile.Enabled (profile c) then compiled ++ [c] else compiled) ps
  end.

(** Priority first, key second. *)
Definition profile_less (a b : compiledProfile) : bool :=
  if (ClientProfile.Priority (profile a) =? ClientProfile.Priority (profile b))%Z
  then string_lt (ClientProfile.Key (profile a)) (ClientProfile.Key (profile b))
  else (ClientProfile.Priority (profile a) <? ClientProfile.Priority (profile b))%Z.

Definition NewProfileMatcher (profiles : list ClientProfile.t) :
    result profile_err ProfileMatcher :=
  compiled ← compile_profiles [] [] profiles; Ok (sort_stable profile_less compiled).

Definition matches (m : compiledMatcher) (userAgent : string) : bool :=
  if (kind m =? "exact")%string then
    if caseSensitive m then (userAgent =? value m)%string else equal_fold userAgent (value m)
  else if (kind m =? "prefix")%string then
    if caseSensitive m then has_prefix userAgent (value m)
    else if (slen userAgent <? slen (value m))%Z then false
    else equal_fold (S_ (take (length (B (value m))) (B userAgent))) (value m)
  else if (kind m =? "regex")%string then
    match regex m with Some r => regexp_MatchString r userAgent | None => false end
  else false.

Definition ValidUserAgent (value : string) : bool :=
  let value := trim_space value in
  negb (value =? "")%string && (slen value <=? DefaultEventClientMaxSize)%Z &&
  valid_utf8 (B value) && forallb (λ r, negb (is_control (rn r))) (runes (B value)).

(** [Match]; the nil matcher is [None]. *)
Definition Match (matcher : option ProfileMatcher) (userAgent : string) :
    option ClientProfile.t :=
  match matcher with
  | None => None
  | Some profiles =>
      if negb (ValidUserAgent userAgent) then None else
      let userAgent := trim_space userAgent in
      profile <$> List.find (λ p, existsb (λ m, matches m userAgent) (matchers p)) profiles
  end.

(** ** [SanitizeUserAgent] *)

(** [utf8.DecodeLastRuneInString], the size. *)
Definition decode_last_size (l : bytes) : nat :=
  let size_from k :=
    match drop (length l - k) l with
    | b :: t => let r := decode_rune b t in if (rsize r =? k)%nat then k else 1
    | [] => 0
    end in
  let starts k :=
    match drop (length l - k) l with b :: _ => negb (cont b) | [] => false end in
  if (length l =? 0)%nat then 0
  else if starts 1 then size_from 1
  else if (2 <=? length l)%nat && starts 2 then size_from 2
  else if (3 <=? length l)%nat && starts 3 then size_from 3
  else if (4 <=? length l)%nat && starts 4 then size_from 4
  else 1.

Fixpoint sanitize_loop (rs : list rune_at) (builder : bytes) : bytes :=
  match rs with
  | [] => builder
  | r :: rs =>
      if is_control (rn r) then sanitize_loop rs builder else
      let builder := builder ++ encode_rune (rn r) in
      if (DefaultEventClientMaxSize <=? Z.of_nat (length builder))%Z then builder
      else sanitize_loop rs builder
  end.

Fixpoint truncate_loop (n : nat) (l : bytes) : bytes :=
  match n with
  | O => l
  | S n =>
      if (DefaultEventClientMaxSize <? Z.of_nat (length l))%Z
      then truncate_loop n (take (length l - decode_last_size l) l) else l
  end.

Definition SanitizeUserAgent (value : string) : string :=
  let value := trim_space value in
  if negb (valid_utf8 (B value)) then "" else
  let result := sanitize_loop (runes (B value)) [] in
  S_ (truncate_loop (length result) result).

Definition DefaultClientProfiles : list ClientProfile.t :=
  let prefix v := Matcher.mk "prefix" v false in
  [ ClientProfile.mk "codex_vscode" "Codex VS Code" "" 10 true
      [prefix "codex_vscode/"; prefix "codex_vscode_copilot/"];
    ClientProfile.mk "codex_cli" "Codex CLI" "" 20 true
      [prefix "codex_cli_rs/"; prefix "codex-tui/"];
    ClientProfile.mk "codex_desktop" "Codex Desktop" "" 30 true
      [prefix "Codex Desktop/"; prefix "codex_chatgpt_desktop/"] ]%string.
End profile.

(** ** The order of the profiles *)

Lemma bytes_lt_irrefl l : bytes_lt l l = false.
Proof.
  induction l as [|x l IH]; simpl; [done|]. rewrite IH, andb_false_r, orb_false_r.
  apply N.ltb_irrefl.
Qed.

(** Not being smaller is transitive and antisymmetric. *)
Lemma bytes_ge_trans l k m :
  bytes_lt k l = false → bytes_lt m k = false → bytes_lt m l = false.
Proof.
  revert k m. induction l as [|x l IH]; intros [|y k] [|z m]; simpl; try done.
  intros [H1%N.ltb_ge H2]%orb_false_iff [H3%N.ltb_ge H4]%orb_false_iff.
  apply orb_false_iff. split; [apply N.ltb_ge; lia|].
  apply andb_false_iff in H2, H4. apply andb_false_iff.
  destruct (decide (z = x)) as [->|Hzx]; [right|left; by apply bool_decide_false].
  assert (code x = code y) as Hxy by lia.
  assert (x = y) as <-.
  { rewrite <- (ascii_N_embedding x), <- (ascii_N_embedding y). unfold code in Hxy. by rewrite Hxy. }
  rewrite bool_decide_true in H2, H4 by done. destruct H2, H4; try done. by eapply IH.
Qed.

Lemma bytes_ge_antisym l k : bytes_lt l k = false → bytes_lt k l = false → l = k.
Proof.
  revert k. induction l as [|x l IH]; intros [|y k]; simpl; try done.
  intros [H1%N.ltb_ge H2]%orb_false_iff [H3%N.ltb_ge H4]%orb_false_iff.
  assert (x = y) as <-.
  { rewrite <- (ascii_N_embedding x), <- (ascii_N_embedding y). f_equal. unfold code in *. lia. }
  rewrite bool_decide_true in H2, H4 by done. f_equal. by apply IH.
Qed.

(** [sort_stable] sorts by every comparison whose negation is a total preorder. *)
Section sort_facts.
Context {A : Type} (less : A → A → bool).
Context (less_asym : ∀ x y, less x y = true → less y x = false).
Context (ge_trans : ∀ x y z, less y x = false → less z y = false → less z x = false).

Definition in_order (x y : A) : Prop := less y x = false.

Lemma insert_stable_Permutation x l : insert_stable less x l ≡ₚ x :: l.
Proof.
  induction l as [|y l IH]; simpl; [done|]. destruct (less y x); [|done].
  rewrite IH. apply Permutation_swap.
Qed.

Lemma sort_stable_Permutation l : sort_stable less l ≡ₚ l.
Proof.
  induction l as [|x l IH]; simpl; [done|]. by rewrite insert_stable_Permutation, IH.
Qed.

Lemma insert_stable_sorted x l :
  StronglySorted in_order l → StronglySorted in_order (insert_stable less x l).
Proof.
  induction 1 as [|y l Hl IH Hy]; simpl; [by repeat constructor|].
  destruct (less y x) eqn:E.
  - constructor; [done|]. rewrite insert_stable_Permutation.
    constructor; [by apply less_asym|done].
  - constructor; [by constructor|]. constructor; [done|].
    eapply Forall_impl; [exact Hy|]. intros z Hz. by eapply ge_trans.
Qed.

Lemma sort_stable_sorted l : StronglySorted in_order (sort_stable less l).
Proof. induction l as [|x l IH]; simpl; [constructor|by apply insert_stable_sorted]. Qed.

(** A search in the sorted list finds a least element with the property. *)
Lemma find_least (P : A → bool) l x :
  (∀ y, less y y = false) →
  List.find P (sort_stable less l) = Some x →
  x ∈ l ∧ P x = true ∧ ∀ y, y ∈ l → P y = true → less y x = false.
Proof.
  intros Hirr.
  assert (∀ y, y ∈ l ↔ y ∈ sort_stable less l) as Hl.
  { intros y. by rewrite sort_stable_Permutation. }
  setoid_rewrite Hl. clear Hl.
  generalize (sort_stable_sorted l). generalize (sort_stable less l). clear l.
  induction 1 as [|z l Hl IH Hz]; simpl; [done|]. destruct (P z) eqn:E.
  - intros [= ->]. split; [left|]. split; [done|]. intros y [->|Hy]%elem_of_cons _; [done|].
    rewrite Forall_forall in Hz. by apply Hz.
  - intros [H1 [H2 H3]]%IH. split; [by right|]. split; [done|].
    intros y [->|Hy]%elem_of_cons HPy; [congruence|by apply H3].
Qed.
End sort_facts.

Section profile_facts.
Context `{U : Unicode, R : Regexp}.

Lemma profile_less_irrefl a : profile_less a a = false.
Proof. unfold profile_less. rewrite Z.eqb_refl. apply bytes_lt_irrefl. Qed.

Lemma profile_ge_trans a b c :
  profile_less b a = false → profile_less c b = false → profile_less c a = false.
Proof.
  unfold profile_less.
  generalize (ClientProfile.Priority (profile a)), (ClientProfile.Priority (profile b)),
    (ClientProfile.Priority (profile c)). intros pa pb pc.
  destruct (Z.eqb_spec pb pa), (Z.eqb_spec pc pb), (Z.eqb_spec pc pa); intros H1 H2;
    try lia; by eapply bytes_ge_trans.
Qed.

Lemma profile_less_asym a b : profile_less a b = true → profile_less b a = false.
Proof.
  unfold profile_less. rewrite (Z.eqb_sym (ClientProfile.Priority (profile b))).
  destruct (_ =? _)%Z eqn:E; to_prop; intros H; to_prop; [|apply Z.ltb_ge; lia].
  unfold string_lt in *. destruct (bytes_lt (B (ClientProfile.Key (profile b))) _) eqn:E2; [|done].
  exfalso.
  assert (∀ l k, bytes_lt l k = true → bytes_lt k l = true → False) as Hasym; [|by eapply Hasym].
  clear. induction l as [|x l IH]; intros [|y k]; simpl; try done.
  intros [H1%N.ltb_lt|[H1 H1']%andb_true_iff]%orb_true_iff
         [H2%N.ltb_lt|[H2 H2']%andb_true_iff]%orb_true_iff; to_prop; subst; try lia. by eapply IH.
Qed.

Lemma compile_all_Forall2 ms cs :
  compile_all ms = Ok cs → Forall2 (λ m c, compileMatcher m = Ok c) ms cs.
Proof.
  revert cs. induction ms as [|m ms IH]; intros cs; cbn [compile_all].
  - intros [= <-]. constructor.
  - destruct (compileMatcher m) as [c|e] eqn:E; simpl; [|done].
    destruct (compile_all ms) as [cs'|e]; simpl; [|done]. intros [= <-].
    constructor; [done|]. by apply IH.
Qed.

Lemma compile_profile_ok seen p c :
  compile_profile seen p = Ok c →
  profile c = trim_profile p ∧ (ClientProfile.Key (profile c) ∉ seen) ∧
  compile_all (ClientProfile.Matchers p) = Ok (matchers c).
Proof.
  unfold compile_profile. destruct (_ || _); [done|].
  destruct (bool_decide _) eqn:E; [done|]. to_prop. destruct (_ || _); [done|].
  change (ClientProfile.Matchers (trim_profile p)) with (ClientProfile.Matchers p).
  destruct (compile_all _) as [ms|e]; simpl; [|done]. intros [= <-]. done.
Qed.

(** The enabled profiles with their compiled matchers, in the given order. *)
Lemma compile_profiles_ok seen compiled ps cs :
  compile_profiles seen compiled ps = Ok cs →
  ∃ all, Forall2 (λ p c, profile c = trim_profile p ∧
                         compile_all (ClientProfile.Matchers p) = Ok (matchers c)) ps all ∧
    cs = compiled ++ filter (λ c, ClientProfile.Enabled (profile c) = true) all ∧
    NoDup (map (λ c, ClientProfile.Key (profile c)) all) ∧
    Forall (λ c, ClientProfile.Key (profile c) ∉ seen) all.
Proof.
  revert seen compiled. induction ps as [|p ps IH]; intros seen compiled; cbn [compile_profiles].
  - intros [= <-]. exists []. split_and!; try done; [by rewrite app_nil_r|constructor].
  - destruct (compile_profile seen p) as [c|e] eqn:E; simpl; [|done].
    apply compile_profile_ok in E as (H1 & H2 & H3).
    intros (all & Hall & -> & Hnd & Hns)%IH. exists (c :: all). split_and!.
    + by constructor.
    + rewrite filter_cons. destruct (ClientProfile.Enabled (profile c)) eqn:Een.
      * rewrite decide_True by done. by rewrite <- app_assoc.
      * by rewrite decide_False by done.
    + simpl. constructor; [|done]. rewrite list_elem_of_fmap. intros (c' & Heq & Hc').
      rewrite Forall_forall in Hns. apply (Hns c' Hc'). rewrite <- Heq. left.
    + constructor; [done|]. eapply Forall_impl; [exact Hns|].
      intros c' Hc' Hin. apply Hc'. by right.
Qed.

(** A profile recognises a client when one of its matchers does. *)
Definition recognises (p : ClientProfile.t) (userAgent : string) : Prop :=
  ∃ m c, m ∈ ClientProfile.Matchers p ∧ compileMatcher m = Ok c ∧
         matches c (trim_space userAgent) = true.

Lemma recognises_compiled p c userAgent :
  compile_all (ClientProfile.Matchers p) = Ok (matchers c) →
  (existsb (λ m, matches m (trim_space userAgent)) (matchers c) = true) ↔ recognises p userAgent.
Proof.
  intros H%compile_all_Forall2. rewrite existsb_Exists, Exists_exists. split.
  - intros (k & Hk & Hm). apply list_elem_of_lookup in Hk as [i Hi].
    destruct (Forall2_lookup_r _ _ _ _ _ H Hi) as (m & Hmi & Hc).
    exists m, k. split_and!; [by eapply list_elem_of_lookup_2|done..].
  - intros (m & k & Hm & Hk & Hmatch). apply list_elem_of_lookup in Hm as [i Hi].
    destruct (Forall2_lookup_l _ _ _ _ _ H Hi) as (k' & Hki & Hc).
    assert (k' = k) as -> by congruence. exists k. split; [by eapply list_elem_of_lookup_2|done].
Qed.

(** [p] comes before [q]. *)
Definition before (p q : ClientProfile.t) : Prop :=
  (ClientProfile.Priority p < ClientProfile.Priority q)%Z ∨
  (ClientProfile.Priority p = ClientProfile.Priority q ∧
   string_lt (ClientProfile.Key p) (ClientProfile.Key q) = true).

Lemma before_less c d : before (profile c) (profile d) → profile_less c d = true.
Proof.
  unfold before, profile_less. intros [H|[H1 H2]].
  - replace (_ =? _)%Z with false by lia. by apply Z.ltb_lt.
  - by rewrite H1, Z.eqb_refl.
Qed.

(** [Match] returns the first enabled profile, by priority and then by
    key, one of whose matchers recognises the trimmed User-Agent, and nothing
    when there is none or when the header is malformed. *)
Theorem Match_spec profiles m userAgent :
  NewProfileMatcher profiles = Ok m →
  match Match (Some m) userAgent with
  | Some q =>
      ValidUserAgent userAgent = true ∧
      (∃ p, p ∈ profiles ∧ q = trim_profile p ∧ ClientProfile.Enabled p = true ∧
            recognises p userAgent) ∧
      ∀ p, p ∈ profiles → ClientProfile.Enabled p = true → recognises p userAgent →
           ¬ before (trim_profile p) q
  | None =>
      ValidUserAgent userAgent = false ∨
      ∀ p, p ∈ profiles → ClientProfile.Enabled p = true → ¬ recognises p userAgent
  end.
Proof.
  unfold NewProfileMatcher.
  destruct (compile_profiles [] [] profiles) as [cs|e] eqn:E; simpl; [|done]. intros [= <-].
  apply compile_profiles_ok in E as (all & Hall & -> & _ & _). simpl app.
  set (cs := filter _ all). unfold Match.
  destruct (ValidUserAgent userAgent) eqn:Hv; simpl; [|by left].
  assert (∀ p, p ∈ profiles → ClientProfile.Enabled p = true → recognises p userAgent →
    ∃ c, c ∈ cs ∧ profile c = trim_profile p ∧
         existsb (λ m, matches m (trim_space userAgent)) (matchers c) = true) as Hin.
  { intros p [i Hi]%list_elem_of_lookup Hen Hrec.
    destruct (Forall2_lookup_l _ _ _ _ _ Hall Hi) as (c & Hci & Hpc & Hms).
    exists c. split_and!; [|done|by apply (recognises_compiled p)].
    apply list_elem_of_filter. rewrite Hpc. split; [done|]. by eapply list_elem_of_lookup_2. }
  destruct (List.find _ _) as [c|] eqn:Hf; simpl.
  - apply find_least in Hf as (Hc & Hm & Hleast);
      [|exact profile_less_asym|exact profile_ge_trans|exact profile_less_irrefl].
    split; [done|]. split.
    + apply list_elem_of_filter in Hc as [Hen [i Hi]%list_elem_of_lookup].
      destruct (Forall2_lookup_r _ _ _ _ _ Hall Hi) as (p & Hpi & Hpc & Hms).
      exists p. split_and!; [by eapply list_elem_of_lookup_2|done|by rewrite Hpc in Hen|].
      by apply (recognises_compiled p c).
    + intros p Hp Hen Hrec Hbefore. destruct (Hin p Hp Hen Hrec) as (d & Hd & Hpd & Hmd).
      rewrite <- Hpd in Hbefore. apply before_less in Hbefore.
      rewrite (Hleast d Hd Hmd) in Hbefore. done.
  - right. intros p Hp Hen Hrec. destruct (Hin p Hp Hen Hrec) as (c & Hc & _ & Hm).
    rewrite <- (sort_stable_Permutation profile_less) in Hc.
    pose proof (List.find_none _ _ Hf c) as Hnone. cbv beta in Hnone.
    rewrite Hm in Hnone. discriminate Hnone. by apply list_elem_of_In.
Qed.
End profile_facts.

(** ** Sanitized User-Agents *)

Lemma decode_last_size_pos l : l ≠ [] → 1 ≤ decode_last_size l.
Proof.
  intros H. assert (0 < length l) as Hl by (destruct l; [done|simpl; lia]).
  assert (∀ k, 1 ≤ k → 1 ≤ match drop (length l - k) l with
    | b :: t => if (rsize (decode_rune b t) =? k)%nat then k else 1 | [] => 0 end) as Hs.
  { intros k Hk. pose proof (length_drop l (length l - k)) as Hd.
    destruct (drop _ l); simpl in Hd; [lia|]. destruct (_ =? _); lia. }
  unfold decode_last_size. destruct (length l =? 0)%nat eqn:E; to_prop.
  { apply Nat.eqb_eq in E. lia. }
  repeat match goal with
  | |- 1 ≤ (if ?c then _ else _) => destruct c
  end; try apply Hs; lia.
Qed.

Lemma truncate_loop_bound n l :
  length l ≤ n → (Z.of_nat (length (truncate_loop n l)) ≤ DefaultEventClientMaxSize)%Z.
Proof.
  revert l. induction n as [|n IH]; intros l Hl; simpl.
  - unfold DefaultEventClientMaxSize. lia.
  - destruct (_ <? _)%Z eqn:E; to_prop; [|done]. apply IH.
    rewrite length_take. assert (l ≠ []) as Hne by (intros ->; done).
    pose proof (decode_last_size_pos l Hne). lia.
Qed.

Lemma sanitize_loop_all rs builder :
  forallb (λ r, negb (is_control (rn r))) rs = true →
  (Z.of_nat (length (builder ++ concat (map (λ r, encode_rune (rn r)) rs)))
     ≤ DefaultEventClientMaxSize)%Z →
  sanitize_loop rs builder = builder ++ concat (map (λ r, encode_rune (rn r)) rs).
Proof.
  revert builder. induction rs as [|r rs IH]; intros builder Hc Hl;
    cbn [sanitize_loop map concat forallb] in *; [by rewrite app_nil_r|].
  apply andb_true_iff in Hc as [Hr%negb_true_iff Hc]. rewrite Hr.
  rewrite app_assoc in Hl |- *. destruct (_ <=? _)%Z eqn:E; to_prop; [|by apply IH].
  rewrite length_app in Hl.
  destruct (concat _) as [|c k]; [by rewrite app_nil_r|]. simpl in Hl. lia.
Qed.

(** What is recorded of a User-Agent is at most 512 bytes whatever the
    client sent, and for a valid header it is the whole trimmed value: the
    value the profiles were matched against. *)
Theorem SanitizeUserAgent_spec value :
  (slen (SanitizeUserAgent value) ≤ DefaultEventClientMaxSize)%Z ∧
  (ValidUserAgent value = true → SanitizeUserAgent value = trim_space value).
Proof.
  split.
  - unfold SanitizeUserAgent. destruct (negb _); [done|].
    unfold slen. rewrite B_S_. by apply truncate_loop_bound.
  - unfold ValidUserAgent, SanitizeUserAgent.
    intros [[[H1 H2]%andb_true_iff H3]%andb_true_iff H4]%andb_true_iff.
    rewrite H3. simpl negb. cbv iota zeta. apply Z.leb_le in H2. unfold slen in H2.
    rewrite sanitize_loop_all; rewrite ?app_nil_l; try rewrite encode_runes by done; [|done..].
    destruct (length (B (trim_space value))) as [|n] eqn:E.
    { simpl. apply S_B. }
    cbn [truncate_loop]. rewrite E.
    by rewrite (proj2 (Z.ltb_ge _ _) H2), S_B.
Qed.

(** ** Witnesses *)

(** A literal search stands in for RE2; a single parenthesis does not compile. *)
Definition literal_regexp : Regexp := {|
  regexp := string;
  regexp_Compile s := if (s =? "(")%string then None else Some s;
  regexp_MatchString r s := contains s r;
|}.

Definition demo_matcher : ProfileMatcher (R := literal_regexp) :=
  match NewProfileMatcher (R := literal_regexp) DefaultClientProfiles with Ok m => m | Err _ => [] end.
Definition demo_ua : string := " codex-TUI/1.0 (linux)".

Lemma Match_spec_witness :
  NewProfileMatcher (R := literal_regexp) DefaultClientProfiles = Ok demo_matcher ∧
  ClientProfile.Key <$> Match (Some demo_matcher) demo_ua = Some "codex_cli"%string ∧
  ValidUserAgent demo_ua = true.
Proof.
  assert (NewProfileMatcher (R := literal_regexp) DefaultClientProfiles = Ok demo_matcher) as Hm
    by (vm_compute; reflexivity).
  assert (ClientProfile.Key <$> Match (Some demo_matcher) demo_ua = Some "codex_cli"%string) as Hk
    by (vm_compute; reflexivity).
  split; [exact Hm|]. split; [exact Hk|].
  pose proof (Match_spec (R := literal_regexp) DefaultClientProfiles demo_matcher demo_ua Hm) as H.
  destruct (Match (Some demo_matcher) demo_ua) as [q|]; [exact (proj1 H)|discriminate Hk].
Defined.
