(* ===== verification/Engine.v ===== *)
(** * The synchronous decision ([internal/audit/engine.go])

    [Evaluate] decides one request.  Everything it calls (clock, rule store,
    reviewer, event sink, gate, limiter) is an argument: the environment [env];
    what it does to them is the log of the [world], in program order. *)

From S2P Require Export Parser Profile RateLimit Gate.

(** [type ReviewLimiter interface]: a limiter is a state and [Allow]. *)
Class ReviewLimiter := {
  rl_state : Type;
  rl_Allow : rl_state → Time → string → string → bool * rl_state;
}.

#[export] Instance fixed_window_limiter : ReviewLimiter := {|
  rl_state := FixedWindowLimiter.t;
  rl_Allow l now fingerprint ip := Allow_locked l now (limiter_keys fingerprint ip);
|}.

Definition ModePermissive : string := "permissive".
Definition ModeOff : string := "off".

Module EngineConfig.
Record t : Type := mk {
  Mode : string;
  ProtectedPaths : list string;
  Profiles : option (list ClientProfile.t);
  MaxBodyBytes : Z;
  MaxPromptRunes : Z;
  RejectConfidenceThreshold : float64;
  ReviewCriteria : string;
  AIConcurrency : Z;
  AIQueueTimeout : Duration;
  AITimeout : Duration;
  AIBulkhead : option ConcurrencyGate.t;
}.
End EngineConfig.

Definition DefaultEngineConfig : EngineConfig.t :=
  EngineConfig.mk ModePermissive ["/v1/responses"%string] (Some DefaultClientProfiles)
    DefaultMaxBodyBytes DefaultMaxPromptRunes DefaultRejectConfidence
    "Pass only stable, legitimate client instruction templates with a clear benign operational purpose."
    DefaultAIConcurrency DefaultAIQueueTimeout DefaultAITimeout None.

Definition normalizeEngineConfig (c : EngineConfig.t) : EngineConfig.t :=
  let d := DefaultEngineConfig in
  EngineConfig.mk
    (if (EngineConfig.Mode c =? "")%string then EngineConfig.Mode d else EngineConfig.Mode c)
    (if bool_decide (EngineConfig.ProtectedPaths c = [])
     then EngineConfig.ProtectedPaths d else EngineConfig.ProtectedPaths c)
    (match EngineConfig.Profiles c with None => EngineConfig.Profiles d | p => p end)
    (if (EngineConfig.MaxBodyBytes c =? 0)%Z
     then EngineConfig.MaxBodyBytes d else EngineConfig.MaxBodyBytes c)
    (if (EngineConfig.MaxPromptRunes c =? 0)%Z
     then EngineConfig.MaxPromptRunes d else EngineConfig.MaxPromptRunes c)
    (if f64_eq (EngineConfig.RejectConfidenceThreshold c) f64_zero
     then EngineConfig.RejectConfidenceThreshold d else EngineConfig.RejectConfidenceThreshold c)
    (if blank (EngineConfig.ReviewCriteria c)
     then EngineConfig.ReviewCriteria d else EngineConfig.ReviewCriteria c)
    (if (EngineConfig.AIConcurrency c =? 0)%Z
     then EngineConfig.AIConcurrency d else EngineConfig.AIConcurrency c)
    (if (EngineConfig.AIQueueTimeout c =? 0)%Z
     then EngineConfig.AIQueueTimeout d else EngineConfig.AIQueueTimeout c)
    (if (EngineConfig.AITimeout c =? 0)%Z
     then EngineConfig.AITimeout d else EngineConfig.AITimeout c)
    (EngineConfig.AIBulkhead c).

Inductive engine_err : Type :=
| InvalidMode (mode : string)
| LimitsNotPositive
| ThresholdRange
| InvalidConcurrencyOrTimeout
| ProfileError (e : profile_err)
| InvalidProtectedPath (path : string)
| NoProtectedPath.

(** [type Engine struct]; the collaborators it also holds are in [env]. *)
Module Engine.
Record t `{R : Regexp} : Type := mk {
  config : EngineConfig.t;
  paths : gset string;
  profiles : ProfileMatcher;
  bulkhead : ConcurrencyGate.t;
}.
End Engine.

Section engine.
Context `{U : Unicode, R : Regexp, RL : ReviewLimiter}.

Fixpoint protected_paths (l : list string) (paths : gset string) :
    result engine_err (gset string) :=
  match l with
  | [] => Ok paths
  | path :: l =>
      let path := trim_space path in
      if (path =? "")%string || negb (has_prefix path "/") || contains_any path ["?"; "#"]%char
      then Err (InvalidProtectedPath path)
      else protected_paths l ({[path]} ∪ paths)
  end.

Definition NewEngine (config : EngineConfig.t) : result engine_err Engine.t :=
  let config := normalizeEngineConfig config in
  if negb (EngineConfig.Mode config =? ModePermissive)%string &&
     negb (EngineConfig.Mode config =? ModeOff)%string
  then Err (InvalidMode (EngineConfig.Mode config))
  else if (EngineConfig.MaxBodyBytes config <? 1)%Z || (EngineConfig.MaxPromptRunes config <? 1)%Z
  then Err LimitsNotPositive
  else if f64_lt (EngineConfig.RejectConfidenceThreshold config) f64_half ||
          f64_gt (EngineConfig.RejectConfidenceThreshold config) f64_one
  then Err ThresholdRange
  else if (EngineConfig.AIConcurrency config <? 1)%Z || (EngineConfig.AITimeout config <? 0)%Z ||
          (EngineConfig.AITimeout config <? millisecond)%Z
  then Err InvalidConcurrencyOrTimeout
  else
    match NewProfileMatcher (default [] (EngineConfig.Profiles config)) with
    | Err e => Err (ProfileError e)
    | Ok profiles =>
        paths ← protected_paths (EngineConfig.ProtectedPaths config) ∅;
        if bool_decide (paths = ∅) then Err NoProtectedPath
        else Ok (Engine.mk _ config paths profiles
                   (match EngineConfig.AIBulkhead config with
                    | Some gate => gate
                    | None => NewConcurrencyGate (EngineConfig.AIConcurrency config)
                    end))
    end.

(** ** Effects *)

Inductive effect : Type :=
| ELookup (sha : string)
| EAcquire
| EReview (request : AIReviewRequest.t)
| ERelease
| EAudit (event : Event.t)
| EBlocked (event : Event.t) (field plaintext : string) (saved : bool).

Record world : Type := mk_world {
  ticks : nat;                   (** readings of the clock so far *)
  limiter : option rl_state;     (** [config.ReviewLimiter] *)
  log : list effect;
}.

(** The other side of the interfaces.  A sink that is not a
    [BlockedEventSink] has [RecordBlockedEvent] [None]. *)
Record env : Type := mk_env {
  clock : nat → Time;
  ctx : N → option audit_err;
  sha256_hex : string → string;
  LookupHash : option (string → result audit_err (option HashMatch.t));
  Review : option Reviewer;
  reviewCtx_deadline : AIReviewRequest.t → bool;
  gate_Acquire : ConcurrencyGate.t → Duration → option audit_err;
  events : bool;
  RecordBlockedEvent : option (Event.t → string → string → option audit_err);
}.

(** The state monad. *)
Definition M (A : Type) : Type := world → A * world.
#[export] Instance M_ret : MRet M := λ A a w, (a, w).
#[export] Instance M_bind : MBind M := λ A B f m w, let '(a, w) := m w in f a w.

Section evaluate.
Context (E : env) (engine : Engine.t).

Definition now : M Time := λ w,
  (clock E (ticks w), mk_world (S (ticks w)) (limiter w) (log w)).
Definition emit (e : effect) : M unit := λ w,
  ((), mk_world (ticks w) (limiter w) (log w ++ [e])).
Definition limiter_Allow (at_ : Time) (fingerprint ip : string) : M bool := λ w,
  match limiter w with
  | None => (true, w)
  | Some l => let '(ok, l) := rl_Allow l at_ fingerprint ip in
              (ok, mk_world (ticks w) (Some l) (log w))
  end.

Definition protected (path : string) : bool := bool_decide (path ∈ Engine.paths engine).

Definition event (request : Request.t) (r : Result.t) (createdAt : Time) : Event.t :=
  let decision := if Result.Blocked r then "block"%string else "allow"%string in
  let '(action, outcome) := DeriveEventContract (Result.Reason r) (Result.Blocked r) in
  let aiLatency :=
    match Result.AIVerdict r with
    | Some v => if (Result.AILatency r =? 0)%Z
                then wrap64 (AIVerdict.LatencyMS v * millisecond) else Result.AILatency r
    | None => Result.AILatency r
    end in
  Event.mk (Request.ID request) (Request.Method request) (Request.Path request)
    (Request.Protocol request) (Result.Model r) (SanitizeUserAgent (Request.UserAgent request))
    (Result.ProfileKey r) (Request.APIKeyFingerprint request) (Request.APIKeyHint request)
    decision action outcome (Result.Reason r) (Result.Field r) (Result.Hash r)
    (Result.PromptBytes r) (Result.PromptRunes r) (Result.AISampled r) (Result.AIVerdict r)
    (Result.AuditLatency r) aiLatency 0 (negb (Result.Blocked r)) createdAt.

Definition finish (request : Request.t) (r : Result.t) (started : Time) (record : bool) :
    M Result.t :=
  t ← now;
  let r := Result.set_AuditLatency r (time_sub t started) in
  if negb record || negb (events E) then mret r else
  t ← now;
  emit (EAudit (event request r t));; mret r.

Definition finishBlock (request : Request.t) (r : Result.t) (plaintext : string)
    (started : Time) : M Result.t :=
  t ← now;
  let r := Result.set_AuditLatency r (time_sub t started) in
  let fail_open := Result.set_decision r true false ReasonStorageFailOpen in
  match (if events E then RecordBlockedEvent E else None) with
  | None => finish request fail_open started true
  | Some recorder =>
      t ← now;
      let ev := event request r t in
      match recorder ev (Result.Field r) plaintext with
      | Some _ =>
          emit (EBlocked ev (Result.Field r) plaintext false);;
          finish request fail_open started true
      | None => emit (EBlocked ev (Result.Field r) plaintext true);; mret r
      end
  end.

(** [Evaluate] from the reviewer call on, with the slot taken. *)
Definition evaluate_review (request : Request.t) (review : Reviewer) (base : Result.t)
    (fieldName : string) (field : Field.t) (started : Time) : M Result.t :=
  let reviewRequest := AIReviewRequest.mk fieldName (Field.AISample field)
    (Field.AISampled field) (Request.Model request)
    (EngineConfig.ReviewCriteria (Engine.config engine))
    (Request.APIKeyFingerprint request) (Request.ClientIP request) in
  reviewStarted ← now;
  emit (EReview reviewRequest);;
  let '(verdict, reviewErr, _) := review reviewRequest in
  t ← now;
  let base := Result.set_AILatency base (time_sub t reviewStarted) in
  let verdict := AIVerdict.set_LatencyMS verdict (milliseconds (Result.AILatency base)) in
  match reviewErr with
  | Some err =>
      let reason :=
        if bool_decide (err = ContextDeadlineExceeded) || reviewCtx_deadline E reviewRequest
        then ReasonAITimeout
        else if bool_decide (err = ErrAIInvalidResponse) then ReasonAIInvalid
        else ReasonAIUnavailable in
      finish request (Result.set_reason base reason) started true
  | None =>
      match ValidateAIVerdict verdict with
      | Some _ => finish request (Result.set_reason base ReasonAIInvalid) started true
      | None =>
          let base := Result.set_verdict base verdict in
          let result := AIVerdict.Result verdict in
          if (result =? VerdictReject)%string then
            if f64_lt (AIVerdict.Confidence verdict)
                      (EngineConfig.RejectConfidenceThreshold (Engine.config engine))
            then finish request (Result.set_reason base ReasonAILowConfidence) started true
            else finishBlock request (Result.set_decision base false true ReasonAIReject)
                   (Field.Text field) started
          else
            let base :=
              if (result =? VerdictPass)%string then Result.set_reason base ReasonAIPass
              else if (result =? VerdictUncertain)%string
              then Result.set_reason base ReasonAIUncertain else base in
            finish request base started true
      end
  end.

(** The guard of the limiter; the clock is read only when there is one. *)
Definition review_admitted (request : Request.t) : M bool := λ w,
  match limiter w with
  | None => (true, w)
  | Some _ =>
      (t ← now;
       limiter_Allow t (Request.APIKeyFingerprint request) (Request.ClientIP request)) w
  end.

(** [Evaluate] after the rule lookup found nothing. *)
Definition evaluate_unmatched (request : Request.t) (base : Result.t)
    (fieldName : string) (field : Field.t) (started : Time) : M Result.t :=
  match Review E with
  | None => finish request (Result.set_reason base ReasonAIUnavailable) started true
  | Some review =>
      admitted ← review_admitted request;
      if negb admitted then finish request (Result.set_reason base ReasonAIRateLimited) started true
      else
        match gate_Acquire E (Engine.bulkhead engine)
                (EngineConfig.AIQueueTimeout (Engine.config engine)) with
        | Some err =>
            let reason := if bool_decide (err = ContextDeadlineExceeded)
                          then ReasonAITimeout else ReasonAIBulkhead in
            finish request (Result.set_reason base reason) started true
        | None =>
            emit EAcquire;;
            r ← evaluate_review request review base fieldName field started;
            emit ERelease;; mret r
        end
  end.

(** [Evaluate] with the selected field. *)
Definition evaluate_field (request : Request.t) (base : Result.t)
    (fieldName : string) (field : Field.t) (started : Time) : M Result.t :=
  match LookupHash E with
  | None => evaluate_unmatched request base fieldName field started
  | Some lookup =>
      emit (ELookup (Field.SHA256 field));;
      match lookup (Field.SHA256 field) with
      | Err _ => finish request (Result.set_reason base ReasonStorageFailOpen) started true
      | Ok None => evaluate_unmatched request base fieldName field started
      | Ok (Some m) =>
          let kind := to_lower (trim_space (HashMatch.Kind m)) in
          if (kind =? "risk")%string then
            finishBlock request (Result.set_decision base false true ReasonRiskHashMatch)
              (Field.Text field) started
          else if (kind =? "trusted")%string then
            finish request (Result.set_reason base ReasonTrustedHashMatch) started true
          else finish request (Result.set_reason base ReasonStorageFailOpen) started true
      end
  end.

Definition base_result (request : Request.t) (key fieldName : string) (field : Field.t) :
    Result.t :=
  Result.mk true false "" key fieldName (Field.SHA256 field) (Field.Bytes field)
    (Field.Runes field) (Field.AISampled field) (Field.AISample field) (Field.Text field)
    (Request.Model request) None 0 0.

Definition Evaluate (request : Request.t) : M Result.t :=
  let config := Engine.config engine in
  started ← now;
  if (EngineConfig.Mode config =? ModeOff)%string
  then finish request (Result.allowed ReasonDisabled "") started false else
  let request := if (Request.Method request =? "")%string
                 then Request.set_Method request "POST" else request in
  if negb (Request.Protocol request =? "")%string &&
     negb (Request.Protocol request =? ProtocolResponses)%string
  then finish request (Result.allowed ReasonRouteBypass "") started false else
  if negb (to_upper (Request.Method request) =? "POST")%string ||
     negb (protected (Request.Path request))
  then finish request (Result.allowed ReasonRouteBypass "") started false else
  if (EngineConfig.MaxBodyBytes config <? Z.of_nat (length (Request.Body request)))%Z
  then finish request (Result.allowed ReasonOversizeBypass "") started true else
  match Match (Some (Engine.profiles engine)) (Request.UserAgent request) with
  | None => finish request (Result.allowed ReasonUABypass "") started true
  | Some profile =>
      let key := ClientProfile.Key profile in
      let '(parsed, err) :=
        ParseResponses (sha256_hex E) (ctx E) (Request.Body request) DefaultJSONDepth in
      match err with
      | Some _ => finish request (Result.allowed ReasonParseBypass key) started true
      | None =>
          let request := Request.set_Model request (Parsed.Model parsed) in
          let '(fieldName, field) := SelectField parsed in
          if (fieldName =? "")%string then
            let reason :=
              if bool_decide (Field.State (Parsed.Instructions parsed) = FieldInvalid) ||
                 bool_decide (Field.State (Parsed.Input1 parsed) = FieldInvalid)
              then ReasonParseBypass else ReasonEmptyBypass in
            finish request (Result.allowed reason key) started true
          else
            let field := PrepareAISample field (EngineConfig.MaxPromptRunes config) in
            evaluate_field request (base_result request key fieldName field)
              fieldName field started
      end
  end.
End evaluate.
End engine.
