(* ===== verification/EngineTheorems.v ===== *)
(** * Theorems on the synchronous decision

    A program of the monad [yields] a postcondition on its result and on the
    effects it appends to the log.  The rules below walk through [Evaluate];
    the theorems instantiate the postcondition. *)

From S2P Require Export Engine.

Section rules.
Context `{U : Unicode, R : Regexp, RL : ReviewLimiter} (E : env).

Definition yields {A} (m : M A) (Q : A → list effect → Prop) : Prop :=
  ∀ w, ∃ es, log (m w).2 = log w ++ es ∧ Q (m w).1 es.

Lemma yields_ret {A} (a : A) (Q : A → list effect → Prop) : Q a [] → yields (mret a : M A) Q.
Proof. intros H w. exists []. by rewrite app_nil_r. Qed.

Lemma yields_now {A} (f : Time → M A) Q :
  (∀ t, yields (f t) Q) → yields (t ← now E; f t) Q.
Proof. intros H w. destruct (H (clock E (ticks w)) (mk_world (S (ticks w)) (limiter w) (log w))) as (es & ? & ?). by exists es. Qed.

Lemma yields_emit {A} e (m : M A) Q :
  yields m (λ a es, Q a (e :: es)) → yields (emit e;; m) Q.
Proof.
  intros H w. destruct (H (mk_world (ticks w) (limiter w) (log w ++ [e]))) as (es & H1 & H2).
  exists (e :: es). split; [|done]. by rewrite cons_middle, app_assoc.
Qed.

Lemma yields_admitted {A} request (f : bool → M A) Q :
  (∀ b, yields (f b) Q) → yields (b ← review_admitted E request; f b) Q.
Proof.
  intros H w. unfold review_admitted, mbind, M_bind.
  destruct (limiter w) as [l|] eqn:El; [|by apply H].
  unfold now, limiter_Allow. cbn [limiter]. rewrite El.
  destruct (rl_Allow _ _ _ _) as [b l'].
  destruct (H b (mk_world (S (ticks w)) (Some l') (log w))) as (es & ? & ?). by exists es.
Qed.

(** The effect after the body, which the deferred call appends. *)
Lemma yields_after {A} (m : M A) e Q :
  yields m (λ a es, Q a (es ++ [e])) → yields (a ← m; emit e;; mret a) Q.
Proof.
  intros H w. destruct (H w) as (es & H1 & H2). exists (es ++ [e]).
  unfold mbind, M_bind, emit, mret, M_ret. destruct (m w) as [a w']. simpl in *.
  by rewrite H1, app_assoc.
Qed.

Lemma yields_mono {A} (m : M A) (P Q : A → list effect → Prop) :
  yields m P → (∀ a es, P a es → Q a es) → yields m Q.
Proof. intros H HPQ w. destruct (H w) as (es & ? & ?). exists es. auto. Qed.

(** The effects appended are determined. *)
Lemma yields_conj {A} (m : M A) (P Q : A → list effect → Prop) :
  yields m P → yields m Q → yields m (λ a es, P a es ∧ Q a es).
Proof.
  intros HP HQ w. destruct (HP w) as (es & H1 & ?), (HQ w) as (es' & H2 & ?).
  rewrite H1 in H2. apply app_inv_head in H2 as <-. by exists es.
Qed.

(** The audit event of a recorded result. *)
Definition audit_of (request : Request.t) (r : Result.t) (t : Time) : list effect :=
  if events E then [EAudit (event request r t)] else [].

Lemma yields_finish request r started (Q : Result.t → list effect → Prop) :
  (∀ d t, Q (Result.set_AuditLatency r d) (audit_of request (Result.set_AuditLatency r d) t)) →
  yields (finish E request r started true) Q.
Proof.
  revert Q. unfold finish, audit_of. intros Q H. apply yields_now. intros t. simpl negb. revert H.
  destruct (events E) eqn:He.
  - intros H. apply yields_now. intros t'. apply yields_emit, yields_ret, H.
  - intros H. apply yields_ret, (H _ 0%Z).
Qed.

Lemma yields_finish_quiet request r started (Q : Result.t → list effect → Prop) :
  (∀ d, Q (Result.set_AuditLatency r d) []) → yields (finish E request r started false) Q.
Proof. intros H. apply yields_now. intros t. apply yields_ret, H. Qed.

Definition fail_open (r : Result.t) : Result.t :=
  Result.set_decision r true false ReasonStorageFailOpen.

(** A block that the recorder refused. *)
Definition unsaved (e : effect) : Prop :=
  ∃ ev f p, e = EBlocked ev f p false ∧
    ∃ rec err, RecordBlockedEvent E = Some rec ∧ rec ev f p = Some err.

Lemma yields_finishBlock request r plaintext started (Q : Result.t → list effect → Prop) :
  (∀ d t rec, let r' := Result.set_AuditLatency r d in
     events E = true → RecordBlockedEvent E = Some rec →
     rec (event request r' t) (Result.Field r) plaintext = None →
     Q r' [EBlocked (event request r' t) (Result.Field r) plaintext true]) →
  (∀ d t pre, let r' := Result.set_AuditLatency (fail_open r) d in
     Forall unsaved pre → length pre ≤ 1 → Q r' (pre ++ audit_of request r' t)) →
  yields (finishBlock E request r plaintext started) Q.
Proof.
  intros Hsaved Hopen. unfold finishBlock. apply yields_now. intros t.
  destruct (if events E then RecordBlockedEvent E else None) as [rec|] eqn:Hrec.
  - apply yields_now. intros t'. destruct (events E) eqn:He; [|done].
    destruct (rec _ _ _) eqn:Hr.
    + apply yields_emit, yields_finish. intros d t''.
      apply (Hopen d t'' [_]); [|done]. repeat constructor. eexists _, _, _. split; [done|]. by eexists _, _.
    + apply yields_emit, yields_ret. by eapply Hsaved.
  - apply yields_finish. intros d t''. apply (Hopen d t'' []); [constructor|simpl; lia].
Qed.
End rules.

(** Walk through the control flow down to the calls that end it. *)
Ltac walk :=
  repeat match goal with
  | |- yields (mbind _ (emit _)) _ => apply yields_emit
  | |- yields (mbind _ (now _)) _ => apply yields_now; intros ?
  | |- yields (mbind _ (review_admitted _ _)) _ => apply yields_admitted; intros ?
  | |- yields (if ?b then _ else _) _ => let E := fresh "E" in destruct b eqn:E
  | |- yields (match ?x with _ => _ end) _ => let E := fresh "E" in destruct x eqn:E
  end.

Section theorems.
Context `{U : Unicode, R : Regexp, RL : ReviewLimiter} (E : env) (engine : Engine.t).

(** ** Blocking *)

(** Why a request may be blocked: the rule store says so, or the reviewer
    does with enough confidence. *)
Definition grounds (r : Result.t) (es : list effect) : Prop :=
  (Result.Reason r = ReasonRiskHashMatch ∧ ∃ lookup m,
     LookupHash E = Some lookup ∧ lookup (Result.Hash r) = Ok (Some m) ∧
     to_lower (trim_space (HashMatch.Kind m)) = "risk"%string ∧
     ELookup (Result.Hash r) ∈ es) ∨
  (Result.Reason r = ReasonAIReject ∧ ∃ review q v d,
     Review E = Some review ∧ EReview q ∈ es ∧ review q = (v, None, d) ∧
     AIReviewRequest.Content q = Result.ReviewContent r ∧
     AIVerdict.Result v = VerdictReject ∧ ValidateAIVerdict v = None ∧
     f64_lt (AIVerdict.Confidence v)
       (EngineConfig.RejectConfidenceThreshold (Engine.config engine)) = false).

(** The evidence a block leaves behind before it is enforced. *)
Definition evidence (r : Result.t) (es : list effect) : Prop :=
  ∃ ev, EBlocked ev (Result.Field r) (Result.RuleContent r) true ∈ es ∧
    Event.SHA256 ev = Result.Hash r ∧ Event.Reason ev = Result.Reason r ∧
    Event.Decision ev = "block"%string ∧ Event.UpstreamAccessed ev = false.

Definition enforced (r : Result.t) (es : list effect) : Prop :=
  Result.Allow r = negb (Result.Blocked r) ∧
  (Result.Blocked r = true → grounds r es ∧ evidence r es).

Lemma enforced_allowed r es :
  Result.Allow r = true → Result.Blocked r = false → enforced r es.
Proof. intros H1 H2. unfold enforced. by rewrite H1, H2. Qed.

#[local] Ltac solve_allowed :=
  (apply yields_finish || apply yields_finish_quiet);
  intros; apply enforced_allowed; repeat case_match; done.

Lemma enforced_mono r es es' : es ⊆ es' → enforced r es → enforced r es'.
Proof.
  intros Hsub [H1 H2]. split; [done|]. intros Hb. destruct (H2 Hb) as [Hg (ev & Hev & Hrest)].
  split; [|exists ev; split; [by apply Hsub|done]].
  destruct Hg as [(Hr & lookup & m & ?)|(Hr & review & q & v & d & ?)]; [left|right].
  - split; [done|]. exists lookup, m. naive_solver.
  - split; [done|]. exists review, q, v, d. naive_solver.
Qed.

(** The events of [finishBlock] are evidence. *)
Lemma enforced_finishBlock request base reason plaintext started pre :
  Result.RuleContent base = plaintext →
  (∀ d es, let r := Result.set_AuditLatency (Result.set_decision base false true reason) d in
     grounds r (pre ++ es)) →
  yields (finishBlock E request (Result.set_decision base false true reason) plaintext started)
    (λ r es, enforced r (pre ++ es)).
Proof.
  intros Hp Hg. apply yields_finishBlock.
  - intros d t rec r' _ _ _. split; [done|]. intros _. split; [by apply Hg|].
    eexists. split; [rewrite <- Hp; apply elem_of_app; right; left|]. done.
  - intros d t pre' r' _ _. by apply enforced_allowed.
Qed.

Lemma evaluate_review_enforced request review base name field started :
  Review E = Some review →
  Result.Allow base = true → Result.Blocked base = false →
  Result.RuleContent base = Field.Text field → Result.ReviewContent base = Field.AISample field →
  yields (evaluate_review E engine request review base name field started) enforced.
Proof.
  intros Hrev Ha Hb Ht Hs. unfold evaluate_review. walk;
    try solve_allowed.
  apply enforced_finishBlock with (pre := [_]); [done|]. intros d' es r'. right. split; [done|].
  to_prop. eexists review, _, _, _. split_and!; try done; [left|done..].
Qed.

Lemma evaluate_unmatched_enforced request base name field started :
  Result.Allow base = true → Result.Blocked base = false →
  Result.RuleContent base = Field.Text field → Result.ReviewContent base = Field.AISample field →
  yields (evaluate_unmatched E engine request base name field started) enforced.
Proof.
  intros Ha Hb Ht Hs. unfold evaluate_unmatched. walk;
    try solve_allowed.
  apply yields_after. eapply yields_mono; [by apply evaluate_review_enforced|].
  intros r es. apply enforced_mono. set_solver.
Qed.

Lemma evaluate_field_enforced request base name field started :
  Result.Allow base = true → Result.Blocked base = false → Result.Hash base = Field.SHA256 field →
  Result.RuleContent base = Field.Text field → Result.ReviewContent base = Field.AISample field →
  yields (evaluate_field E engine request base name field started) enforced.
Proof.
  intros Ha Hb Hh Ht Hs. unfold evaluate_field.
  destruct (LookupHash E) as [lookup|] eqn:Hl; [|by apply evaluate_unmatched_enforced].
  walk; try solve_allowed.
  - apply enforced_finishBlock with (pre := [_]); [done|].
    intros d es r'. left. split; [done|]. to_prop. subst r'. simpl. rewrite Hh.
    exists lookup, t. split_and!; try done. left.
  - eapply yields_mono; [by apply evaluate_unmatched_enforced|].
    intros r es. apply enforced_mono. set_solver.
Qed.

Lemma Evaluate_enforced request : yields (Evaluate E engine request) enforced.
Proof.
  unfold Evaluate. apply yields_now. intros started. walk;
    try solve_allowed.
  by apply evaluate_field_enforced.
Qed.

(** C2. A request is blocked only on grounds and with evidence: the result
    allows exactly the requests it does not block; a blocked request has a
    risk match of its selected text in the rule store, or a valid reject
    verdict of at least the configured confidence on the content that was
    sampled from it; and the block event together with the whole selected
    text was saved before the block is returned.  Every failure allows. *)
Theorem blocked_only_with_grounds_and_evidence request :
  yields (Evaluate E engine request) enforced.
Proof. apply Evaluate_enforced. Qed.

(** ** Accounting *)

(** The event an effect adds to the store. *)
Definition record_of (e : effect) : option Event.t :=
  match e with
  | EAudit ev => Some ev
  | EBlocked ev _ _ true => Some ev
  | _ => None
  end.

Definition describes (r : Result.t) (ev : Event.t) : Prop :=
  Event.Reason ev = Result.Reason r ∧
  (Event.Action ev, Event.Outcome ev) = DeriveEventContract (Result.Reason r) (Result.Blocked r) ∧
  Event.UpstreamAccessed ev = Result.Allow r ∧ Event.SHA256 ev = Result.Hash r ∧
  Event.AIVerdict ev = Result.AIVerdict r.

Definition unrecorded_reasons : list string := [ReasonDisabled; ReasonRouteBypass].

Definition accounted (r : Result.t) (es : list effect) : Prop :=
  if bool_decide (Result.Reason r ∈ unrecorded_reasons) || negb (events E)
  then omap record_of es = []
  else ∃ ev, omap record_of es = [ev] ∧ describes r ev.

Lemma event_describes request r t :
  Result.Allow r = negb (Result.Blocked r) → describes r (event request r t).
Proof. intros H. unfold describes, event. rewrite H. by destruct (DeriveEventContract _ _). Qed.

Lemma accounted_audit request r t pre :
  Result.Allow r = negb (Result.Blocked r) →
  bool_decide (Result.Reason r ∈ unrecorded_reasons) = false → omap record_of pre = [] →
  accounted r (pre ++ audit_of E request r t).
Proof.
  intros Ha Hr Hp. unfold accounted, audit_of. rewrite Hr, omap_app, Hp.
  destruct (events E); simpl; [|done]. eexists. split; [done|]. by apply event_describes.
Qed.

Lemma accounted_after r es e : record_of e = None → accounted r es → accounted r (es ++ [e]).
Proof. intros He. unfold accounted. rewrite !omap_app. simpl. by rewrite He, app_nil_r. Qed.

Lemma accounted_finish request r started :
  Result.Allow r = negb (Result.Blocked r) →
  bool_decide (Result.Reason r ∈ unrecorded_reasons) = false →
  yields (finish E request r started true) accounted.
Proof. intros H1 H2. apply yields_finish. intros d t. by apply (accounted_audit _ _ _ []). Qed.

Lemma accounted_finishBlock request base reason plaintext started :
  bool_decide (reason ∈ unrecorded_reasons) = false →
  yields (finishBlock E request (Result.set_decision base false true reason) plaintext started)
    accounted.
Proof.
  intros Hr. apply yields_finishBlock.
  - intros d t rec r' He _ _. unfold accounted. subst r'. simpl Result.Reason. rewrite Hr, He. simpl.
    eexists. split; [done|]. by apply event_describes.
  - intros d t pre r' Hpre _. apply accounted_audit; [done|done|].
    clear -Hpre. induction Hpre as [|e es (ev & f & p & -> & _) _ IH]; done.
Qed.

#[local] Ltac solve_accounted :=
  eapply yields_mono;
  [first [apply accounted_finish; repeat case_match; done
         |apply accounted_finishBlock; done]
  |intros ? ? H; exact H].

Lemma evaluate_review_accounted request review base name field started :
  Result.Allow base = negb (Result.Blocked base) → Result.Reason base = ""%string →
  yields (evaluate_review E engine request review base name field started) accounted.
Proof.
  intros Ha Hr. unfold evaluate_review. walk; try solve_accounted.
  eapply yields_mono; [apply accounted_finish|intros ? ? H; exact H]; repeat case_match; try done.
  match goal with |- bool_decide (?x ∈ _) = _ => change x with (Result.Reason base) end. by rewrite Hr.
Qed.

Lemma evaluate_unmatched_accounted request base name field started :
  Result.Allow base = negb (Result.Blocked base) → Result.Reason base = ""%string →
  yields (evaluate_unmatched E engine request base name field started) accounted.
Proof.
  intros Ha Hr. unfold evaluate_unmatched. walk; try solve_accounted.
  apply yields_after. eapply yields_mono; [by apply evaluate_review_accounted|].
  intros r es H. by apply (accounted_after r (_ :: es)).
Qed.

Lemma evaluate_field_accounted request base name field started :
  Result.Allow base = negb (Result.Blocked base) → Result.Reason base = ""%string →
  yields (evaluate_field E engine request base name field started) accounted.
Proof.
  intros Ha Hr. unfold evaluate_field. walk; try solve_accounted.
  - eapply yields_mono; [by apply evaluate_unmatched_accounted|intros ? ? H; exact H].
  - by apply evaluate_unmatched_accounted.
Qed.

(** C6. Every decision is accounted for: with an event sink, a request that is
    not switched off or routed past the audit adds exactly one event (the
    audit event, or the block event when the block is enforced), a failed
    attempt to save a block included, and that event carries the reason,
    action, outcome, digest and verdict of the result that is returned. *)
Theorem exactly_one_event request : yields (Evaluate E engine request) accounted.
Proof.
  unfold Evaluate. apply yields_now. intros started. walk; try solve_accounted;
    try (apply yields_finish_quiet; intros; done).
  by apply evaluate_field_accounted.
Qed.

(** ** Effects *)

Definition block_of (e : effect) : option effect :=
  match e with EBlocked _ _ _ _ => Some e | _ => None end.

(** Every event is about this request, and a block effect reports what the
    recorder said. *)
Definition faithful_effect (request : Request.t) (r : Result.t) (e : effect) : Prop :=
  match e with
  | EAudit ev => Event.RequestID ev = Request.ID request
  | EBlocked ev f p true =>
      Event.RequestID ev = Request.ID request ∧ Result.Blocked r = true ∧
      ∃ rec, RecordBlockedEvent E = Some rec ∧ rec ev f p = None
  | EBlocked ev f p false => ∃ rec err, RecordBlockedEvent E = Some rec ∧ rec ev f p = Some err
  | _ => True
  end.
Definition faithful (request : Request.t) (r : Result.t) (es : list effect) : Prop :=
  Forall (faithful_effect request r) es ∧ length (omap block_of es) ≤ 1.

Lemma faithful_cons request r e es :
  block_of e = None → faithful_effect request r e → faithful request r es → faithful request r (e :: es).
Proof. intros Hb He [H1 H2]. split; [by constructor|]. simpl. by rewrite Hb. Qed.
Lemma faithful_snoc request r e es :
  block_of e = None → faithful_effect request r e → faithful request r es → faithful request r (es ++ [e]).
Proof.
  intros Hb He [H1 H2]. split; [apply Forall_app; split; [done|by constructor]|].
  rewrite omap_app. simpl. by rewrite Hb, app_nil_r.
Qed.

Lemma event_request request r t : Event.RequestID (event request r t) = Request.ID request.
Proof. unfold event. by destruct (DeriveEventContract _ _). Qed.

Lemma faithful_audit request r r' t : faithful request r (audit_of E request r' t).
Proof.
  unfold audit_of. destruct (events E); split; repeat constructor. apply event_request.
Qed.

Lemma faithful_finish request id r started record :
  Request.ID request = Request.ID id → yields (finish E request r started record) (faithful id).
Proof.
  intros Hid. assert (∀ r es, faithful request r es → faithful id r es) as H.
  { intros r' es [H1 H2]. split; [|done]. eapply Forall_impl; [exact H1|].
    intros [] He; simpl in *; try done; [congruence|]. destruct saved; [|done]. by rewrite <-Hid. }
  destruct record; [apply yields_finish|apply yields_finish_quiet]; intros; apply H; [apply faithful_audit|].
  split; [constructor|simpl; lia].
Qed.

Lemma faithful_finishBlock request id base reason plaintext started :
  Request.ID request = Request.ID id →
  yields (finishBlock E request (Result.set_decision base false true reason) plaintext started) (faithful id).
Proof.
  intros Hid. apply yields_finishBlock.
  - intros d t rec r' _ Hrec Hok. split; [|simpl; lia]. repeat constructor; [by rewrite event_request|].
    by exists rec.
  - intros d t pre r' Hpre Hlen. split.
    + apply Forall_app. split.
      * eapply Forall_impl; [exact Hpre|]. by intros e (ev & f & p & -> & Hrec).
      * eapply Forall_impl; [apply (faithful_audit request r' r')|].
        intros [] He; simpl in *; try done; [congruence|]. destruct saved; [|done]. by rewrite <-Hid.
    + rewrite omap_app. assert (omap block_of (audit_of E request r' t) = []) as ->
        by (unfold audit_of; by destruct (events E)).
      rewrite app_nil_r. etransitivity; [|exact Hlen]. clear. induction pre as [|e pre IH]; [done|].
      assert (length (omap block_of (e :: pre)) ≤ S (length (omap block_of pre))) as H
        by (simpl; destruct (block_of e); simpl; [done|apply Nat.le_succ_diag_r]).
      simpl length at 2. lia.
Qed.

#[local] Ltac solve_faithful :=
  first [by apply faithful_finish|by apply faithful_finishBlock].
#[local] Ltac quiet_effect :=
  eapply yields_mono; [|intros ? ?; by apply faithful_cons].

Lemma evaluate_review_faithful request id review base name field started :
  Request.ID request = Request.ID id →
  yields (evaluate_review E engine request review base name field started) (faithful id).
Proof.
  intros Hid. unfold evaluate_review. apply yields_now. intros t. apply yields_emit. quiet_effect.
  walk; solve_faithful.
Qed.

Lemma evaluate_unmatched_faithful request id base name field started :
  Request.ID request = Request.ID id →
  yields (evaluate_unmatched E engine request base name field started) (faithful id).
Proof.
  intros Hid. unfold evaluate_unmatched. walk; try solve_faithful. quiet_effect.
  apply yields_after. eapply yields_mono; [by apply evaluate_review_faithful|].
  intros r es. by apply faithful_snoc.
Qed.

Lemma evaluate_field_faithful request id base name field started :
  Request.ID request = Request.ID id →
  yields (evaluate_field E engine request base name field started) (faithful id).
Proof.
  intros Hid. unfold evaluate_field.
  destruct (LookupHash E); [|by apply evaluate_unmatched_faithful].
  apply yields_emit. quiet_effect. walk; try solve_faithful. by apply evaluate_unmatched_faithful.
Qed.

Lemma Evaluate_faithful request : yields (Evaluate E engine request) (faithful request).
Proof.
  unfold Evaluate. apply yields_now. intros started. walk; try solve_faithful.
  all: assert (∀ b : bool, Request.ID (if b then Request.set_Method request "POST" else request) =
                          Request.ID request) as Hid by (by intros []).
  all: first [apply faithful_finish|apply evaluate_field_faithful]; apply Hid.
Qed.

(** ** Reviews and slots *)

Definition slot_of (e : effect) : option effect :=
  match e with EAcquire | EReview _ | ERelease => Some e | _ => None end.

Definition is_lookup (e : effect) : bool := match e with ELookup _ => true | _ => false end.

(** One review at most, inside one slot that is given back. *)
Definition bracketed (es : list effect) : Prop :=
  omap slot_of es = [] ∨ ∃ q, omap slot_of es = [EAcquire; EReview q; ERelease].

(** A digest the rule store knows is not reviewed. *)
Definition known_not_reviewed (es : list effect) : Prop :=
  ∀ sha lookup m, ELookup sha ∈ es → LookupHash E = Some lookup →
    lookup sha = Ok (Some m) → omap slot_of es = [].

Lemma slots_audit request r t :
  omap slot_of (audit_of E request r t) = [] ∧
  Forall (λ e, is_lookup e = false) (audit_of E request r t).
Proof. unfold audit_of. destruct (events E); split; repeat constructor. Qed.

(** The calls that end [Evaluate] neither look up nor review. *)
Definition quiet (_ : Result.t) (es : list effect) : Prop :=
  omap slot_of es = [] ∧ Forall (λ e, is_lookup e = false) es.

Lemma finish_quiet request r started record : yields (finish E request r started record) quiet.
Proof.
  destruct record; [apply yields_finish|apply yields_finish_quiet]; intros; [apply slots_audit|].
  split; [done|constructor].
Qed.

Lemma finishBlock_quiet request r plaintext started :
  yields (finishBlock E request r plaintext started) quiet.
Proof.
  apply yields_finishBlock.
  - intros d t rec r' _ _ _. split; [done|repeat constructor].
  - intros d t pre r' Hpre _. destruct (slots_audit request r' t) as [H1 H2].
    split; [rewrite omap_app, H1, app_nil_r|apply Forall_app; split; [|done]];
      clear -Hpre; induction Hpre as [|e es (ev & f & p & -> & _) _ IH]; try constructor; done.
Qed.

#[local] Ltac solve_quiet :=
  eapply yields_mono; [first [apply finish_quiet|apply finishBlock_quiet]|].

Lemma evaluate_review_slots request review base name field started :
  yields (evaluate_review E engine request review base name field started)
    (λ _ es, (∃ q, omap slot_of es = [EReview q]) ∧ Forall (λ e, is_lookup e = false) es).
Proof.
  unfold evaluate_review. walk; solve_quiet; intros r' es [H1 H2];
    (split; [eexists; exact (f_equal (cons (EReview _)) H1)|by constructor]).
Qed.

Lemma evaluate_unmatched_slots request base name field started :
  yields (evaluate_unmatched E engine request base name field started)
    (λ _ es, bracketed es ∧ Forall (λ e, is_lookup e = false) es).
Proof.
  unfold evaluate_unmatched. walk;
    try (solve_quiet; intros r' es [H1 H2]; split; [by left|done]).
  apply yields_after. eapply yields_mono; [apply evaluate_review_slots|].
  intros r es [[q H1] H2]. split.
  - right. exists q.
    change (EAcquire :: omap slot_of (es ++ [ERelease]) = [EAcquire; EReview q; ERelease]).
    by rewrite omap_app, H1.
  - rewrite app_comm_cons. apply Forall_app. split; by repeat constructor.
Qed.

Lemma no_lookup_known es : Forall (λ e, is_lookup e = false) es → known_not_reviewed es.
Proof. intros H sha lookup m Hin. rewrite Forall_forall in H. by apply H in Hin. Qed.

Lemma evaluate_field_slots request base name field started :
  yields (evaluate_field E engine request base name field started)
    (λ _ es, bracketed es ∧ known_not_reviewed es).
Proof.
  unfold evaluate_field.
  destruct (LookupHash E) as [lookup|] eqn:Hl; walk;
    try (solve_quiet; intros r' es [H1 H2]; split; [by left|by intros ? ? ? _ _ _]).
  - eapply yields_mono; [apply evaluate_unmatched_slots|]. intros r es [H1 H2].
    split; [done|]. intros sha lookup' m Hin Hl' Hm.
    apply elem_of_cons in Hin as [[= ->]|Hin]; [congruence|]. by eapply (no_lookup_known es).
  - eapply yields_mono; [apply evaluate_unmatched_slots|]. intros r es [H1 H2].
    split; [done|by apply no_lookup_known].
Qed.

(** C19. The reviewer is called at most once per request, after a slot of the
    gate was taken, and the slot is given back after the decision was
    recorded, on every path; a digest that the rule store knows, trusted or
    risk, is never sent to the reviewer. *)
Theorem one_review_in_one_slot request :
  yields (Evaluate E engine request) (λ _ es, bracketed es ∧ known_not_reviewed es).
Proof.
  unfold Evaluate. apply yields_now. intros started. walk;
    try (solve_quiet; intros r' es [H1 H2]; split; [by left|by apply no_lookup_known]).
  apply evaluate_field_slots.
Qed.
(** ** What is looked up *)

(** The field a request is judged by, if it gets that far, with the request as
    completed by then and the key of its profile. *)
Definition selection request : option (Request.t * string * string * Field.t) :=
  let config := Engine.config engine in
  if (EngineConfig.Mode config =? ModeOff)%string then None else
  let request := if (Request.Method request =? "")%string
                 then Request.set_Method request "POST" else request in
  if negb (Request.Protocol request =? "")%string &&
     negb (Request.Protocol request =? ProtocolResponses)%string then None else
  if negb (to_upper (Request.Method request) =? "POST")%string ||
     negb (protected engine (Request.Path request)) then None else
  if (EngineConfig.MaxBodyBytes config <? Z.of_nat (length (Request.Body request)))%Z then None else
  match Match (Some (Engine.profiles engine)) (Request.UserAgent request) with
  | None => None
  | Some profile =>
      let '(parsed, err) :=
        ParseResponses (sha256_hex E) (ctx E) (Request.Body request) DefaultJSONDepth in
      if bool_decide (err = None) then
        let '(name, field) := SelectField parsed in
        if (name =? "")%string then None
        else Some (Request.set_Model request (Parsed.Model parsed), ClientProfile.Key profile, name,
                   PrepareAISample field (EngineConfig.MaxPromptRunes config))
      else None
  end.

Lemma Evaluate_selection request request' key name field :
  selection request = Some (request', key, name, field) →
  Evaluate E engine request =
    (started ← now E; evaluate_field E engine request' (base_result request' key name field) name field started).
Proof.
  unfold selection, Evaluate. cbv zeta.
  destruct (_ =? ModeOff)%string; [done|]. set (r := if (_ =? "")%string then _ else request).
  destruct (_ && _); [done|]. destruct (_ || _); [done|]. destruct (_ <? _)%Z; [done|].
  destruct (Match _ _) as [p|]; [|done]. destruct (ParseResponses _ _ _ _) as [parsed err].
  destruct err; [done|]. cbn [bool_decide option_eq_None_dec decide_rel decide].
  destruct (SelectField parsed) as [n f]. destruct (n =? "")%string; [done|]. by intros [= <- <- <- <-].
Qed.

(** What the reviewer is asked about a field. *)
Definition field_review (request : Request.t) (name : string) (field : Field.t) : AIReviewRequest.t :=
  AIReviewRequest.mk name (Field.AISample field) (Field.AISampled field) (Request.Model request)
    (EngineConfig.ReviewCriteria (Engine.config engine)) (Request.APIKeyFingerprint request)
    (Request.ClientIP request).

(** A result about a field, and reviews of that field only. *)
Definition about_field request (name : string) (field : Field.t) (r : Result.t) (es : list effect) : Prop :=
  Result.Hash r = Field.SHA256 field ∧ Result.Field r = name ∧
  Result.ReviewContent r = Field.AISample field ∧ Result.RuleContent r = Field.Text field ∧
  ∀ q, EReview q ∈ es → q = field_review request name field.

Definition no_review (e : effect) : bool := match e with EReview _ => false | _ => true end.

Lemma about_field_quiet request name field r es e :
  no_review e = true → about_field request name field r es → about_field request name field r (e :: es).
Proof.
  intros He (? & ? & ? & ? & Hq). split_and!; try done. intros q [<-|Hin]%elem_of_cons; [done|by apply Hq].
Qed.

Lemma about_finish req request name field r started :
  about_field request name field r [] → yields (finish E req r started true) (about_field request name field).
Proof.
  intros (? & ? & ? & ? & _). apply yields_finish. intros d t. split_and!; try done. unfold audit_of.
  destruct (events E); intros q Hin; [by apply list_elem_of_singleton in Hin|by apply not_elem_of_nil in Hin].
Qed.

Lemma about_finishBlock req request name field r plaintext started :
  about_field request name field r [] → yields (finishBlock E req r plaintext started) (about_field request name field).
Proof.
  intros (? & ? & ? & ? & _). apply yields_finishBlock.
  - intros d t rec r' _ _ _. split_and!; try done. by intros q Hin%list_elem_of_singleton.
  - intros d t pre r' Hpre _. split_and!; try done. intros q [Hin|Hin]%elem_of_app.
    + rewrite Forall_forall in Hpre. by destruct (Hpre _ Hin) as (? & ? & ? & ? & _).
    + unfold audit_of in Hin. destruct (events E); [by apply list_elem_of_singleton in Hin|by apply not_elem_of_nil in Hin].
Qed.

#[local] Ltac solve_about :=
  first [apply about_finish|apply about_finishBlock]; repeat case_match; done.

Lemma evaluate_review_about request review base name field started :
  about_field request name field base [] →
  yields (evaluate_review E engine request review base name field started) (about_field request name field).
Proof.
  intros Hb. unfold evaluate_review. apply yields_now. intros t. apply yields_emit.
  eapply yields_mono with (P := about_field request name field).
  - walk; solve_about.
  - intros r es (? & ? & ? & ? & Hq). split_and!; try done. intros q [[= ->]|Hin]%elem_of_cons; [done|by apply Hq].
Qed.

Lemma evaluate_unmatched_about request base name field started :
  about_field request name field base [] →
  yields (evaluate_unmatched E engine request base name field started) (about_field request name field).
Proof.
  intros Hb. unfold evaluate_unmatched. walk; try solve_about.
  apply yields_after. eapply yields_mono; [by apply evaluate_review_about|].
  intros r es (? & ? & ? & ? & Hq). apply about_field_quiet; [done|]. split_and!; try done.
  intros q [Hin|Hin%list_elem_of_singleton]%elem_of_app; [by apply Hq|done].
Qed.

Lemma evaluate_field_about request base name field started :
  about_field request name field base [] →
  yields (evaluate_field E engine request base name field started) (about_field request name field).
Proof.
  intros Hb. unfold evaluate_field. destruct (LookupHash E) as [lookup|]; [|by apply evaluate_unmatched_about].
  apply yields_emit. eapply yields_mono with (P := about_field request name field);
    [|intros r es; by apply about_field_quiet].
  walk; try solve_about. by apply evaluate_unmatched_about.
Qed.

(** A request without a selected field is not blocked. *)
Lemma Evaluate_unselected request :
  selection request = None → yields (Evaluate E engine request) (λ r _, Result.Blocked r = false).
Proof.
  unfold selection, Evaluate. cbv zeta. intros Hs. apply yields_now. intros started. revert Hs.
  destruct (_ =? ModeOff)%string; [intros _; by apply yields_finish_quiet|].
  set (r := if (_ =? "")%string then _ else request).
  destruct (_ && _); [intros _; by apply yields_finish_quiet|].
  destruct (_ || _); [intros _; by apply yields_finish_quiet|].
  destruct (_ <? _)%Z; [intros _; by apply yields_finish|].
  destruct (Match _ _) as [p|]; [|intros _; by apply yields_finish].
  destruct (ParseResponses _ _ _ _) as [parsed err]. destruct err; [intros _; by apply yields_finish|].
  cbn [bool_decide option_eq_None_dec decide_rel decide].
  destruct (SelectField parsed) as [n f]. destruct (n =? "")%string; [intros _; by apply yields_finish|done].
Qed.

(** A blocked request was blocked for the field its own body selects. *)
Lemma Evaluate_about request :
  yields (Evaluate E engine request) (λ r es, Result.Blocked r = true →
    ∃ request' key name field, selection request = Some (request', key, name, field) ∧
      about_field request' name field r es).
Proof.
  destruct (selection request) as [[[[request' key] name] field]|] eqn:Hs.
  - rewrite (Evaluate_selection _ _ _ _ _ Hs). apply yields_now. intros started.
    eapply yields_mono; [apply (evaluate_field_about request'); by split_and!; try done; intros q Hq%not_elem_of_nil|].
    intros r es Ha _. by exists request', key, name, field.
  - eapply yields_mono; [by apply Evaluate_unselected|]. by intros r es ->.
Qed.

(** A request whose selected text is a risk rule is blocked for it, if the
    evidence can be saved. *)
Lemma known_risk_blocked request request' key name field lookup m record :
  selection request = Some (request', key, name, field) →
  LookupHash E = Some lookup → lookup (Field.SHA256 field) = Ok (Some m) →
  to_lower (trim_space (HashMatch.Kind m)) = "risk"%string →
  events E = true → RecordBlockedEvent E = Some record → (∀ ev, record ev name (Field.Text field) = None) →
  ∀ w, let r := (Evaluate E engine request w).1 in
    Result.Blocked r = true ∧ Result.Reason r = ReasonRiskHashMatch ∧ Result.Hash r = Field.SHA256 field ∧
    Result.Field r = name.
Proof.
  intros Hs Hl Hm Hk He Hr Hrec w. rewrite (Evaluate_selection _ _ _ _ _ Hs).
  unfold evaluate_field, finishBlock, mbind, M_bind, now, emit. rewrite Hl, Hm, Hk, He, Hr.
  simpl. by rewrite Hrec.
Qed.
End theorems.

(** ** Construction *)

Section construction.
Context `{U : Unicode, R : Regexp}.

Lemma protected_paths_ok l acc paths :
  protected_paths l acc = Ok paths →
  set_Forall (λ p, has_prefix p "/" = true) acc →
  paths = list_to_set (map trim_space l) ∪ acc ∧
  set_Forall (λ p, has_prefix p "/" = true) paths.
Proof.
  revert acc. induction l as [|p l IH]; intros acc; cbn [protected_paths].
  - intros [= ->] Hacc. split; [set_solver|done].
  - destruct (_ || _) eqn:Hb; [done|]. to_prop. intros Hok Hacc.
    apply IH in Hok as [-> Hall].
    + split; [simpl; set_solver|done].
    + apply set_Forall_union; [|done]. by apply set_Forall_singleton.
Qed.

(** An engine that [NewEngine] accepts has a usable configuration: a known
    mode, positive limits, a threshold that is neither below 0.5 nor above
    1, at least one slot, a timeout of at least a millisecond, at least one
    protected path, every one of them absolute and trimmed, and a gate whose
    slots follow the configuration unless one is shared. *)
Theorem NewEngine_sound c e :
  NewEngine c = Ok e →
  let c' := Engine.config e in
  c' = normalizeEngineConfig c ∧
  (EngineConfig.Mode c' = ModePermissive ∨ EngineConfig.Mode c' = ModeOff) ∧
  (1 ≤ EngineConfig.MaxBodyBytes c')%Z ∧ (1 ≤ EngineConfig.MaxPromptRunes c')%Z ∧
  f64_lt (EngineConfig.RejectConfidenceThreshold c') f64_half = false ∧
  f64_gt (EngineConfig.RejectConfidenceThreshold c') f64_one = false ∧
  (1 ≤ EngineConfig.AIConcurrency c')%Z ∧ (millisecond ≤ EngineConfig.AITimeout c')%Z ∧
  Engine.paths e = list_to_set (map trim_space (EngineConfig.ProtectedPaths c')) ∧
  Engine.paths e ≠ ∅ ∧ set_Forall (λ p, has_prefix p "/" = true) (Engine.paths e) ∧
  (EngineConfig.AIBulkhead c = None →
   ConcurrencyGate.limit (Engine.bulkhead e) = EngineConfig.AIConcurrency c').
Proof.
  unfold NewEngine. set (c' := normalizeEngineConfig c).
  destruct (_ && _) eqn:Hmode; [done|]. destruct (_ || _) eqn:Hlim; [done|].
  destruct (f64_lt _ _ || _) eqn:Hthr; [done|].
  destruct ((_ <? 1)%Z || _ || _) eqn:Hconc; [done|].
  destruct (NewProfileMatcher _) as [m|]; [|done].
  destruct (protected_paths _ ∅) as [paths|] eqn:Hp; simpl; [|done].
  destruct (bool_decide _) eqn:Hne; [done|]. intros [= <-]. cbn [Engine.config Engine.paths Engine.bulkhead].
  apply protected_paths_ok in Hp as [-> Hall]; [|apply set_Forall_empty]. rewrite union_empty_r_L in *.
  apply andb_false_iff in Hmode. to_prop. split_and!; try done.
  - destruct Hmode as [Hm|Hm]; apply negb_false_iff, String.eqb_eq in Hm; auto.
  - intros Hb. change (EngineConfig.AIBulkhead c') with (EngineConfig.AIBulkhead c). rewrite Hb.
    unfold NewConcurrencyGate. cbn [ConcurrencyGate.limit].
    by rewrite (proj2 (Z.ltb_ge _ _)) by done.
Qed.
End construction.

(** ** Witnesses *)

Lemma NewEngine_sound_witness :
  ∃ e, NewEngine (R := literal_regexp) DefaultEngineConfig = Ok e ∧
       Engine.paths e = {["/v1/responses"%string]} ∧
       (1 ≤ EngineConfig.AIConcurrency (Engine.config e))%Z.
Proof.
  destruct (NewEngine (R := literal_regexp) DefaultEngineConfig) as [e|err] eqn:He.
  - pose proof (NewEngine_sound (R := literal_regexp) _ _ He) as H. cbv zeta in H.
    exists e. split; [reflexivity|]. split; [|apply H].
    vm_compute in He. injection He as <-. vm_compute. reflexivity.
  - vm_compute in He. discriminate.
Defined.

(** A run: the default engine, a rule store with one risk digest, a store that
    accepts every block, and a reviewer that passes everything. *)
Definition demo_engine : result engine_err (Engine.t (R := literal_regexp)) :=
  NewEngine (R := literal_regexp) DefaultEngineConfig.

Definition demo_env (risk : string) (save : option audit_err) : env :=
  mk_env (λ n, Z.of_nat n * second)%Z (λ _, None) (λ s, "#" +:+ s)
    (Some (λ sha, Ok (if (sha =? risk)%string then Some (HashMatch.mk 1 sha "risk" "") else None)))
    (Some (λ _, (AIVerdict.mk VerdictPass f64_one "ok" "benign" "m" 0, None, 0%Z)))
    (λ _, false) (λ _ _, None) true (Some (λ _ _ _, save)).

Definition demo_request : Request.t :=
  Request.mk "1" "" "/v1/responses" "" "codex_cli_rs/1" "" (json_text "{'instructions':'attack'}")
    "" "" "".

Definition demo_run (risk : string) (save : option audit_err) : option (Result.t * nat) :=
  match demo_engine with
  | Ok e =>
      let '(r, w) := Evaluate (R := literal_regexp) (RL := fixed_window_limiter)
                       (demo_env risk save) e demo_request (mk_world 0 None []) in
      Some (r, length (log w))
  | Err _ => None
  end.

Example demo_blocked :
  match demo_run "#attack" None with
  | Some (r, n) => (Result.Blocked r, Result.Reason r, n) = (true, ReasonRiskHashMatch, 2)
  | None => False
  end.
Proof. vm_compute. reflexivity. Qed.

Example demo_fail_open :
  match demo_run "#attack" (Some ErrNoPrompt) with
  | Some (r, n) => (Result.Allow r, Result.Reason r, n) = (true, ReasonStorageFailOpen, 3)
  | None => False
  end.
Proof. vm_compute. reflexivity. Qed.

Example demo_reviewed :
  match demo_run "#other" None with
  | Some (r, n) => (Result.Allow r, Result.Reason r, n) = (true, ReasonAIPass, 5)
  | None => False
  end.
Proof. vm_compute. reflexivity. Qed.
