(* ===== verification/Proxy.v ===== *)
(** * The reverse proxy ([internal/proxy/proxy.go])

    The handler decides what happens to a request: it is answered locally,
    refused, or handed to [httputil.ReverseProxy] with a body that replays
    what was read for the audit.  [httputil.ReverseProxy], IP addresses, URL
    parsing and gzip are the interface [NetLib]; header maps, [SplitHostPort]
    and the body readers are modelled. *)

From S2P Require Export GoStd.

(** A body reader: the bytes it will deliver, and how it ends (end of file, or
    an error that repeats). *)
Record stream : Type := mk_stream { content : bytes; failure : option string }.

(** [io.ReadAll(io.LimitReader(original, n))]: the bytes read, the error, and
    what is left of [original]. *)
Definition read_all_limited (n : Z) (s : stream) : bytes * option string * stream :=
  if (n <=? Z.of_nat (length (content s)))%Z
  then (take (Z.to_nat n) (content s), None, mk_stream (drop (Z.to_nat n) (content s)) (failure s))
  else (content s, failure s, mk_stream [] (failure s)).

(** [bytes.NewReader] and [io.MultiReader(bytes.NewReader(b), s)] *)
Definition bytes_reader (b : bytes) : stream := mk_stream b None.
Definition multi_reader (b : bytes) (s : stream) : stream := mk_stream (b ++ content s) (failure s).

(** ** URLs and addresses *)

Module URL.
Record t : Type := mk { Scheme : string; Host : string; Path : string; RawQuery : string }.
End URL.

(** What [validForwardedHost] looks at of a parsed URL. *)
Record parsed_url : Type := mk_parsed_url {
  pu_Host : string; pu_Hostname : string; pu_Port : string; pu_User : bool; pu_Path : string;
}.

Class NetLib := {
  IP : Type;
  ParseIP : string → option IP;
  IP_String : IP → string;
  url_Parse : string → option parsed_url;
  (** [gzip.NewReader]: the decompressed stream and whether [Close] fails. *)
  gzip_NewReader : bytes → option (stream * bool);
}.

(** [strings.IndexByte] and [LastIndexByte] as splits. *)
Fixpoint cut_first (c : ascii) (l : bytes) : option (bytes * bytes) :=
  match l with
  | [] => None
  | x :: l =>
      if bool_decide (x = c) then Some ([], l)
      else match cut_first c l with Some (a, b) => Some (x :: a, b) | None => None end
  end.
Definition cut_last (c : ascii) (l : bytes) : option (bytes * bytes) :=
  match cut_first c (rev l) with Some (a, b) => Some (rev b, rev a) | None => None end.
Definition has_byte (c : ascii) (l : bytes) : bool := existsb (λ x, bool_decide (x = c)) l.

(** [net.SplitHostPort] *)
Definition SplitHostPort (hostport : string) : option (string * string) :=
  let l := B hostport in
  match cut_last ":" l with
  | None => None
  | Some (before, port) =>
      match l with
      | "["%char :: inner =>
          match cut_first "]" inner with
          | None => None
          | Some (host, rest) =>
              if bool_decide (rest = ":"%char :: port) && negb (has_byte "[" inner) &&
                 negb (has_byte "]" rest)
              then Some (S_ host, S_ port) else None
          end
      | _ =>
          if has_byte ":" before || has_byte "[" l || has_byte "]" l then None
          else Some (S_ before, S_ port)
      end
  end.

(** ** HTTP *)

(** [http.Header]; the keys the program uses are canonical. *)
Abbreviation Header := (gmap string (list string)) (only parsing).
Definition Values (h : Header) (key : string) : list string := default [] (h !! key).
Definition Get (h : Header) (key : string) : string := default "" (head (Values h key)).
Definition Header_Set (h : Header) (key value : string) : Header := <[key := [value]]> h.
Definition Del (h : Header) (key : string) : Header := delete key h.

Module HttpRequest.
Record t : Type := mk {
  Method : string;
  URL : URL.t;
  Host : string;
  RemoteAddr : string;
  TLS : bool;
  header : gmap string (list string);
  Body : option stream;
  Trailer : gmap string (list string);
}.
Definition set_Body (r : t) (b : option stream) : t :=
  mk (Method r) (URL r) (Host r) (RemoteAddr r) (TLS r) (header r) b (Trailer r).
Definition set_header (r : t) (h : gmap string (list string)) : t :=
  mk (Method r) (URL r) (Host r) (RemoteAddr r) (TLS r) h (Body r) (Trailer r).
Definition set_target (r : t) (u : URL.t) (host : string) : t :=
  mk (Method r) u host (RemoteAddr r) (TLS r) (header r) (Body r) (Trailer r).
Definition set_Trailer (r : t) (tr : gmap string (list string)) : t :=
  mk (Method r) (URL r) (Host r) (RemoteAddr r) (TLS r) (header r) (Body r) tr.
End HttpRequest.
Abbreviation request := HttpRequest.t (only parsing).

Module Decision.
Record t : Type := mk {
  Allow : bool;
  Blocked : bool;
  Reason : string;
  RequestID : string;
  AuditMs : Z;
  UAProfile : string;
  Field : string;
  Hash : string;
  Model : string;
  UpstreamHit : bool;
}.
End Decision.

(** [Auditor] with the optional interfaces it may also implement. *)
Module Auditor.
Record t : Type := mk {
  Evaluate : request → bytes → Decision.t * option string;
  ShouldAudit : option (request → bool);        (** [RouteAuditor] *)
  AuditBodyLimit : option (request → Z);        (** [BodyLimitProvider] *)
  Observer : bool;                              (** [Observer] *)
}.
End Auditor.

Inductive proxy_err : Type :=
| errAuditBodyLimitExceeded
| errUnsupportedContentEncoding
| errContentDecode (why : string)
| errBodyRead (why : string).

#[export] Instance proxy_err_eq_dec : EqDecision proxy_err.
Proof. solve_decision. Defined.

(** ** Bodies *)

(** [captureBody]: the bytes for the audit, the replay, whether the audit can
    go on, and the error.  The replay closes the original.  [limit+1] is an
    [int64]: it wraps around for the largest limit. *)
Definition captureBody (original : option stream) (limit : Z) :
    bytes * stream * bool * option proxy_err :=
  match original with
  | None => ([], bytes_reader [], true, None)
  | Some original =>
      let limit := if (limit <=? 0)%Z then Z.shiftl 4 20 else limit in
      let '(b, err, rest) := read_all_limited (wrap64 (limit + 1)) original in
      match err with
      | Some e => (b, multi_reader b rest, false, Some (errBodyRead e))
      | None =>
          if (limit <? Z.of_nat (length b))%Z
          then (b, multi_reader b rest, false, Some errAuditBodyLimitExceeded)
          else (b, bytes_reader b, true, None)
      end
  end.

Section proxy.
Context `{U : Unicode, N : NetLib}.

Definition decodeAuditBody (body : bytes) (contentEncoding : string) (limit : Z) :
    result proxy_err bytes :=
  let encoding := to_lower (trim_space contentEncoding) in
  if (encoding =? "")%string || (encoding =? "identity")%string then Ok body
  else if negb (encoding =? "gzip")%string && negb (encoding =? "x-gzip")%string
  then Err errUnsupportedContentEncoding
  else
    let limit := if (limit <=? 0)%Z then Z.shiftl 4 20 else limit in
    match gzip_NewReader body with
    | None => Err (errContentDecode "gzip")
    | Some (reader, closeErr) =>
        let '(decoded, readErr, _) := read_all_limited (wrap64 (limit + 1)) reader in
        match readErr with
        | Some e => Err (errContentDecode e)
        | None =>
            if closeErr then Err (errContentDecode "gzip close")
            else if (limit <? Z.of_nat (length decoded))%Z then Err errAuditBodyLimitExceeded
            else Ok decoded
        end
    end.

Definition bodyBypassReason (err : proxy_err) : string :=
  match err with
  | errAuditBodyLimitExceeded => "oversize_bypass"
  | errUnsupportedContentEncoding => "unsupported_content_encoding_fail_open"
  | errContentDecode _ => "content_decode_fail_open"
  | errBodyRead _ => "body_read_fail_open"
  end.

(** ** Routes *)

Definition ProtectedPath (p : string) : bool :=
  (p =? "/v1/responses")%string || (p =? "/responses")%string ||
  (p =? "/backend-api/codex/responses")%string.

Definition headerHasToken (values : list string) (want : string) : bool :=
  existsb (λ value, existsb (λ token, equal_fold (trim_space token) want) (split value ","))
    values.

Definition isWebSocket (r : request) : bool :=
  equal_fold (trim_space (Get (HttpRequest.header r) "Upgrade")) "websocket" &&
  headerHasToken (Values (HttpRequest.header r) "Connection") "upgrade".

Definition unsupportedProtocolPath (p : string) : bool :=
  has_suffix p "/chat/completions" || has_suffix p "/messages" ||
  contains p ":generateContent" || contains p ":streamGenerateContent".

(** ** Forwarding metadata *)

Definition digit_value (r : rune_at) : Z := (Z.of_N (rn r) - 48)%Z.

(** [strconv.Atoi] of a short string of digits. *)
Definition atoi_digits (rs : list rune_at) : Z :=
  fold_left (λ acc r, (acc * 10 + digit_value r)%Z) rs 0%Z.

Definition validForwardedPort (value : string) : bool :=
  if (value =? "")%string || (5 <? slen value)%Z then false
  else if negb (forallb (λ r, (48 <=? rn r)%N && (rn r <=? 57)%N) (runes (B value))) then false
  else let port := atoi_digits (runes (B value)) in (1 <=? port)%Z && (port <=? 65535)%Z.

Definition validForwardedHost (value : string) : bool :=
  if (value =? "")%string || negb (value =? trim_space value)%string ||
     contains_any value [" "; "009"; "013"; "010"; ","; "/"; "?"; "#"; "@"]%char
  then false
  else if (1 <? count_byte value ":")%nat && negb (has_prefix value "[") then false
  else
    match url_Parse ("http://" +:+ value) with
    | None => false
    | Some parsed =>
        if negb (pu_Host parsed =? value)%string || (pu_Hostname parsed =? "")%string ||
           pu_User parsed || negb (pu_Path parsed =? "")%string then false
        else if has_suffix value ":" then false
        else if negb (pu_Port parsed =? "")%string && negb (validForwardedPort (pu_Port parsed))
        then false
        else true
    end.

Definition singleForwardedValue (h : Header) (name : string) : option string :=
  match Values h name with
  | [v] => let value := trim_space v in
           if negb (value =? "")%string && negb (contains value ",") then Some value else None
  | _ => None
  end.

Definition requestScheme (r : request) : string :=
  if HttpRequest.TLS r then "https" else "http".

Definition requestPort (r : request) : string :=
  match SplitHostPort (HttpRequest.Host r) with
  | Some (host, port) =>
      if negb (host =? "")%string then (if validForwardedPort port then port else "")
      else if HttpRequest.TLS r then "443" else "80"
  | None => if HttpRequest.TLS r then "443" else "80"
  end.

(** The walk of [trustedForwardedFor] from the right end of the chain: it
    keeps addresses up to and including the first untrusted one. *)
Fixpoint retain (trustedProxy : option (IP → bool)) (chain : list string) : list string :=
  match chain with
  | [] => []
  | entry :: chain =>
      match ParseIP (trim_space entry) with
      | None => []
      | Some ip =>
          IP_String ip ::
            (if match trustedProxy with Some f => f ip | None => false end
             then retain trustedProxy chain else [])
      end
  end.

Definition trustedForwardedFor (values : list string) (trustedProxy : option (IP → bool)) :
    list string :=
  let chain := concat (map (λ value, split value ",") values) in
  rev (retain trustedProxy (rev chain)).

(** The address of the peer, and whether its headers count. *)
Definition remote_ip (inp : request) : option IP :=
  ParseIP (match SplitHostPort (HttpRequest.RemoteAddr inp) with
           | Some (host, _) => host
           | None => ""
           end).
Definition peer_trusted (TrustedProxy : option (IP → bool)) (inp : request) : bool :=
  match SplitHostPort (HttpRequest.RemoteAddr inp), remote_ip inp, TrustedProxy with
  | Some _, Some ip, Some f => f ip
  | _, _, _ => false
  end.

Definition setXForwarded (TrustedProxy : option (IP → bool)) (inp out : request) : request :=
  let h := foldr (λ k h, Del h k) (HttpRequest.header out)
             ["X-Forwarded-For"; "X-Forwarded-Host"; "X-Forwarded-Proto"; "X-Forwarded-Port"]%string in
  let remoteIP := remote_ip inp in
  let trusted := peer_trusted TrustedProxy inp in
  let inh := HttpRequest.header inp in
  let forwardedFor :=
    (if trusted then trustedForwardedFor (Values inh "X-Forwarded-For") TrustedProxy else []) ++
    (match remoteIP with Some ip => [IP_String ip] | None => [] end) in
  let h := if bool_decide (forwardedFor = []) then h
           else Header_Set h "X-Forwarded-For" (join forwardedFor ", ") in
  (** a value of the peer replaces the default when the peer is trusted *)
  let override name (read : string → option string) dflt :=
    if trusted then
      match singleForwardedValue inh name with
      | Some v => default dflt (read v)
      | None => dflt
      end
    else dflt in
  let when_ (valid : string → bool) v := if valid v then Some v else None in
  let forwardedHost := override "X-Forwarded-Host"%string (when_ validForwardedHost) (HttpRequest.Host inp) in
  let h := if validForwardedHost forwardedHost then Header_Set h "X-Forwarded-Host" forwardedHost else h in
  let is_scheme v := (v =? "http")%string || (v =? "https")%string in
  let forwardedProto := override "X-Forwarded-Proto"%string
    (λ v, when_ is_scheme (to_lower v)) (requestScheme inp) in
  let h := Header_Set h "X-Forwarded-Proto" forwardedProto in
  let forwardedPort := override "X-Forwarded-Port"%string (when_ validForwardedPort) (requestPort inp) in
  let h := if (forwardedPort =? "")%string then h else Header_Set h "X-Forwarded-Port" forwardedPort in
  HttpRequest.set_header out h.

(** ** The upstream *)

(** [Server]; [upstream] is the atomically replaced target. *)
Record Server : Type := mk_Server {
  Upstream : option URL.t;
  Auditor_ : option Auditor.t;
  MaxBody : Z;
  Ready : option (option string);     (** [Ready] and what it returns *)
  TrustedProxy : option (IP → bool);
  upstream : option URL.t;
}.

Definition set_upstream (s : Server) (u : URL.t) : Server :=
  mk_Server (Upstream s) (Auditor_ s) (MaxBody s) (Ready s) (TrustedProxy s) (Some u).

Definition SetUpstream (s : Server) (target : option URL.t) : Server * bool :=
  match target with
  | Some u => if (URL.Scheme u =? "")%string || (URL.Host u =? "")%string then (s, false)
              else (set_upstream s u, true)
  | None => (s, false)
  end.

Definition currentUpstream (s : Server) : Server * option URL.t :=
  match upstream s with
  | Some target => (s, Some target)
  | None =>
      match Upstream s with
      | None => (s, None)
      | Some _ => let s := (SetUpstream s (Upstream s)).1 in (s, upstream s)
      end
  end.

(** [singleJoiningSlash] of the [SetURL] of package httputil. *)
Definition joinURLPath (a b : string) : string :=
  match has_suffix a "/", has_prefix b "/" with
  | true, true => a +:+ S_ (drop 1 (B b))
  | false, false => a +:+ "/" +:+ b
  | _, _ => a +:+ b
  end.

(** [pr.SetURL(target)]; it clears [Out.Host]. *)
Definition SetURL (target : URL.t) (out : request) : request :=
  let u := HttpRequest.URL out in
  let query :=
    if (URL.RawQuery target =? "")%string || (URL.RawQuery u =? "")%string
    then URL.RawQuery target +:+ URL.RawQuery u
    else URL.RawQuery target +:+ "&" +:+ URL.RawQuery u in
  HttpRequest.set_target out
    (URL.mk (URL.Scheme target) (URL.Host target) (joinURLPath (URL.Path target) (URL.Path u)) query)
    "".

(** [rp.Rewrite]: [inp] is the inbound request, [out] the copy that
    [httputil.ReverseProxy] prepared. *)
Definition Rewrite (s : Server) (inp out : request) : Server * request :=
  let '(s, target) := currentUpstream s in
  match target with
  | None => (s, out)
  | Some target =>
      let out := SetURL target out in
      let u := HttpRequest.URL out in
      let out := HttpRequest.set_target out
        (URL.mk (URL.Scheme u) (URL.Host u) (URL.Path u) (URL.RawQuery (HttpRequest.URL inp)))
        (HttpRequest.Host out) in
      let out := if bool_decide (HttpRequest.Trailer inp = ∅) then out
                 else HttpRequest.set_Trailer out (HttpRequest.Trailer inp) in
      (s, setXForwarded (TrustedProxy s) inp out)
  end.

(** ** Responses written by the program *)

Record response : Type := mk_response { status : Z; body : bytes }.

Definition blocked_body : bytes :=
  json_text "{'error':{'message':'Your activity may violate our usage policies. Please contact the administrator.','type':'invalid_request_error','code':'nocyber_guard_blocked'}}".

Definition writeBlocked (d : Decision.t) : response := mk_response 403 blocked_body.

(** An error of the upstream round trip. *)
Record upstream_error : Type := mk_upstream_error {
  is_canceled : bool;          (** [errors.Is(err, context.Canceled)] *)
  is_deadline : bool;          (** [errors.Is(err, context.DeadlineExceeded)] *)
  net_timeout : option bool;   (** the [Timeout()] of a [net.Error] in the chain *)
}.

Definition writeUpstreamError (request_canceled : bool) (err : upstream_error) :
    option response :=
  if is_canceled err || request_canceled then None
  else if is_deadline err || default false (net_timeout err)
  then Some (mk_response 504
    (json_text "{'error':{'message':'upstream timeout','type':'server_error','code':'upstream_timeout'}}"))
  else Some (mk_response 502
    (json_text "{'error':{'message':'upstream unavailable','type':'server_error','code':'upstream_unavailable'}}")).

Definition health : response := mk_response 200 (json_text "{'status':'ok'}").

Definition ready (s : Server) : response :=
  match Ready s with
  | Some (Some _) => mk_response 503 (json_text "{'status':'not_ready'}")
  | _ => health
  end.

(** ** The handler *)

Inductive outcome : Type :=
| Answered (r : response)     (** written by the program *)
| Forwarded (r : request).    (** [rp.ServeHTTP(w, r)] *)

Definition observe (a : option Auditor.t) (reason : string) : list string :=
  match a with Some a => if Auditor.Observer a then [reason] else [] | None => [] end.

Definition shouldAudit (s : Server) (r : request) : bool :=
  let websocket := isWebSocket r in
  match Auditor_ s with
  | Some a =>
      match Auditor.ShouldAudit a with
      | Some f => negb websocket && f r
      | None => negb websocket && (HttpRequest.Method r =? "POST")%string &&
                ProtectedPath (URL.Path (HttpRequest.URL r))
      end
  | None => false
  end.

Definition bodyLimit (s : Server) (a : Auditor.t) (r : request) : Z :=
  match Auditor.AuditBodyLimit a with
  | Some f => if (0 <? f r)%Z then f r else MaxBody s
  | None => MaxBody s
  end.

(** The audited branch: the outcome and the observed reasons. *)
Definition audit_request (s : Server) (a : Auditor.t) (r : request) : outcome * list string :=
  let limit := bodyLimit s a r in
  let '(body, replay, auditable, err) := captureBody (HttpRequest.Body r) limit in
  let r := HttpRequest.set_Body r (Some replay) in
  if negb auditable then
    (Forwarded r, observe (Some a) (match err with Some e => bodyBypassReason e | None => "" end))
  else
    let contentEncoding := join (Values (HttpRequest.header r) "Content-Encoding") "," in
    match decodeAuditBody body contentEncoding limit with
    | Err err => (Forwarded r, observe (Some a) (bodyBypassReason err))
    | Ok auditBody =>
        let '(decision, _) := Auditor.Evaluate a r auditBody in
        if Decision.Blocked decision then (Answered (writeBlocked decision), [])
        else (Forwarded (HttpRequest.set_Body r (Some (bytes_reader body))), [])
    end.

(** What is observed before the audit decides. *)
Definition observed (s : Server) (r : request) : list string :=
  if isWebSocket r then observe (Auditor_ s) "websocket_unreviewed_allow"
  else if unsupportedProtocolPath (URL.Path (HttpRequest.URL r))
  then observe (Auditor_ s) "protocol_unreviewed_allow"
  else [].

(** [Handler]: the outcome and the reasons given to [Observe], in order. *)
Definition Handler (s : Server) (r : request) : outcome * list string :=
  let path := URL.Path (HttpRequest.URL r) in
  if (path =? "/_nocyber/healthz")%string then (Answered health, [])
  else if (path =? "/_nocyber/readyz")%string then (Answered (ready s), [])
  else
    match Auditor_ s with
    | Some a =>
        if shouldAudit s r
        then let '(o, more) := audit_request s a r in (o, observed s r ++ more)
        else (Forwarded r, observed s r)
    | None => (Forwarded r, observed s r)
    end.
End proxy.
