(* ===== verification/ProxyTheorems.v ===== *)
(** * Theorems on the reverse proxy *)

From S2P Require Export Proxy Utf8.

(** ** Bodies *)

(** What a consumer of a body sees. *)
Definition deliver (b : option stream) : bytes * option string :=
  match b with Some s => (content s, failure s) | None => ([], None) end.

Lemma read_all_limited_split n s :
  let '(b, err, rest) := read_all_limited n s in
  b ++ content rest = content s ∧ failure rest = failure s ∧
  ((Z.of_nat (length b) < n)%Z → rest = mk_stream [] (failure s) ∧ err = failure s) ∧
  (err = None → failure s = None ∨ (0 ≤ n → Z.of_nat (length b) = n)%Z).
Proof.
  unfold read_all_limited. destruct (n <=? _)%Z eqn:E; to_prop; simpl.
  - split_and!; [apply take_drop|done| |].
    + rewrite length_take. lia.
    + intros _. right. rewrite length_take. lia.
  - split_and!; [apply app_nil_r|done|done|]. intros ->. by left.
Qed.

(** A limit below the largest [int64]; the stored settings allow at most
    [maxAuditBodyBytes], see [ValidateConfig]. *)
Definition limit_fits (limit : Z) : Prop := (limit < 2 ^ 63 - 1)%Z.

Lemma wrap64_next limit : (0 < limit)%Z → limit_fits limit → wrap64 (limit + 1) = (limit + 1)%Z.
Proof. unfold limit_fits. intros H1 H2. apply wrap64_id. lia. Qed.

(** With the largest limit nothing is read, and the body is lost. *)
Lemma largest_limit_loses_body s :
  captureBody (Some s) (2 ^ 63 - 1) = ([], bytes_reader [], true, None).
Proof. unfold captureBody, read_all_limited. by destruct (content s). Qed.

Lemma captureBody_replay original limit b replay ok err :
  limit_fits limit → captureBody original limit = (b, replay, ok, err) →
  deliver (Some replay) = deliver original ∧
  (ok = true → deliver original = (b, None) ∧ err = None ∧
     (original ≠ None → (Z.of_nat (length b) ≤ if (limit <=? 0)%Z then Z.shiftl 4 20 else limit)%Z)).
Proof.
  intros Hfits. unfold captureBody. destruct original as [s|].
  2: { intros [= <- <- <- <-]. split; [done|]. intros _. split_and!; [done..|]. by intros []. }
  cbv zeta. set (lim := if (limit <=? 0)%Z then _ else limit).
  assert (0 < lim)%Z as Hlim by (subst lim; destruct (limit <=? 0)%Z eqn:E; to_prop; [done|lia]).
  rewrite wrap64_next by (done || (subst lim; by destruct (limit <=? 0)%Z)).
  pose proof (read_all_limited_split (lim + 1) s) as H.
  destruct (read_all_limited _ s) as [[b' e] rest]. destruct H as (H1 & H2 & H3 & H4).
  destruct e as [e|].
  - intros [= <- <- <- <-]. simpl. rewrite H1, H2. done.
  - destruct (lim <? _)%Z eqn:El; to_prop; intros [= <- <- <- <-]; simpl.
    + by rewrite H1, H2.
    + destruct H3 as [-> Hf]; [lia|]. simpl in H1. rewrite app_nil_r in H1. rewrite H1, <- Hf.
      split; [done|]. intros _. split; [done|]. split; [done|]. intros _. by rewrite <- H1.
Qed.

Section theorems.
Context `{U : Unicode, N : NetLib}.

(** What [Handler] hands on is the inbound request, with a body that replays. *)
Lemma Handler_forwards s r r' obs :
  (∀ a, Auditor_ s = Some a → limit_fits (bodyLimit s a r)) →
  Handler s r = (Forwarded r', obs) →
  HttpRequest.set_Body r' None = HttpRequest.set_Body r None ∧
  deliver (HttpRequest.Body r') = deliver (HttpRequest.Body r).
Proof.
  intros Hfits. unfold Handler. generalize (observed s r). intros seen.
  destruct (_ =? _)%string; [done|]. destruct (_ =? _)%string; [done|].
  destruct (Auditor_ s) as [a|]; [|by intros [= <- _]].
  destruct (shouldAudit s r); [|by intros [= <- _]].
  unfold audit_request. destruct (captureBody _ _) as [[[b replay] ok] err] eqn:Hc.
  apply captureBody_replay in Hc as [Hr Hok]; [|by apply Hfits].
  destruct ok; simpl negb; cbv iota.
  - destruct Hok as (Hb & _ & _); [done|].
    destruct (decodeAuditBody _ _ _) as [ab|e]; [|by intros [= <- _]].
    destruct (Auditor.Evaluate a _ ab) as [d e].
    destruct (Decision.Blocked d); intros [= <- _]. split; [done|]. by rewrite Hb.
  - by intros [= <- _].
Qed.

(** The headers of the connection, and the forwarding ones that the reverse
    proxy removes before [Rewrite]. *)
Definition hop_headers : list string :=
  ["Connection"; "Proxy-Connection"; "Keep-Alive"; "Proxy-Authenticate"; "Proxy-Authorization"; "Te"; "Trailer";
   "Transfer-Encoding"; "Upgrade"; "Forwarded"; "X-Forwarded-For"; "X-Forwarded-Host"; "X-Forwarded-Proto"]%string.
Definition end_to_end (r : HttpRequest.t) (key : string) : Prop :=
  key ∉ hop_headers ∧ headerHasToken (Values (HttpRequest.header r) "Connection") key = false.

(** What [httputil.ReverseProxy] prepares for [Rewrite]: a copy of the request
    without the headers of the connection, whose query it may have cleaned, and
    which has the names of the trailers but not yet their values. *)
Record prepared (r out : HttpRequest.t) : Prop := {
  prep_method : HttpRequest.Method out = HttpRequest.Method r;
  prep_path : URL.Path (HttpRequest.URL out) = URL.Path (HttpRequest.URL r);
  prep_body : deliver (HttpRequest.Body out) = deliver (HttpRequest.Body r);
  prep_trailer : dom (HttpRequest.Trailer out) =@{gset string} dom (HttpRequest.Trailer r);
  prep_header : ∀ key, end_to_end r key → HttpRequest.header out !! key = HttpRequest.header r !! key;
}.

Definition forwarding_headers : list string :=
  ["X-Forwarded-For"; "X-Forwarded-Host"; "X-Forwarded-Proto"; "X-Forwarded-Port"]%string.

Lemma setXForwarded_keeps tp inp out key :
  key ∉ forwarding_headers →
  HttpRequest.header (setXForwarded tp inp out) !! key = HttpRequest.header out !! key.
Proof.
  unfold setXForwarded, forwarding_headers. intros Hkey. cbn [HttpRequest.header HttpRequest.set_header].
  rewrite !not_elem_of_cons in Hkey. destruct Hkey as (H1 & H2 & H3 & H4 & _).
  unfold Header_Set, Del. cbn [foldr].
  repeat match goal with
  | |- context [if ?c then insert _ _ _ else _] => destruct c
  | |- context [if ?c then _ else insert _ _ _] => destruct c
  end; rewrite ?lookup_insert_ne, ?lookup_delete_ne by done; done.
Qed.

(** What [Rewrite] makes of the prepared request. *)
Lemma Rewrite_sends s inp out target :
  (currentUpstream s).2 = Some target →
  let sent := (Rewrite s inp out).2 in
  HttpRequest.Method sent = HttpRequest.Method out ∧
  HttpRequest.URL sent =
    URL.mk (URL.Scheme target) (URL.Host target)
      (joinURLPath (URL.Path target) (URL.Path (HttpRequest.URL out))) (URL.RawQuery (HttpRequest.URL inp)) ∧
  HttpRequest.Host sent = ""%string ∧ HttpRequest.Body sent = HttpRequest.Body out ∧
  HttpRequest.Trailer sent =
    (if bool_decide (HttpRequest.Trailer inp = ∅) then HttpRequest.Trailer out else HttpRequest.Trailer inp) ∧
  ∀ key, key ∉ forwarding_headers → HttpRequest.header sent !! key = HttpRequest.header out !! key.
Proof.
  intros Hu. unfold Rewrite. destruct (currentUpstream s) as [s1 [t|]]; [|done]. simpl in Hu. injection Hu as ->.
  cbn [snd]. case_bool_decide; (split_and!; [done..|]; intros key Hkey; by rewrite setXForwarded_keeps).
Qed.

(** C9. The audit is transparent, from the client to the upstream.  When the
    handler forwards a request, then for whatever the reverse proxy prepared
    from it, and whatever upstream is in force by then, the request that
    [Rewrite] sends has the client's method, its path appended to the
    upstream's, its query as it came in (not a cleaned one), every end-to-end
    header but the X-Forwarded ones, the values of its trailers, and a body
    that delivers the same bytes and ends the same way, whether it was read for
    the audit completely, partly (too large, or a read error) or not at all.
    The limit on audited bodies is below the largest [int64]. *)
Theorem forwarded_unchanged s s' r r' obs out target :
  (∀ a, Auditor_ s = Some a → limit_fits (bodyLimit s a r)) →
  Handler s r = (Forwarded r', obs) → prepared r' out → (currentUpstream s').2 = Some target →
  let sent := (Rewrite s' r' out).2 in
  let u := HttpRequest.URL r in
  HttpRequest.Method sent = HttpRequest.Method r ∧
  HttpRequest.URL sent =
    URL.mk (URL.Scheme target) (URL.Host target) (joinURLPath (URL.Path target) (URL.Path u)) (URL.RawQuery u) ∧
  HttpRequest.Host sent = ""%string ∧
  deliver (HttpRequest.Body sent) = deliver (HttpRequest.Body r) ∧
  HttpRequest.Trailer sent = HttpRequest.Trailer r ∧
  ∀ key, end_to_end r key → key ≠ "X-Forwarded-Port"%string →
    HttpRequest.header sent !! key = HttpRequest.header r !! key.
Proof.
  intros Hfits Hh [Hm Hp Hb Ht Hk] Hu. destruct (Handler_forwards _ _ _ _ Hfits Hh) as [Hr Hbody].
  assert (HttpRequest.Method r' = HttpRequest.Method r ∧ HttpRequest.URL r' = HttpRequest.URL r ∧
    HttpRequest.header r' = HttpRequest.header r ∧ HttpRequest.Trailer r' = HttpRequest.Trailer r) as (Em & Eu & Eh & Et)
    by (by destruct r, r'; injection Hr).
  destruct (Rewrite_sends s' r' out target Hu) as (Sm & Su & Sh & Sb & St & Sk). cbv zeta. split_and!.
  - by rewrite Sm, Hm.
  - by rewrite Su, Hp, Eu.
  - done.
  - by rewrite Sb, Hb.
  - rewrite St, <- Et. case_bool_decide as He; [|done]. rewrite He in Ht |- *. by apply dom_empty_inv_L; rewrite Ht, dom_empty_L.
  - intros key Hkey Hport. unfold end_to_end in *. rewrite Eh in Hk. rewrite Sk, Hk; [done|done|].
    destruct Hkey as [Hkey _]. unfold hop_headers, forwarding_headers in *. rewrite !not_elem_of_cons in *. naive_solver.
Qed.




(** ** Forwarding metadata *)

(** The entries that name an address, and the addresses. *)
Definition addresses (entries : list string) (ips : list IP) : Prop :=
  Forall2 (λ entry ip, ParseIP (trim_space entry) = Some ip) entries ips.

Definition trusts (tp : option (IP → bool)) (ip : IP) : bool :=
  match tp with Some f => f ip | None => false end.

Lemma retain_spec tp chain :
  ∃ pre post ips, chain = pre ++ post ∧ addresses pre ips ∧ retain tp chain = map IP_String ips ∧
    (∀ init last, ips = init ++ [last] → Forall (λ ip, trusts tp ip = true) init) ∧
    (post = [] ∨ (∃ init last, ips = init ++ [last] ∧ trusts tp last = false) ∨
     (∃ entry rest, post = entry :: rest ∧ ParseIP (trim_space entry) = None)).
Proof.
  induction chain as [|entry chain IH]; cbn [retain].
  - exists [], [], []. split_and!; [done|constructor|done| |by left].
    intros init last H. by destruct init.
  - destruct (ParseIP (trim_space entry)) as [ip|] eqn:Hp.
    2: { exists [], (entry :: chain), []. split_and!; [done|constructor|done| |].
         - intros init last H. by destruct init.
         - right; right. by exists entry, chain. }
    fold (trusts tp ip). destruct (trusts tp ip) eqn:Ht.
    + destruct IH as (pre & post & ips & -> & Ha & -> & Hinit & Hend).
      exists (entry :: pre), post, (ip :: ips). split_and!; [done|by constructor|done| |].
      * intros [|x init] last Heq; [constructor|]. injection Heq as <- ->.
        constructor; [done|]. by eapply Hinit.
      * destruct Hend as [?|[(init & last & -> & ?)|?]]; [by left| |by right; right].
        right; left. by exists (ip :: init), last.
    + exists [entry], chain, [ip]. split_and!; [done|by repeat constructor|done| |].
      * intros [|x [|]] last Heq; [constructor|done..].
      * right; left. by exists [], ip.
Qed.

(** The forwarded chain is authenticated: what is kept of the client's
    [X-Forwarded-For] is the run of addresses at the right end of the chain
    in which every address but possibly the leftmost belongs to a trusted
    proxy, and it is the longest one: it stops only at the start of the
    chain, at an untrusted address, or at an entry that is no address. *)
Theorem trustedForwardedFor_spec values tp :
  let chain := concat (map (λ value, split value ",") values) in
  ∃ left right ips, chain = left ++ right ∧ addresses right ips ∧
    trustedForwardedFor values tp = map IP_String ips ∧
    (∀ first rest, ips = first :: rest → Forall (λ ip, trusts tp ip = true) rest) ∧
    (left = [] ∨ (∃ first rest, ips = first :: rest ∧ trusts tp first = false) ∨
     (∃ before entry, left = before ++ [entry] ∧ ParseIP (trim_space entry) = None)).
Proof.
  intros chain. unfold trustedForwardedFor. fold chain.
  destruct (retain_spec tp (rev chain)) as (pre & post & ips & Hc & Ha & -> & Hinit & Hend).
  exists (rev post), (rev pre), (rev ips). split_and!.
  - by rewrite <- rev_app_distr, <- Hc, rev_involutive.
  - unfold addresses. rewrite !rev_alt. by apply Forall2_reverse.
  - by rewrite map_rev.
  - intros first rest Heq. apply (f_equal (@rev _)) in Heq. rewrite rev_involutive in Heq.
    simpl in Heq. apply Hinit in Heq. rewrite rev_alt in Heq. by apply (Forall_reverse _ rest).
  - destruct Hend as [->|[(init & last & -> & Hl)|(entry & rest & -> & He)]]; [by left| |].
    + right; left. exists last, (rev init). by rewrite rev_app_distr.
    + right; right. by exists (rev rest), entry.
Qed.

(** A peer that is not a trusted proxy cannot influence the forwarding
    metadata: whatever headers it sends, the upstream request gets the same
    [X-Forwarded] headers, computed from the connection alone. *)
Theorem untrusted_headers_ignored tp inp out h :
  peer_trusted tp inp = false →
  setXForwarded tp (HttpRequest.set_header inp h) out = setXForwarded tp inp out ∧
  Values (HttpRequest.header (setXForwarded tp inp out)) "X-Forwarded-For" =
    match remote_ip inp with Some ip => [IP_String ip] | None => [] end.
Proof.
  intros Hp. assert (peer_trusted tp (HttpRequest.set_header inp h) = false) as Hp' by done.
  unfold setXForwarded. rewrite Hp, Hp'. split; [done|].
  cbn [HttpRequest.header HttpRequest.set_header]. unfold Values, Header_Set, Del. cbn [app foldr].
  repeat match goal with
  | |- context [if ?c then insert _ _ _ else _] => destruct c
  | |- context [if ?c then _ else insert _ _ _] => destruct c eqn:?
  end; rewrite ?lookup_insert_ne by done; rewrite ?lookup_delete_ne by done.
  all: destruct (remote_ip inp) as [ip|]; try done.
  all: rewrite ?lookup_insert_eq, ?lookup_delete_eq; done.
Qed.

(** ** Ports *)

Definition digit_string (ds : list Z) : string := S_ (map (λ d, chr (Z.to_N (48 + d))) ds).
Definition decimal (ds : list Z) : Z := fold_left (λ acc d, acc * 10 + d)%Z ds 0%Z.

Lemma digit_code d : (0 ≤ d ≤ 9)%Z → code (chr (Z.to_N (48 + d))) = Z.to_N (48 + d).
Proof. intros H. unfold code, chr. apply N_ascii_embedding. lia. Qed.

Lemma atoi_digits_rn rs :
  atoi_digits rs = decimal (map (λ n, Z.of_N n - 48)%Z (map rn rs)).
Proof.
  unfold atoi_digits, decimal. generalize 0%Z. induction rs as [|r rs IH]; intros acc; [done|].
  simpl. by rewrite IH.
Qed.

Lemma runes_digits ds :
  Forall (λ d, 0 ≤ d ≤ 9)%Z ds →
  map rn (runes (map (λ d, chr (Z.to_N (48 + d))) ds)) = map (λ d, Z.to_N (48 + d)) ds.
Proof.
  intros H. rewrite runes_ascii.
  - rewrite map_map. apply Forall_fmap_ext_1. eapply Forall_impl; [exact H|].
    intros d Hd. cbv beta in Hd. by apply digit_code.
  - apply List.Forall_map. eapply Forall_impl; [exact H|]. intros d Hd. cbv beta in Hd. 
    change (code (chr (Z.to_N (48 + d))) < 128)%N. rewrite digit_code by done. lia.
Qed.

Lemma digits_back ds :
  Forall (λ d, 0 ≤ d ≤ 9)%Z ds →
  map (λ n, Z.of_N n - 48)%Z (map (λ d, Z.to_N (48 + d)) ds) = ds.
Proof.
  intros H. rewrite map_map. rewrite <- (map_id ds) at 2. apply Forall_fmap_ext_1.
  eapply Forall_impl; [exact H|]. intros d Hd. cbv beta in Hd. simpl. lia.
Qed.

(** The accepted [X-Forwarded-Port] values are exactly the decimal
    numerals of at most five digits for 1 to 65535. *)
Theorem validForwardedPort_spec value :
  validForwardedPort value = true ↔
  ∃ ds, value = digit_string ds ∧ Forall (λ d, 0 ≤ d ≤ 9)%Z ds ∧ length ds ≤ 5 ∧
        (1 ≤ decimal ds ≤ 65535)%Z.
Proof.
  unfold validForwardedPort. split.
  - destruct (_ || _) eqn:Hlen; [done|]. to_prop.
    destruct (forallb _ _) eqn:Hd; [|done]. simpl negb. cbv iota zeta. intros Hr. to_prop.
    assert (Forall (λ r, 48 ≤ rn r ≤ 57)%N (runes (B value))) as Hds.
    { apply forallb_Forall in Hd. eapply Forall_impl; [exact Hd|]. intros r Hrd.
      cbv beta in Hrd. apply andb_true_iff in Hrd as [Hlo%N.leb_le Hhi%N.leb_le]. done. }
    assert (Forall (λ c, code c < 128)%N (B value)) as Hascii.
    { apply runes_below. eapply Forall_impl; [exact Hds|]. cbv beta. lia. }
    pose proof (runes_ascii _ Hascii) as Hrn.
    assert (Forall (λ c, 48 ≤ code c ≤ 57)%N (B value)) as Hc.
    { apply (List.Forall_map code (λ n, 48 ≤ n ≤ 57)%N). rewrite <- Hrn.
      by apply List.Forall_map. }
    exists (map (λ c, Z.of_N (code c) - 48)%Z (B value)).
    rewrite atoi_digits_rn, Hrn, map_map in *. split_and!.
    + apply B_inj. unfold digit_string. rewrite B_S_, map_map. rewrite <- (map_id (B value)) at 1.
      apply Forall_fmap_ext_1. eapply Forall_impl; [exact Hc|]. intros c Hc'. cbv beta in Hc'.
      symmetry. apply chr_eq. lia.
    + apply List.Forall_map. eapply Forall_impl; [exact Hc|]. intros c Hc'. cbv beta in Hc'. simpl. lia.
    + rewrite length_map. unfold slen in *. lia.
    + done.
    + done.
  - intros (ds & -> & Hds & Hlen & Hr). unfold slen, digit_string. rewrite B_S_, length_map.
    assert (ds ≠ []) as Hne by (intros ->; simpl in Hr; unfold decimal in Hr; simpl in Hr; lia).
    replace (S_ _ =? "")%string with false by (by destruct ds).
    rewrite (proj2 (Z.ltb_ge _ _)) by lia. simpl orb. cbv iota.
    rewrite (proj2 (forallb_Forall _ _)).
    + simpl negb. cbv iota zeta. rewrite atoi_digits_rn, runes_digits, digits_back by done.
      apply andb_true_iff. split; apply Z.leb_le; lia.
    + apply (List.Forall_map rn (λ n, (48 <=? n)%N && (n <=? 57)%N = true)).
      rewrite runes_digits by done. apply List.Forall_map. eapply Forall_impl; [exact Hds|].
      intros d Hd. cbv beta in Hd. simpl. apply andb_true_iff. rewrite !N.leb_le. lia.
Qed.
End theorems.

(** ** Witnesses *)

(** Addresses are dotted strings of digits, URLs are "http://" and a host
    without port, and gzip is the identity. *)
Definition demo_net : NetLib := {|
  IP := string;
  ParseIP s := if negb (s =? "")%string && forallb (λ c, (46 <=? code c)%N && (code c <=? 57)%N) (B s)
               then Some s else None;
  IP_String s := s;
  url_Parse s := let h := trim_prefix s "http://" in Some (mk_parsed_url h h "" false "");
  gzip_NewReader b := Some (bytes_reader b, false);
|}.

Definition demo_inbound (remote : string) (headers : list (string * list string))
    (body : string) : HttpRequest.t :=
  HttpRequest.mk "POST" (URL.mk "http" "guard" "/v1/responses" "") "guard" remote false
    (list_to_map headers) (Some (bytes_reader (B body))) ∅.

(** An auditor that blocks a body equal to "bad". *)
Definition demo_auditor : Auditor.t :=
  Auditor.mk (λ _ b, (Decision.mk (negb (bool_decide (b = B "bad"))) (bool_decide (b = B "bad"))
                        "r" "" 0 "" "" "" "" false, None)) None None true.

Definition demo_server : Server (N := demo_net) :=
  mk_Server (N := demo_net) (Some (URL.mk "http" "up" "" "")) (Some demo_auditor) 8 None
    (Some (λ ip, (ip =? "10.0.0.1")%string)) None.

Lemma demo_fits r : ∀ a, Auditor_ demo_server = Some a → limit_fits (bodyLimit (N := demo_net) demo_server a r).
Proof. intros a [= <-]. reflexivity. Qed.

(** A request with a query and a header, too large for the limit; the reverse
    proxy has cleaned the query. *)
Definition demo_large : HttpRequest.t :=
  HttpRequest.mk "POST" (URL.mk "http" "guard" "/v1/responses" "a;b=1") "guard" "9.9.9.9:1" false
    (list_to_map [("Accept", ["text/event-stream"])]%string) (Some (bytes_reader (B "far too long for the limit"))) ∅.
Definition demo_prepared : HttpRequest.t :=
  HttpRequest.set_target demo_large (URL.mk "http" "guard" "/v1/responses" "") "guard".

Lemma forwarded_unchanged_witness :
  let sent := (Rewrite (N := demo_net) demo_server demo_large demo_prepared).2 in
  HttpRequest.URL sent = URL.mk "http" "up" "/v1/responses" "a;b=1" ∧
  deliver (HttpRequest.Body sent) = (B "far too long for the limit", None) ∧
  HttpRequest.header sent !! "Accept"%string = Some ["text/event-stream"%string].
Proof.
  assert (Handler (N := demo_net) demo_server demo_large = (Forwarded demo_large, ["oversize_bypass"%string])) as Hh
    by (vm_compute; reflexivity).
  destruct (forwarded_unchanged (N := demo_net) demo_server demo_server demo_large demo_large _ demo_prepared
    (URL.mk "http" "up" "" "") (demo_fits demo_large) Hh ltac:(split; intros; reflexivity) eq_refl)
    as (_ & Hu & _ & Hb & _ & Hk).
  split; [exact Hu|]. split; [exact Hb|]. rewrite Hk; [reflexivity| |discriminate].
  split; [apply (bool_decide_unpack _); vm_compute; exact I|vm_compute; reflexivity].
Defined.


Lemma untrusted_headers_ignored_witness :
  let tp := Some (λ ip : string, (ip =? "10.0.0.1")%string) in
  let inp := demo_inbound "9.9.9.9:1" [("X-Forwarded-For", ["1.1.1.1"])]%string "" in
  Values (HttpRequest.header (setXForwarded (N := demo_net) tp inp inp)) "X-Forwarded-For" =
    ["9.9.9.9"%string].
Proof.
  intros tp inp.
  exact (proj2 (untrusted_headers_ignored (N := demo_net) tp inp inp ∅ eq_refl)).
Defined.
