(* ===== verification/Updater.v ===== *)
(** * The deployment updater ([cmd/nocyber-updater/main.go])

    A local agent that replaces the deployed image on request.  Docker, the
    file system and the health endpoint are outside; [outside] tells what each
    of them answers.  The state keeps the environment file, the image the
    service was last recreated with, and the agent's own records. *)

From S2P Require Export JsonStream.

Definition imageRepository : string := "ghcr.io/abingooo/nocyber-guard".

(** ** Patterns *)

Definition is_digit (c : ascii) : bool := (48 <=? code c)%N && (code c <=? 57)%N.
Definition is_lower_hex (c : ascii) : bool := is_digit c || ((97 <=? code c)%N && (code c <=? 102)%N).
Definition is_alnum (c : ascii) : bool :=
  is_digit c || ((65 <=? code c)%N && (code c <=? 90)%N) || ((97 <=? code c)%N && (code c <=? 122)%N).

(** [[0-9]+] at the head of the input: what follows the longest match. *)
Fixpoint skip_digits (l : bytes) : bytes :=
  match l with
  | c :: l' => if is_digit c then skip_digits l' else l
  | [] => []
  end.
Definition digits1 (l : bytes) : option bytes :=
  match l with
  | c :: l' => if is_digit c then Some (skip_digits l') else None
  | [] => None
  end.
Definition literal (c : ascii) (l : bytes) : option bytes :=
  match l with x :: l => if bool_decide (x = c) then Some l else None | [] => None end.

(** [^v?[0-9]+\.[0-9]+\.[0-9]+(?:-[0-9A-Za-z.-]+)?$]; no alternative of the
    pattern starts with what the one before it can consume, so the longest
    match of each part is the only one. *)
Definition versionPattern (s : string) : bool :=
  let l := match B s with "v"%char :: l => l | l => l end in
  match l ← digits1 l; l ← literal "." l; l ← digits1 l; l ← literal "." l; digits1 l with
  | Some [] => true
  | Some ("-"%char :: suffix) =>
      negb (bool_decide (suffix = [])) &&
      forallb (λ c, is_alnum c || bool_decide (c = "."%char) || bool_decide (c = "-"%char)) suffix
  | _ => false
  end.

Definition digest_prefix : string := "ghcr.io/abingooo/nocyber-guard@sha256:".

(** [^ghcr\.io/abingooo/nocyber-guard@sha256:[a-f0-9]{64}$] *)
Definition digestPattern (s : string) : bool :=
  has_prefix s digest_prefix &&
  (let hex := drop (length (B digest_prefix)) (B s) in
   (length hex =? 64)%nat && forallb is_lower_hex hex).

(** ** The environment file *)

Definition newline : ascii := "010".
Definition carriage_return : ascii := "013".

(** [strings.ReplaceAll(s, "\r\n", "\n")] *)
Fixpoint replace_crlf (l : bytes) : bytes :=
  match l with
  | [] => []
  | c :: l' =>
      match l' with
      | d :: l'' =>
          if bool_decide (c = carriage_return) && bool_decide (d = newline)
          then replace_crlf l' else c :: replace_crlf l'
      | [] => [c]
      end
  end.

Fixpoint join_bytes (ls : list bytes) (sep : ascii) : bytes :=
  match ls with
  | [] => []
  | [l] => l
  | l :: ls => l ++ sep :: join_bytes ls sep
  end.

Fixpoint drop_set (set l : bytes) : bytes :=
  match l with
  | c :: l' => if bool_decide (c ∈ set) then drop_set set l' else l
  | [] => []
  end.
(** [strings.Trim(s, cutset)] *)
Definition trim_set (set : bytes) (s : string) : string :=
  S_ (rev (drop_set set (rev (drop_set set (B s))))).

Definition quotes : bytes := ["034"; "039"]%char.

Definition image_key : string := "NCG_IMAGE=".
Definition is_image_line (line : bytes) : bool := has_prefix (trim_space (S_ line)) image_key.

Definition image_of_line (line : bytes) : string :=
  trim_set quotes (trim_space (trim_prefix (trim_space (S_ line)) image_key)).

(** [readImage] on the content of the file; [None] is a file that cannot be
    read. *)
Definition readImage (file : option bytes) : option string :=
  match file with
  | None => None
  | Some b => image_of_line <$> List.find is_image_line (split_bytes b newline)
  end.

(** The content that [writeImage] writes. *)
Definition new_content (b : bytes) (image : string) : bytes :=
  let lines := split_bytes (replace_crlf b) newline in
  let line' := B (image_key +:+ image) in
  let replaced := map (λ line, if is_image_line line then line' else line) lines in
  join_bytes (if existsb is_image_line lines then replaced else replaced ++ [line']) newline.

(** ** State *)

Module operation.
Record t : Type := mk {
  State : string;
  Action : string;
  Target : string;
  Message : string;
  StartedAt : Time;
  CompletedAt : option Time;
}.
Definition idle : t := mk "idle" "" "" "" 0 None.
End operation.

Module persistentState.
Record t : Type := mk { PreviousImage : string; CurrentImage : string }.
End persistentState.

(** What the outside answers. *)
Record outside : Type := mk_outside {
  pull : string → bool;                    (** [docker pull] succeeds *)
  inspect : string → option string;        (** [docker image inspect], the output *)
  write_ok : nat → bool;                   (** the n-th [atomicWrite] succeeds *)
  compose_up : nat → bool;                 (** the n-th [docker compose up] succeeds *)
  (** the polls of the health endpoint before the deadline of the n-th check:
      the status, if any, and whether the context is done after it *)
  polls : nat → list (option Z * bool);
}.

Record updater : Type := mk_updater {
  op : operation.t;
  state : persistentState.t;
  env_file : option bytes;
  deployed : option string;    (** what the environment file named at the last [compose up] *)
  state_file : option persistentState.t;
  writes : nat;
  ups : nat;
}.

Definition M (A : Type) : Type := updater → A * updater.
#[export] Instance M_ret : MRet M := λ A a u, (a, u).
#[export] Instance M_bind : MBind M := λ A B f m u, let '(a, u) := m u in f a u.

Section updater.
Context (ext : outside) (now : Time).

Definition set_op (u : updater) (o : operation.t) : updater :=
  mk_updater o (state u) (env_file u) (deployed u) (state_file u) (writes u) (ups u).

Definition start (action target : string) : M bool := λ u,
  if (operation.State (op u) =? "running")%string then (false, u)
  else (true, set_op u (operation.mk "running" action target "任务执行中" now None)).

Definition finish (st message : string) : M unit := λ u,
  let o := op u in
  ((), set_op u (operation.mk st (operation.Action o) (operation.Target o) message
                   (operation.StartedAt o) (Some now))).

(** [writeImage(u.opts.envFile, image)]; [false] is an error. *)
Definition writeImage (image : string) : M bool := λ u,
  if negb (digestPattern image) then (false, u)
  else match env_file u with
  | None => (false, u)
  | Some b =>
      if write_ok ext (writes u)
      then (true, mk_updater (op u) (state u) (Some (new_content b image)) (deployed u)
                    (state_file u) (S (writes u)) (ups u))
      else (false, mk_updater (op u) (state u) (env_file u) (deployed u)
                     (state_file u) (S (writes u)) (ups u))
  end.

(** The poll loop of [recreateAndCheck]. *)
Fixpoint poll_loop (ps : list (option Z * bool)) : bool :=
  match ps with
  | [] => false
  | (status, ctx_done) :: ps =>
      if bool_decide (status = Some 200%Z) then true
      else if ctx_done then false else poll_loop ps
  end.

Definition recreateAndCheck : M bool := λ u,
  let n := ups u in
  if compose_up ext n
  then (poll_loop (polls ext n),
        mk_updater (op u) (state u) (env_file u) (readImage (env_file u)) (state_file u)
          (writes u) (S n))
  else (false, mk_updater (op u) (state u) (env_file u) (deployed u) (state_file u)
                 (writes u) (S n)).

(** [json.Unmarshal] into a [[]string]. *)
Fixpoint string_elements (ts : list token) : option (list string) :=
  match ts with
  | [TDelim "]"%char] => Some []
  | TStr s :: ts => cons s <$> string_elements ts
  | TNull :: ts => cons ""%string <$> string_elements ts
  | _ => None
  end.
Fixpoint document_tokens (fuel : nat) (d : Decoder.decoder) : option (list token) :=
  match fuel with
  | O => None
  | S fuel =>
      match Decoder.Token d with
      | Ok (t, d') => cons t <$> document_tokens fuel d'
      | Err EOF => Some []
      | Err _ => None
      end
  end.
Definition unmarshal_strings (out : string) : option (list string) :=
  let b := B (trim_space out) in
  match document_tokens (S (length b)) (Decoder.new b) with
  | Some [TNull] => Some []
  | Some (TDelim "["%char :: ts) => string_elements ts
  | _ => None
  end.

Definition resolveDigest (image : string) : option string :=
  match inspect ext image with
  | None => None
  | Some out => digests ← unmarshal_strings out; List.find digestPattern digests
  end.

(** [u.state = ...; u.saveStateLocked()] *)
Definition set_state (s : persistentState.t) : M unit := λ u,
  ((), mk_updater (op u) s (env_file u) (deployed u)
         (if write_ok ext (writes u) then Some s else state_file u) (S (writes u)) (ups u)).

Definition read_env : M (option string) := λ u, (readImage (env_file u), u).

Definition runUpdate (version : string) : M unit :=
  let tag := trim_prefix version "v" in
  let tagged := imageRepository +:+ ":" +:+ tag in
  if negb (pull ext tagged) then finish "failed" "镜像下载失败" else
  match resolveDigest tagged with
  | None => finish "failed" "无法验证镜像摘要"
  | Some digest =>
      current ← read_env;
      match current with
      | None => finish "failed" "无法读取部署配置"
      | Some current =>
          if (current =? digest)%string then finish "succeeded" "当前已是目标版本" else
          wrote ← writeImage digest;
          if negb wrote then finish "failed" "无法写入部署配置" else
          healthy ← recreateAndCheck;
          if negb healthy then
            restored ← writeImage current;
            restored ← (if restored : bool then recreateAndCheck else mret false);
            if negb restored
            then finish "failed" "更新失败，自动回滚也未完成，请检查服务"
            else finish "failed" "更新健康检查失败，已自动回滚"
          else
            set_state (persistentState.mk current digest);;
            finish "succeeded" "更新完成"
      end
  end.

Definition runRollback (target : string) : M unit :=
  current ← read_env;
  match current with
  | None => finish "failed" "无法写入回滚配置"
  | Some current =>
      wrote ← writeImage target;
      if negb wrote then finish "failed" "无法写入回滚配置" else
      healthy ← recreateAndCheck;
      if negb healthy then
        writeImage current;;
        recreateAndCheck;;
        finish "failed" "回滚健康检查失败，已恢复原镜像"
      else
        set_state (persistentState.mk current target);;
        finish "succeeded" "回滚完成"
  end.

(** ** The handlers: the status they answer with and the task they start *)

Inductive task : Type := UpdateTask (version : string) | RollbackTask (target : string).

Definition run_task (t : task) : M unit :=
  match t with UpdateTask v => runUpdate v | RollbackTask i => runRollback i end.

(** [latest] is what [u.latest] returns when the version is left out. *)
Definition handleUpdate (input : string) (latest : option string) : M (Z * option task) :=
  let version := trim_space input in
  match (if (version =? "")%string then latest else Some version) with
  | None => mret (502%Z, None)
  | Some version =>
      if negb (versionPattern version) then mret (400%Z, None) else
      started ← start "update" version;
      if started : bool then mret (202%Z, Some (UpdateTask version)) else mret (409%Z, None)
  end.

Definition handleRollback : M (Z * option task) := λ u,
  let previous := persistentState.PreviousImage (state u) in
  if negb (digestPattern previous) then ((409%Z, None), u) else
  (started ← start "rollback" previous;
   if started : bool then mret (202%Z, Some (RollbackTask previous)) else mret (409%Z, None)) u.
End updater.

(** ** The cached release lookup *)

Record latest_cache : Type := mk_latest {
  latestVersion : string; latestChecked : Time; latestErr : bool;
}.

(** [latest]: the answer and the cache; [fetch] is [latestRelease] now. *)
Definition latest (now : Time) (fetch : result unit string) (c : latest_cache) :
    result unit string * latest_cache :=
  let answer c := if latestErr c then Err () else Ok (latestVersion c) in
  if negb (is_zero_time (latestChecked c)) && (time_sub now (latestChecked c) <? 10 * minute)%Z
  then (answer c, c)
  else
    let c := match fetch with
             | Ok v => mk_latest v now false
             | Err _ => mk_latest "" now true
             end in
    (answer c, c).

(** [latestRelease]: the status and the decoded tag of the response. *)
Definition latestRelease (response : option (Z * option string)) : result unit string :=
  match response with
  | None => Err ()
  | Some (status, tag) =>
      if negb (status =? 200)%Z then Err () else
      match tag with
      | None => Err ()
      | Some tag => if versionPattern tag then Ok tag else Err ()
      end
  end.
