(* ===== verification/UpdaterTheorems.v ===== *)
(** * Theorems on the deployment updater *)

From S2P Require Export Updater.

(** ** Lines *)

Lemma split_bytes_nonempty l sep : split_bytes l sep ≠ [].
Proof.
  destruct l as [|c l]; simpl; [done|]. destruct (bool_decide _); [done|].
  by destruct (split_bytes l sep).
Qed.

Lemma split_bytes_free l sep : Forall (λ w, sep ∉ w) (split_bytes l sep).
Proof.
  induction l as [|c l IH]; simpl; [repeat constructor; by intros ?%elem_of_nil|].
  case_bool_decide as Hc; [constructor; [by intros ?%elem_of_nil|done]|].
  destruct IH as [|w ws Hw IH].
  - repeat constructor. by intros ->%list_elem_of_singleton.
  - constructor; [|done]. intros [->|Hin]%elem_of_cons; done.
Qed.

Lemma split_join ls sep :
  ls ≠ [] → Forall (λ w, sep ∉ w) ls → split_bytes (join_bytes ls sep) sep = ls.
Proof.
  intros Hne Hf. induction Hf as [|w ls Hw Hf IH]; [done|].
  destruct ls as [|w' ls]; [by apply split_bytes_word|].
  change (join_bytes (w :: w' :: ls) sep) with (w ++ sep :: join_bytes (w' :: ls) sep).
  by rewrite split_bytes_app, IH.
Qed.

(** ** Trimming a string that starts and ends with a printable character *)

Definition plain (c : ascii) : bool := (33 <=? code c)%N && (code c <=? 126)%N.

Lemma leading_space_plain encs c l :
  forallb (λ e, match e with x :: _ => negb (plain x) | [] => false end) encs = true →
  plain c = true → leading_space encs (c :: l) = None.
Proof.
  intros He Hc. unfold leading_space. destruct (List.find _ encs) as [e|] eqn:Hf; [|done].
  apply List.find_some in Hf as [Hin Hp]. rewrite forallb_forall in He.
  specialize (He e Hin). destruct e as [|x e]; [done|]. simpl in Hp. to_prop. subst x.
  by rewrite Hc in He.
Qed.

Lemma trim_with_plain encs n c l :
  forallb (λ e, match e with x :: _ => negb (plain x) | [] => false end) encs = true →
  plain c = true → trim_with encs n (c :: l) = c :: l.
Proof. intros He Hc. destruct n; cbn [trim_with]; [done|]. by rewrite leading_space_plain. Qed.

Lemma trim_space_plain c m d k s :
  B s = c :: m → rev (B s) = d :: k → plain c = true → plain d = true → trim_space s = s.
Proof.
  intros Hs Hr Hc Hd. unfold trim_space, trim_left. rewrite Hs.
  rewrite trim_with_plain by done. rewrite <- Hs. unfold trim_right. rewrite Hr.
  rewrite trim_with_plain by done. by rewrite <- Hr, rev_involutive, S_B.
Qed.

(** ** Digests *)

Lemma digestPattern_shape d :
  digestPattern d = true →
  ∃ hex c k, B d = B digest_prefix ++ hex ∧ rev hex = c :: k ∧
             Forall (λ c, is_lower_hex c = true) hex ∧ is_lower_hex c = true.
Proof.
  unfold digestPattern, has_prefix. intros [Hp Hh]%andb_true_iff.
  apply has_prefix_b_spec in Hp as [hex Hd]. rewrite Hd, drop_app_length in Hh.
  apply andb_true_iff in Hh as [Hlen%Nat.eqb_eq Hall%forallb_Forall].
  destruct (rev hex) as [|c k] eqn:Hr.
  - apply (f_equal (@length _)) in Hr. rewrite length_rev in Hr. simpl in Hr. lia.
  - exists hex, c, k. split_and!; try done.
    assert (c ∈ hex) as Hc.
    { apply list_elem_of_In, in_rev. rewrite Hr. by left. }
    rewrite Forall_forall in Hall. by apply Hall.
Qed.

Lemma lower_hex_facts c :
  is_lower_hex c = true → plain c = true ∧ c ≠ newline ∧ c ∉ quotes.
Proof.
  intros H. assert (48 ≤ code c ≤ 102)%N as Hc.
  { unfold is_lower_hex, is_digit in H. apply orb_true_iff in H as [H|H];
      apply andb_true_iff in H as [H1%N.leb_le H2%N.leb_le]; lia. }
  split_and!.
  - unfold plain. apply andb_true_iff. rewrite !N.leb_le. lia.
  - intros ->. vm_compute in Hc. by destruct Hc.
  - unfold quotes. intros [->|[->|[]%elem_of_nil]%elem_of_cons]%elem_of_cons;
      vm_compute in Hc; by destruct Hc.
Qed.

Lemma drop_set_none set c l : c ∉ set → drop_set set (c :: l) = c :: l.
Proof. intros H. simpl. by rewrite bool_decide_false. Qed.

(** The line that [writeImage] writes is read back as the digest. *)
Lemma digest_line d :
  digestPattern d = true →
  is_image_line (B (image_key +:+ d)) = true ∧ image_of_line (B (image_key +:+ d)) = d ∧
  newline ∉ B (image_key +:+ d).
Proof.
  intros (hex & c & k & Hd & Hr & Hall & Hc)%digestPattern_shape.
  destruct (lower_hex_facts c Hc) as (Hplain & Hnl & Hq).
  assert (rev (B d) = c :: (k ++ rev (B digest_prefix))) as Hrd.
  { by rewrite Hd, rev_app_distr, Hr. }
  assert (trim_space (image_key +:+ d) = image_key +:+ d) as Ht.
  { eapply (trim_space_plain "N" _ c); [rewrite B_app; reflexivity| |done|done].
    rewrite B_app, rev_app_distr, Hrd. reflexivity. }
  assert (trim_space d = d) as Htd.
  { eapply (trim_space_plain "g" _ c); [rewrite Hd; reflexivity|exact Hrd|done|done]. }
  unfold is_image_line, image_of_line. rewrite S_B, Ht. split_and!.
  - apply has_prefix_app.
  - rewrite trim_prefix_app, Htd. unfold trim_set.
    assert (drop_set quotes (B d) = B d) as ->.
    { rewrite Hd. apply drop_set_none. by apply (bool_decide_eq_false_1 _). }
    rewrite Hrd, drop_set_none, <- Hrd, rev_involutive by done. apply S_B.
  - rewrite B_app, Hd, !elem_of_app. intros [H|[H|H]].
    + by apply (bool_decide_eq_true_2 _) in H; vm_compute in H.
    + by apply (bool_decide_eq_true_2 _) in H; vm_compute in H.
    + rewrite Forall_forall in Hall. by destruct (lower_hex_facts _ (Hall _ H)) as (_ & ? & _).
Qed.

(** ** The environment file *)

Lemma find_map_replace {A} (P : A → bool) (x : A) l :
  P x = true → existsb P l = true →
  List.find P (map (λ y, if P y then x else y) l) = Some x.
Proof.
  intros Hx. induction l as [|y l IH]; simpl; [done|].
  destruct (P y) eqn:Hy; simpl; [by rewrite Hx|]. rewrite Hy. apply IH.
Qed.

Lemma map_replace_none {A} (P : A → bool) (x : A) l :
  existsb P l = false → map (λ y, if P y then x else y) l = l ∧ List.find P l = None.
Proof.
  induction l as [|y l IH]; simpl; [done|]. intros [Hy H]%orb_false_iff. rewrite Hy.
  destruct (IH H) as [-> ->]. done.
Qed.

Lemma find_app_none {A} (P : A → bool) l k :
  List.find P l = None → List.find P (l ++ k) = List.find P k.
Proof. induction l as [|y l IH]; simpl; [done|]. by destruct (P y). Qed.

(** The lines of a file that do not set the image. *)
Definition settings (b : bytes) : list bytes :=
  List.filter (λ l, negb (is_image_line l)) (split_bytes b newline).

Lemma filter_replace {A} (P : A → bool) (x : A) l :
  P x = true →
  List.filter (λ y, negb (P y)) (map (λ y, if P y then x else y) l) =
    List.filter (λ y, negb (P y)) l.
Proof.
  intros Hx. induction l as [|y l IH]; simpl; [done|].
  destruct (P y) eqn:Hy; rewrite ?Hx, ?Hy; simpl; by rewrite IH.
Qed.

Lemma new_content_read b d :
  digestPattern d = true →
  readImage (Some (new_content b d)) = Some d ∧
  settings (new_content b d) = settings (replace_crlf b).
Proof.
  intros Hd. destruct (digest_line d Hd) as (Hi & Hr & Hn). unfold new_content.
  set (lines := split_bytes (replace_crlf b) newline).
  set (line := B (image_key +:+ d)) in *.
  set (ls := if existsb is_image_line lines then _ else _).
  assert (lines ≠ []) as Hne by apply split_bytes_nonempty.
  assert (Forall (λ w, newline ∉ w) (map (λ l, if is_image_line l then line else l) lines)) as Hfree.
  { apply List.Forall_map. eapply Forall_impl; [apply split_bytes_free|].
    intros w Hw. by destruct (is_image_line w). }
  assert (split_bytes (join_bytes ls newline) newline = ls) as Hs.
  { apply split_join; subst ls; destruct (existsb _ _).
    - by destruct lines.
    - by destruct lines.
    - done.
    - apply Forall_app. split; [done|]. by repeat constructor. }
  unfold readImage, settings. rewrite Hs. subst ls. destruct (existsb _ lines) eqn:He.
  - rewrite find_map_replace by done. simpl. rewrite Hr. split; [done|]. by apply filter_replace.
  - destruct (map_replace_none is_image_line line lines He) as [-> Hnone].
    rewrite find_app_none by done. simpl. rewrite Hi. simpl. rewrite Hr. split; [done|].
    rewrite List.filter_app. simpl. rewrite Hi. simpl. apply app_nil_r.
Qed.

(** Writing an image is read back: when [writeImage] succeeds, the image is
    an approved digest, [readImage] returns it, and every line of the file
    that does not set the image is kept, in order (up to the line ends that
    are normalised); when it fails, the file is unchanged. *)
Theorem writeImage_readImage ext image u ok u' :
  writeImage ext image u = (ok, u') →
  (ok = true → digestPattern image = true ∧ readImage (env_file u') = Some image ∧
     ∃ b b', env_file u = Some b ∧ env_file u' = Some b' ∧
             settings b' = settings (replace_crlf b)) ∧
  (ok = false → env_file u' = env_file u).
Proof.
  unfold writeImage. destruct (digestPattern image) eqn:Hd; simpl negb; cbv iota.
  - destruct (env_file u) as [b|] eqn:Hb; [|intros [= <- <-]; by rewrite Hb].
    destruct (write_ok ext (writes u)); intros [= <- <-]; simpl; [|done].
    destruct (new_content_read b image Hd) as [Hr Hs]. split; [|done].
    intros _. split; [done|]. split; [exact Hr|]. by exists b, (new_content b image).
  - by intros [= <- <-].
Qed.

(** ** Update and rollback *)

Section tasks.
Context (ext : outside) (now : Time).

(** The parts of the state the calls of a task leave alone. *)
Lemma writeImage_frame image u :
  let u' := (writeImage ext image u).2 in
  op u' = op u ∧ state u' = state u ∧ deployed u' = deployed u.
Proof.
  unfold writeImage. destruct (negb _); [done|]. destruct (env_file u); [|done].
  by destruct (write_ok _ _).
Qed.

Lemma recreate_frame u :
  let '(ok, u') := recreateAndCheck ext u in
  op u' = op u ∧ state u' = state u ∧ env_file u' = env_file u ∧
  (deployed u' = deployed u ∨ deployed u' = readImage (env_file u)) ∧
  (ok = true → deployed u' = readImage (env_file u)).
Proof. unfold recreateAndCheck. destruct (compose_up _ _); naive_solver. Qed.

Definition image_now (u : updater) : option string := readImage (env_file u).

Lemma writeImage_ok image u u' :
  writeImage ext image u = (true, u') → image_now u' = Some image ∧ digestPattern image = true.
Proof. intros H. apply writeImage_readImage in H as [H _]. naive_solver. Qed.

Lemma writeImage_failed image u u' :
  writeImage ext image u = (false, u') → env_file u' = env_file u.
Proof. intros H. apply writeImage_readImage in H as [_ H]. auto. Qed.

(** Run the next call of a task. *)
#[local] Ltac next :=
  match goal with
  | |- context [writeImage ext ?i ?u] =>
      let ok := fresh "ok" in let u1 := fresh "u" in let H := fresh "Hw" in
      pose proof (writeImage_frame i u);
      destruct (writeImage ext i u) as [ok u1] eqn:H; destruct ok;
      [apply writeImage_ok in H|apply writeImage_failed in H]
  | |- context [recreateAndCheck ext ?u] =>
      let ok := fresh "ok" in let u1 := fresh "u" in
      pose proof (recreate_frame u); destruct (recreateAndCheck ext u) as [ok u1]; destruct ok
  end; simpl in *.

#[local] Ltac use_deployed :=
  match goal with
  | H : true = true → deployed ?x = _ |- deployed ?x = _ => rewrite (H eq_refl)
  end.

Definition incomplete_message : string := "更新失败，自动回滚也未完成，请检查服务".

(** C38. The three ways an update ends.  It succeeds and the environment file
    names the approved digest that was resolved for the version, which is
    deployed and recorded together with the image it replaced.  Or it succeeds
    at once because the environment file named this digest already: then nothing
    is deployed, written or recorded - also when this digest is only what an
    incomplete rollback left there ([retry_of_broken_image]).  Or it fails, with
    the records unchanged, and the environment file names the image it named
    before, except when the task reports that the automatic rollback did not
    complete. *)
Theorem runUpdate_outcome version u u' :
  runUpdate ext now version u = ((), u') →
  let tagged := imageRepository +:+ ":" +:+ trim_prefix version "v" in
  (operation.State (op u') = "succeeded"%string ∧
   ∃ d current, resolveDigest ext tagged = Some d ∧ image_now u = Some current ∧ image_now u' = Some d ∧
     (current ≠ d ∧ digestPattern d = true ∧ deployed u' = Some d ∧ state u' = persistentState.mk current d ∨
      current = d ∧ deployed u' = deployed u ∧ env_file u' = env_file u ∧ state u' = state u ∧
        state_file u' = state_file u)) ∨
  (operation.State (op u') = "failed"%string ∧ state u' = state u ∧
   (operation.Message (op u') = incomplete_message ∨
    (image_now u' = image_now u ∧ (deployed u' = deployed u ∨ deployed u' = image_now u)))).
Proof.
  intros H tagged. unfold runUpdate, finish in H. fold tagged in H. unfold image_now. revert H.
  destruct (pull ext tagged); simpl; [|intros [= <-]; right; simpl; auto 10].
  destruct (resolveDigest ext tagged) as [d|]; simpl; [|intros [= <-]; right; simpl; auto 10].
  unfold mbind, M_bind, read_env.
  destruct (readImage (env_file u)) as [cur|] eqn:Hcur; [|intros [= <-]; right; simpl; auto 10].
  destruct (String.eqb_spec cur d) as [->|Hne].
  { intros [= <-]. left. simpl. split; [done|]. exists d, d. split_and!; [done..|]. right. by split_and!. }
  next.
  2: { intros [= <-]. right. simpl. destruct_and?. split_and!; [done|congruence|].
       right. split; [congruence|left; congruence]. }
  unfold image_now in *. destruct_and?. next; destruct_and?.
  { intros [= <-]. left. simpl. split; [done|]. exists d, cur. split_and!; [done|done|congruence|].
    left. split_and!; [done|done| |done]. use_deployed; congruence. }
  next; destruct_and?; [next; destruct_and?|]; intros [= <-]; right; simpl;
    (split_and!; [done|congruence|]); [|by left..].
  right. unfold image_now in *. split; [congruence|]. right. use_deployed; congruence.
Qed.

Lemma writeImage_restores image u x :
  (∀ n, write_ok ext n = true) → digestPattern image = true → image_now u = Some x →
  image_now (writeImage ext image u).2 = Some image.
Proof.
  intros Hall Hd Hx. destruct (writeImage ext image u) as [ok u'] eqn:Hw.
  destruct ok; [by apply writeImage_ok in Hw as [? _]|]. exfalso.
  unfold writeImage in Hw. rewrite Hd in Hw. simpl in Hw. unfold image_now in Hx.
  destruct (env_file u); [|done]. by rewrite Hall in Hw.
Qed.

(** A rollback either succeeds, and then the target is named, deployed and
    recorded; or it fails with the records unchanged, and if the previous
    image was an approved digest and no write fails, the environment file
    names that image again. *)
Theorem runRollback_outcome target u u' :
  runRollback ext now target u = ((), u') →
  (operation.State (op u') = "succeeded"%string ∧ digestPattern target = true ∧
   image_now u' = Some target ∧ deployed u' = Some target ∧
   ∃ current, image_now u = Some current ∧ state u' = persistentState.mk current target) ∨
  (operation.State (op u') = "failed"%string ∧ state u' = state u ∧
   ((∀ n, write_ok ext n = true) →
    ∀ current, image_now u = Some current → digestPattern current = true →
    image_now u' = Some current)).
Proof.
  intros H. unfold runRollback, finish in H. unfold image_now. revert H.
  unfold mbind, M_bind, read_env.
  destruct (readImage (env_file u)) as [cur|] eqn:Hcur; [|intros [= <-]; right; simpl; split_and!; done].
  next.
  2: { intros [= <-]. right. simpl. destruct_and?. split_and!; [done|congruence|].
       intros _ c Hc _. congruence. }
  unfold image_now in *. destruct_and?. next; destruct_and?.
  { intros [= <-]. left. simpl. split_and!; [done|done|congruence|use_deployed; congruence|].
    by exists cur. }
  match goal with |- context [writeImage ext cur ?v] =>
    pose proof (writeImage_restores cur v); destruct (writeImage_frame cur v) as (? & ? & ?);
    destruct (writeImage ext cur v) as [ok u3] end.
  pose proof (recreate_frame u3). destruct (recreateAndCheck ext u3) as [ok' u4].
  destruct_and?. intros [= <-]. right. simpl in *. split_and!; [done|congruence|].
  intros Hall c Hc Hd. simplify_eq. unfold image_now in *.
  match goal with H : env_file u4 = _ |- _ => rewrite H end.
  match goal with H : ∀ x, _ → _ → _ → _ |- _ => apply (H target); [done|done|congruence] end.
Qed.

(** ** One task at a time *)

(** The agent and the tasks it has started and not finished. *)
Record agent : Type := mk_agent { agent_state : updater; running : list task }.

Inductive agent_step : agent → agent → Prop :=
| agent_update u ts input l status t u' :
    handleUpdate now input l u = ((status, t), u') →
    agent_step (mk_agent u ts) (mk_agent u' (ts ++ option_list t))
| agent_rollback u ts status t u' :
    handleRollback now u = ((status, t), u') →
    agent_step (mk_agent u ts) (mk_agent u' (ts ++ option_list t))
| agent_finish u ts1 t ts2 u' :
    run_task ext now t u = ((), u') →
    agent_step (mk_agent u (ts1 ++ t :: ts2)) (mk_agent u' (ts1 ++ ts2)).

(** A task runs exactly while the operation is "running". *)
Definition exclusive (a : agent) : Prop :=
  length (running a) = (if operation.State (op (agent_state a)) =? "running" then 1 else 0)%string.

Lemma start_exclusive action target u ok u' :
  start now action target u = (ok, u') →
  if ok then operation.State (op u) ≠ "running"%string ∧ operation.State (op u') = "running"%string
  else u' = u.
Proof.
  unfold start. destruct (String.eqb_spec (operation.State (op u)) "running");
    intros [= <- <-]; done.
Qed.

(** A handler that starts a task found none running. *)
Lemma started_exclusive action target (status : Z) t u (r : Z * option task) u' :
  (started ← start now action target;
   if started : bool then mret (status, Some t) else mret (409%Z, None) : M (Z * option task)) u =
    (r, u') →
  match r.2 with
  | Some _ => operation.State (op u) ≠ "running"%string ∧ operation.State (op u') = "running"%string
  | None => u' = u
  end.
Proof.
  unfold mbind, M_bind. destruct (start now action target u) as [ok u1] eqn:Hs.
  apply start_exclusive in Hs. destruct ok; intros [= <- <-]; done.
Qed.

Lemma handlers_exclusive u r u' :
  (∃ input l, handleUpdate now input l u = (r, u')) ∨ handleRollback now u = (r, u') →
  match r.2 with
  | Some _ => operation.State (op u) ≠ "running"%string ∧ operation.State (op u') = "running"%string
  | None => u' = u
  end.
Proof.
  intros [(input & l & H)|H].
  - unfold handleUpdate in H. destruct (if (trim_space input =? "")%string then l else Some (trim_space input)) as [v|]; [|by injection H as <- <-].
    destruct (negb _); [by injection H as <- <-|]. by eapply started_exclusive.
  - unfold handleRollback in H. destruct (negb _); [by injection H as <- <-|].
    by eapply started_exclusive.
Qed.

Definition completed (st : string) : Prop := st = "succeeded"%string ∨ st = "failed"%string.

(** The last call of every path of a task is [finish]. *)
Lemma finish_completed st message u r u' :
  completed st → finish now st message u = (r, u') → completed (operation.State (op u')).
Proof. unfold finish. intros H [= <- <-]. done. Qed.

#[local] Ltac finishes H :=
  unfold mbind, M_bind, read_env in H;
  repeat match type of H with
  | context [match ?x with _ => _ end] => destruct x; simpl in H
  end;
  (eapply finish_completed; [|exact H]; solve [by left|by right]).

Lemma runUpdate_finishes v u r u' :
  runUpdate ext now v u = (r, u') → completed (operation.State (op u')).
Proof. unfold runUpdate. intros H. finishes H. Qed.

Lemma runRollback_finishes i u r u' :
  runRollback ext now i u = (r, u') → completed (operation.State (op u')).
Proof. unfold runRollback. intros H. finishes H. Qed.

Lemma run_task_finishes t u r u' :
  run_task ext now t u = (r, u') → operation.State (op u') ≠ "running"%string.
Proof.
  destruct t; simpl; intros H.
  - apply runUpdate_finishes in H as [-> | ->]; done.
  - apply runRollback_finishes in H as [-> | ->]; done.
Qed.

Lemma agent_step_exclusive a a' : exclusive a → agent_step a a' → exclusive a'.
Proof.
  unfold exclusive. intros He Hs.
  assert (∀ u ts status t u', length ts = (if operation.State (op u) =? "running" then 1 else 0)%string →
    (∃ input l, handleUpdate now input l u = ((status, t), u')) ∨
      handleRollback now u = ((status, t), u') →
    length (ts ++ option_list t) = (if operation.State (op u') =? "running" then 1 else 0)%string) as Hh.
  { intros u ts status t u' Hl H%handlers_exclusive. rewrite length_app. destruct t as [t|]; simpl in *.
    - destruct H as [Hn Hr]. apply String.eqb_neq in Hn. rewrite Hn in Hl. rewrite Hr. simpl. lia.
    - subst u'. lia. }
  destruct Hs as [u ts input l status t u' H|u ts status t u' H|u ts1 t ts2 u' H]; simpl in *.
  - eapply Hh; [done|]. left. by exists input, l.
  - eapply Hh; [done|]. by right.
  - apply run_task_finishes in H. apply String.eqb_neq in H. rewrite H, length_app in *.
    simpl in He. destruct (operation.State (op u) =? "running")%string; lia.
Qed.

(** However requests arrive, at most one update or rollback runs: in
    every state the agent reaches from rest, the operation is "running"
    exactly while one task runs, and a request that comes in meanwhile starts
    nothing and changes nothing. *)
Theorem one_task_at_a_time u a :
  operation.State (op u) ≠ "running"%string → rtc agent_step (mk_agent u []) a →
  length (running a) ≤ 1 ∧
  (running a ≠ [] → ∀ input l,
     (handleUpdate now input l (agent_state a)).2 = agent_state a ∧
     (handleRollback now (agent_state a)).2 = agent_state a).
Proof.
  intros Hu Hr. assert (exclusive a) as He.
  { assert (exclusive (mk_agent u [])) as H0.
    { unfold exclusive. simpl. apply String.eqb_neq in Hu. by rewrite Hu. }
    revert H0. generalize (mk_agent u []) Hr. clear Hu Hr. intros a0 Hr H0.
    induction Hr as [|a1 a2 a3 H12 _ IH]; [done|]. apply IH. by eapply agent_step_exclusive. }
  unfold exclusive in He. destruct a as [v ts]; simpl in *.
  split; [destruct (_ =? _)%string; lia|]. intros Hts input l.
  destruct (String.eqb_spec (operation.State (op v)) "running") as [Hrun|]; [|by destruct ts].
  split.
  - destruct (handleUpdate now input l v) as [r v'] eqn:E.
    pose proof (handlers_exclusive v r v' (or_introl (ex_intro _ input (ex_intro _ l E)))) as H.
    destruct (r.2); [by destruct H|by simpl].
  - destruct (handleRollback now v) as [r v'] eqn:E.
    pose proof (handlers_exclusive v r v' (or_intror E)) as H.
    destruct (r.2); [by destruct H|by simpl].
Qed.
End tasks.

(** ** Versions *)

Definition tag_char (c : ascii) : bool :=
  is_alnum c || bool_decide (c = "."%char) || bool_decide (c = "-"%char).

Lemma digit_tag c : is_digit c = true → tag_char c = true.
Proof. intros H. unfold tag_char, is_alnum. by rewrite H. Qed.

Lemma skip_digits_tag l : forallb tag_char (skip_digits l) = true → forallb tag_char l = true.
Proof.
  induction l as [|c l IH]; [done|]. simpl. destruct (is_digit c) eqn:Hc; [|done].
  intros H. rewrite (digit_tag c Hc). by apply IH.
Qed.

Lemma digits1_tag l r : digits1 l = Some r → forallb tag_char r = true → forallb tag_char l = true.
Proof.
  unfold digits1. destruct l as [|c l]; [done|]. destruct (is_digit c) eqn:Hc; [|done].
  intros [= <-] H. simpl. rewrite (digit_tag c Hc). by apply skip_digits_tag.
Qed.

Lemma literal_dot_tag l r :
  literal "." l = Some r → forallb tag_char r = true → forallb tag_char l = true.
Proof.
  unfold literal. destruct l as [|c l]; [done|]. case_bool_decide as Hc; [|done].
  intros [= <-] H. subst c. simpl. by rewrite H.
Qed.

(** An accepted version cannot smuggle anything into the image reference:
    after the optional "v" it consists of letters, digits, dots and hyphens
    only, so the name handed to docker pull is a tag of the project's own
    repository. *)
Theorem version_is_tag version :
  versionPattern version = true →
  ∃ tag, forallb tag_char tag = true ∧ (B version = tag ∨ B version = "v"%char :: tag).
Proof.
  unfold versionPattern.
  set (l := match B version with "v"%char :: l => l | l => l end). intros H.
  assert (forallb tag_char l = true) as Hl.
  { destruct (digits1 l) as [l1|] eqn:E1; [|done]. cbn [mbind option_bind] in H.
    destruct (literal "." l1) as [l2|] eqn:E2; [|done]. cbn [mbind option_bind] in H.
    destruct (digits1 l2) as [l3|] eqn:E3; [|done]. cbn [mbind option_bind] in H.
    destruct (literal "." l3) as [l4|] eqn:E4; [|done]. cbn [mbind option_bind] in H.
    destruct (digits1 l4) as [l5|] eqn:E5; [|done].
    eapply digits1_tag, literal_dot_tag, digits1_tag, literal_dot_tag, digits1_tag; try done.
    destruct l5 as [|c l5]; [done|]. destruct (decide (c = "-"%char)) as [->|Hc].
    - apply andb_true_iff in H as [_ H]. simpl. exact H.
    - exfalso. destruct c as [[] [] [] [] [] [] [] []]; done. }
  exists l. split; [done|]. subst l. destruct (B version) as [|c m]; [by left|].
  destruct (decide (c = "v"%char)) as [->|Hc]; [by right|].
  left. destruct c as [[] [] [] [] [] [] [] []]; done.
Qed.

(** ** Witnesses *)

Fixpoint repeat_string (n : nat) (s : string) : string :=
  match n with O => "" | S n => s +:+ repeat_string n s end.
Definition demo_digest (c : string) : string := digest_prefix +:+ repeat_string 64 c.
Definition demo_file (image : string) : bytes :=
  B "OTHER=1" ++ [newline] ++ B ("NCG_IMAGE=" +:+ image) ++ [newline].

(** Docker knows digest [a]; the health checks answer as told. *)
Definition demo_outside (healthy : nat → bool) : outside :=
  mk_outside (λ _, true)
    (λ _, Some (S_ (json_text "['" ++ B (demo_digest "a") ++ json_text "']")))
    (λ _, true) (λ _, true) (λ n, if healthy n then [(Some 200%Z, false)] else []).

Definition demo_updater (image : string) : updater :=
  mk_updater operation.idle (persistentState.mk (demo_digest "b") image)
    (Some (demo_file image)) None None 0 0.

(** A failed rollback reports that the original image was restored even
    when it was not: when the image before the rollback is no approved digest
    (a tag, say), the attempt to write it back is refused, the error is dropped,
    and the environment file keeps naming the image whose health check failed. *)
Theorem rollback_reports_unrestored_image :
  let u := demo_updater "ghcr.io/abingooo/nocyber-guard:0.4.1" in
  let u' := (runRollback (demo_outside (λ _, false)) 0 (demo_digest "b") u).2 in
  operation.Message (op u') = "回滚健康检查失败，已恢复原镜像"%string ∧
  image_now u = Some "ghcr.io/abingooo/nocyber-guard:0.4.1"%string ∧
  image_now u' = Some (demo_digest "b") ∧ deployed u' = Some (demo_digest "b").
Proof. vm_compute. auto. Qed.

(** An update whose service never became healthy and whose rollback did not
    complete reports the failure; asked again, the same update reports success,
    with nothing done: the service is still unhealthy and nothing is recorded. *)
Theorem retry_of_broken_image :
  let u := demo_updater "ghcr.io/abingooo/nocyber-guard:0.4.1" in
  let u1 := (runUpdate (demo_outside (λ _, false)) 0 "v0.4.2" u).2 in
  let u2 := (runUpdate (demo_outside (λ _, false)) 0 "v0.4.2" u1).2 in
  operation.State (op u1) = "failed"%string ∧ operation.Message (op u1) = incomplete_message ∧
  operation.State (op u2) = "succeeded"%string ∧ state u2 = state u ∧ ups u2 = ups u1.
Proof. vm_compute. auto. Qed.

Lemma writeImage_readImage_witness :
  let u := demo_updater (demo_digest "b") in
  let r := writeImage (demo_outside (λ _, true)) (demo_digest "a") u in
  r.1 = true ∧ readImage (env_file r.2) = Some (demo_digest "a").
Proof.
  intros u r. split; [vm_compute; reflexivity|].
  refine (proj1 (proj2 (proj1 (writeImage_readImage (demo_outside (λ _, true)) (demo_digest "a") u
    true r.2 _) eq_refl))).
  vm_compute. reflexivity.
Defined.

Lemma runUpdate_outcome_witness :
  let u := demo_updater (demo_digest "b") in
  let u' := (runUpdate (demo_outside (λ n, Nat.eqb n 1)) 0 "v0.4.2" u).2 in
  operation.State (op u') = "failed"%string ∧ image_now u' = Some (demo_digest "b") ∧
  (operation.State (op u') = "succeeded"%string ∨ state u' = state u).
Proof.
  intros u u'. split; [vm_compute; reflexivity|]. split; [vm_compute; reflexivity|].
  destruct (runUpdate_outcome (demo_outside (λ n, Nat.eqb n 1)) 0 "v0.4.2" u u') as [[H _]|[_ [H _]]];
    [reflexivity|left; exact H|right; exact H].
Defined.

Lemma runRollback_outcome_witness :
  let u := demo_updater (demo_digest "a") in
  let u' := (runRollback (demo_outside (λ n, Nat.eqb n 1)) 0 (demo_digest "b") u).2 in
  operation.State (op u') = "failed"%string ∧ image_now u' = Some (demo_digest "a").
Proof.
  intros u u'. assert (operation.State (op u') = "failed"%string) as Hf by (vm_compute; reflexivity).
  split; [exact Hf|].
  destruct (runRollback_outcome (demo_outside (λ n, Nat.eqb n 1)) 0 (demo_digest "b") u u')
    as [[H _]|[_ [_ H]]]; [reflexivity|congruence|].
  apply H; vm_compute; reflexivity.
Defined.

(** After an accepted update a second request is refused. *)
Lemma one_task_at_a_time_witness :
  let u := demo_updater (demo_digest "b") in
  let ext := demo_outside (λ _, true) in
  let started := handleUpdate 0 "v1.2.3" None u in
  length (running (mk_agent started.2 (option_list started.1.2))) = 1 ∧
  (handleUpdate 0 "v1.2.4" None started.2).2 = started.2.
Proof.
  intros u ext started. split; [vm_compute; reflexivity|].
  refine (proj1 (proj2 (one_task_at_a_time ext 0 u
    (mk_agent started.2 ([] ++ option_list started.1.2)) _ _) _ "v1.2.4"%string None)).
  - vm_compute. discriminate.
  - apply rtc_once. apply (agent_update ext 0 u [] "v1.2.3" None started.1.1). reflexivity.
  - vm_compute. discriminate.
Defined.

Lemma version_is_tag_witness :
  versionPattern "v0.4.2-rc.1" = true ∧
  ∃ tag, forallb tag_char tag = true ∧
    (B "v0.4.2-rc.1" = tag ∨ B "v0.4.2-rc.1" = "v"%char :: tag).
Proof.
  split; [vm_compute; reflexivity|].
  apply (version_is_tag "v0.4.2-rc.1"). vm_compute. reflexivity.
Defined.
