(* ===== verification/Url.v ===== *)
(** * URLs

    [url.Parse] and [URL.String] are the interface [UrlLib]; the checks the
    program makes on a parsed URL, [path.Clean], [path.Join] and hexadecimal
    text are modelled. *)

From S2P Require Export GoStd.

Module Url.
Record t : Type := mk {
  Scheme : string;
  Host : string;           (** with the port *)
  Hostname : string;
  Port : string;
  User : bool;             (** credentials are present *)
  Path : string;
  RawPath : string;
  RawQuery : string;
  Fragment : string;
}.
Definition set_Path (u : t) (path : string) : t :=
  mk (Scheme u) (Host u) (Hostname u) (Port u) (User u) path (RawPath u) (RawQuery u) (Fragment u).
(** [u.Scheme = "https"; u.Host = host; u.Path = ""] *)
Definition set_origin (u : t) (scheme host : string) : t :=
  mk scheme host (Hostname u) (Port u) (User u) "" (RawPath u) (RawQuery u) (Fragment u).
End Url.

Class UrlLib := {
  url_parse : string → option Url.t;
  url_string : Url.t → string;
}.

(** The test the upstream, the AI endpoint and the AI nodes share. *)
Definition absolute_http `{UrlLib} (raw : string) : bool :=
  match url_parse raw with
  | None => false
  | Some u =>
      negb ((Url.Scheme u =? "")%string || (Url.Host u =? "")%string ||
            (negb (Url.Scheme u =? "http")%string && negb (Url.Scheme u =? "https")%string) ||
            Url.User u || negb (Url.RawQuery u =? "")%string || negb (Url.Fragment u =? "")%string)
  end.

(** ** [path.Clean] and [path.Join] *)

Fixpoint clean_elements (rooted : bool) (elements kept : list bytes) : list bytes :=
  match elements with
  | [] => rev kept
  | e :: rest =>
      if bool_decide (e = []) || bool_decide (e = B ".") then clean_elements rooted rest kept
      else if bool_decide (e = B "..") then
        clean_elements rooted rest
          (match kept with
           | [] => if rooted then [] else [e]
           | top :: below => if bool_decide (top = B "..") then e :: kept else below
           end)
      else clean_elements rooted rest (e :: kept)
  end.
Definition path_Clean (p : string) : string :=
  let rooted := has_prefix p "/" in
  let out := join (map S_ (clean_elements rooted (split_bytes (B p) "/") [])) "/" in
  if rooted then "/" +:+ out else if (out =? "")%string then "." else out.

(** [path.Join] of two elements, of which the second is not empty. *)
Definition path_Join (a b : string) : string :=
  path_Clean (if (a =? "")%string then b else a +:+ "/" +:+ b).

Example path_Clean_ex :
  map path_Clean ["/v1/responses"; "/v1//responses/"; "/v1/./a/../responses"; "/../a"; "/"; "../a/.."; ""]%string =
  ["/v1/responses"; "/v1/responses"; "/v1/responses"; "/a"; "/"; ".."; "."]%string.
Proof. vm_compute. reflexivity. Qed.

(** ** [encoding/hex] *)

Definition hex_char (n : N) : ascii := chr (if (n <? 10)%N then 48 + n else 87 + n)%N.
Definition hex_encode (b : bytes) : string :=
  S_ (concat (map (λ c, [hex_char (code c / 16); hex_char (code c mod 16)])%N b)).

Definition hex_value (c : ascii) : option N :=
  let n := code c in
  if (48 <=? n)%N && (n <=? 57)%N then Some (n - 48)%N
  else if (97 <=? n)%N && (n <=? 102)%N then Some (n - 87)%N
  else if (65 <=? n)%N && (n <=? 70)%N then Some (n - 55)%N
  else None.
Fixpoint hex_decode_bytes (l : bytes) : option bytes :=
  match l with
  | [] => Some []
  | x :: y :: l =>
      match hex_value x, hex_value y, hex_decode_bytes l with
      | Some a, Some b, Some r => Some (chr (16 * a + b)%N :: r)
      | _, _, _ => None
      end
  | [_] => None
  end.
Definition hex_decode (s : string) : option bytes := hex_decode_bytes (B s).

#[local] Ltac Zify.zify_post_hook ::= Z.to_euclidean_division_equations.

Lemma hex_value_char n : (n < 16)%N → hex_value (hex_char n) = Some n.
Proof.
  intros H. unfold hex_value, hex_char, code, chr.
  destruct (N.ltb_spec n 10); rewrite N_ascii_embedding by lia.
  - rewrite (proj2 (N.leb_le 48 _)), (proj2 (N.leb_le _ 57)) by lia. simpl. f_equal. lia.
  - rewrite (proj2 (N.leb_gt _ 57)) by lia. rewrite andb_false_r.
    rewrite (proj2 (N.leb_le 97 _)), (proj2 (N.leb_le _ 102)) by lia. simpl. f_equal. lia.
Qed.

Lemma hex_decode_encode b : hex_decode (hex_encode b) = Some b.
Proof.
  unfold hex_decode, hex_encode. rewrite B_S_. induction b as [|c b IH]; [done|].
  assert (code c < 256)%N as Hc by apply N_ascii_bounded.
  cbn [map concat app hex_decode_bytes]. rewrite !hex_value_char by lia. rewrite IH.
  f_equal. f_equal. unfold chr. replace (16 * (code c / 16) + code c mod 16)%N with (code c) by lia.
  apply ascii_N_embedding.
Qed.
