(* ===== verification/ReviewerTheorems.v ===== *)
(** * Theorems on the reviewer

    Which requests a review makes, what a verdict it returns satisfies, and
    which part of an answer the tolerant parser accepts. *)

From S2P Require Export Reviewer.

Section reviewer_theorems.
Context `{U : Unicode, UL : UrlLib, FL : FloatLib, RJ : ResponseJSON}.

(** ** Requests *)

(** The reviewed text and its description, the only untrusted parts. *)
Definition same_policy (i j : AIReviewRequest.t) : Prop :=
  AIReviewRequest.Criteria i = AIReviewRequest.Criteria j.

(** A review makes at most three requests, all to the configured endpoint
    with the configured key and model.  Each carries the reviewed text in the
    user message only: the system message is the same for every text reviewed
    under the same criteria.  A further request is made only after an answer
    with status 400, 404 or 422, and an accepted verdict ends the review. *)
Theorem review_requests rv do input r ws :
  review_trace rv do input = (r, ws) →
  length ws ≤ 3 ∧
  Forall (λ w, Wire.endpoint w = OpenAIReviewer.endpoint rv ∧ Wire.apiKey w = OpenAIReviewer.apiKey rv ∧
               Wire.model w = OpenAIReviewer.model rv ∧
               Wire.user w = (AIReviewRequest.Field input, AIReviewRequest.Content input,
                              AIReviewRequest.Sampled input, AIReviewRequest.Model input) ∧
               ∀ other, same_policy input other →
                 Wire.system w = Wire.system (wire_request rv other (Wire.response_mode w)
                                                (Wire.thinking_disabled w))) ws ∧
  (∀ n w, ws !! n = Some w → S n < length ws →
     ∃ status body, do n w = HttpResponse status body ∧ responseFormatFallbackStatus status = true) ∧
  (∀ n w, ws !! n = Some w → is_ok (reviewWithFormat do n w).1 = true →
     S n = length ws ∧ r = (reviewWithFormat do n w).1).
Proof.
  assert (∀ n w, falls_back (reviewWithFormat do n w) = true →
    is_ok (reviewWithFormat do n w).1 = false ∧
    ∃ status body, do n w = HttpResponse status body ∧ responseFormatFallbackStatus status = true) as Hfb.
  { intros n w H. unfold falls_back in H. apply andb_true_iff in H as [H1 H2]. to_prop. split; [done|].
    unfold reviewWithFormat, read_outcome in H2. destruct (do n w) as [| | |status body]; [done..|].
    by exists status, body. }
  assert (∀ mode quiet, let w := wire_request rv input mode quiet in
    Wire.endpoint w = OpenAIReviewer.endpoint rv ∧ Wire.apiKey w = OpenAIReviewer.apiKey rv ∧
    Wire.model w = OpenAIReviewer.model rv ∧
    Wire.user w = (AIReviewRequest.Field input, AIReviewRequest.Content input,
                   AIReviewRequest.Sampled input, AIReviewRequest.Model input) ∧
    ∀ other, same_policy input other →
      Wire.system w = Wire.system (wire_request rv other (Wire.response_mode w)
                                     (Wire.thinking_disabled w))) as Hw.
  { intros mode quiet. split_and!; try done. intros other H. unfold wire_request, Wire.system.
    by rewrite H. }
  unfold review_trace. destruct (_ || _) in |- *.
  { intros [= <- <-]. split_and!; [simpl; lia|constructor|by intros ? ? ?..]. }
  destruct (falls_back (reviewWithFormat do 0 _)) eqn:F0; cbn [negb];
    [destruct (falls_back (reviewWithFormat do 1 _)) eqn:F1; cbn [negb]|];
    intros [= <- <-]; (split; [simpl; lia|split; [by repeat constructor; apply Hw|split]]).
  all: try apply Hfb in F0 as [F0 F0']; try apply Hfb in F1 as [F1 F1'].
  all: intros [|[|[|n]]] w; simpl; intros [= <-]; try done; try lia.
  all: try congruence. all: by rewrite ?F0, ?F1.
Qed.

(** ** Verdicts *)

(** A text with a digit is not a NaN. *)
Class FloatLaws := {
  ParseFloat_number : ∀ s x, existsb Decoder.is_digit (B s) = true → ParseFloat s = Some x → f64_is_nan x = false;
}.

Lemma lex_digits1_digit l ds r : Decoder.lex_digits1 l = Some (ds, r) → existsb Decoder.is_digit ds = true.
Proof.
  unfold Decoder.lex_digits1. destruct l as [|c l]; simpl; [done|].
  destruct (Decoder.is_digit c) eqn:E; [|done]. destruct (Decoder.span_digits l) as [a b].
  intros [= <- <-]. simpl. by rewrite E.
Qed.

Lemma lex_number_digit l ds r : Decoder.lex_number l = Some (ds, r) → existsb Decoder.is_digit ds = true.
Proof.
  unfold Decoder.lex_number. intros H.
  set (sl := match l with "-"%char :: l' => (["-"%char], l') | _ => ([], l) end) in H.
  destruct sl as [sg l1]. destruct (Decoder.lex_int l1) as [[i l2]|] eqn:Ei; [|discriminate H].
  destruct (Decoder.lex_frac l2) as [[f l3]|]; [|discriminate H]. destruct (Decoder.lex_exp l3) as [[e l4]|]; [|discriminate H].
  injection H as <- <-. rewrite !existsb_app.
  assert (existsb Decoder.is_digit i = true) as ->; [|by rewrite orb_true_r].
  unfold Decoder.lex_int in Ei.
  repeat (case_match; simplify_eq/=; try done; try by eapply lex_digits1_digit).
Qed.

Lemma lex_scalar_digit l s r : Decoder.lex_scalar l = Ok (TNum s, r) → existsb Decoder.is_digit (B s) = true.
Proof.
  unfold Decoder.lex_scalar. intros H.
  assert (∀ c l, match Decoder.lex_number (c :: l) with
                 | Some (ds, r) => Ok (TNum (S_ ds), r)
                 | None => Err SyntaxError
                 end = Ok (TNum s, r) → existsb Decoder.is_digit (B s) = true) as Hnum.
  { intros c l' Hn. destruct (Decoder.lex_number (c :: l')) as [[ds r']|] eqn:En; [|done]. injection Hn as <- <-.
    rewrite B_S_. by eapply lex_number_digit. }
  assert (∀ l, Decoder.lex_literal l ≠ Some (TNum s, r)) as Hlit.
  { intros l'. unfold Decoder.lex_literal. repeat case_match; congruence. }
  destruct l as [|c l]; [done|].
  destruct (decide (c = "034"%char)) as [->|Hq].
  { by destruct (Decoder.lex_string _ _ _) as [[]|]. }
  assert (Ok (TNum s, r) = (if Decoder.is_digit c || bool_decide (c = "-"%char)
          then match Decoder.lex_number (c :: l) with Some (ds, r) => Ok (TNum (S_ ds), r) | None => Err SyntaxError end
          else match Decoder.lex_literal (c :: l) with Some (t, r) => Ok (t, r) | None => Err SyntaxError end)) as H'.
  { rewrite <-H. destruct c as [[] [] [] [] [] [] [] []]; try reflexivity; done. }
  destruct (_ || _); [by eapply Hnum|]. specialize (Hlit (c :: l)).
  destruct (Decoder.lex_literal (c :: l)) as [[t r']|]; congruence.
Qed.

Lemma Token_number d s d' : Decoder.Token d = Ok (TNum s, d') → existsb Decoder.is_digit (B s) = true.
Proof.
  unfold Decoder.Token. generalize (S (length (Decoder.rest d))) as fuel. intros fuel. revert d.
  induction fuel as [|fuel IH]; intros d; cbn [Decoder.Token_fuel]; [done|]. intros H.
  destruct (Decoder.skip_space _) as [|c l]; [done|].
  repeat match type of H with (if ?b then _ else _) = _ => destruct b end.
  all: repeat match type of H with
       | match ?x with _ => _ end = Ok _ =>
           match x with Decoder.lex_scalar _ => fail 1 | _ => destruct x end
       end; try discriminate H; try (by eauto).
  all: destruct (Decoder.lex_scalar (c :: l)) as [[t r]|] eqn:E; [|discriminate H];
    injection H as -> _; by eapply lex_scalar_digit.
Qed.

(** The numbers of a document have digits. *)
Definition has_digits (v : raw_value) : Prop :=
  match v with RawScalar (TNum s) => existsb Decoder.is_digit (B s) = true | _ => True end.

Lemma decode_raw_digits d v d' : decode_raw d = Some (v, d') → has_digits v.
Proof.
  unfold decode_raw. destruct (Decoder.Token d) as [[t d1]|] eqn:E; [|done].
  destruct t as [c|s|s|b|]; try (by intros [= <- _]).
  - unfold mbind, option_bind. generalize (S (length (Decoder.rest d1))) as fuel. intros fuel.
    destruct (skip_container fuel 1 d1); [|done]. by intros [= <- _].
  - intros [= <- _]. by eapply Token_number.
Qed.

Lemma key_loop_digits norm fuel d fs fs' d' :
  map_Forall (λ _, has_digits) fs → key_loop norm fuel d fs = Some (fs', d') → map_Forall (λ _, has_digits) fs'.
Proof.
  revert d fs. induction fuel as [|fuel IH]; intros d fs Hfs; simpl;
    (destruct (negb (Decoder.More d)); [by intros [= <- _]|]); [done|].
  destruct (Decoder.Token d) as [[[c|key|s|b|] d1]|]; try done.
  unfold mbind, option_bind. destruct (norm key) as [k|]; [|done]. destruct (fs !! k); [done|].
  destruct (decode_raw d1) as [[v d2]|] eqn:Ev; [|done]. apply IH.
  apply map_Forall_insert_2; [by eapply decode_raw_digits|done].
Qed.

Lemma verdict_fields_digits norm doc fs : verdict_fields norm doc = Some fs → map_Forall (λ _, has_digits) fs.
Proof.
  unfold verdict_fields, mbind, option_bind. intros H.
  destruct (Decoder.Token _) as [[[c|?|?|?|] d]|]; try done. destruct (negb _); [done|].
  destruct (key_loop _ _ _ _) as [[fs1 d1]|] eqn:E; [|done]. simpl in H.
  destruct (Decoder.Token d1) as [[[c'|?|?|?|] d2]|]; try done. destruct (_ && _); [|done].
  injection H as <-. eapply key_loop_digits; [|exact E]. apply map_Forall_empty.
Qed.

Lemma strict_number_nan `{!FloatLaws} v x : has_digits v → decodeStrictNumber v = Some x → f64_is_nan x = false.
Proof. destruct v as [[]|]; simpl; try done. by apply ParseFloat_number. Qed.

Lemma compatible_number_nan `{!FloatLaws} v x :
  has_digits v → decodeCompatibleNumber v = Some x → f64_is_nan x = false.
Proof.
  unfold decodeCompatibleNumber. intros Hv.
  destruct (decodeStrictNumber v) eqn:E; [intros [= <-]; by eapply strict_number_nan|].
  unfold mbind, option_bind. destruct (decodeStrictString v); [|done]. destruct (_ || _); [done|].
  destruct (ParseFloat _) as [y|]; [|done]. destruct (_ || _) eqn:En; [done|]. intros [= <-]. by to_prop.
Qed.

Lemma build_verdict_ok number result fs v :
  build_verdict number result fs = Some v →
  ValidateAIVerdict v = None ∧ ∃ raw, fs !! "confidence"%string = Some raw ∧ number raw = Some (AIVerdict.Confidence v).
Proof.
  unfold build_verdict, mbind, option_bind. intros H.
  repeat match type of H with
         | match ?x with Some _ => _ | None => None end = Some _ => destruct x eqn:?; [|discriminate H]
         end.
  destruct (ValidateAIVerdict _) eqn:Ev in H; [done|]. injection H as <-. split; [done|].
  destruct (fs !! "confidence"%string) as [raw|]; [|done]. by exists raw.
Qed.

Lemma parseCompatible_valid `{!FloatLaws} content v :
  parseCompatibleAIVerdict content = Some v →
  ValidateAIVerdict v = None ∧ f64_is_nan (AIVerdict.Confidence v) = false.
Proof.
  unfold parseCompatibleAIVerdict. destruct (parseStrictAIVerdict content) as [w|] eqn:Es.
  - intros [= ->]. unfold parseStrictAIVerdict, mbind, option_bind in Es.
    destruct (verdict_fields _ _) as [fs|] eqn:Ef; [|done]. destruct (_ =? _)%nat; [|done].
    apply build_verdict_ok in Es as (Hv & raw & Hraw & Hn). split; [done|].
    eapply strict_number_nan; [|exact Hn]. by eapply (verdict_fields_digits _ _ _ Ef).
  - unfold mbind, option_bind. destruct (compatibleJSONObject content) as [doc|]; [|done].
    destruct (verdict_fields _ doc) as [fs|] eqn:Ef; [|done].
    intros (Hv & raw & Hraw & Hn)%build_verdict_ok. split; [done|].
    eapply compatible_number_nan; [|exact Hn]. by eapply (verdict_fields_digits _ _ _ Ef).
Qed.

(** What [ValidateAIVerdict] accepts. *)
Lemma ValidateAIVerdict_contract v :
  ValidateAIVerdict v = None → f64_is_nan (AIVerdict.Confidence v) = false →
  AIVerdict.Result v ∈ ["pass"; "reject"; "uncertain"]%string ∧
  (f64_le f64_zero (AIVerdict.Confidence v) = true ∧ f64_le (AIVerdict.Confidence v) f64_one = true) ∧
  (trim_space (AIVerdict.Reason v) ≠ ""%string ∧ slen (AIVerdict.Reason v) ≤ 1000)%Z ∧
  (trim_space (AIVerdict.Category v) ≠ ""%string ∧ slen (AIVerdict.Category v) ≤ 120)%Z.
Proof.
  unfold ValidateAIVerdict. intros H Hn. case_bool_decide as Hr; [done|].
  destruct (_ || _) eqn:E in H; [done|]. unfold blank in E. to_prop.
  split_and!; try done; [by apply f64_not_lt_ge|].
  change (f64_ge f64_one (AIVerdict.Confidence v) = true). by apply f64_not_lt_ge.
Qed.

(** C30. Whatever the service answers, a review without an error carries a
    verdict of the contract: the result is pass, reject or uncertain, the
    confidence is a number between 0 and 1, reason and category are not blank
    and have at most 1000 and 120 bytes; model and latency are those of the
    reviewer, not of the answer. *)
Theorem Review_verdict_valid `{!FloatLaws} rv do elapsed input v e :
  Review rv do elapsed input = (v, None, e) →
  AIVerdict.Result v ∈ ["pass"; "reject"; "uncertain"]%string ∧
  f64_is_nan (AIVerdict.Confidence v) = false ∧
  (f64_le f64_zero (AIVerdict.Confidence v) = true ∧ f64_le (AIVerdict.Confidence v) f64_one = true) ∧
  (trim_space (AIVerdict.Reason v) ≠ ""%string ∧ slen (AIVerdict.Reason v) ≤ 1000)%Z ∧
  (trim_space (AIVerdict.Category v) ≠ ""%string ∧ slen (AIVerdict.Category v) ≤ 120)%Z ∧
  AIVerdict.Model v = OpenAIReviewer.model rv ∧ AIVerdict.LatencyMS v = milliseconds elapsed.
Proof.
  unfold Review. destruct (review_trace rv do input).1 as [w|] eqn:E; [|done]. intros [= <- _]. simpl.
  assert (∀ n m, (reviewWithFormat do n m).1 = Ok w →
    ValidateAIVerdict w = None ∧ f64_is_nan (AIVerdict.Confidence w) = false) as Hread.
  { intros n m Hr. unfold reviewWithFormat, read_outcome in Hr. destruct (do n m) as [| | |status body]; try done.
    simpl in Hr. destruct (_ || _); [done|]. destruct (read_all_limited _ _) as [[b err] rest].
    destruct (_ || _); [done|]. unfold mbind, option_bind in Hr.
    destruct (extractOpenAIMessageContent b) as [content|]; [|done].
    destruct (parseCompatibleAIVerdict content) as [u|] eqn:Eu; [|done]. injection Hr as ->.
    by apply parseCompatible_valid in Eu. }
  assert (ValidateAIVerdict w = None ∧ f64_is_nan (AIVerdict.Confidence w) = false) as [Hw Hn].
  { unfold review_trace in E. destruct (_ || _) in E; [done|].
    destruct (negb _); [|destruct (negb _)]; simpl in E; eapply Hread; exact E. }
  destruct (ValidateAIVerdict_contract w Hw Hn) as (? & [? ?] & [? ?] & [? ?]). by split_and!.
Qed.

(** ** The objects of an answer *)

Definition brace_free (l : bytes) : Prop := ("{"%char ∉ l) ∧ ("}"%char ∉ l).

(** [o] starts and ends with a brace. *)
Definition braced (o : bytes) : Prop := ∃ m, o = "{"%char :: m ++ ["}"%char].

(** [text] consists of the objects, in order, with text without braces before
    each of them. *)
Inductive laid_out : bytes → list bytes → Prop :=
| laid_none : laid_out [] []
| laid_one text os gap o : laid_out text os → brace_free gap → braced o → laid_out (text ++ gap ++ o) (os ++ [o]).

(** What has been read: laid out objects, a gap, and the open object. *)
Definition scanned (p cur : bytes) (depth : nat) (inString : bool) (os : list bytes) : Prop :=
  ∃ text gap, laid_out text os ∧ brace_free gap ∧
    match depth with
    | O => p = text ++ gap ∧ inString = false
    | S _ => p = text ++ gap ++ rev cur ∧ ∃ m, rev cur = "{"%char :: m
    end.

Lemma brace_free_snoc l c : brace_free l → c ≠ "{"%char → c ≠ "}"%char → brace_free (l ++ [c]).
Proof.
  intros [H1 H2] Ho Hc. split; intros [?|Hin]%elem_of_app; try done;
    apply list_elem_of_singleton in Hin; congruence.
Qed.

Lemma scanned_open p cur n inS inS' os c :
  scanned p cur (S n) inS os → scanned (p ++ [c]) (c :: cur) (S n) inS' os.
Proof.
  intros (text & gap & Hl & Hg & -> & m & Hm). exists text, gap. split; [done|]. split; [done|].
  simpl. rewrite Hm. split; [by rewrite <-!app_assoc|]. by exists (m ++ [c]).
Qed.

Lemma scan_objects_spec l p cur depth inS esc os :
  scanned p cur depth inS os → scan_objects l cur depth inS esc os ≠ [] →
  ∃ text gap, laid_out text (scan_objects l cur depth inS esc os) ∧ brace_free gap ∧ p ++ l = text ++ gap.
Proof.
  revert p cur depth inS esc os. induction l as [|c l IH]; intros p cur depth inS esc os Hs Hne; simpl in *.
  - destruct Hs as (text & gap & Hl & Hg & Hs). destruct depth; simpl in *; [|done].
    destruct Hs as [-> ->]. exists text, gap. by rewrite app_nil_r.
  - replace (p ++ c :: l) with ((p ++ [c]) ++ l) by (by rewrite <-app_assoc). destruct inS.
    { destruct depth as [|n]; [by destruct Hs as (? & ? & _ & _ & _ & ?)|].
      destruct esc; [by eapply IH; [eapply scanned_open|]|].
      destruct (bool_decide _); (eapply IH; [exact (scanned_open _ _ _ true _ _ _ Hs)|done]). }
    destruct (bool_decide (c = "034"%char) && (0 <? depth)%nat) eqn:Eq.
    { apply andb_true_iff in Eq as [_ Hd]. to_prop. destruct depth; [lia|].
      eapply IH; [exact (scanned_open _ _ _ true _ _ _ Hs)|done]. }
    case_bool_decide as Ho; [subst c|case_bool_decide as Hc; [subst c|]].
    + destruct depth as [|n]; [|eapply IH; [exact (scanned_open _ _ _ true _ _ _ Hs)|done]].
      eapply IH; [|done]. destruct Hs as (text & gap & Hl & Hg & -> & _).
      exists text, gap. split; [done|]. split; [done|]. simpl. split; [by rewrite <-app_assoc|by exists []].
    + destruct depth as [|[|n]]; [done| |].
      * eapply IH; [|done]. destruct Hs as (text & gap & Hl & Hg & -> & m & Hm).
        exists (text ++ gap ++ rev ("}"%char :: cur)), []. split_and!.
        -- apply laid_one; [done..|]. exists m. simpl. by rewrite Hm.
        -- split; apply not_elem_of_nil.
        -- by rewrite app_nil_r, <-!app_assoc.
        -- done.
      * eapply IH; [|done]. destruct (scanned_open p cur (S n) false false os "}"%char Hs)
          as (text & gap & ? & ? & ? & ?). by exists text, gap.
    + destruct depth as [|n]; [|eapply IH; [exact (scanned_open _ _ _ true _ _ _ Hs)|done]].
      eapply IH; [|done]. destruct Hs as (text & gap & Hl & Hg & -> & _).
      exists text, (gap ++ [c]). split_and!; [done|by apply brace_free_snoc|by rewrite app_assoc|done].
Qed.

Lemma laid_out_nil text : laid_out text [] → text = [].
Proof. intros H. inversion H as [|text' os gap o Hl Hg Hb Ht Ho]; [done|]. by destruct os. Qed.

(** [i] is a substring. *)
Definition infix (i s : string) : Prop := ∃ p q, s = p +:+ i +:+ q.

Lemma infix_trans i j s : infix i j → infix j s → infix i s.
Proof.
  intros (p & q & ->) (p' & q' & ->). exists (p' +:+ p), (q +:+ q').
  by rewrite !string_app_assoc.
Qed.
Lemma infix_bytes i s : (∃ p q, B s = p ++ B i ++ q) → infix i s.
Proof.
  intros (p & q & H). exists (S_ p), (S_ q). apply B_inj. by rewrite !B_app, !B_S_.
Qed.
Lemma infix_trim s : infix (trim_space s) s.
Proof. apply trim_space_infix. Qed.
Lemma infix_trim_prefix s p : infix (trim_prefix s p) s.
Proof.
  unfold trim_prefix. destruct (has_prefix s p); [|exists ""%string, ""%string; by rewrite string_app_nil_r].
  apply infix_bytes. exists (take (length (B p)) (B s)), []. rewrite B_S_, app_nil_r. symmetry. apply take_drop.
Qed.

Lemma cut_first_spec c l a b : cut_first c l = Some (a, b) → l = a ++ c :: b.
Proof.
  revert a b. induction l as [|x l IH]; intros a b; simpl; [done|].
  case_bool_decide as Hx; [intros [= <- <-]; by subst|].
  destruct (cut_first c l) as [[a' b']|]; [|done]. intros [= <- <-]. by rewrite (IH a' b').
Qed.

(** When the tolerant parser accepts a candidate, the answer without its
    fence is text without braces, then the candidate, which runs from a brace
    to a brace, then text without braces: there is no second object and the
    candidate is not a part of a larger one. *)
Theorem compatible_object_unique content o :
  compatibleJSONObject content = Some o →
  ∃ inner before after,
    infix inner content ∧
    B inner = before ++ B o ++ after ∧ brace_free before ∧ brace_free after ∧ braced (B o).
Proof.
  unfold compatibleJSONObject. set (trimmed := trim_space (trim_prefix (trim_space content) byte_order_mark)).
  assert (infix trimmed content) as Htrim.
  { eapply infix_trans; [apply infix_trim|]. eapply infix_trans; [apply infix_trim_prefix|]. apply infix_trim. }
  clearbody trimmed. unfold mbind, option_bind.
  match goal with |- match ?x with _ => _ end = _ → _ => destruct x as [inner|] eqn:Ei end; [|done].
  assert (infix inner content) as Hinner.
  { eapply infix_trans; [|exact Htrim]. destruct (_ && _) in Ei.
    - destruct (cut_first _ _) as [[first rest]|] eqn:Ec; [|done]. destruct (_ && _) in Ei; [done|].
      injection Ei as <-. eapply infix_trans; [apply infix_trim|]. apply infix_bytes.
      apply cut_first_spec in Ec. exists (first ++ ["010"%char]), (drop (length rest - 3) rest).
      rewrite B_S_, take_drop, Ec. by rewrite <-app_assoc.
    - injection Ei as ->. exists ""%string, ""%string. by rewrite string_app_nil_r. }
  intros H. exists inner. unfold topLevelJSONObjects in H.
  pose proof (scan_objects_spec (B inner) [] [] 0 false false []) as Hscan.
  destruct (scan_objects _ _ _ _ _ _) as [|ob [|]]; [done| |done]. injection H as <-.
  destruct Hscan as (text & gap & Hl & Hg & Hin); [|done|].
  { exists [], []. split_and!; [constructor|split; apply not_elem_of_nil|done..]. }
  inversion Hl as [|text' os gap' o' Hl' Hg' Ho Ht Hos]. destruct os as [|? os]; [|by destruct os].
  injection Hos as ->. apply laid_out_nil in Hl' as ->. exists gap', gap.
  rewrite B_S_. split_and!; [done| |done..]. simpl in Hin. rewrite Hin, <-Ht. simpl. by rewrite <-app_assoc.
Qed.
End reviewer_theorems.

(** ** Witnesses *)

#[local] Instance demo_url : UrlLib := {
  url_parse s := Some (Url.mk "https" "api.example" "api.example" "" false "/v1" "" "" "");
  url_string u := Url.Scheme u +:+ "://" +:+ Url.Host u +:+ Url.Path u;
}.
(** Two numbers are enough here. *)
#[local] Instance demo_float : FloatLib := {
  ParseFloat s := if (s =? "0.95")%string then Some f64_0_95 else if (s =? "1")%string then Some f64_one else None;
}.
#[local] Instance demo_float_laws : FloatLaws.
Proof. constructor. intros s x _. unfold ParseFloat, demo_float. repeat case_match; try done; by intros [= <-]. Qed.
(** The body is the content. *)
#[local] Instance demo_json : ResponseJSON := {
  response_choices b := Some [ContentString (S_ b)];
}.

Definition demo_verdict : string := tilde_text
  "```json
 {~Result~: ~PASS~, ~confidence~: ~0.95~, ~reason~: ~a {brace}~, ~category~: ~benign~, ~x~: [1,{}]}
```".
Definition demo_reviewer : OpenAIReviewer.t :=
  default (OpenAIReviewer.mk "" "" "" 0)
    (NewOpenAIReviewer (OpenAIReviewerConfig.mk "https://api.example/v1" " key " "" 0)).
Definition demo_input : AIReviewRequest.t :=
  AIReviewRequest.mk "instructions" "be helpful" false "gpt" "" "" "".
(** JSON schema is not supported, the plain object format is. *)
Definition demo_do (n : nat) (w : Wire.t) : http_outcome :=
  if (n =? 0)%nat then HttpResponse 400 (bytes_reader [])
  else HttpResponse 200 (bytes_reader (B demo_verdict)).

Example demo_reviewer_ex :
  OpenAIReviewer.endpoint demo_reviewer = "https://api.example/v1/chat/completions"%string ∧
  OpenAIReviewer.model demo_reviewer = defaultReviewModel ∧
  parseStrictAIVerdict demo_verdict = None.
Proof. vm_compute. auto. Qed.

Lemma review_requests_witness :
  length (review_trace demo_reviewer demo_do demo_input).2 = 2 ∧
  length (review_trace demo_reviewer demo_do demo_input).2 ≤ 3.
Proof.
  split; [vm_compute; reflexivity|].
  exact (proj1 (review_requests demo_reviewer demo_do demo_input _ _
                  (surjective_pairing (review_trace demo_reviewer demo_do demo_input)))).
Defined.

Definition demo_answer : AIVerdict.t :=
  AIVerdict.mk "pass" f64_0_95 "a {brace}" "benign" defaultReviewModel 1500.
Lemma Review_verdict_valid_witness :
  Review demo_reviewer demo_do (1500 * millisecond) demo_input = (demo_answer, None, 1500 * millisecond)%Z ∧
  f64_le (AIVerdict.Confidence demo_answer) f64_one = true.
Proof.
  assert (Review demo_reviewer demo_do (1500 * millisecond) demo_input =
          (demo_answer, None, 1500 * millisecond)%Z) as H by (vm_compute; reflexivity).
  split; [exact H|].
  exact (proj2 (proj1 (proj2 (proj2 (Review_verdict_valid demo_reviewer demo_do _ demo_input _ _ H))))).
Defined.

Lemma compatible_object_unique_witness :
  ∃ o, compatibleJSONObject demo_verdict = Some o ∧ braced (B o).
Proof.
  assert (∃ o, compatibleJSONObject demo_verdict = Some o) as [o Ho] by (eexists; vm_compute; reflexivity).
  exists o. split; [exact Ho|].
  destruct (compatible_object_unique demo_verdict o Ho) as (inner & before & after & _ & _ & _ & _ & Hb).
  exact Hb.
Defined.
