(* ===== verification/Db.v ===== *)
(** * The database of the store ([internal/storage/store.go], [migrate])

    The tables are records of finite maps with the unique keys of the schema;
    a statement is a function on the database that may fail.  Every statement
    the store executes first asks the oracle [io] whether it succeeds, so that
    a theorem about a run holds for every pattern of I/O errors.  Times are
    stored as text, in the format of [time.RFC3339Nano]. *)

From S2P Require Export AuditTypes Utf8.

(** ** [Format(time.RFC3339Nano)] of a UTC time *)

Fixpoint dec_digits (fuel : nat) (n : Z) (acc : bytes) : bytes :=
  match fuel with
  | O => acc
  | S fuel =>
      let acc := chr (Z.to_N (48 + n mod 10)) :: acc in
      if (n <? 10)%Z then acc else dec_digits fuel (n / 10) acc
  end.
Definition pad (width : nat) (n : Z) : bytes :=
  let d := dec_digits 20 n [] in replicate (width - length d) "0"%char ++ d.

(** The proleptic Gregorian date of a number of days since 0001-01-01. *)
Definition civil (days : Z) : Z * Z * Z :=
  let z := (days + 306)%Z in
  let era := (z / 146097)%Z in
  let doe := (z mod 146097)%Z in
  let yoe := ((doe - doe / 1460 + doe / 36524 - doe / 146096) / 365)%Z in
  let doy := (doe - (365 * yoe + yoe / 4 - yoe / 100))%Z in
  let mp := ((5 * doy + 2) / 153)%Z in
  let d := (doy - (153 * mp + 2) / 5 + 1)%Z in
  let m := (if mp <? 10 then mp + 3 else mp - 9)%Z in
  ((yoe + era * 400 + (if m <=? 2 then 1 else 0))%Z, m, d).

Fixpoint drop_zeros (l : bytes) : bytes :=
  match l with c :: l' => if bool_decide (c = "0"%char) then drop_zeros l' else l | [] => [] end.

(** Trailing zeros of the fraction are left out, and the dot with them. *)
Definition fraction (ns : Z) : bytes :=
  let d := rev (drop_zeros (rev (pad 9 ns))) in
  match d with [] => [] | _ => "."%char :: d end.

Definition format_time (t : Time) : string :=
  let ns := (t mod second)%Z in
  let secs := (t / second)%Z in
  let sod := (secs mod 86400)%Z in
  let '(y, m, d) := civil (secs / 86400)%Z in
  S_ (pad 4 y ++ "-"%char :: pad 2 m ++ "-"%char :: pad 2 d ++ "T"%char ::
      pad 2 (sod / 3600) ++ ":"%char :: pad 2 (sod / 60 mod 60) ++ ":"%char :: pad 2 (sod mod 60) ++
      fraction ns ++ ["Z"%char]).

(** Seconds since year one of 2024-02-29T12:30:05Z. *)
Example format_time_ex :
  format_time (63844806605 * second) = "2024-02-29T12:30:05Z"%string ∧
  format_time (63844806605 * second + 120000000) = "2024-02-29T12:30:05.12Z"%string.
Proof. vm_compute. auto. Qed.

(** SQLite compares text bytewise. *)
Fixpoint text_lt_b (l k : bytes) : bool :=
  match l, k with
  | _, [] => false
  | [], _ :: _ => true
  | x :: l, y :: k => (code x <? code y)%N || (bool_decide (x = y) && text_lt_b l k)
  end.
Definition text_lt (s t : string) : bool := text_lt_b (B s) (B t).
Definition text_le (s t : string) : bool := negb (text_lt t s).

(** ** Rows *)

Module HashEntry.
Record t : Type := mk {
  ID : Z;
  SHA256 : string;
  Label : string;
  Content : string;
  Source : string;
  APIKeyFingerprint : string;
  APIKeyHint : string;
  APIKeySeenAt : string;
  Enabled : bool;
  CreatedAt : string;
}.
(** Computed for the API. *)
Definition ContentAvailable (e : t) : bool := negb (Content e =? "")%string.
End HashEntry.

Module ReviewJob.
Record t : Type := mk {
  ID : Z;
  JobKey : string;
  SHA256 : string;
  FieldName : string;
  Model : string;
  APIKeyFingerprint : string;
  APIKeyHint : string;
  Sampled : bool;
  Status : string;
  Promotion : string;
  Attempts : Z;
  NextAttemptAt : string;
  LastError : string;
  SampleCiphertext : bytes;
  ContentCiphertext : bytes;
  CreatedAt : string;
  UpdatedAt : string;
  CompletedAt : string;
}.
Definition set_status (j : t) (status : string) (attempts : Z) (next err updated completed : string) : t :=
  mk (ID j) (JobKey j) (SHA256 j) (FieldName j) (Model j) (APIKeyFingerprint j) (APIKeyHint j)
     (Sampled j) status (Promotion j) attempts next err (SampleCiphertext j)
     (ContentCiphertext j) (CreatedAt j) updated completed.
Definition set_promotion (j : t) (status promotion completed : string) : t :=
  mk (ID j) (JobKey j) (SHA256 j) (FieldName j) (Model j) (APIKeyFingerprint j) (APIKeyHint j)
     (Sampled j) status promotion (Attempts j) (NextAttemptAt j) (LastError j)
     (SampleCiphertext j) (ContentCiphertext j) (CreatedAt j) (UpdatedAt j) completed.
Definition set_payload (j : t) (sample content : bytes) (fingerprint hint updated : string) : t :=
  mk (ID j) (JobKey j) (SHA256 j) (FieldName j) (Model j) fingerprint hint
     (Sampled j) (Status j) (Promotion j) (Attempts j) (NextAttemptAt j) (LastError j)
     sample content (CreatedAt j) updated (CompletedAt j).
End ReviewJob.

Module ReviewVote.
Record t : Type := mk {
  JobID : Z;
  NodeSlot : string;
  Result : string;
  Confidence : float64;
  Reason : string;
  Category : string;
  LatencyMS : Z;
  Error : string;
  CreatedAt : string;
}.
End ReviewVote.

Module RulePromotion.
Record t : Type := mk {
  JobID : Z; SHA256 : string; Kind : string; VoteSummary : string; CreatedAt : string;
}.
End RulePromotion.

(** A row of [audit_events]. *)
Module EventRow.
Record t : Type := mk {
  RequestID : string;
  Method : string;
  Path : string;
  Protocol : string;
  Model : string;
  UserAgent : string;
  ProfileKey : string;
  APIKeyFingerprint : string;
  APIKeyHint : string;
  Decision : string;
  Action : string;
  Outcome : string;
  Reason : string;
  FieldName : string;
  SHA256 : string;
  PromptBytes : Z;
  PromptRunes : Z;
  AISampled : bool;
  AIResult : string;
  AIConfidence : float64;
  AIReason : string;
  AICategory : string;
  LatencyMS : Z;
  AuditLatencyMS : Z;
  AILatencyMS : Z;
  UpstreamAccessed : bool;
  CreatedAt : string;
}.
End EventRow.

Module EvidenceRow.
Record t : Type := mk {
  EventID : Z; FieldName : string; Content : string; Partial : bool;
  ExpiresAt : string; CreatedAt : string;
}.
End EvidenceRow.

(** [type Config struct]: the JSON column [settings.value] is represented by
    the value it encodes. *)
Module Config.
Record t : Type := mk {
  Version : Z;
  Enabled : bool;
  Mode : string;
  UpstreamURL : string;
  ProtectedPaths : list string;
  AdminFrameAncestors : list string;
  RequestTimeoutMS : Z;
  MaxBodyBytes : Z;
  EventRetentionDays : Z;
}.
Definition set_version (c : t) (v : Z) : t :=
  mk v (Enabled c) (Mode c) (UpstreamURL c) (ProtectedPaths c) (AdminFrameAncestors c)
     (RequestTimeoutMS c) (MaxBodyBytes c) (EventRetentionDays c).
Definition set_upstream (c : t) (u : string) : t :=
  mk (Version c) (Enabled c) (Mode c) u (ProtectedPaths c) (AdminFrameAncestors c)
     (RequestTimeoutMS c) (MaxBodyBytes c) (EventRetentionDays c).
Definition set_ancestors (c : t) (l : list string) : t :=
  mk (Version c) (Enabled c) (Mode c) (UpstreamURL c) (ProtectedPaths c) l
     (RequestTimeoutMS c) (MaxBodyBytes c) (EventRetentionDays c).
End Config.

Module SettingRow.
Record t : Type := mk { Value : Config.t; Version : Z; UpdatedAt : string }.
End SettingRow.

(** [storage.ClientProfile] and its [ClientMatcher]s (type, value, case). *)
Module ProfileRow.
Record t : Type := mk {
  ID : Z;
  Name : string;
  Description : string;
  Enabled : bool;
  Priority : Z;
  Matchers : list (string * string * bool);
  CreatedAt : string;
  UpdatedAt : string;
}.
End ProfileRow.

(** A row of [ai_endpoints] or [ai_nodes]; the key is the stored blob. *)
Module AIEndpointRow.
Record t : Type := mk {
  BaseURL : string; Model : string; api_key : bytes; TimeoutMS : Z; MaxConcurrency : Z;
}.
End AIEndpointRow.
Module AINodeRow.
Record t : Type := mk {
  ID : Z; Name : string; BaseURL : string; Model : string; api_key : bytes; TimeoutMS : Z;
  Enabled : bool;
}.
End AINodeRow.

Module SessionRow.
Record t : Type := mk { Username : string; Csrf : string; ExpiresAt : string; CreatedAt : string }.
End SessionRow.

(** ** Tables *)

(** The tables of the administration. *)
Record conf_db : Type := mk_conf {
  settings : option SettingRow.t;                     (** key [guard_config] *)
  client_profiles : gmap Z ProfileRow.t;              (** by id *)
  ai_endpoints : option AIEndpointRow.t;              (** id 1 *)
  ai_nodes : gmap string AINodeRow.t;                 (** by slot *)
  admin_users : gmap string string;                   (** password_hash by username *)
  admin_sessions : gmap string SessionRow.t;          (** by token_hash *)
  schema_migrations : gmap Z string;                  (** applied_at by version *)
}.

(** Identifiers are fresh and increasing, as [AUTOINCREMENT] makes them; one
    counter serves all tables. *)
Record db : Type := mk_db {
  trusted_hashes : gmap string HashEntry.t;           (** by sha256 *)
  risk_hashes : gmap string HashEntry.t;
  review_jobs : gmap Z ReviewJob.t;                   (** by id *)
  review_votes : gmap (Z * string) ReviewVote.t;      (** by (job_id, node_slot) *)
  rule_promotions : gmap (Z * string) RulePromotion.t; (** by (job_id, kind) *)
  audit_events : gmap Z EventRow.t;                   (** by id *)
  blocked_evidence : gmap Z EvidenceRow.t;            (** by id *)
  next_id : Z;                                        (** above every id in use *)
  conf : conf_db;
}.

Definition empty_db : db := mk_db ∅ ∅ ∅ ∅ ∅ ∅ ∅ 1 (mk_conf None ∅ None ∅ ∅ ∅ ∅).

Definition set_trusted (d : db) m := mk_db m (risk_hashes d) (review_jobs d) (review_votes d)
  (rule_promotions d) (audit_events d) (blocked_evidence d) (next_id d) (conf d).
Definition set_risk (d : db) m := mk_db (trusted_hashes d) m (review_jobs d) (review_votes d)
  (rule_promotions d) (audit_events d) (blocked_evidence d) (next_id d) (conf d).
Definition set_jobs (d : db) m := mk_db (trusted_hashes d) (risk_hashes d) m (review_votes d)
  (rule_promotions d) (audit_events d) (blocked_evidence d) (next_id d) (conf d).
Definition set_votes (d : db) m := mk_db (trusted_hashes d) (risk_hashes d) (review_jobs d) m
  (rule_promotions d) (audit_events d) (blocked_evidence d) (next_id d) (conf d).
Definition set_promotions (d : db) m := mk_db (trusted_hashes d) (risk_hashes d) (review_jobs d)
  (review_votes d) m (audit_events d) (blocked_evidence d) (next_id d) (conf d).
Definition set_events (d : db) m := mk_db (trusted_hashes d) (risk_hashes d) (review_jobs d)
  (review_votes d) (rule_promotions d) m (blocked_evidence d) (next_id d) (conf d).
Definition set_evidence (d : db) m := mk_db (trusted_hashes d) (risk_hashes d) (review_jobs d)
  (review_votes d) (rule_promotions d) (audit_events d) m (next_id d) (conf d).
Definition take_id (d : db) : Z * db :=
  (next_id d, mk_db (trusted_hashes d) (risk_hashes d) (review_jobs d) (review_votes d)
                (rule_promotions d) (audit_events d) (blocked_evidence d) (next_id d + 1) (conf d)).

Definition set_conf (d : db) (k : conf_db) := mk_db (trusted_hashes d) (risk_hashes d) (review_jobs d)
  (review_votes d) (rule_promotions d) (audit_events d) (blocked_evidence d) (next_id d) k.

Definition set_settings (d : db) v := let k := conf d in
  set_conf d (mk_conf v (client_profiles k) (ai_endpoints k) (ai_nodes k) (admin_users k)
                (admin_sessions k) (schema_migrations k)).
Definition set_profiles (d : db) v := let k := conf d in
  set_conf d (mk_conf (settings k) v (ai_endpoints k) (ai_nodes k) (admin_users k)
                (admin_sessions k) (schema_migrations k)).
Definition set_endpoints (d : db) v := let k := conf d in
  set_conf d (mk_conf (settings k) (client_profiles k) v (ai_nodes k) (admin_users k)
                (admin_sessions k) (schema_migrations k)).
Definition set_nodes (d : db) v := let k := conf d in
  set_conf d (mk_conf (settings k) (client_profiles k) (ai_endpoints k) v (admin_users k)
                (admin_sessions k) (schema_migrations k)).
Definition set_users (d : db) v := let k := conf d in
  set_conf d (mk_conf (settings k) (client_profiles k) (ai_endpoints k) (ai_nodes k) v
                (admin_sessions k) (schema_migrations k)).
Definition set_sessions (d : db) v := let k := conf d in
  set_conf d (mk_conf (settings k) (client_profiles k) (ai_endpoints k) (ai_nodes k)
                (admin_users k) v (schema_migrations k)).
Definition set_migrations (d : db) v := let k := conf d in
  set_conf d (mk_conf (settings k) (client_profiles k) (ai_endpoints k) (ai_nodes k)
                (admin_users k) (admin_sessions k) v).

(** The table of a kind; the callers have checked the kind. *)
Definition table (kind : string) (d : db) : gmap string HashEntry.t :=
  if (kind =? "risk")%string then risk_hashes d else trusted_hashes d.
Definition set_table (kind : string) (d : db) (m : gmap string HashEntry.t) : db :=
  if (kind =? "risk")%string then set_risk d m else set_trusted d m.

(** ** Statements and transactions *)

Inductive store_err : Type :=
| ErrInvalid (what : string)      (** an argument the store refuses *)
| ErrNoRows                       (** [sql.ErrNoRows] *)
| ErrVersionConflict (v : Z)      (** the configuration has changed *)
| ErrConstraint                   (** a foreign key that does not resolve *)
| ErrDecrypt
| ErrIO.                          (** the database failed *)

#[export] Instance store_err_eq_dec : EqDecision store_err.
Proof. solve_decision. Defined.

(** A connection: the database and the number of statements executed. *)
Record conn : Type := mk_conn { tables : db; statements : nat }.

Definition Store (A : Type) : Type := conn → result store_err A * conn.
#[export] Instance Store_ret : MRet Store := λ A a c, (Ok a, c).
#[export] Instance Store_bind : MBind Store := λ A B f m c,
  match m c with (Ok a, c) => f a c | (Err e, c) => (Err e, c) end.

Definition store_fail {A} (e : store_err) : Store A := λ c, (Err e, c).
Definition guard_ok (b : bool) (what : string) : Store unit :=
  if b then mret () else store_fail (ErrInvalid what).

(** A call whose error is looked at, not returned. *)
Definition attempt {A} (m : Store A) : Store (result store_err A) := λ c,
  let '(r, c) := m c in (Ok r, c).

Section store.
Context (io : nat → bool).

(** One statement: [f] reads and changes the tables. *)
Definition exec {A} (f : db → result store_err (A * db)) : Store A := λ c,
  let c' := mk_conn (tables c) (S (statements c)) in
  if io (statements c) then
    match f (tables c) with
    | Ok (a, d) => (Ok a, mk_conn d (S (statements c)))
    | Err e => (Err e, c')
    end
  else (Err ErrIO, c').

Definition query {A} (f : db → A) : Store A := exec (λ d, Ok (f d, d)).

(** [BeginTx] ... [Commit], with the deferred rollback: [begin] and
    [commit] are statements that may fail, too. *)
Definition transaction {A} (body : Store A) : Store A := λ c,
  match (query (λ _, ());; a ← body; query (λ _, ());; mret a) c with
  | (Ok a, c') => (Ok a, c')
  | (Err e, c') => (Err e, mk_conn (tables c) (statements c'))
  end.

(** A transaction that fails leaves the tables as they were. *)
Lemma transaction_atomic {A} (body : Store A) c e c' :
  transaction body c = (Err e, c') → tables c' = tables c.
Proof. 
  unfold transaction. match goal with |- match ?x with _ => _ end = _ → _ => destruct x as [[a|e'] c1] end;
    [done|]. by intros [= _ <-]. Qed.

(** Inversion of a run that succeeded. *)
Lemma bind_inv {A B} (m : Store A) (f : A → Store B) c b c' :
  (m ≫= f) c = (Ok b, c') → ∃ a c1, m c = (Ok a, c1) ∧ f a c1 = (Ok b, c').
Proof.
  unfold mbind, Store_bind. destruct (m c) as [[a|e] c1]; [|done]. intros H. by exists a, c1.
Qed.

Lemma exec_inv {A} (f : db → result store_err (A * db)) c a c' :
  exec f c = (Ok a, c') → f (tables c) = Ok (a, tables c').
Proof.
  unfold exec. destruct (io _); [|done]. destruct (f (tables c)) as [[b d]|]; [|done].
  by intros [= <- <-].
Qed.

Lemma query_inv {A} (f : db → A) c a c' :
  query f c = (Ok a, c') → a = f (tables c) ∧ tables c' = tables c.
Proof. intros H. apply exec_inv in H. by simplify_eq/=. Qed.

Lemma transaction_inv {A} (body : Store A) c a c' :
  transaction body c = (Ok a, c') →
  ∃ c0 c1, tables c0 = tables c ∧ body c0 = (Ok a, c1) ∧ tables c' = tables c1.
Proof.
  unfold transaction.
  match goal with |- match ?x with _ => _ end = _ → _ => destruct x as [[b|e] c2] eqn:E end; [|done].
  intros [= -> <-]. apply bind_inv in E as (? & c0 & [_ H0]%query_inv & E).
  apply bind_inv in E as (b & c1 & Hb & E). apply bind_inv in E as (? & c3 & [_ H3]%query_inv & E).
  injection E as -> <-. exists c0, c1. by rewrite H3.
Qed.
End store.

Lemma guard_inv b what c a c' : guard_ok b what c = (Ok a, c') → b = true ∧ c' = c.
Proof. unfold guard_ok. destruct b; [|done]. by intros [= _ <-]. Qed.

(** A run from its result. *)
Lemma run_eq {A B} (x : A * B) a : x.1 = a → x = (a, x.2).
Proof. destruct x. by intros <-. Qed.
