(* ===== verification/TimeText.v ===== *)
(** * Times as text

    The store keeps every time as the text of [time.RFC3339Nano] and compares
    the text in SQL.  This file models [time.Parse] of that layout (UTC, as
    [format_time] writes it) and shows that parsing inverts formatting, and how
    far the order of the texts is the order of the times. *)

From S2P Require Export Db.

(** ** Digits *)

Definition digit_value (c : ascii) : option Z :=
  let n := code c in if (48 <=? n)%N && (n <=? 57)%N then Some (Z.of_N (n - 48)) else None.
Fixpoint digits_from (acc : Z) (l : bytes) : option Z :=
  match l with
  | [] => Some acc
  | c :: l => match digit_value c with Some v => digits_from (10 * acc + v) l | None => None end
  end.
Definition digits (l : bytes) : option Z := digits_from 0 l.

(** ** Calendar *)

(** The day number of a date, the inverse of [civil]. *)
Definition days_of_civil (y m d : Z) : Z :=
  let y := (if m <=? 2 then y - 1 else y)%Z in
  let mp := ((m + 9) mod 12)%Z in
  let doy := ((153 * mp + 2) / 5 + d - 1)%Z in
  let yoe := (y mod 400)%Z in
  (y / 400 * 146097 + yoe * 365 + yoe / 4 - yoe / 100 + doy - 306)%Z.

Definition leap (y : Z) : bool :=
  ((y mod 4 =? 0) && (negb (y mod 100 =? 0) || (y mod 400 =? 0)))%Z.
Definition days_in (y m : Z) : Z :=
  if (m =? 2)%Z then if leap y then 29 else 28
  else if (m =? 4)%Z || (m =? 6)%Z || (m =? 9)%Z || (m =? 11)%Z then 30 else 31.

(** ** [time.Parse(time.RFC3339Nano, s)] of a text in UTC *)

(** Nine digits of the fraction count, the others are checked. *)
Definition nanoseconds (l : bytes) : option Z :=
  match l with
  | [] => None
  | _ => match digits l with
         | Some _ => digits (take 9 (l ++ replicate 9 "0"%char))
         | None => None
         end
  end.
Definition parse_tail (rest : bytes) : option Z :=
  match rest with
  | [z] => if bool_decide (z = "Z"%char) then Some 0%Z else None
  | dot :: _ =>
      match rev rest with
      | z :: frac =>
          if bool_decide (dot = "."%char) && bool_decide (z = "Z"%char)
          then nanoseconds (tail (rev frac)) else None
      | [] => None
      end
  | [] => None
  end.

Definition civil_ok (y m d h mi s : Z) : bool :=
  ((1 <=? m) && (m <=? 12) && (1 <=? d) && (d <=? days_in y m) &&
   (h <? 24) && (mi <? 60) && (s <? 60))%Z.

Definition parse_bytes (l : bytes) : option Time :=
  match digits (take 4 l), digits (take 2 (drop 5 l)), digits (take 2 (drop 8 l)),
        digits (take 2 (drop 11 l)), digits (take 2 (drop 14 l)), digits (take 2 (drop 17 l)),
        parse_tail (drop 19 l) with
  | Some y, Some m, Some d, Some h, Some mi, Some s, Some ns =>
      if bool_decide (l !! 4 = Some "-"%char) && bool_decide (l !! 7 = Some "-"%char) &&
         bool_decide (l !! 10 = Some "T"%char) && bool_decide (l !! 13 = Some ":"%char) &&
         bool_decide (l !! 16 = Some ":"%char) && civil_ok y m d h mi s
      then Some ((days_of_civil y m d * 86400 + h * 3600 + mi * 60 + s) * second + ns)%Z
      else None
  | _, _, _, _, _, _, _ => None
  end.
Definition parse_time (s : string) : option Time := parse_bytes (B s).

Example parse_time_ex :
  parse_time "2024-02-29T12:30:05.12Z" = Some (63844806605 * second + 120000000)%Z ∧
  parse_time "2023-02-29T12:30:05Z" = None ∧ parse_time "2024-02-29T12:30:05.Z" = None.
Proof. vm_compute. auto. Qed.

(** The times from year 1 to year 9999. *)
Definition in_range_time (t : Time) : Prop := (0 ≤ t < 3652059 * 86400 * second)%Z.

(** ** Fixed-width numbers *)

#[local] Ltac Zify.zify_post_hook ::= Z.to_euclidean_division_equations.

(** The [w] low decimal digits of [n]. *)
Fixpoint fixed (w : nat) (n : Z) (acc : bytes) : bytes :=
  match w with
  | O => acc
  | S w => fixed w (n / 10) (chr (Z.to_N (48 + n mod 10)) :: acc)
  end.

Lemma length_fixed w n acc : length (fixed w n acc) = w + length acc.
Proof. revert n acc. induction w as [|w IH]; intros n acc; simpl; [done|]. rewrite IH. simpl. lia. Qed.

Lemma fixed_zero w acc : fixed w 0 acc = replicate w "0"%char ++ acc.
Proof.
  revert acc. induction w as [|w IH]; intros acc; [done|].
  change (fixed (S w) 0 acc) with (fixed w 0 ("0"%char :: acc)).
  rewrite IH. by rewrite cons_middle, app_assoc, <-replicate_cons_app.
Qed.

Lemma dec_digits_fixed fuel w n acc :
  (0 ≤ n < 10 ^ Z.of_nat w)%Z → w ≤ fuel → 0 < w →
  replicate (w + length acc - length (dec_digits fuel n acc)) "0"%char ++ dec_digits fuel n acc =
  fixed w n acc.
Proof.
  revert w n acc. induction fuel as [|fuel IH]; intros w n acc Hn Hw H0; [lia|].
  destruct w as [|w]; [lia|]. cbn [dec_digits fixed]. destruct (Z.ltb_spec n 10).
  - rewrite (Z.div_small n 10) by lia. rewrite fixed_zero. f_equal. f_equal. simpl. lia.
  - rewrite Nat2Z.inj_succ, Z.pow_succ_r in Hn by lia.
    assert (w ≠ 0) by (intros ->; simpl in Hn; lia).
    rewrite <-(IH w (n / 10)%Z (chr (Z.to_N (48 + n mod 10)) :: acc)) by lia.
    f_equal. f_equal. simpl. lia.
Qed.

Lemma pad_fixed w n : (0 ≤ n < 10 ^ Z.of_nat w)%Z → 0 < w ≤ 20 → pad w n = fixed w n [].
Proof.
  intros Hn Hw. unfold pad. rewrite <-(dec_digits_fixed 20 w n []) by lia.
  by rewrite Nat.add_0_r.
Qed.

Lemma digit_value_chr n : (0 ≤ n < 10)%Z → digit_value (chr (Z.to_N (48 + n))) = Some n.
Proof.
  intros H. unfold digit_value. rewrite code_chr by lia.
  rewrite (proj2 (N.leb_le _ _)), (proj2 (N.leb_le _ _)) by lia. simpl. f_equal. lia.
Qed.

Lemma digits_fixed w n acc v :
  (0 ≤ n)%Z → digits_from v (fixed w n acc) =
  digits_from (10 ^ Z.of_nat w * v + n mod 10 ^ Z.of_nat w) acc.
Proof.
  revert n acc. induction w as [|w IH]; intros n acc Hn.
  - cbn [fixed]. f_equal. change (10 ^ Z.of_nat 0)%Z with 1%Z. rewrite Z.mod_1_r. lia.
  - cbn [fixed]. rewrite IH by lia. cbn [digits_from]. rewrite digit_value_chr by lia. f_equal.
    rewrite Nat2Z.inj_succ, Z.pow_succ_r by lia.
    rewrite (Z.rem_mul_r n 10 (10 ^ Z.of_nat w)) by lia. lia.
Qed.

Lemma digits_pad w n : (0 ≤ n < 10 ^ Z.of_nat w)%Z → 0 < w ≤ 20 → digits (pad w n) = Some n.
Proof.
  intros Hn Hw. rewrite pad_fixed by done. unfold digits. rewrite digits_fixed by lia.
  cbn [digits_from]. f_equal. rewrite Z.mod_small by lia. lia.
Qed.

Lemma length_pad w n : (0 ≤ n < 10 ^ Z.of_nat w)%Z → 0 < w ≤ 20 → length (pad w n) = w.
Proof. intros Hn Hw. rewrite pad_fixed, length_fixed by done. simpl. lia. Qed.

(** ** The calendar *)

(** The first day of a year that starts in March. *)
Definition year_start (y : Z) : Z := (365 * y + y / 4 - y / 100 + y / 400 - 306)%Z.
Definition month_start (mp : Z) : Z := ((153 * mp + 2) / 5)%Z.

Lemma year_start_mono y y' : (y < y')%Z → (year_start (y + 1) ≤ year_start y')%Z.
Proof. unfold year_start. lia. Qed.

Lemma month_start_mono mp mp' : (mp < mp')%Z → (month_start (mp + 1) ≤ month_start mp')%Z.
Proof. unfold month_start. lia. Qed.

Lemma civil_spec days y m d :
  civil days = (y, m, d) →
  ∃ Y mp, (days = year_start Y + month_start mp + d - 1 ∧ 0 ≤ mp < 12 ∧ 1 ≤ d ∧
  days < year_start (Y + 1) ∧ month_start mp + d - 1 < month_start (mp + 1) ∧
  y = (if m <=? 2 then Y + 1 else Y) ∧ m = (if mp <? 10 then mp + 3 else mp - 9))%Z.
Proof.
  unfold civil. set (z := (days + 306)%Z). set (era := (z / 146097)%Z).
  set (doe := (z mod 146097)%Z).
  set (yoe := ((doe - doe / 1460 + doe / 36524 - doe / 146096) / 365)%Z).
  set (doy := (doe - (365 * yoe + yoe / 4 - yoe / 100))%Z).
  set (mp := ((5 * doy + 2) / 153)%Z). intros [= <- <- <-].
  assert (0 ≤ doe < 146097)%Z as Hdoe by lia.
  assert (0 ≤ yoe < 400)%Z as Hyoe by (subst yoe; lia).
  assert (0 ≤ doy)%Z as Hdoy0 by (subst doy yoe; lia).
  assert (doe < 365 * (yoe + 1) + (yoe + 1) / 4 - (yoe + 1) / 100 + (yoe + 1) / 400)%Z as Hdoe1
    by (subst yoe; lia).
  assert (days = era * 146097 + doe - 306)%Z as Hdays by (subst era doe z; lia).
  clearbody yoe. clearbody doe era. clear z. rewrite Hdays. clear Hdays days. exists (yoe + era * 400)%Z, mp. unfold year_start, month_start.
  assert (doy ≤ 365)%Z as Hdoy1 by (subst doy; lia).
  assert (doe = doy + (365 * yoe + yoe / 4 - yoe / 100))%Z as Hdoe2 by (subst doy; lia).
  subst mp. clearbody doy. subst doe. repeat split; try lia.
  destruct (_ <=? 2)%Z; lia.
Qed.

Lemma days_of_civil_spec Y mp y m d :
  (0 ≤ mp < 12 → y = (if m <=? 2 then Y + 1 else Y) → m = (if mp <? 10 then mp + 3 else mp - 9) →
   days_of_civil y m d = year_start Y + month_start mp + d - 1)%Z.
Proof.
  intros Hmp -> ->. unfold days_of_civil, year_start, month_start.
  destruct (Z.ltb_spec mp 10);
    [rewrite (proj2 (Z.leb_gt _ 2)) by lia|rewrite (proj2 (Z.leb_le _ 2)) by lia].
  - replace ((mp + 3 + 9) mod 12)%Z with mp by lia. lia.
  - replace ((mp - 9 + 9) mod 12)%Z with mp by lia. lia.
Qed.

Lemma days_of_civil_civil days y m d : civil days = (y, m, d) → days_of_civil y m d = days.
Proof.
  intros (Y & mp & -> & Hmp & _ & _ & _ & Hy & Hm)%civil_spec. by apply days_of_civil_spec.
Qed.

Lemma civil_lt days days' y m d y' m' d' :
  (days < days')%Z → civil days = (y, m, d) → civil days' = (y', m', d') →
  (y < y' ∨ y = y' ∧ (m < m' ∨ m = m' ∧ d < d'))%Z.
Proof.
  intros Hlt (Y & mp & -> & Hmp & Hd & HY & HM & -> & ->)%civil_spec
    (Y' & mp' & -> & Hmp' & Hd' & HY' & HM' & -> & ->)%civil_spec.
  assert (Y < Y' ∨ Y = Y' ∧ (mp < mp' ∨ mp = mp' ∧ d < d'))%Z as Hcase.
  { destruct (Z.lt_trichotomy Y Y') as [|[->|HYY]]; [by left| |].
    - destruct (Z.lt_trichotomy mp mp') as [|[->|HMM]]; [lia|lia|].
      apply month_start_mono in HMM. lia.
    - apply year_start_mono in HYY.
      assert (0 ≤ month_start mp)%Z by (unfold month_start; lia). lia. }
  clear -Hcase Hmp Hmp'.
  destruct (Z.ltb_spec mp 10), (Z.ltb_spec mp' 10);
    repeat first [rewrite (proj2 (Z.leb_gt _ 2)) by lia|rewrite (proj2 (Z.leb_le _ 2)) by lia]; lia.
Qed.

Lemma leap_spec y :
  (year_start y - year_start (y - 1) = if leap y then 366 else 365)%Z.
Proof.
  unfold leap, year_start.
  destruct (Z.eqb_spec (y mod 4) 0), (Z.eqb_spec (y mod 100) 0), (Z.eqb_spec (y mod 400) 0);
    cbn [negb andb orb]; lia.
Qed.

Lemma civil_bounds days y m d :
  (0 ≤ days < 3652059)%Z → civil days = (y, m, d) →
  (1 ≤ y ≤ 9999 ∧ 1 ≤ m ≤ 12 ∧ 1 ≤ d ≤ days_in y m)%Z.
Proof.
  intros Hdays (Y & mp & -> & Hmp & Hd & HY & HM & -> & ->)%civil_spec.
  pose proof (leap_spec (Y + 1)) as Hleap. rewrite Z.add_simpl_r in Hleap.
  assert (Y ≤ 9999)%Z by (unfold year_start, month_start in *; lia).
  assert (0 ≤ Y)%Z by (unfold year_start in *; lia).
  assert (mp = 0 ∨ mp = 1 ∨ mp = 2 ∨ mp = 3 ∨ mp = 4 ∨ mp = 5 ∨ mp = 6 ∨ mp = 7 ∨ mp = 8 ∨ mp = 9 ∨
          mp = 10 ∨ mp = 11)%Z as Hcase by lia.
  destruct_or! Hcase; subst mp; unfold month_start in *; simpl in *; unfold days_in; simpl;
    try (destruct (leap (Y + 1))); unfold year_start in *; lia.
Qed.

(** ** The fraction *)

Lemma drop_zeros_replicate l : ∃ k, l = replicate k "0"%char ++ drop_zeros l.
Proof.
  induction l as [|c l [k IH]]; [by exists 0|]. simpl. case_bool_decide as Hc; [|by exists 0].
  exists (S k). simpl. by rewrite Hc, <-IH.
Qed.

Definition fraction_digits (ns : Z) : bytes := rev (drop_zeros (rev (pad 9 ns))).

Lemma pad_fraction ns : ∃ k, pad 9 ns = fraction_digits ns ++ replicate k "0"%char.
Proof.
  unfold fraction_digits. destruct (drop_zeros_replicate (rev (pad 9 ns))) as [k Hk].
  exists k. rewrite <-(rev_involutive (pad 9 ns)) at 1. rewrite Hk at 1. rewrite rev_app_distr.
  f_equal. rewrite rev_alt. apply (reverse_replicate k).
Qed.

Lemma digits_from_app l k v :
  digits_from v (l ++ k) = w ← digits_from v l; digits_from w k.
Proof.
  revert v. induction l as [|c l IH]; intros v; [done|]. simpl.
  destruct (digit_value c); [apply IH|done].
Qed.

Lemma nanoseconds_fraction ns :
  (0 ≤ ns < second)%Z → fraction_digits ns ≠ [] → nanoseconds (fraction_digits ns) = Some ns.
Proof.
  intros Hns Hne. destruct (pad_fraction ns) as [k Hk].
  assert (digits (pad 9 ns) = Some ns) as Hd by (apply digits_pad; unfold second in *; lia).
  assert (length (pad 9 ns) = 9) as Hl by (apply length_pad; unfold second in *; lia).
  destruct (digits (fraction_digits ns)) as [w|] eqn:Hw.
  - unfold nanoseconds. rewrite Hw. destruct (fraction_digits ns) as [|c l] eqn:Hf; [done|].
    rewrite Hk in Hl. rewrite length_app, length_replicate in Hl.
    replace 9 with (k + (9 - k)) at 2 by lia. rewrite replicate_add, app_assoc, <-Hk.
    rewrite take_app_length'; [done|]. rewrite Hk, length_app, length_replicate. lia.
  - rewrite Hk in Hd. unfold digits in *. by rewrite digits_from_app, Hw in Hd.
Qed.

Lemma parse_tail_fraction ns :
  (0 ≤ ns < second)%Z → parse_tail (fraction ns ++ ["Z"%char]) = Some ns.
Proof.
  intros Hns. unfold fraction. fold (fraction_digits ns).
  destruct (fraction_digits ns) as [|c l] eqn:Hf.
  - destruct (pad_fraction ns) as [k Hk]. rewrite Hf in Hk.
    assert (digits (pad 9 ns) = Some ns) as Hd by (apply digits_pad; unfold second in *; lia).
    rewrite Hk in Hd. simpl in Hd. rewrite <-(app_nil_r (replicate k _)), <-(fixed_zero k []) in Hd.
    unfold digits in Hd. rewrite digits_fixed in Hd by lia. simpl in Hd. simpl. rewrite <-Hd. f_equal.
    rewrite Z.mod_0_l by lia. lia.
  - rewrite <-nanoseconds_fraction by (rewrite ?Hf; done). rewrite Hf.
    unfold parse_tail. change (("." :: c :: l) ++ ["Z"])%char with ("." :: (c :: l) ++ ["Z"])%char.
    destruct ((c :: l) ++ ["Z"%char]) as [|x y] eqn:Hxy; [by destruct l|]. rewrite <-Hxy.
    change ("." :: (c :: l) ++ ["Z"])%char with (("." :: c :: l) ++ ["Z"])%char.
    rewrite rev_unit, rev_involutive. done.
Qed.

(** ** Parsing inverts formatting *)

Lemma pad_2 n : (0 ≤ n < 100)%Z → ∃ a b, pad 2 n = [a; b] ∧ digits [a; b] = Some n.
Proof.
  intros H. pose proof (length_pad 2 n ltac:(lia) ltac:(lia)) as Hl.
  pose proof (digits_pad 2 n ltac:(lia) ltac:(lia)) as Hd.
  destruct (pad 2 n) as [|a [|b [|]]]; try done. by exists a, b.
Qed.
Lemma pad_4 n : (0 ≤ n < 10000)%Z → ∃ a b c d, pad 4 n = [a; b; c; d] ∧ digits [a; b; c; d] = Some n.
Proof.
  intros H. pose proof (length_pad 4 n ltac:(lia) ltac:(lia)) as Hl.
  pose proof (digits_pad 4 n ltac:(lia) ltac:(lia)) as Hd.
  destruct (pad 4 n) as [|a [|b [|c [|d [|]]]]]; try done. by exists a, b, c, d.
Qed.

Lemma days_in_le y m : (days_in y m ≤ 31)%Z.
Proof. unfold days_in. repeat case_match; lia. Qed.

(** The fields of a time in range. *)
Lemma time_fields t :
  in_range_time t →
  ∃ y m d h mi s ns, civil (t / second / 86400) = (y, m, d) ∧
    ((t / second) mod 86400 / 3600 = h ∧ (t / second) mod 86400 / 60 mod 60 = mi ∧
     (t / second) mod 86400 mod 60 = s ∧ t mod second = ns ∧
     t = (t / second / 86400 * 86400 + h * 3600 + mi * 60 + s) * second + ns ∧
     0 ≤ t / second / 86400 < 3652059 ∧
     1 ≤ y ≤ 9999 ∧ 1 ≤ m ≤ 12 ∧ 1 ≤ d ≤ days_in y m ∧
     0 ≤ h < 24 ∧ 0 ≤ mi < 60 ∧ 0 ≤ s < 60 ∧ 0 ≤ ns < second)%Z.
Proof.
  unfold in_range_time. intros Ht. destruct (civil (t / second / 86400)) as [[y m] d] eqn:Hc.
  assert (0 ≤ t / second / 86400 < 3652059)%Z as Hdays by (unfold second in *; lia).
  pose proof (civil_bounds _ y m d Hdays Hc) as (Hy & Hm & Hd).
  do 7 eexists. do 5 (split; [reflexivity|]). unfold second in *. split; [lia|]. lia.
Qed.

Lemma parse_time_format t : in_range_time t → parse_time (format_time t) = Some t.
Proof.
  intros (y & m & d & h & mi & s & ns & Hc & Hh & Hmi & Hs & Hns & Ht & _ & Hy & Hm & Hd & Bh & Bmi & Bs & Bns)
    %time_fields.
  unfold parse_time, format_time. rewrite Hc, Hh, Hmi, Hs, Hns, B_S_. pose proof (days_in_le y m) as Hd31.
  destruct (pad_4 y ltac:(lia)) as (y1 & y2 & y3 & y4 & -> & Dy).
  destruct (pad_2 m ltac:(lia)) as (m1 & m2 & -> & Dm).
  destruct (pad_2 d ltac:(lia)) as (d1 & d2 & -> & Dd).
  destruct (pad_2 h ltac:(lia)) as (h1 & h2 & -> & Dh).
  destruct (pad_2 mi ltac:(lia)) as (i1 & i2 & -> & Di).
  destruct (pad_2 s ltac:(lia)) as (s1 & s2 & -> & Ds).
  unfold parse_bytes. cbn [app take drop lookup list_lookup].
  rewrite take_0, drop_0, Dy, Dm, Dd, Dh, Di, Ds, parse_tail_fraction by done.
  unfold civil_ok. rewrite !bool_decide_true by done.
  rewrite (proj2 (Z.leb_le 1 m)), (proj2 (Z.leb_le m 12)), (proj2 (Z.leb_le 1 d)),
    (proj2 (Z.leb_le d _)), (proj2 (Z.ltb_lt h 24)), (proj2 (Z.ltb_lt mi 60)),
    (proj2 (Z.ltb_lt s 60)) by lia.
  cbn [andb]. rewrite (days_of_civil_civil _ _ _ _ Hc). by rewrite <-Ht.
Qed.

(** [time.Parse] reads every time the store writes back exactly: for the
    years 1 to 9999 the text of [Format(time.RFC3339Nano)], whose fraction drops
    its trailing zeros, parses to the nanosecond it was written for, so two
    times have the same text only if they are equal. *)
Theorem time_text_roundtrip t :
  in_range_time t →
  parse_time (format_time t) = Some t ∧
  (∀ u, in_range_time u → format_time u = format_time t → u = t).
Proof.
  intros Ht. split; [by apply parse_time_format|]. intros u Hu H.
  apply parse_time_format in Ht, Hu. rewrite H in Hu. congruence.
Qed.

(** ** The order of the texts *)

Lemma text_lt_b_app p l k : text_lt_b (p ++ l) (p ++ k) = text_lt_b l k.
Proof.
  induction p as [|c p IH]; [done|]. simpl. rewrite bool_decide_true by done.
  by rewrite (proj2 (N.ltb_ge _ _)).
Qed.

Lemma text_lt_b_fixed w n m a b :
  (0 ≤ n < m)%Z → (m < 10 ^ Z.of_nat w)%Z → text_lt_b (fixed w n a) (fixed w m b) = true.
Proof.
  revert n m a b. induction w as [|w IH]; intros n m a b Hn Hm; [simpl in Hm; lia|].
  rewrite Nat2Z.inj_succ, Z.pow_succ_r in Hm by lia. cbn [fixed].
  destruct (Z.lt_trichotomy (n / 10) (m / 10)) as [H|[H|H]]; [apply IH; lia| |lia].
  rewrite H. clear IH.
  assert (∀ v a b, text_lt_b a b = true → text_lt_b (fixed w v a) (fixed w v b) = true) as Hsame.
  { clear. induction w as [|w IH]; intros v a b Hab; [done|]. cbn [fixed]. apply IH.
    simpl. rewrite bool_decide_true, Hab by done. by destruct (_ <? _)%N. }
  apply Hsame. cbn [text_lt_b].
  rewrite !code_chr by lia. by rewrite (proj2 (N.ltb_lt _ _)) by lia.
Qed.

Lemma text_lt_b_pad w n m a b :
  (0 ≤ n < m)%Z → (m < 10 ^ Z.of_nat w)%Z → 0 < w ≤ 20 →
  text_lt_b (pad w n ++ a) (pad w m ++ b) = true.
Proof.
  intros Hn Hm Hw. rewrite !pad_fixed by lia.
  assert (∀ v c k, fixed w v c ++ k = fixed w v (c ++ k)) as Happ.
  { clear. induction w as [|w IH]; intros v c k; [done|]. cbn [fixed]. by rewrite IH. }
  rewrite !Happ. by apply text_lt_b_fixed.
Qed.

(** One field decides or is equal. *)
Lemma text_lt_b_field w n m a b :
  (0 ≤ n)%Z → (m < 10 ^ Z.of_nat w)%Z → 0 < w ≤ 20 →
  (n < m)%Z ∨ n = m ∧ text_lt_b a b = true → text_lt_b (pad w n ++ a) (pad w m ++ b) = true.
Proof.
  intros Hn Hm Hw [H|[-> H]]; [by apply text_lt_b_pad|by rewrite text_lt_b_app].
Qed.
Lemma text_lt_b_cons c a b : text_lt_b a b = true → text_lt_b (c :: a) (c :: b) = true.
Proof. intros H. by rewrite <-H, <-(text_lt_b_app [c] a b). Qed.

#[local] Ltac next_field Hlex :=
  destruct Hlex as [?|[-> Hlex]]; [by left|right; split; [done|]];
  apply text_lt_b_cons, text_lt_b_field; [lia..|].

(** SQL compares stored times as text.  A time of an earlier second always
    has the smaller text, so the text order can only disagree with the order of
    the times when the two lie in the same second. *)
Theorem text_order_of_seconds t u :
  in_range_time t → in_range_time u → (t / second < u / second)%Z →
  text_lt (format_time t) (format_time u) = true.
Proof.
  intros (y & m & d & h & mi & s & ns & Hc & Hh & Hmi & Hs & Hns & Ht & _ & Hy & Hm & Hd & Bh & Bmi & Bs & Bns)
    %time_fields
    (y' & m' & d' & h' & mi' & s' & ns' & Hc' & Hh' & Hmi' & Hs' & Hns' & Ht' & _ & Hy' & Hm' & Hd' &
     Bh' & Bmi' & Bs' & Bns')%time_fields Hlt.
  pose proof (days_in_le y m). pose proof (days_in_le y' m').
  assert (t / second / 86400 < u / second / 86400 ∨
          t / second / 86400 = u / second / 86400 ∧
          (h < h' ∨ h = h' ∧ (mi < mi' ∨ mi = mi' ∧ s < s')))%Z as Hcase by lia.
  assert (y < y' ∨ y = y' ∧ (m < m' ∨ m = m' ∧ (d < d' ∨ d = d' ∧
          (h < h' ∨ h = h' ∧ (mi < mi' ∨ mi = mi' ∧ s < s')))))%Z as Hlex.
  { destruct Hcase as [Hday|[Hday Hcase]].
    - destruct (civil_lt _ _ _ _ _ _ _ _ Hday Hc Hc') as [|[? [|[??]]]]; tauto.
    - rewrite Hday, Hc' in Hc. injection Hc as <- <- <-. tauto. }
  unfold text_lt, format_time. rewrite Hc, Hh, Hmi, Hs, Hns, Hc', Hh', Hmi', Hs', Hns', !B_S_.
  clear -Hlex Hy Hm Hd Bh Bmi Bs Hy' Hm' Hd' Bh' Bmi' Bs' H H0.
  apply text_lt_b_field; [lia..|]. do 5 next_field Hlex. by left.
Qed.
Example text_order_within_a_second :
  text_lt (format_time (63844806605 * second + 500000000)) (format_time (63844806605 * second)) = true.
Proof. vm_compute. reflexivity. Qed.

Lemma time_text_roundtrip_witness :
  parse_time (format_time (63844806605 * second + 120000000)) = Some (63844806605 * second + 120000000)%Z.
Proof. apply time_text_roundtrip. vm_compute. split; discriminate || reflexivity. Defined.

Lemma text_order_of_seconds_witness :
  text_lt (format_time (63844806605 * second + 999999999)) (format_time (63844806606 * second)) = true.
Proof.
  apply text_order_of_seconds; [vm_compute; split; discriminate || reflexivity..|].
  vm_compute. reflexivity.
Defined.
