(* ===== verification/Config.v ===== *)
(** * Startup configuration ([internal/config/config.go])

    The environment, the secrets read from files, the master key and the check
    that an endpoint does not point back to one of the process's own listeners.
    What the operating system answers (environment, files, host name, network
    interfaces, name resolution) is an argument. *)

From S2P Require Export TimeText Url Proxy.

(** [strings.Trim], [strings.TrimRight] for a set of bytes. *)
Fixpoint drop_set (set : bytes) (l : bytes) : bytes :=
  match l with c :: l' => if bool_decide (c ∈ set) then drop_set set l' else l | [] => [] end.
Definition trim_right_set (s : string) (set : bytes) : string := S_ (rev (drop_set set (rev (B s)))).
Definition trim_set (s : string) (set : bytes) : string := trim_right_set (S_ (drop_set set (B s))) set.

(** [strconv.Atoi] *)
Definition Atoi (s : string) : option Z :=
  let '(negative, l) := match B s with
                        | "-"%char :: l => (true, l)
                        | "+"%char :: l => (false, l)
                        | l => (false, l)
                        end in
  match l with
  | [] => None
  | _ => n ← digits l;
         let n := if negative then (- n)%Z else n in
         if (int64_min <=? n)%Z && (n <=? int64_max)%Z then Some n else None
  end.

Example Atoi_ex : map Atoi ["8080"; "+80"; "-1"; "http"; ""; "99999999999999999999"]%string =
  [Some 8080; Some 80; Some (-1); None; None; None]%Z.
Proof. vm_compute. reflexivity. Qed.

(** Package net and the host. *)
Class HostLib `{NetLib} := {
  IP_eq_dec : EqDecision IP;                  (** [IP.Equal] *)
  IsLoopback : IP → bool;
  IsUnspecified : IP → bool;
  LookupPort : string → option Z;
  os_Hostname : option string;
  InterfaceAddrs : option (list IP);
  LookupIPAddr : string → option (list IP);
}.
#[export] Existing Instance IP_eq_dec.

(** ** The listeners *)

Section listeners.
Context `{U : Unicode, N : NetLib, H : !HostLib}.

Definition normalizeHost (host : string) : string :=
  trim_suffix (to_lower (trim_space (trim_set host ["["; "]"]%char))) ".".

Definition parseHostIP (host : string) : option IP :=
  ParseIP (match cut_last "%" (B host) with Some (h, _) => S_ h | None => host end).

Definition ip_is (f : IP → bool) (ip : option IP) : bool :=
  match ip with Some ip => f ip | None => false end.

Definition isLoopbackHost (host : string) (ip : option IP) : bool :=
  (host =? "localhost")%string || has_suffix host ".localhost" || ip_is IsLoopback ip.

Definition isLocalInterfaceIP (ip : IP) : bool :=
  match InterfaceAddrs with None => false | Some l => existsb (λ a, bool_decide (a = ip)) l end.

Definition isDefinitelyLocalHost (host : string) (ip : option IP) : bool :=
  if isLoopbackHost host ip || ip_is IsUnspecified ip then true
  else if match os_Hostname with Some name => (normalizeHost name =? host)%string | None => false end
  then true
  else match ip with
       | Some ip => isLocalInterfaceIP ip
       | None =>
           match LookupIPAddr host with
           | None => false
           | Some l => existsb (λ a, IsLoopback a || IsUnspecified a || isLocalInterfaceIP a) l
           end
       end.

Definition hostsCanAddressSameListener (endpointHost listenerHost : string) : bool :=
  let endpointHost := normalizeHost endpointHost in
  let listenerHost := normalizeHost listenerHost in
  if (endpointHost =? listenerHost)%string then true else
  let endpointIP := parseHostIP endpointHost in
  let listenerIP := parseHostIP listenerHost in
  if (listenerHost =? "")%string || ip_is IsUnspecified listenerIP
  then isDefinitelyLocalHost endpointHost endpointIP
  else if ip_is IsUnspecified endpointIP then isDefinitelyLocalHost listenerHost listenerIP
  else isLoopbackHost endpointHost endpointIP && isLoopbackHost listenerHost listenerIP.

Inductive endpoint_err : Type :=
| ErrNotAbsolute
| ErrScheme
| ErrPortRange
| ErrUnknownPort
| ErrListener (address : string)
| ErrPointsBack (address : string).

Definition parsePort (port : string) : result endpoint_err Z :=
  match Atoi port with
  | Some n => if (0 <=? n)%Z && (n <=? 65535)%Z then Ok n else Err ErrPortRange
  | None => match LookupPort port with Some n => Ok n | None => Err ErrUnknownPort end
  end.

Definition effectiveURLPort (u : Url.t) : result endpoint_err Z :=
  let scheme := to_lower (Url.Scheme u) in
  if negb (scheme =? "http")%string && negb (scheme =? "https")%string then Err ErrScheme
  else if negb (Url.Port u =? "")%string then parsePort (Url.Port u)
  else Ok (if (scheme =? "http")%string then 80 else 443)%Z.

Definition splitListener (address : string) : result endpoint_err (string * Z) :=
  match SplitHostPort (if (address =? "")%string then ":http" else address) with
  | None => Err (ErrListener address)
  | Some (host, port) =>
      match parsePort port with
      | Ok n => Ok (normalizeHost host, n)
      | Err _ => Err (ErrListener address)
      end
  end.

Fixpoint check_listeners (host : string) (port : Z) (listeners : list string) : result endpoint_err unit :=
  match listeners with
  | [] => Ok ()
  | listener :: rest =>
      hp ← splitListener listener;
      if (port =? hp.2)%Z && hostsCanAddressSameListener host hp.1 then Err (ErrPointsBack listener)
      else check_listeners host port rest
  end.

Definition ValidateEndpointAgainstListeners (endpoint : option Url.t) (listeners : list string) :
    result endpoint_err unit :=
  match endpoint with
  | None => Err ErrNotAbsolute
  | Some u =>
      if (Url.Hostname u =? "")%string then Err ErrNotAbsolute else
      port ← effectiveURLPort u;
      check_listeners (Url.Hostname u) port listeners
  end.
End listeners.

(** ** Environment and files *)

(** What the operating system answers during one call of [Load].  [race] is
    what another process puts in the file after it was found missing; [written]
    is [Some n] when writing fails after [n] bytes. *)
Record os : Type := mk_os {
  environ : string → option string;               (** [os.LookupEnv] *)
  files : gmap string bytes;
  readable : string → bool;
  cwd : option string;
  mkdir_ok : bool;
  rnd : option bytes;                              (** 32 random bytes *)
  race : option bytes;
  open_ok : bool;
  written : option nat;
  close_ok : bool;
}.
Definition set_files (o : os) (f : gmap string bytes) : os :=
  mk_os (environ o) f (readable o) (cwd o) (mkdir_ok o) (rnd o) (race o) (open_ok o) (written o) (close_ok o).

Definition Getenv (o : os) (k : string) : string := default "" (environ o k).

Inductive read_result : Type := ReadOk (b : bytes) | ReadNotExist | ReadFailed.
Definition ReadFile (o : os) (path : string) : read_result :=
  match files o !! path with
  | None => ReadNotExist
  | Some b => if readable o path then ReadOk b else ReadFailed
  end.

Definition line_end : bytes := ["013"; "010"]%char.

Inductive config_error : Type :=
| UpstreamRequired
| InvalidUpstream
| SecretUnreadable
| MasterKeyError.

Definition loadSecret (o : os) (envName fileName : string) : result config_error string :=
  match environ o envName with
  | Some value => Ok value
  | None =>
      let path := trim_space (Getenv o fileName) in
      if (path =? "")%string then Ok ""%string else
      match ReadFile o path with
      | ReadOk b => Ok (trim_right_set (S_ b) line_end)
      | _ => Err SecretUnreadable
      end
  end.

(** The last part of [loadMasterKey]: a new key, written to the file. *)
Definition create_master_key (o : os) (path : string) : result config_error string * os :=
  match rnd o with
  | None => (Err MasterKeyError, o)
  | Some raw =>
      let value := hex_encode raw in
      match race o with
      | Some theirs =>
          let o := set_files o (<[path := theirs]> (files o)) in
          (match ReadFile o path with
           | ReadOk b => Ok (trim_right_set (S_ b) line_end)
           | _ => Err MasterKeyError
           end, o)
      | None =>
          if negb (open_ok o) then (Err MasterKeyError, o) else
          let line := B value ++ ["010"%char] in
          match written o with
          | Some n => (Err MasterKeyError, set_files o (<[path := take n line]> (files o)))
          | None =>
              (if close_ok o then Ok value else Err MasterKeyError,
               set_files o (<[path := line]> (files o)))
          end
      end
  end.

Definition loadMasterKey (o : os) (dataDir : string) : result config_error string * os :=
  match loadSecret o "NCG_MASTER_KEY" "NCG_MASTER_KEY_FILE" with
  | Err e => (Err e, o)
  | Ok value =>
      if negb (blank value) then (Ok value, o) else
      if negb (mkdir_ok o) then (Err MasterKeyError, o) else
      let path := path_Join dataDir "master.key" in
      match ReadFile o path with
      | ReadOk b => (Ok (trim_right_set (S_ b) line_end), o)
      | ReadFailed => (Err MasterKeyError, o)
      | ReadNotExist => create_master_key o path
      end
  end.

Definition envOr (o : os) (k fallback : string) : string :=
  let v := trim_space (Getenv o k) in if (v =? "")%string then fallback else v.

Definition splitCSV (v : string) : list string :=
  List.filter (λ s, negb (s =? "")%string) (map trim_space (split v ",")).

(** [fmt.Sscan] of an [int64] and [time.ParseDuration]. *)
Class ScanLib := {
  Sscan_int64 : string → option Z;
  ParseDuration : string → option Duration;
}.

(** [type Config struct] *)
Module StartupConfig.
Record t : Type := mk {
  UpstreamURL : Url.t;
  ListenAddr : string;
  AdminListenAddr : string;
  DataDir : string;
  MasterKey : bytes;
  InitialAdminPass : string;
  TrustedProxyCIDRs : list string;
  AuditBodyLimit : Z;
  AIConcurrency : Z;
  AITimeout : Duration;
  AIQueueTimeout : Duration;
  AdminCookieSecure : bool;
  UpdaterSocket : string;
}.
End StartupConfig.

Section load.
Context `{U : Unicode, N : NetLib, H : !HostLib, UL : UrlLib, SL : ScanLib}.

Definition positive (v : option Z) (fallback : Z) : Z :=
  match v with Some n => if (0 <? n)%Z then n else fallback | None => fallback end.
Definition envInt64 (o : os) (k : string) (fallback : Z) : Z :=
  positive (Sscan_int64 (Getenv o k)) fallback.
Definition envDuration (o : os) (k : string) (fallback : Duration) : Duration :=
  let v := trim_space (Getenv o k) in
  if (v =? "")%string then fallback else positive (ParseDuration v) fallback.

Definition abs_dir (o : os) (dir : string) : string :=
  if has_prefix dir "/" then dir
  else match cwd o with Some wd => path_Join wd dir | None => dir end.

Definition Load (o : os) : result config_error StartupConfig.t * os :=
  let u := trim_space (Getenv o "NCG_UPSTREAM_URL") in
  if (u =? "")%string then (Err UpstreamRequired, o) else
  match url_parse u with
  | None => (Err InvalidUpstream, o)
  | Some parsed =>
      if negb (absolute_http u) then (Err InvalidUpstream, o) else
      let listen := envOr o "NCG_LISTEN_ADDR" ":8080" in
      let adminListen := envOr o "NCG_ADMIN_LISTEN_ADDR" "127.0.0.1:9090" in
      match ValidateEndpointAgainstListeners (Some parsed) [listen; adminListen] with
      | Err _ => (Err InvalidUpstream, o)
      | Ok _ =>
          let dataDir := abs_dir o (envOr o "NCG_DATA_DIR" "./data") in
          match loadMasterKey o dataDir with
          | (Err e, o) => (Err e, o)
          | (Ok master, o) =>
              match loadSecret o "NCG_INITIAL_ADMIN_PASSWORD" "NCG_INITIAL_ADMIN_PASSWORD_FILE" with
              | Err e => (Err e, o)
              | Ok adminPassword =>
                  (Ok (StartupConfig.mk parsed listen adminListen dataDir (B master) adminPassword
                         (splitCSV (Getenv o "NCG_TRUSTED_PROXY_CIDRS"))
                         (envInt64 o "NCG_AUDIT_BODY_LIMIT" (Z.shiftl 4 20))
                         (envInt64 o "NCG_AI_CONCURRENCY" 16)
                         (envDuration o "NCG_AI_TIMEOUT" (15 * second))
                         (envDuration o "NCG_AI_QUEUE_TIMEOUT" (2 * second))
                         (equal_fold (Getenv o "NCG_ADMIN_COOKIE_SECURE") "true")
                         (trim_space (Getenv o "NCG_UPDATER_SOCKET"))), o)
              end
          end
      end
  end.
End load.

(** ** Theorems *)

Section listener_theorems.
Context `{U : Unicode, N : NetLib, H : !HostLib}.

Lemma check_listeners_ok host port ls :
  check_listeners host port ls = Ok () ↔
  ∀ l, l ∈ ls → ∃ lh lp, splitListener l = Ok (lh, lp) ∧
    (lp = port → hostsCanAddressSameListener host lh = false).
Proof.
  induction ls as [|x ls IH]; simpl; [split; [by intros _ l ?%not_elem_of_nil|done]|].
  unfold mbind, result_bind. split.
  - destruct (splitListener x) as [[lh lp]|e] eqn:Ex; [|done]. cbn [fst snd].
    destruct (_ && _) eqn:E; [done|]. intros Hok l [->|Hl]%elem_of_cons; [|by apply IH].
    exists lh, lp. split; [done|]. intros ->. by rewrite Z.eqb_refl in E.
  - intros Hls. destruct (Hls x) as (lh & lp & -> & Hx); [by left|]. cbn [fst snd].
    destruct (Z.eqb_spec port lp) as [->|]; [rewrite (Hx eq_refl)|]; apply IH; intros l Hl; apply Hls; by right.
Qed.

(** *** What a host stands for *)

Definition named_localhost (h : string) : Prop := h = "localhost"%string ∨ has_suffix h ".localhost" = true.
Definition literal (f : IP → bool) (h : string) : Prop := ∃ ip, parseHostIP h = Some ip ∧ f ip = true.
(** The addresses of a host: the one it spells, or those its name resolves to. *)
Definition addresses (h : string) : list IP :=
  match parseHostIP h with Some ip => [ip] | None => default [] (LookupIPAddr h) end.
(** An address of this machine. *)
Definition local_address (a : IP) : bool :=
  IsLoopback a || IsUnspecified a || match InterfaceAddrs with Some l => bool_decide (a ∈ l) | None => false end.
(** The host is this machine: by a name of localhost, by the machine's own
    name, or by one of its addresses. *)
Definition this_machine (h : string) : Prop :=
  named_localhost h ∨ (normalizeHost <$> os_Hostname) = Some h ∨ ∃ a, a ∈ addresses h ∧ local_address a = true.
(** A listener on every address. *)
Definition every_address (h : string) : Prop := h = ""%string ∨ literal IsUnspecified h.
Definition loopback_host (h : string) : Prop := named_localhost h ∨ literal IsLoopback h.

(** The endpoint's host [e] counts as the one a listener is bound to. *)
Definition points_back (e bound : string) : Prop :=
  e = bound ∨ (every_address bound ∧ this_machine e) ∨ (literal IsUnspecified e ∧ this_machine bound) ∨
  (loopback_host e ∧ loopback_host bound).

Lemma ip_is_literal f h : ip_is f (parseHostIP h) = true ↔ literal f h.
Proof.
  unfold ip_is, literal. destruct (parseHostIP h) as [ip|]; [|split; [done|by intros (? & ? & _)]].
  split; [by exists ip|by intros (? & [= ->] & ?)].
Qed.
Lemma isLoopbackHost_true h : isLoopbackHost h (parseHostIP h) = true ↔ loopback_host h.
Proof.
  unfold isLoopbackHost, loopback_host, named_localhost. rewrite !orb_true_iff, String.eqb_eq, ip_is_literal. done.
Qed.
Lemma isLocalInterfaceIP_true a :
  isLocalInterfaceIP a = match InterfaceAddrs with Some l => bool_decide (a ∈ l) | None => false end.
Proof.
  unfold isLocalInterfaceIP. destruct InterfaceAddrs as [l|]; [|done]. induction l as [|b l IH]; [done|]. simpl.
  rewrite IH. apply eq_true_iff_eq. rewrite orb_true_iff, !bool_decide_eq_true, elem_of_cons. naive_solver.
Qed.
Lemma isDefinitelyLocalHost_true h : isDefinitelyLocalHost h (parseHostIP h) = true ↔ this_machine h.
Proof.
  unfold isDefinitelyLocalHost, this_machine, addresses, isLoopbackHost, named_localhost.
  assert ((match os_Hostname with Some name => (normalizeHost name =? h)%string | None => false end = true) ↔
    (normalizeHost <$> os_Hostname) = Some h) as Hname.
  { destruct os_Hostname as [n|]; [|done]. rewrite String.eqb_eq. cbn [fmap option_fmap option_map].
    split; [by intros ->|by intros [= ->]]. }
  destruct (h =? "localhost")%string eqn:E1; [apply String.eqb_eq in E1; split; [by left; left|done]|].
  apply String.eqb_neq in E1. destruct (has_suffix h ".localhost"); [split; [by left; right|done]|]. cbn [orb].
  destruct (match os_Hostname with Some _ => _ | None => _ end).
  { split; [right; left; by apply Hname|by destruct (_ || _)]. }
  assert ((normalizeHost <$> os_Hostname) ≠ Some h) as Hn by (intros E; by apply Hname in E). clear Hname.
  destruct (parseHostIP h) as [ip|]; cbn [ip_is orb].
  - transitivity (local_address ip = true).
    { unfold local_address. rewrite <- isLocalInterfaceIP_true. by destruct (IsLoopback ip), (IsUnspecified ip). }
    split; [intros Ha; right; right; exists ip; split; [by left|done]|].
    intros [[|]|[|(a & Ha & ?)]]; [done..|]. by apply list_elem_of_singleton in Ha as ->.
  - transitivity (∃ a, a ∈ default [] (LookupIPAddr h) ∧ local_address a = true).
    { destruct (LookupIPAddr h) as [l|]; simpl; [|split; [done|by intros (a & ?%not_elem_of_nil & _)]].
      rewrite existsb_exists. unfold local_address.
      split; intros (a & Ha & Hl); exists a; split; try (by apply list_elem_of_In).
      - by rewrite <- isLocalInterfaceIP_true.
      - by rewrite isLocalInterfaceIP_true. }
    split; [by intros; right; right|by intros [[|]|[|]]].
Qed.
Lemma hostsCanAddressSameListener_true endpointHost listenerHost :
  hostsCanAddressSameListener endpointHost listenerHost = true ↔
  points_back (normalizeHost endpointHost) (normalizeHost listenerHost).
Proof.
  unfold hostsCanAddressSameListener, points_back. generalize (normalizeHost endpointHost) as e.
  generalize (normalizeHost listenerHost) as b. intros b e.
  destruct (String.eqb_spec e b) as [|Hne]; [split; [by left|done]|].
  assert (∀ h, literal IsUnspecified h → this_machine h) as Hu.
  { intros h (ip & Hp & Hip). right; right. exists ip. unfold addresses, local_address. rewrite Hp, Hip, orb_true_r.
    split; [by left|done]. }
  assert (∀ h, loopback_host h → this_machine h) as Hl.
  { intros h [Hh|(ip & Hp & Hip)]; [by left|]. right; right. exists ip. unfold addresses, local_address.
    rewrite Hp, Hip. split; [by left|done]. }
  assert (((b =? "")%string || ip_is IsUnspecified (parseHostIP b) = true) ↔ every_address b) as Hw
    by (by rewrite orb_true_iff, String.eqb_eq, ip_is_literal).
  destruct (_ || _); [|destruct (ip_is IsUnspecified (parseHostIP e)) eqn:Ee].
  - rewrite isDefinitelyLocalHost_true. assert (every_address b) by by apply Hw. naive_solver.
  - rewrite isDefinitelyLocalHost_true. apply ip_is_literal in Ee.
    assert (¬ every_address b) by (by intros Hx%Hw). naive_solver.
  - rewrite andb_true_iff, !isLoopbackHost_true. assert (¬ every_address b) by (by intros Hx%Hw).
    assert (¬ literal IsUnspecified e) by (intros Hx%ip_is_literal; congruence). naive_solver.
Qed.

(** C37. Which endpoints are accepted, exactly.  An endpoint is accepted when it
    has a host and a usable port and, for every listener with this port (all
    listeners being well formed), its host does not point back: it is not the
    host the listener is bound to; it is not this machine - by a name of
    localhost, by its own name, by an address of its own or by a name that
    resolves to one - when the listener is bound to every address; it is not
    the unspecified address when the listener is bound to this machine; and not
    both are loopback.  Everything else is accepted: also a name that resolves
    to the one address a listener is bound to. *)
Theorem no_endpoint_on_own_listener u ls :
  ValidateEndpointAgainstListeners (Some u) ls = Ok () ↔
  Url.Hostname u ≠ ""%string ∧
  ∃ port, effectiveURLPort u = Ok port ∧
    ∀ l, l ∈ ls → ∃ lh lp, splitListener l = Ok (lh, lp) ∧
      (lp = port → ¬ points_back (normalizeHost (Url.Hostname u)) (normalizeHost lh)).
Proof.
  unfold ValidateEndpointAgainstListeners, mbind, result_bind. destruct (String.eqb_spec (Url.Hostname u) "") as [|Hh].
  { split; [done|by intros [? _]]. }
  destruct (effectiveURLPort u) as [port|e]; [|split; [done|by intros (_ & ? & ? & _)]]. rewrite check_listeners_ok.
  assert (∀ lh, hostsCanAddressSameListener (Url.Hostname u) lh = false ↔
    ¬ points_back (normalizeHost (Url.Hostname u)) (normalizeHost lh)) as Hb.
  { intros lh. by rewrite <- hostsCanAddressSameListener_true, not_true_iff_false. }
  split.
  - intros Hls. split; [done|]. exists port. split; [done|]. intros l Hl. destruct (Hls l Hl) as (lh & lp & Hs & Hp).
    exists lh, lp. split; [done|]. intros E. by apply Hb, Hp.
  - intros (_ & port' & [= <-] & Hls) l Hl. destruct (Hls l Hl) as (lh & lp & Hs & Hp).
    exists lh, lp. split; [done|]. intros E. by apply Hb, Hp.
Qed.
End listener_theorems.

(** *** The master key *)

Lemma hex_line raw : trim_right_set (S_ (B (hex_encode raw) ++ ["010"%char])) line_end = hex_encode raw.
Proof.
  unfold trim_right_set. rewrite B_S_, rev_unit. cbn [drop_set]. rewrite bool_decide_true by set_solver.
  assert (∀ l, Forall (λ c, c ∉ line_end) l → drop_set line_end l = l) as Hd.
  { intros [|c l]; [done|]. intros [Hc _]%Forall_cons. simpl. by rewrite bool_decide_false. }
  rewrite Hd, rev_involutive; [apply S_B|]. apply Forall_rev. unfold hex_encode. rewrite B_S_.
  assert (∀ n, (n < 16)%N → hex_char n ∉ line_end) as Hn.
  { intros n Hlt Hin. apply hex_value_char in Hlt. unfold line_end in Hin.
    repeat (apply elem_of_cons in Hin as [Hin|Hin]; [by rewrite Hin in Hlt|]). by apply not_elem_of_nil in Hin. }
  induction raw as [|c raw IH]; simpl; [constructor|]. pose proof (code_lt c).
  repeat constructor; [..|done]; apply Hn; [apply N.Div0.div_lt_upper_bound; lia|by apply N.mod_lt].
Qed.

(** What a read gave, a later read of the same files gives again. *)
Definition reads_on (o o2 : os) (changed : option string) : Prop :=
  environ o2 = environ o ∧ (∀ p, readable o2 p = true) ∧
  (∀ p, changed ≠ Some p → files o2 !! p = files o !! p).

Lemma ReadFile_again o o2 ch p b :
  reads_on o o2 ch → ch ≠ Some p → ReadFile o p = ReadOk b → ReadFile o2 p = ReadOk b.
Proof.
  intros (_ & Hr & Hf) Hne. unfold ReadFile. rewrite (Hf p Hne), Hr.
  destruct (files o !! p); [|done]. by destruct (readable o p).
Qed.

Lemma loadSecret_again o o2 ch env name v :
  reads_on o o2 ch → (∀ p, ch = Some p → files o !! p = None) →
  loadSecret o env name = Ok v → loadSecret o2 env name = Ok v.
Proof.
  intros Hon Hch. pose proof Hon as (He & _ & _). unfold loadSecret, Getenv. rewrite He.
  destruct (environ o env); [done|]. destruct (_ =? _)%string; [done|].
  destruct (ReadFile o _) as [b| |] eqn:Er; [|done..].
  erewrite (ReadFile_again o o2 ch); [done|done| |exact Er].
  intros ->. specialize (Hch _ eq_refl). unfold ReadFile in Er. by rewrite Hch in Er.
Qed.

(** A created key is in the file. *)
Lemma create_master_key_ok o path key o1 :
  create_master_key o path = (Ok key, o1) →
  ∃ b, files o1 = <[path := b]> (files o) ∧ trim_right_set (S_ b) line_end = key.
Proof.
  unfold create_master_key. destruct (rnd o) as [raw|]; [|done]. destruct (race o) as [theirs|].
  - unfold ReadFile. simpl. rewrite lookup_insert_eq. destruct (readable o path); [|done].
    intros [= <- <-]. by exists theirs.
  - destruct (open_ok o); [|done]. simpl. destruct (written o); [done|]. destruct (close_ok o); [|done].
    intros [= <- <-]. eexists. split; [done|]. apply hex_line.
Qed.

(** The master key survives a restart: once [loadMasterKey] has returned a
    key, from the environment, from a file or freshly created, also when
    another process created the file first, every later call that sees the same
    environment and the files this call left, and can read them, returns the
    same key and changes nothing. *)
Theorem master_key_stable o dir key o1 o2 :
  loadMasterKey o dir = (Ok key, o1) →
  environ o2 = environ o → files o2 = files o1 → (∀ p, readable o2 p = true) → mkdir_ok o2 = true →
  loadMasterKey o2 dir = (Ok key, o2).
Proof.
  unfold loadMasterKey at 1. intros H He Hf Hr Hm. set (path := path_Join dir "master.key") in *.
  destruct (loadSecret o _ _) as [v|] eqn:Ev; [|done].
  assert (loadSecret o2 "NCG_MASTER_KEY" "NCG_MASTER_KEY_FILE" = Ok v ∧
    (blank v = true → ∃ b, ReadFile o2 path = ReadOk b ∧ trim_right_set (S_ b) line_end = key)) as [Hs Hread].
  { destruct (blank v) eqn:Eb; cbn [negb] in H.
    2:{ injection H as <- <-. split; [|done]. eapply (loadSecret_again o o2 None); [|done..].
        split_and!; [done..|]. intros p _. by rewrite Hf. }
    destruct (mkdir_ok o); [|done]. cbn [negb] in H.
    destruct (ReadFile o path) as [b| |] eqn:Er; [| |done].
    - injection H as <- <-. assert (reads_on o o2 None) as Hon by (split_and!; [done..|]; intros p _; by rewrite Hf).
      split; [by eapply loadSecret_again|]. intros _. exists b. split; [|done]. by eapply ReadFile_again.
    - apply create_master_key_ok in H as (b & Hb & Hk).
      assert (files o !! path = None) as Hnone.
      { unfold ReadFile in Er. destruct (files o !! path); [by destruct (readable o path)|done]. }
      assert (reads_on o o2 (Some path)) as Hon.
      { split_and!; [done..|]. intros p Hne. rewrite Hf, Hb. apply lookup_insert_ne. congruence. }
      split; [eapply (loadSecret_again _ _ _ _ _ _ Hon); [by intros p [= <-]|done]|].
      intros _. exists b. split; [|done]. unfold ReadFile. rewrite Hf, Hb, lookup_insert_eq. by rewrite Hr. }
  unfold loadMasterKey. rewrite Hs. fold path. destruct (blank v); cbn [negb].
  - destruct (Hread eq_refl) as (b & -> & ->). by rewrite Hm.
  - by injection H as -> _.
Qed.

(** A system with no environment and the given files, on which everything
    works but perhaps the write of the key file. *)
Definition plain_os (f : gmap string bytes) (raw : bytes) (w : option nat) : os :=
  mk_os (λ _, None) f (λ _, true) None true (Some raw) None true w true.

(** A start that is interrupted while it writes a new key file reports an
    error, but the file stays, and the next start takes what is left in it as
    the master key: the empty key, if nothing had been written. *)
Theorem interrupted_key_creation raw dir :
  (loadMasterKey (plain_os ∅ raw (Some 0)) dir).1 = Err MasterKeyError ∧
  (let left_behind := files (loadMasterKey (plain_os ∅ raw (Some 0)) dir).2 in
   (loadMasterKey (plain_os left_behind raw None) dir).1 = Ok ""%string).
Proof.
  unfold loadMasterKey, loadSecret, ReadFile. cbn -[path_Join].
  rewrite lookup_empty. cbn -[path_Join]. split; [done|].
  rewrite lookup_insert_eq. done.
Qed.

(** ** Witnesses *)

#[local] Instance demo_net : NetLib := {
  IP := string;
  ParseIP s := if bool_decide (s ∈ ["127.0.0.1"; "10.0.0.1"; "0.0.0.0"]%string) then Some s else None;
  IP_String s := s;
  url_Parse _ := None;
  gzip_NewReader _ := None;
}.
#[local] Instance demo_host : HostLib := {
  IP_eq_dec := String.string_dec;
  IsLoopback s := (s =? "127.0.0.1")%string;
  IsUnspecified s := (s =? "0.0.0.0")%string;
  LookupPort _ := None;
  os_Hostname := None;
  InterfaceAddrs := None;
  LookupIPAddr name := if (name =? "guard.lan")%string then Some ["127.0.0.1"%string] else None;
}.
Definition demo_url (host port : string) : Url.t := Url.mk "http" "" host port false "" "" "" "".

(** A name of this machine's loopback address: refused for a listener on every
    address, accepted for one on this address alone. *)
Example resolved_name :
  ValidateEndpointAgainstListeners (Some (demo_url "guard.lan" "8080")) [":8080"; "127.0.0.1:9090"]%string =
    Err (ErrPointsBack ":8080") ∧
  ValidateEndpointAgainstListeners (Some (demo_url "guard.lan" "9090")) [":8080"; "127.0.0.1:9090"]%string = Ok () ∧
  ValidateEndpointAgainstListeners (Some (demo_url "127.0.0.1" "9090")) [":8080"; "127.0.0.1:9090"]%string =
    Err (ErrPointsBack "127.0.0.1:9090").
Proof. vm_compute. auto. Qed.

Lemma master_key_stable_witness :
  let raw := B "0123456789abcdef" in
  let o1 := (loadMasterKey (plain_os ∅ raw None) "/data").2 in
  loadMasterKey (plain_os (files o1) (B "another") None) "/data" =
    (Ok (hex_encode raw), plain_os (files o1) (B "another") None).
Proof.
  intros raw o1.
  assert ((loadMasterKey (plain_os ∅ raw None) "/data").1 = Ok (hex_encode raw)) as H1
    by (vm_compute; reflexivity).
  assert (loadMasterKey (plain_os ∅ raw None) "/data" = (Ok (hex_encode raw), o1)) as H
    by (rewrite <-H1; apply surjective_pairing).
  exact (master_key_stable (plain_os ∅ raw None) "/data" (hex_encode raw) o1
           (plain_os (files o1) (B "another") None) H eq_refl eq_refl (λ _, eq_refl) eq_refl).
Defined.
