(* ===== verification/StoreRules.v ===== *)
(** * The rule libraries ([internal/storage/store.go], hashes)

    Two tables, trusted and risk, map the digest of a selected field to a rule.
    The digest function [hashPlaintext] and the clock are arguments. *)

From S2P Require Export Db.

Definition maxRuleContentBytes : Z := Z.shiftl 64 20.

Definition hex_digit (c : ascii) : bool :=
  ((48 <=? code c)%N && (code c <=? 57)%N) || ((65 <=? code c)%N && (code c <=? 70)%N) ||
  ((97 <=? code c)%N && (code c <=? 102)%N).

(** [^[a-fA-F0-9]{64}$] *)
Definition hashPattern (s : string) : bool := (slen s =? 64)%Z && forallb hex_digit (B s).

Definition word_char (c : ascii) : bool :=
  ((48 <=? code c)%N && (code c <=? 57)%N) || ((65 <=? code c)%N && (code c <=? 90)%N) ||
  ((97 <=? code c)%N && (code c <=? 122)%N) || bool_decide (c = "_"%char) || bool_decide (c = "-"%char).

(** [^(?:sk[-_])?…[A-Za-z0-9_-]{4}$] *)
Definition apiKeyHintPattern (s : string) : bool :=
  let s := if has_prefix s "sk-" || has_prefix s "sk_" then S_ (drop 3 (B s)) else s in
  has_prefix s "…" &&
  (let l := B (trim_prefix s "…") in (length l =? 4)%nat && forallb word_char l).

Section rules.
Context `{U : Unicode} (hashPlaintext : string → string) (io : nat → bool).

Definition validateHash (h : string) : Store unit := guard_ok (hashPattern h) "sha256".

Definition content_ok (h content : string) : bool :=
  (content =? "")%string ||
  (valid_utf8 (B content) && (slen content <=? maxRuleContentBytes)%Z &&
   (hashPlaintext content =? to_lower h)%string).
Definition validateHashContent (h content : string) : Store unit :=
  guard_ok (content_ok h content) "content".

Definition api_key_trace (fingerprint hint : string) : option (string * string) :=
  let fingerprint := to_lower (trim_space fingerprint) in
  let hint := trim_space hint in
  if (fingerprint =? "")%string then
    if negb (hint =? "")%string then None else Some ("", "")%string
  else if negb (hashPattern fingerprint) then None
  else if negb (hint =? "")%string && negb (hint =? "••••")%string && negb (apiKeyHintPattern hint)
  then None
  else Some (fingerprint, hint).
Definition validateAPIKeyTrace (fingerprint hint : string) : Store (string * string) :=
  match api_key_trace fingerprint hint with
  | Some t => mret t
  | None => store_fail (ErrInvalid "api key")
  end.

Definition kind_ok (kind : string) : bool := (kind =? "trusted")%string || (kind =? "risk")%string.
Definition label_ok (label : string) : bool := (slen label <=? 500)%Z && valid_utf8 (B label).

(** [INSERT INTO table(...) VALUES(...) ON CONFLICT(sha256) DO UPDATE SET ...],
    shared by [AddHashSourceWithTrace] and [PromoteHash]. *)
Definition upsert_row (old : option HashEntry.t) (id : Z)
    (h label content source fingerprint hint seenAt now : string) : HashEntry.t :=
  match old with
  | None => HashEntry.mk id h label content source fingerprint hint seenAt true now
  | Some e =>
      let traced := negb (HashEntry.APIKeyFingerprint e =? "")%string in
      HashEntry.mk (HashEntry.ID e) (HashEntry.SHA256 e) label
        (if (content =? "")%string then HashEntry.Content e else content) source
        (if traced then HashEntry.APIKeyFingerprint e else fingerprint)
        (if traced then HashEntry.APIKeyHint e else hint)
        (if traced then HashEntry.APIKeySeenAt e else seenAt)
        true (HashEntry.CreatedAt e)
  end.

Definition upsert_hash (kind h label content source fingerprint hint seenAt now : string) (d : db) :
    result store_err (unit * db) :=
  let '(id, d') := take_id d in
  let old := table kind d !! h in
  let d' := match old with None => d' | Some _ => d end in
  Ok ((), set_table kind d'
            (<[h := upsert_row old id h label content source fingerprint hint seenAt now]>
               (table kind d'))).

Definition select_by_sha (kind h : string) (d : db) : result store_err (HashEntry.t * db) :=
  match table kind d !! h with Some e => Ok (e, d) | None => Err ErrNoRows end.

Definition row_with_id (kind : string) (id : Z) (d : db) : option HashEntry.t :=
  List.find (λ e, (HashEntry.ID e =? id)%Z) (map snd (map_to_list (table kind d))).
Definition select_by_id (kind : string) (id : Z) (d : db) : result store_err (HashEntry.t * db) :=
  match row_with_id kind id d with Some e => Ok (e, d) | None => Err ErrNoRows end.

(** [LookupHash]: the risk table first. *)
Definition match_of (kind : string) (e : HashEntry.t) : HashMatch.t :=
  HashMatch.mk (HashEntry.ID e) (HashEntry.SHA256 e) kind (HashEntry.Label e).
Definition enabled_row (kind h : string) (d : db) : option HashEntry.t :=
  match table kind d !! to_lower h with
  | Some e => if HashEntry.Enabled e then Some e else None
  | None => None
  end.
Definition LookupHash (h : string) : Store (option HashMatch.t) :=
  r ← query io (enabled_row "risk" h);
  match r with
  | Some e => mret (Some (match_of "risk" e))
  | None =>
      t ← query io (enabled_row "trusted" h);
      mret (match_of "trusted" <$> t)
  end.

(** Rows by descending id. *)
Definition insert_desc (e : HashEntry.t) : list HashEntry.t → list HashEntry.t :=
  fix go l := match l with
              | [] => [e]
              | x :: l => if (HashEntry.ID x <? HashEntry.ID e)%Z then e :: x :: l else x :: go l
              end.
Definition rows_desc (kind : string) (d : db) : list HashEntry.t :=
  foldr insert_desc [] (map snd (map_to_list (table kind d))).
Definition ListHashes (kind : string) : Store (list HashEntry.t) :=
  query io (rows_desc (if (kind =? "risk")%string then "risk" else "trusted")).
Definition without_content (e : HashEntry.t) : HashEntry.t * bool :=
  (HashEntry.mk (HashEntry.ID e) (HashEntry.SHA256 e) (HashEntry.Label e) "" (HashEntry.Source e)
     (HashEntry.APIKeyFingerprint e) (HashEntry.APIKeyHint e) (HashEntry.APIKeySeenAt e)
     (HashEntry.Enabled e) (HashEntry.CreatedAt e), HashEntry.ContentAvailable e).
Definition ListHashSummaries (kind : string) : Store (list (HashEntry.t * bool)) :=
  guard_ok (kind_ok kind) "kind";;
  rows ← query io (rows_desc kind); mret (map without_content rows).
Definition GetHash (kind : string) (id : Z) : Store HashEntry.t :=
  guard_ok (kind_ok kind) "kind";; exec io (select_by_id kind id).

Definition AddHashSourceWithTrace (now : Time) (kind h label content source fingerprint hint : string) :
    Store HashEntry.t :=
  guard_ok (kind_ok kind) "kind";;
  let h := if blank h && negb (content =? "")%string then hashPlaintext content else h in
  validateHash h;;
  validateHashContent h content;;
  let label := trim_space label in
  guard_ok (label_ok label) "label";;
  guard_ok (negb (source =? "")%string && (slen source <=? 64)%Z && valid_utf8 (B source)) "source";;
  trace ← validateAPIKeyTrace fingerprint hint;
  let '(fingerprint, hint) := trace in
  let now := format_time now in
  let seenAt := if (fingerprint =? "")%string then "" else now in
  exec io (upsert_hash kind (to_lower h) label content source fingerprint hint seenAt now);;
  exec io (select_by_sha kind (to_lower h)).

Definition AddHashSourceWithContent (now : Time) (kind h label content source : string) :=
  AddHashSourceWithTrace now kind h label content source "" "".
Definition AddHashSource (now : Time) (kind h label source : string) :=
  AddHashSourceWithContent now kind h label "" source.
Definition AddHash (now : Time) (kind h label : string) :=
  AddHashSourceWithContent now kind h label "" "manual".
Definition AddHashWithContent (now : Time) (kind h label content : string) :=
  AddHashSourceWithContent now kind h label content "manual".

(** [UPDATE table SET label=?,enabled=?[,content=?] WHERE id=?] *)
Definition update_row (kind : string) (id : Z) (f : HashEntry.t → HashEntry.t) (d : db) :
    result store_err (unit * db) :=
  match row_with_id kind id d with
  | Some e => Ok ((), set_table kind d (<[HashEntry.SHA256 e := f e]> (table kind d)))
  | None => Err ErrNoRows      (** no row was affected *)
  end.
Definition edited (label : string) (enabled : bool) (content : option string) (e : HashEntry.t) :
    HashEntry.t :=
  HashEntry.mk (HashEntry.ID e) (HashEntry.SHA256 e) label
    (default (HashEntry.Content e) content) (HashEntry.Source e) (HashEntry.APIKeyFingerprint e)
    (HashEntry.APIKeyHint e) (HashEntry.APIKeySeenAt e) enabled (HashEntry.CreatedAt e).

(** New content must hash to the digest of the row. *)
Definition check_content (kind : string) (id : Z) (content : option string) : Store unit :=
  match content with
  | None => mret ()
  | Some c =>
      guard_ok (negb (c =? "")%string) "content";;
      e ← exec io (select_by_id kind id);
      validateHashContent (HashEntry.SHA256 e) c
  end.

Definition UpdateHashWithContent (kind : string) (id : Z) (label : string) (enabled : bool)
    (content : option string) : Store HashEntry.t :=
  guard_ok (kind_ok kind) "kind";;
  let label := trim_space label in
  guard_ok (label_ok label) "label";;
  check_content kind id content;;
  exec io (update_row kind id (edited label enabled content));;
  exec io (select_by_id kind id).
Definition UpdateHash (kind : string) (id : Z) (label : string) (enabled : bool) :=
  UpdateHashWithContent kind id label enabled None.

(** [StoreHashContext]: request traffic fills what is missing, once. *)
Definition filled (content fingerprint hint seenAt : string) (e : HashEntry.t) : HashEntry.t :=
  let traced := negb (HashEntry.APIKeyFingerprint e =? "")%string in
  HashEntry.mk (HashEntry.ID e) (HashEntry.SHA256 e) (HashEntry.Label e)
    (if (HashEntry.Content e =? "")%string then content else HashEntry.Content e)
    (HashEntry.Source e)
    (if traced then HashEntry.APIKeyFingerprint e else fingerprint)
    (if traced then HashEntry.APIKeyHint e else hint)
    (if traced then HashEntry.APIKeySeenAt e else seenAt)
    (HashEntry.Enabled e) (HashEntry.CreatedAt e).
Definition StoreHashContext (now : Time) (kind h content fingerprint hint : string) : Store unit :=
  guard_ok (kind_ok kind) "kind";;
  validateHash h;;
  guard_ok (negb (content =? "")%string) "content";;
  validateHashContent h content;;
  trace ← validateAPIKeyTrace fingerprint hint;
  let '(fingerprint, hint) := trace in
  let seenAt := if (fingerprint =? "")%string then "" else format_time now in
  exec io (λ d, Ok ((), set_table kind d
    (alter (filled content fingerprint hint seenAt) (to_lower h) (table kind d)))).
Definition StoreHashContent (now : Time) (kind h content : string) :=
  StoreHashContext now kind h content "" "".

Definition DeleteHash (kind : string) (id : Z) : Store unit :=
  guard_ok (kind_ok kind) "kind";;
  exec io (λ d, match row_with_id kind id d with
                | Some e => Ok ((), set_table kind d (delete (HashEntry.SHA256 e) (table kind d)))
                | None => Err ErrNoRows
                end).
End rules.
