(* ===== verification/StoreTheorems.v ===== *)
(** * Theorems on the rule libraries *)

From S2P Require Export StoreRules.

(** ** A program that keeps a property of the tables *)

Definition keeps {A} (P : db → Prop) (m : Store A) : Prop :=
  ∀ c, P (tables c) → P (tables (m c).2).

Section keeps.
Context (io : nat → bool) (P : db → Prop).

Lemma keeps_ret {A} (a : A) : keeps P (mret a).
Proof. by intros c. Qed.
Lemma keeps_fail {A} e : keeps P (store_fail e : Store A).
Proof. by intros c. Qed.
Lemma keeps_guard b what : keeps P (guard_ok b what).
Proof. unfold guard_ok. destruct b; [apply keeps_ret|apply keeps_fail]. Qed.

(** The continuation may use what the guard or the first program established. *)
Lemma keeps_bind {A B} (m : Store A) (f : A → Store B) :
  keeps P m → (∀ a c c', m c = (Ok a, c') → keeps P (f a)) → keeps P (m ≫= f).
Proof.
  intros Hm Hf c Hc. unfold mbind, Store_bind. specialize (Hm c Hc).
  destruct (m c) as [[a|e] c'] eqn:E; [|done]. by eapply Hf.
Qed.

Lemma keeps_guard_bind {A} b what (m : Store A) :
  (b = true → keeps P m) → keeps P (guard_ok b what;; m).
Proof.
  intros H. apply keeps_bind; [apply keeps_guard|]. intros [] c c' Hg. apply H.
  unfold guard_ok in Hg. by destruct b.
Qed.

Lemma keeps_exec {A} (f : db → result store_err (A * db)) :
  (∀ d a d', P d → f d = Ok (a, d') → P d') → keeps P (exec io f).
Proof.
  intros H c Hc. unfold exec. destruct (io _); [|done].
  destruct (f (tables c)) as [[a d]|e] eqn:E; [|done]. by eapply H.
Qed.

Lemma keeps_query {A} (f : db → A) : keeps P (query io f).
Proof. apply keeps_exec. intros d a d' Hd [= _ <-]. done. Qed.

Lemma keeps_transaction {A} (m : Store A) : keeps P m → keeps P (transaction io m).
Proof.
  intros Hm c Hc. unfold transaction.
  assert (keeps P (query io (λ _, ());; a ← m; query io (λ _, ());; mret a)) as Hk.
  { apply keeps_bind; [apply keeps_query|]. intros _ _ _ _.
    apply keeps_bind; [done|]. intros a _ _ _.
    apply keeps_bind; [apply keeps_query|]. intros _ _ _ _. apply keeps_ret. }
  specialize (Hk c Hc).
  match goal with H : context [tables (?x.2)] |- _ => destruct x as [[a|e] c'] end; done.
Qed.
End keeps.

(** ** Well-formed libraries *)

Section rules_theorems.
Context `{U : Unicode} (hashPlaintext : string → string) (io : nat → bool).

Lemma hex_ascii h : hashPattern h = true → is_ascii h.
Proof.
  unfold hashPattern, is_ascii. intros [_ H]%andb_true_iff. apply forallb_Forall in H.
  eapply Forall_impl; [exact H|]. intros c Hc. cbv beta in Hc. unfold hex_digit in Hc.
  apply orb_true_iff in Hc as [Hc|Hc]; [apply orb_true_iff in Hc as [Hc|Hc]|];
    apply andb_true_iff in Hc as [_ Hc%N.leb_le]; lia.
Qed.

(** A row sits under its digest in lower case, and the plaintext kept with
    it, if any, has that digest. *)
Record row_wf (key : string) (e : HashEntry.t) : Prop := {
  row_key : HashEntry.SHA256 e = key;
  row_lower : to_lower key = key;
  row_content : HashEntry.Content e = ""%string ∨ hashPlaintext (HashEntry.Content e) = key;
  row_trace : HashEntry.APIKeyFingerprint e = ""%string →
    HashEntry.APIKeyHint e = ""%string ∧ HashEntry.APIKeySeenAt e = ""%string;
}.

Definition library_wf (m : gmap string HashEntry.t) : Prop := map_Forall row_wf m.
Definition rules_wf (d : db) : Prop := library_wf (trusted_hashes d) ∧ library_wf (risk_hashes d).

Lemma table_wf kind d : rules_wf d → library_wf (table kind d).
Proof. intros [H1 H2]. unfold table. by destruct (_ =? _)%string. Qed.

Lemma set_table_wf kind d m : rules_wf d → library_wf m → rules_wf (set_table kind d m).
Proof. intros [H1 H2] Hm. unfold set_table. by destruct (_ =? _)%string. Qed.

Lemma content_ok_cases h content :
  content_ok hashPlaintext h content = true →
  content = ""%string ∨ hashPlaintext content = to_lower h.
Proof.
  unfold content_ok. intros [H%String.eqb_eq|H]%orb_true_iff; [by left|right].
  apply andb_true_iff in H as [_ H]. by apply String.eqb_eq.
Qed.

Lemma api_key_trace_hint fingerprint hint fp hn :
  api_key_trace fingerprint hint = Some (fp, hn) → fp = ""%string → hn = ""%string.
Proof.
  unfold api_key_trace. intros H ->. destruct (String.eqb_spec (to_lower (trim_space fingerprint)) "") as [|Hne].
  - destruct (negb _); [done|]. by injection H as <-.
  - destruct (negb _); [done|]. destruct (_ && _); [done|]. by injection H as ? _.
Qed.

Lemma upsert_wf kind h label content source fp hn seen now d a d' :
  to_lower h = h → (content = ""%string ∨ hashPlaintext content = h) →
  (fp = ""%string → hn = ""%string ∧ seen = ""%string) →
  rules_wf d → upsert_hash kind h label content source fp hn seen now d = Ok (a, d') → rules_wf d'.
Proof.
  intros Hl Hc Ht Hd. unfold upsert_hash, take_id. intros [= _ <-].
  set (d1 := match table kind d !! h with None => _ | Some _ => d end).
  assert (rules_wf d1 ∧ table kind d1 = table kind d) as [Hd1 Htab].
  { subst d1. destruct (table kind d !! h); [done|]. destruct Hd. split; [done|].
    unfold table. by destruct (_ =? _)%string. }
  apply set_table_wf; [done|]. apply map_Forall_insert_2; [|by apply table_wf].
  unfold upsert_row. destruct (table kind d !! h) as [e|] eqn:He.
  - destruct (table_wf kind d Hd h e He) as [H1 H2 H3 H4]. split; simpl; try done.
    + destruct (String.eqb_spec content ""); [done|]. destruct Hc; [done|by right].
    + destruct (String.eqb_spec (HashEntry.APIKeyFingerprint e) "") as [E|]; simpl; [auto|done].
  - split; simpl; auto.
Qed.

(** ** The operations that change the libraries *)

Inductive rule_op : Type :=
| OpAdd (now : Time) (kind h label content source fingerprint hint : string)
| OpUpdate (kind : string) (id : Z) (label : string) (enabled : bool) (content : option string)
| OpStoreContext (now : Time) (kind h content fingerprint hint : string)
| OpDelete (kind : string) (id : Z).

Definition run_op (o : rule_op) : Store unit :=
  match o with
  | OpAdd now kind h label content source fp hn =>
      AddHashSourceWithTrace hashPlaintext io now kind h label content source fp hn;; mret ()
  | OpUpdate kind id label enabled content =>
      UpdateHashWithContent hashPlaintext io kind id label enabled content;; mret ()
  | OpStoreContext now kind h content fp hn =>
      StoreHashContext hashPlaintext io now kind h content fp hn
  | OpDelete kind id => DeleteHash io kind id
  end.

(** The operations in sequence; a failed one does not stop the others. *)
Fixpoint run_ops (os : list rule_op) (c : conn) : conn :=
  match os with [] => c | o :: os => run_ops os (run_op o c).2 end.

#[local] Ltac kstep :=
  match goal with
  | |- keeps _ (mbind _ (guard_ok _ _)) => apply keeps_guard_bind; intros ?
  | |- keeps _ (mbind _ (validateHash _)) => apply keeps_guard_bind; intros ?
  | |- keeps _ (mbind _ (validateHashContent _ _ _)) => apply keeps_guard_bind; intros ?
  | |- keeps _ (mbind _ (query _ _)) => apply keeps_bind; [apply keeps_query|intros ? ? ? _]
  | |- keeps _ (mret _) => apply keeps_ret
  end.

Lemma keeps_trace {A} P fingerprint hint (f : string * string → Store A) :
  (∀ fp hn, (fp = ""%string → hn = ""%string) → keeps P (f (fp, hn))) →
  keeps P (validateAPIKeyTrace fingerprint hint ≫= f).
Proof.
  intros H. unfold validateAPIKeyTrace.
  destruct (api_key_trace fingerprint hint) as [[fp hn]|] eqn:E.
  - apply keeps_bind; [apply keeps_ret|]. intros [fp' hn'] c c' [= <- <- _].
    apply H. intros Hfp. by eapply api_key_trace_hint.
  - apply keeps_bind; [apply keeps_fail|]. by intros [] c c' [=].
Qed.

Lemma select_keeps P {A} (f : db → option A) :
  keeps P (exec io (λ d, match f d with Some a => Ok (a, d) | None => Err ErrNoRows end)).
Proof. apply keeps_exec. intros d a d' Hd H. destruct (f d); [|done]. by injection H as _ <-. Qed.

Lemma seen_empty (fp now : string) (hn : string) :
  (fp = ""%string → hn = ""%string) →
  fp = ""%string → hn = ""%string ∧ (if (fp =? "")%string then "" else now)%string = ""%string.
Proof. intros H ->. auto. Qed.

Lemma add_keeps now kind h label content source fp hn :
  keeps rules_wf (AddHashSourceWithTrace hashPlaintext io now kind h label content source fp hn).
Proof.
  unfold AddHashSourceWithTrace. kstep. set (h' := if _ && _ then _ else h). repeat kstep.
  apply keeps_trace. intros fp' hn' Ht. apply keeps_bind; [|intros _ _ _ _; apply select_keeps].
  apply keeps_exec. intros d a d' Hd. apply upsert_wf; [|by apply content_ok_cases| |done].
  - apply to_lower_idem. by apply hex_ascii.
  - by apply seen_empty.
Qed.

Lemma row_with_id_wf kind id d e :
  rules_wf d → row_with_id kind id d = Some e →
  row_wf (HashEntry.SHA256 e) e ∧ table kind d !! HashEntry.SHA256 e = Some e.
Proof.
  intros Hd H. unfold row_with_id in H. apply List.find_some in H as [Hin _].
  apply in_map_iff in Hin as ([k e'] & Heq & Hin). simpl in Heq. subst e'.
  apply list_elem_of_In, elem_of_map_to_list in Hin.
  pose proof (table_wf kind d Hd k e Hin) as Hr. destruct (row_key _ _ Hr). by split.
Qed.

Lemma check_content_ok kind id content c c' :
  check_content hashPlaintext io kind id content c = (Ok (), c') →
  tables c' = tables c ∧ ∀ k, content = Some k → ∃ e,
    row_with_id kind id (tables c) = Some e ∧
    content_ok hashPlaintext (HashEntry.SHA256 e) k = true.
Proof.
  unfold check_content. destruct content as [k|]; [|by intros [= <-]].
  unfold mbind, Store_bind, guard_ok. destruct (negb _); [|done].
  unfold mret, Store_ret, exec, select_by_id. destruct (io _); [|done].
  destruct (row_with_id kind id (tables c)) as [e|]; [|done]. simpl.
  unfold validateHashContent, guard_ok. destruct (content_ok _ _ k) eqn:Eo; [|done].
  intros [= <-]. split; [done|]. intros k' [= <-]. by exists e.
Qed.

Lemma check_content_keeps P kind id content :
  keeps P (check_content hashPlaintext io kind id content).
Proof.
  unfold check_content. destruct content; [|apply keeps_ret]. kstep.
  apply keeps_bind; [apply select_keeps|]. intros e c1 c2 _. apply keeps_guard.
Qed.

Lemma update_row_wf kind id label enabled content d a d' :
  rules_wf d →
  (∀ k, content = Some k → ∃ e, row_with_id kind id d = Some e ∧
     content_ok hashPlaintext (HashEntry.SHA256 e) k = true) →
  update_row kind id (edited label enabled content) d = Ok (a, d') → rules_wf d'.
Proof.
  intros Hd Hcont. unfold update_row. destruct (row_with_id kind id d) as [e|] eqn:Er; [|done].
  intros [= _ <-]. destruct (row_with_id_wf kind id d e Hd Er) as [[H1 H2 H3 H4] _].
  apply set_table_wf; [done|]. apply map_Forall_insert_2; [|by apply table_wf].
  split; simpl; try done. destruct content as [k|]; [|done]. simpl.
  destruct (Hcont k eq_refl) as (e' & [= <-] & Hk).
  apply content_ok_cases in Hk. by rewrite H2 in Hk.
Qed.

Lemma update_keeps kind id label enabled content :
  keeps rules_wf (UpdateHashWithContent hashPlaintext io kind id label enabled content).
Proof.
  unfold UpdateHashWithContent. repeat kstep. intros c Hc.
  pose proof (check_content_keeps rules_wf kind id content c Hc) as Hk.
  destruct (check_content hashPlaintext io kind id content c) as [[[]|e] c1] eqn:E;
    unfold mbind, Store_bind; rewrite E; [|done].
  apply check_content_ok in E as [Ht Hcont]. rewrite <- Ht in Hcont.
  assert (rules_wf (tables (exec io (update_row kind id (edited (trim_space label) enabled content)) c1).2))
    as Hu.
  { unfold exec. destruct (io _); [|done].
    destruct (update_row _ _ _ _) as [[a d]|e] eqn:Eu; [|done]. by eapply update_row_wf. }
  destruct (exec io _ c1) as [[u|e] c2]; [|done]. exact (select_keeps rules_wf (row_with_id kind id) c2 Hu).
Qed.

Lemma store_context_keeps now kind h content fp hn :
  keeps rules_wf (StoreHashContext hashPlaintext io now kind h content fp hn).
Proof.
  unfold StoreHashContext. repeat kstep. apply keeps_trace. intros fp' hn' Ht.
  apply keeps_exec. intros d a d' Hd [= _ <-]. apply set_table_wf; [done|].
  intros k e He. pose proof (table_wf kind d Hd) as Hlib.
  destruct (decide (k = to_lower h)) as [->|Hne].
  2: { rewrite lookup_alter_ne in He by done. by apply Hlib. }
  rewrite lookup_alter_eq in He. destruct (table kind d !! to_lower h) as [e0|] eqn:He0; [|done].
  simpl in He. injection He as <-. destruct (Hlib _ _ He0) as [H1' H2' H3' H4'].
  split; simpl; try done.
  - destruct (String.eqb_spec (HashEntry.Content e0) ""); [|exact H3'].
    by apply content_ok_cases.
  - destruct (String.eqb_spec (HashEntry.APIKeyFingerprint e0) ""); simpl; [|done].
    by apply seen_empty.
Qed.

Lemma delete_keeps kind id : keeps rules_wf (DeleteHash io kind id).
Proof.
  unfold DeleteHash. kstep. apply keeps_exec. intros d a d' Hd.
  destruct (row_with_id kind id d) as [e|]; [|done]. intros [= _ <-].
  apply set_table_wf; [done|]. apply map_Forall_delete. by apply table_wf.
Qed.

Lemma run_op_keeps o : keeps rules_wf (run_op o).
Proof.
  destruct o; simpl.
  - apply keeps_bind; [apply add_keeps|]. intros. apply keeps_ret.
  - apply keeps_bind; [apply update_keeps|]. intros. apply keeps_ret.
  - apply store_context_keeps.
  - apply delete_keeps.
Qed.

(** The plaintext of a rule is always a preimage of its digest: whatever
    the administrator and request traffic do to the libraries, in whatever
    order and with whatever I/O errors, every rule sits under its digest in
    lower case, keeps either no text or a text with that digest, and has a
    key hint only together with the fingerprint it belongs to. *)
Theorem rules_stay_wf os c : rules_wf (tables c) → rules_wf (tables (run_ops os c)).
Proof.
  revert c. induction os as [|o os IH]; intros c Hc; [done|].
  simpl. by apply IH, run_op_keeps.
Qed.

(** ** First write wins *)

Definition kept_if (old new : string) : Prop := old ≠ ""%string → new = old.

(** What request traffic may do to a row: fill the missing text and the
    missing trace, and nothing else. *)
Record only_filled (e e' : HashEntry.t) : Prop := {
  of_same : HashEntry.ID e' = HashEntry.ID e ∧ HashEntry.SHA256 e' = HashEntry.SHA256 e ∧
    HashEntry.Label e' = HashEntry.Label e ∧ HashEntry.Source e' = HashEntry.Source e ∧
    HashEntry.Enabled e' = HashEntry.Enabled e ∧ HashEntry.CreatedAt e' = HashEntry.CreatedAt e;
  of_content : kept_if (HashEntry.Content e) (HashEntry.Content e');
  of_trace : HashEntry.APIKeyFingerprint e ≠ ""%string →
    HashEntry.APIKeyFingerprint e' = HashEntry.APIKeyFingerprint e ∧
    HashEntry.APIKeyHint e' = HashEntry.APIKeyHint e ∧
    HashEntry.APIKeySeenAt e' = HashEntry.APIKeySeenAt e;
}.

Lemma filled_only content fp hn seen e : only_filled e (filled content fp hn seen e).
Proof.
  split; simpl; [done| |].
  - intros H. by destruct (String.eqb_spec (HashEntry.Content e) "").
  - intros H. by destruct (String.eqb_spec (HashEntry.APIKeyFingerprint e) "").
Qed.

Lemma only_filled_refl e : only_filled e e.
Proof. split; [done|by intros ?|done]. Qed.

Definition grows_by_filling (m m' : gmap string HashEntry.t) : Prop :=
  dom m' = dom m ∧ ∀ k e, m !! k = Some e → ∃ e', m' !! k = Some e' ∧ only_filled e e'.

Lemma grows_refl m : grows_by_filling m m.
Proof. split; [done|]. intros k e H. exists e. split; [done|apply only_filled_refl]. Qed.

Lemma grows_alter content fp hn seen key m :
  grows_by_filling m (alter (filled content fp hn seen) key m).
Proof.
  split; [apply dom_alter_L|]. intros k e H. destruct (decide (k = key)) as [->|Hne].
  - rewrite lookup_alter_eq, H. eexists. split; [done|]. apply filled_only.
  - rewrite lookup_alter_ne by done. exists e. split; [done|apply only_filled_refl].
Qed.

Lemma only_filled_trans e1 e2 e3 : only_filled e1 e2 → only_filled e2 e3 → only_filled e1 e3.
Proof.
  intros [S1 C1 T1] [S2 C2 T2]. split; [naive_solver congruence| |].
  - intros H. pose proof (C1 H) as Hc. rewrite <- Hc. apply C2. by rewrite Hc.
  - intros H. destruct (T1 H) as (Hf & Hh & Hs). rewrite <- Hf in H.
    destruct (T2 H) as (? & ? & ?). split_and!; congruence.
Qed.

Lemma grows_trans m1 m2 m3 :
  grows_by_filling m1 m2 → grows_by_filling m2 m3 → grows_by_filling m1 m3.
Proof.
  intros [D1 G1] [D2 G2]. split; [congruence|]. intros k e H.
  destruct (G1 k e H) as (e2 & H2 & O2). destruct (G2 k e2 H2) as (e3 & H3 & O3).
  exists e3. split; [done|]. by eapply only_filled_trans.
Qed.

(** Request traffic never changes what is known about a rule: recording
    the context of a match creates and deletes no rule, and changes neither
    the label, the state or the source of one nor a text or a key trace that
    is already there, in either library, whether it succeeds or fails. *)
Theorem traffic_only_fills now kind h content fp hn c :
  let c' := (StoreHashContext hashPlaintext io now kind h content fp hn c).2 in
  grows_by_filling (trusted_hashes (tables c)) (trusted_hashes (tables c')) ∧
  grows_by_filling (risk_hashes (tables c)) (risk_hashes (tables c')).
Proof.
  set (P := λ d, grows_by_filling (trusted_hashes (tables c)) (trusted_hashes d) ∧
                 grows_by_filling (risk_hashes (tables c)) (risk_hashes d)).
  enough (keeps P (StoreHashContext hashPlaintext io now kind h content fp hn)) as Hk.
  { apply Hk. split; apply grows_refl. }
  unfold StoreHashContext. repeat kstep. apply keeps_trace. intros fp' hn' _.
  apply keeps_exec. intros d a d' [Ht Hr] [= _ <-]. unfold set_table, table.
  destruct (kind =? "risk")%string; split; simpl; try done;
    (eapply grows_trans; [eassumption|apply grows_alter]).
Qed.

(** ** Lookup *)

Definition effective_digest (h content : string) : string :=
  if blank h && negb (content =? "")%string then hashPlaintext content else h.

Lemma exec_ok {A} (f : db → result store_err (A * db)) c :
  (∀ n, io n = true) →
  exec io f c = match f (tables c) with
                | Ok (a, d) => (Ok a, mk_conn d (S (statements c)))
                | Err e => (Err e, mk_conn (tables c) (S (statements c)))
                end.
Proof. intros H. unfold exec. by rewrite H. Qed.

Lemma LookupHash_result h c :
  (∀ n, io n = true) →
  (LookupHash io h c).1 = Ok (match enabled_row "risk" h (tables c) with
                              | Some e => Some (match_of "risk" e)
                              | None => match_of "trusted" <$> enabled_row "trusted" h (tables c)
                              end).
Proof.
  intros Hio. unfold LookupHash, query, mbind, Store_bind. rewrite exec_ok by done.
  destruct (enabled_row "risk" h (tables c)); [done|]. by rewrite exec_ok.
Qed.

(** The state an addition leaves: the row under the digest, the other table
    untouched. *)
Lemma add_result now kind h label content source fp hn c e c' :
  (∀ n, io n = true) →
  AddHashSourceWithTrace hashPlaintext io now kind h label content source fp hn c = (Ok e, c') →
  let k := to_lower (effective_digest h content) in
  hashPattern (effective_digest h content) = true ∧
  kind_ok kind = true ∧ table kind (tables c') !! k = Some e ∧ HashEntry.Enabled e = true ∧
  HashEntry.Label e = trim_space label ∧
  (∀ other, kind_ok other = true → other ≠ kind → table other (tables c') = table other (tables c)).
Proof.
  intros Hio. unfold AddHashSourceWithTrace, mbind, Store_bind, validateHash, validateHashContent,
    validateAPIKeyTrace, guard_ok.
  fold (effective_digest h content). cbv zeta. set (k := to_lower (effective_digest h content)).
  destruct (kind_ok kind) eqn:Hk; [|done]. unfold mret, Store_ret.
  destruct (hashPattern (effective_digest h content)); [|done].
  destruct (content_ok _ _ _); [|done]. destruct (label_ok _); [|done].
  destruct (_ && _ && _); [|done]. destruct (api_key_trace fp hn) as [[fp' hn']|]; [|done].
  rewrite exec_ok by done. unfold upsert_hash, take_id.
  set (d1 := match table kind (tables c) !! k with None => _ | Some _ => _ end).
  assert (∀ other, table other d1 = table other (tables c)) as Hd1.
  { intros other. subst d1. unfold table. by destruct (_ !! k), (other =? "risk")%string. }
  rewrite exec_ok by done. cbn [tables]. unfold select_by_sha.
  set (row := upsert_row _ _ _ _ _ _ _ _ _ _).
  assert (table kind (set_table kind d1 (<[k:=row]> (table kind d1))) !! k = Some row) as Hrow.
  { unfold table, set_table. by destruct (kind =? "risk")%string; simpl; rewrite lookup_insert_eq. }
  rewrite Hrow. intros [= <- <-]. cbn [tables]. split_and!; try done.
  - subst row. unfold upsert_row. by destruct (_ !! k).
  - subst row. unfold upsert_row. by destruct (_ !! k).
  - intros other Ho Hne. rewrite <- Hd1. unfold table, set_table, kind_ok in *.
    destruct (String.eqb_spec kind "risk"), (String.eqb_spec other "risk"); try done;
      [congruence|].
    exfalso. apply orb_true_iff in Hk, Ho.
    destruct Hk as [Hk|Hk], Ho as [Ho|Ho]; to_prop; congruence.
Qed.

(** A rule that was added is found under every spelling of its digest,
    and risk wins: after a successful addition the lookup answers with the
    risk rule when there is an enabled one, the one just added in
    particular, and a trusted rule is found only when no enabled risk rule
    has the digest. *)
Theorem added_rule_is_found now kind h label content source fp hn c e c' h' :
  (∀ n, io n = true) →
  AddHashSourceWithTrace hashPlaintext io now kind h label content source fp hn c = (Ok e, c') →
  to_lower h' = to_lower (effective_digest h content) →
  ∃ m, (LookupHash io h' c').1 = Ok (Some m) ∧
    ((HashMatch.Kind m = "risk"%string ∧
      (kind = "risk"%string → m = match_of "risk" e ∧ HashMatch.Note m = trim_space label) ∧
      (kind = "trusted"%string → ∃ r, enabled_row "risk" h' (tables c) = Some r ∧ m = match_of "risk" r)) ∨
     (kind = "trusted"%string ∧ m = match_of "trusted" e ∧ enabled_row "risk" h' (tables c) = None)).
Proof.
  intros Hio Hadd Hh. rewrite LookupHash_result by done.
  apply add_result in Hadd as (_ & Hk & Hrow & Hen & Hlab & Hother); [|done].
  assert (enabled_row kind h' (tables c') = Some e) as He.
  { unfold enabled_row. by rewrite Hh, Hrow, Hen. }
  unfold kind_ok in Hk. apply orb_true_iff in Hk as [->%String.eqb_eq| ->%String.eqb_eq].
  - assert (enabled_row "risk" h' (tables c') = enabled_row "risk" h' (tables c)) as ->.
    { unfold enabled_row. by rewrite Hother. }
    destruct (enabled_row "risk" h' (tables c)) as [r|] eqn:Hr.
    + eexists. split; [done|]. left. split; [done|]. split; [done|]. intros _. by exists r.
    + rewrite He. eexists. split; [done|]. right. done.
  - rewrite He. eexists. split; [done|]. left. split; [done|]. split; [|done].
    intros _. split; [done|]. simpl. done.
Qed.
End rules_theorems.

(** ** Witnesses *)

(** A digest for demonstrations: 64 times the last hexadecimal digit of the
    length in binary. *)
Definition demo_hash (s : string) : string :=
  S_ (replicate 64 (if Nat.even (length (B s)) then "a" else "b")%char).

Definition demo_conn : conn := mk_conn empty_db 0.
Definition demo_add (kind label content : string) : rule_op :=
  OpAdd 0 kind "" label content "manual" "" "".

Lemma rules_stay_wf_witness :
  let c := run_ops demo_hash (λ _, true) [demo_add "risk" "x" "attack"; OpDelete "risk" 7] demo_conn in
  rules_wf demo_hash (tables c) ∧ size (risk_hashes (tables c)) = 1.
Proof.
  intros c. split; [|vm_compute; reflexivity].
  apply (rules_stay_wf demo_hash (λ _, true)). split; apply map_Forall_empty.
Defined.

Lemma added_rule_is_found_witness :
  let added := AddHashSourceWithTrace demo_hash (λ _, true) 0 "risk" "" "label" "attack" "manual" "" ""
                 demo_conn in
  ∃ e c' m, added = (Ok e, c') ∧
    (LookupHash (λ _, true) (S_ (replicate 64 "A"%char)) c').1 = Ok (Some m).
Proof.
  intros added. destruct added as [[e|err] c'] eqn:E; [|vm_compute in E; discriminate].
  destruct (added_rule_is_found demo_hash (λ _, true) 0 "risk" "" "label" "attack" "manual" "" ""
    demo_conn e c' (S_ (replicate 64 "A"%char)) ltac:(reflexivity) E
    ltac:(vm_compute; reflexivity)) as (m & Hm & _).
  exists e, c', m. split; [reflexivity|exact Hm].
Defined.
