(* ===== verification/StoreJobs.v ===== *)
(** * Asynchronous review jobs ([internal/storage/store.go], jobs, votes and
    promotions)

    A job is the review of one digest by the quorum.  AES-GCM is the interface
    [Cipher]; the nonce of a ciphertext is the number of the statement that
    stores it. *)

From S2P Require Export StoreRules.

Class Cipher := {
  seal : nat → bytes → bytes;
  unseal : bytes → option bytes;
}.

(** What the store relies on: decryption inverts encryption, and a ciphertext
    is never empty (it starts with the nonce). *)
Class CipherLaws `{Cipher} := {
  unseal_seal : ∀ n p, unseal (seal n p) = Some p;
  seal_nonempty : ∀ n p, seal n p ≠ [];
}.

Section jobs.
Context `{U : Unicode, C : Cipher} (hashPlaintext : string → string) (io : nat → bool).

Definition encrypt (plain : string) : Store bytes := λ c, (Ok (seal (statements c) (B plain)), c).
Definition decrypt (ciphertext : bytes) : Store string :=
  match unseal ciphertext with Some p => mret (S_ p) | None => store_fail ErrDecrypt end.
(** An empty payload is stored as the empty blob. *)
Definition encrypt_payload (plain : string) : Store bytes :=
  if (plain =? "")%string then mret [] else encrypt plain.

Definition job_by_key (key : string) (d : db) : option ReviewJob.t :=
  List.find (λ j, (ReviewJob.JobKey j =? key)%string) (map snd (map_to_list (review_jobs d))).

(** [INSERT OR IGNORE INTO review_jobs(...)]; the number of rows. *)
Definition insert_job (key sha field model fp hn : string) (sampled : bool)
    (sample content : bytes) (now : string) (d : db) : result store_err (bool * db) :=
  match job_by_key key d with
  | Some _ => Ok (false, d)
  | None =>
      let '(id, d) := take_id d in
      Ok (true, set_jobs d (<[id := ReviewJob.mk id key sha field model fp hn sampled "queued" "" 0
                                      "" "" sample content now now ""]> (review_jobs d)))
  end.

Definition fill_payload (sample content : bytes) (fp hn now : string) (j : ReviewJob.t) : ReviewJob.t :=
  let traced := negb (ReviewJob.APIKeyFingerprint j =? "")%string in
  ReviewJob.set_payload j
    (if bool_decide (ReviewJob.SampleCiphertext j = []) then sample else ReviewJob.SampleCiphertext j)
    (if bool_decide (ReviewJob.ContentCiphertext j = []) then content else ReviewJob.ContentCiphertext j)
    (if traced then ReviewJob.APIKeyFingerprint j else fp)
    (if traced then ReviewJob.APIKeyHint j else hn) now.

(** [UPDATE review_jobs SET ... WHERE p], the number of rows changed. *)
Definition update_jobs (p : ReviewJob.t → bool) (f : ReviewJob.t → ReviewJob.t) (d : db) :
    result store_err (nat * db) :=
  Ok (size (filter (λ kj, p kj.2 = true) (review_jobs d)),
      set_jobs d ((λ j, if p j then f j else j) <$> review_jobs d)).

Definition CreateReviewJob (now : Time) (jobKey sha256Value fieldName model reviewContent ruleContent : string)
    (sampled : bool) (fingerprint hint : string) : Store (ReviewJob.t * bool) :=
  validateHash sha256Value;;
  let jobKey := trim_space jobKey in
  guard_ok (negb (jobKey =? "")%string && (slen jobKey <=? 256)%Z) "job key";;
  trace ← validateAPIKeyTrace fingerprint hint;
  let '(fp, hn) := trace in
  let now := format_time now in
  sample ← encrypt_payload reviewContent;
  (if (ruleContent =? "")%string then mret () else validateHashContent hashPlaintext sha256Value ruleContent);;
  content ← encrypt_payload ruleContent;
  created ← exec io (insert_job jobKey (to_lower sha256Value) fieldName model fp hn sampled sample content now);
  (if created || (bool_decide (content = []) && bool_decide (sample = [])) then mret 0
   else exec io (update_jobs (λ j, (ReviewJob.JobKey j =? jobKey)%string)
                   (fill_payload sample content fp hn now)));;
  j ← exec io (λ d, match job_by_key jobKey d with Some j => Ok (j, d) | None => Err ErrNoRows end);
  mret (j, created).

Definition load_payload (id : Z) (f : ReviewJob.t → bytes) : Store string :=
  b ← exec io (λ d, match review_jobs d !! id with Some j => Ok (f j, d) | None => Err ErrNoRows end);
  if bool_decide (b = []) then mret ""%string else decrypt b.
Definition LoadReviewJobSample (id : Z) : Store string := load_payload id ReviewJob.SampleCiphertext.
Definition LoadReviewJobContent (id : Z) : Store string := load_payload id ReviewJob.ContentCiphertext.

Definition has_id (id : Z) (j : ReviewJob.t) : bool := (ReviewJob.ID j =? id)%Z.
Definition due (now : string) (j : ReviewJob.t) : bool :=
  bool_decide (ReviewJob.Status j ∈ ["queued"; "retry_pending"]%string) &&
  ((ReviewJob.NextAttemptAt j =? "")%string || text_le (ReviewJob.NextAttemptAt j) now).

Definition started (now : string) (j : ReviewJob.t) : ReviewJob.t :=
  ReviewJob.set_status j "running" (ReviewJob.Attempts j + 1) (ReviewJob.NextAttemptAt j)
    (ReviewJob.LastError j) now (ReviewJob.CompletedAt j).

Definition MarkReviewJobRunning (now : Time) (id : Z) : Store unit :=
  exec io (update_jobs (has_id id) (started (format_time now)));; mret ().

Definition ClaimReviewJob (now : Time) (id : Z) : Store bool :=
  let now := format_time now in
  n ← exec io (update_jobs (λ j, has_id id j && due now j && (ReviewJob.Attempts j <? 3)%Z)
                           (started now));
  mret (n =? 1)%nat.

Definition ScheduleReviewRetry (now : Time) (id : Z) (errText : string) (delay : Duration) : Store unit :=
  let delay := if (delay <? second)%Z then second else delay in
  let errText := if (500 <? slen errText)%Z then S_ (take 500 (B errText)) else errText in
  exec io (update_jobs (has_id id) (λ j,
    ReviewJob.set_status j "retry_pending" (ReviewJob.Attempts j) (format_time (now + delay)) errText
      (format_time now) (ReviewJob.CompletedAt j)));; mret ().

Fixpoint insert_asc (j : ReviewJob.t) (l : list ReviewJob.t) : list ReviewJob.t :=
  match l with
  | [] => [j]
  | x :: l => if (ReviewJob.ID j <? ReviewJob.ID x)%Z then j :: x :: l else x :: insert_asc j l
  end.
Definition jobs_asc (d : db) : list ReviewJob.t :=
  foldr insert_asc [] (map snd (map_to_list (review_jobs d))).

Definition ListDueReviewJobs (now : Time) (limit : Z) : Store (list ReviewJob.t) :=
  let limit := if (limit <? 1)%Z || (100 <? limit)%Z then 25%Z else limit in
  query io (λ d, take (Z.to_nat limit) (List.filter (due (format_time now)) (jobs_asc d))).

Definition stale (cutoff : string) (j : ReviewJob.t) : bool :=
  (ReviewJob.Status j =? "running")%string &&
  ((ReviewJob.UpdatedAt j =? "")%string || text_lt (ReviewJob.UpdatedAt j) cutoff).

(** The clock is read twice, [before] for the cutoff. *)
Definition RequeueStaleReviewJobs (before now : Time) (age : Duration) : Store unit :=
  let age := if (age <? minute)%Z then (2 * minute)%Z else age in
  let cutoff := format_time (before - age) in
  let now := format_time now in
  exec io (update_jobs (λ j, stale cutoff j && (3 <=? ReviewJob.Attempts j)%Z) (λ j,
    ReviewJob.set_status j "completed_no_quorum" (ReviewJob.Attempts j) (ReviewJob.NextAttemptAt j)
      "worker_restarted_after_max_attempts" now now));;
  exec io (update_jobs (λ j, stale cutoff j && (ReviewJob.Attempts j <? 3)%Z) (λ j,
    ReviewJob.set_status j "retry_pending" (ReviewJob.Attempts j) "" "worker_restarted" now
      (ReviewJob.CompletedAt j)));;
  mret ().

(** The foreign key on [review_jobs] is enforced. *)
Definition RecordReviewVote (now : Time) (v : ReviewVote.t) : Store unit :=
  guard_ok (negb ((ReviewVote.JobID v <? 1)%Z || (ReviewVote.NodeSlot v =? "")%string)) "vote";;
  exec io (λ d,
    match review_jobs d !! ReviewVote.JobID v with
    | None => Err ErrConstraint
    | Some _ =>
        Ok ((), set_votes d (<[(ReviewVote.JobID v, ReviewVote.NodeSlot v) :=
          ReviewVote.mk (ReviewVote.JobID v) (ReviewVote.NodeSlot v) (ReviewVote.Result v)
            (ReviewVote.Confidence v) (ReviewVote.Reason v) (ReviewVote.Category v)
            (ReviewVote.LatencyMS v) (ReviewVote.Error v) (format_time now)]> (review_votes d)))
    end).

Definition CompleteReviewJob (now : Time) (id : Z) (status promotion : string) : Store unit :=
  exec io (update_jobs (has_id id) (λ j, ReviewJob.set_promotion j status promotion (format_time now)));;
  mret ().

(** [INSERT OR IGNORE] ignores a duplicate, not a missing job. *)
Definition insert_promotion (jobID : Z) (sha kind summary now : string) (d : db) :
    result store_err (unit * db) :=
  match review_jobs d !! jobID, rule_promotions d !! (jobID, kind) with
  | None, _ => Err ErrConstraint
  | Some _, Some _ => Ok ((), d)
  | Some _, None =>
      Ok ((), set_promotions d (<[(jobID, kind) := RulePromotion.mk jobID sha kind summary now]>
                                  (rule_promotions d)))
  end.

Definition clear_content (j : ReviewJob.t) : ReviewJob.t :=
  ReviewJob.set_payload j (ReviewJob.SampleCiphertext j) [] (ReviewJob.APIKeyFingerprint j)
    (ReviewJob.APIKeyHint j) (ReviewJob.UpdatedAt j).

(** The statements of the transaction of [PromoteHash]. *)
Definition promote_body (jobID : Z) (sha kind content summary fp hn seenAt now : string) : Store unit :=
  exec io (upsert_hash kind sha "automatic async quorum" content "async_quorum" fp hn seenAt now);;
  exec io (insert_promotion jobID sha kind summary now);;
  exec io (update_jobs (has_id jobID) clear_content);;
  mret ().

Definition PromoteHash (now : Time) (jobID : Z) (sha256Value kind content summary fingerprint hint : string) :
    Store unit :=
  guard_ok (kind_ok kind) "kind";;
  validateHash sha256Value;;
  guard_ok (negb (content =? "")%string) "content";;
  validateHashContent hashPlaintext sha256Value content;;
  trace ← validateAPIKeyTrace fingerprint hint;
  let '(fp, hn) := trace in
  let now := format_time now in
  let seenAt := if (fp =? "")%string then "" else now in
  transaction io (promote_body jobID (to_lower sha256Value) kind content summary fp hn seenAt now).

Definition ListReviewJobs (limit : Z) : Store (list ReviewJob.t) :=
  let limit := if (limit <? 1)%Z || (500 <? limit)%Z then 100%Z else limit in
  query io (λ d, take (Z.to_nat limit) (rev (jobs_asc d))).
End jobs.
