(* ===== verification/StoreJobsTheorems.v ===== *)
(** * Theorems on review jobs and promotions *)

From S2P Require Export StoreTheorems StoreJobs.

Ltac keeps_step :=
  match goal with
  | |- keeps _ (mbind _ (guard_ok _ _)) => apply keeps_guard_bind; intros ?
  | |- keeps _ (mbind _ (validateHash _)) => apply keeps_guard_bind; intros ?
  | |- keeps _ (mbind _ (validateHashContent _ _ _)) => apply keeps_guard_bind; intros ?
  | |- keeps _ (mbind _ (query _ _)) => apply keeps_bind; [apply keeps_query|intros ? ? ? _]
  | |- keeps _ (mbind _ (validateAPIKeyTrace _ _)) => apply keeps_trace; intros ? ? ?
  | |- keeps _ (mbind _ _) => apply keeps_bind; [|intros ? ? ? _]
  | |- keeps _ (mret _) => apply keeps_ret
  | |- keeps _ (store_fail _) => apply keeps_fail
  | |- keeps _ (if ?b then _ else _) => let E := fresh "E" in destruct b eqn:E
  end.

Section jobs_theorems.
Context `{U : Unicode, C : Cipher} (hashPlaintext : string → string) (io : nat → bool).

Lemma keeps_encrypt_payload P plain : keeps P (encrypt_payload plain).
Proof. unfold encrypt_payload. keeps_step; by intros c. Qed.

(** The operations on jobs that the program performs. *)
Inductive job_op : Type :=
| JCreate (now : Time) (key sha field model review rule : string) (sampled : bool) (fp hn : string)
| JClaim (now : Time) (id : Z)
| JRetry (now : Time) (id : Z) (err : string) (delay : Duration)
| JRequeue (before now : Time) (age : Duration)
| JVote (now : Time) (v : ReviewVote.t)
| JComplete (now : Time) (id : Z) (status promotion : string)
| JPromote (now : Time) (id : Z) (sha kind content summary fp hn : string).

Definition run_job_op (o : job_op) : Store unit :=
  match o with
  | JCreate now key sha field model review rule sampled fp hn =>
      CreateReviewJob hashPlaintext io now key sha field model review rule sampled fp hn;; mret ()
  | JClaim now id => ClaimReviewJob io now id;; mret ()
  | JRetry now id err delay => ScheduleReviewRetry io now id err delay
  | JRequeue before now age => RequeueStaleReviewJobs io before now age
  | JVote now v => RecordReviewVote io now v
  | JComplete now id status promotion => CompleteReviewJob io now id status promotion
  | JPromote now id sha kind content summary fp hn =>
      PromoteHash hashPlaintext io now id sha kind content summary fp hn
  end.

Fixpoint run_job_ops (os : list job_op) (c : conn) : conn :=
  match os with [] => c | o :: os => run_job_ops os (run_job_op o c).2 end.

Lemma run_job_ops_keeps P os c :
  (∀ o, o ∈ os → keeps P (run_job_op o)) → P (tables c) → P (tables (run_job_ops os c)).
Proof.
  revert c. induction os as [|o os IH]; intros c H Hc; [done|]. simpl. apply IH.
  - intros o' Ho'. apply H. by right.
  - apply H; [by left|done].
Qed.

(** ** Well-formed job tables *)

Record jobs_wf (d : db) : Prop := {
  jobs_id : map_Forall (λ id j, ReviewJob.ID j = id ∧ (id < next_id d)%Z) (review_jobs d);
  jobs_attempts : map_Forall (λ _ j, (0 ≤ ReviewJob.Attempts j ≤ 3)%Z) (review_jobs d);
  jobs_keys : ∀ i1 i2 j1 j2, review_jobs d !! i1 = Some j1 → review_jobs d !! i2 = Some j2 →
    ReviewJob.JobKey j1 = ReviewJob.JobKey j2 → i1 = i2;
}.

Lemma job_by_key_none key d id j :
  job_by_key key d = None → review_jobs d !! id = Some j → ReviewJob.JobKey j ≠ key.
Proof.
  intros Hn Hj Heq. unfold job_by_key in Hn.
  pose proof (List.find_none _ _ Hn j) as H. cbv beta in H.
  rewrite Heq, String.eqb_refl in H. discriminate H.
  apply in_map_iff. exists (id, j). split; [done|].
  by apply list_elem_of_In, elem_of_map_to_list.
Qed.

Lemma insert_job_wf key sha field model fp hn sampled sample content now d a d' :
  jobs_wf d → insert_job key sha field model fp hn sampled sample content now d = Ok (a, d') →
  jobs_wf d'.
Proof.
  intros [Hid Hat Hkey]. unfold insert_job, take_id.
  destruct (job_by_key key d) eqn:Hk; [by intros [= _ <-]|]. intros [= _ <-]. split; simpl.
  - apply map_Forall_insert_2; [split; [done|lia]|].
    eapply map_Forall_impl; [exact Hid|]. intros i j [? ?]. split; [done|lia].
  - apply map_Forall_insert_2; [simpl; lia|done].
  - intros i1 i2 j1 j2 H1 H2 Hjk.
    apply lookup_insert_Some in H1 as [[<- <-]|[Hne1 H1]], H2 as [[<- <-]|[Hne2 H2]]; simpl in Hjk;
      try done; [| |by eapply Hkey].
    + by destruct (job_by_key_none key d _ _ Hk H2).
    + by destruct (job_by_key_none key d _ _ Hk H1).
Qed.

(** Updates that keep the identity of a job and do not run it again beyond
    the third attempt. *)
Lemma update_jobs_wf p f d a d' :
  (∀ j, ReviewJob.ID (f j) = ReviewJob.ID j ∧ ReviewJob.JobKey (f j) = ReviewJob.JobKey j) →
  (∀ j, p j = true → (0 ≤ ReviewJob.Attempts j ≤ 3)%Z → (0 ≤ ReviewJob.Attempts (f j) ≤ 3)%Z) →
  jobs_wf d → update_jobs p f d = Ok (a, d') → jobs_wf d'.
Proof.
  intros Hf Hp [Hid Hat Hkey] [= _ <-]. split; simpl.
  - intros i j. rewrite lookup_fmap. destruct (review_jobs d !! i) as [j0|] eqn:E; [|done].
    simpl. intros [= <-]. destruct (Hid i j0 E). destruct (p j0); [|done].
    destruct (Hf j0) as [-> _]. done.
  - intros i j. rewrite lookup_fmap. destruct (review_jobs d !! i) as [j0|] eqn:E; [|done].
    simpl. intros [= <-]. pose proof (Hat i j0 E). simpl in *. destruct (p j0) eqn:Ep; auto.
  - intros i1 i2 j1 j2. rewrite !lookup_fmap.
    destruct (review_jobs d !! i1) as [k1|] eqn:E1; [|done].
    destruct (review_jobs d !! i2) as [k2|] eqn:E2; [|done]. simpl. intros [= <-] [= <-] Hk.
    apply (Hkey i1 i2 k1 k2 E1 E2).
    destruct (Hf k1) as [_ H1], (Hf k2) as [_ H2]. destruct (p k1), (p k2); congruence.
Qed.

(** A change of other tables. *)
Lemma jobs_wf_same d d' :
  review_jobs d' = review_jobs d → (next_id d ≤ next_id d')%Z → jobs_wf d → jobs_wf d'.
Proof.
  intros Hj Hn [Hid Hat Hkey]. split; rewrite Hj; try done.
  eapply map_Forall_impl; [exact Hid|]. intros i j [? ?]. split; [done|lia].
Qed.

Lemma keeps_update_wf p f :
  (∀ j, ReviewJob.ID (f j) = ReviewJob.ID j ∧ ReviewJob.JobKey (f j) = ReviewJob.JobKey j) →
  (∀ j, p j = true → (0 ≤ ReviewJob.Attempts j ≤ 3)%Z → (0 ≤ ReviewJob.Attempts (f j) ≤ 3)%Z) →
  keeps jobs_wf (exec io (update_jobs p f)).
Proof. intros Hf Hp. apply keeps_exec. intros d a d' Hd H. by eapply update_jobs_wf. Qed.

Lemma select_job_keeps P {A} (f : db → option A) :
  keeps P (exec io (λ d, match f d with Some a => Ok (a, d) | None => Err ErrNoRows end)).
Proof. apply keeps_exec. intros d a d' Hd H. destruct (f d); [|done]. by injection H as _ <-. Qed.

Lemma upsert_frame kind h label content source fp hn seen now d a d' :
  upsert_hash kind h label content source fp hn seen now d = Ok (a, d') →
  review_jobs d' = review_jobs d ∧ rule_promotions d' = rule_promotions d ∧
  (next_id d ≤ next_id d')%Z.
Proof.
  unfold upsert_hash, take_id, set_table. destruct (table kind d !! h), (kind =? "risk")%string;
    intros [= _ <-]; simpl; split_and!; done || lia.
Qed.

Lemma run_job_op_wf o : keeps jobs_wf (run_job_op o).
Proof.
  destruct o; simpl.
  - unfold CreateReviewJob. repeat keeps_step; try apply keeps_encrypt_payload;
      try apply keeps_guard; try apply select_job_keeps.
    + apply keeps_exec. intros d x d' Hd H'. by eapply insert_job_wf.
    + apply keeps_update_wf; [done|]. intros j _ Hj. exact Hj.
  - unfold ClaimReviewJob. repeat keeps_step. apply keeps_update_wf; [done|].
    intros j Hp Hj. simpl. to_prop. lia.
  - unfold ScheduleReviewRetry. repeat keeps_step. apply keeps_update_wf; [done|]. by intros j _ Hj.
  - unfold RequeueStaleReviewJobs. repeat keeps_step; (apply keeps_update_wf; [done|]; by intros j _ Hj).
  - unfold RecordReviewVote. repeat keeps_step. apply keeps_exec. intros d x d' Hd H'.
    destruct (review_jobs d !! _); [|done]. injection H' as _ <-. by eapply jobs_wf_same; [..|exact Hd]; simpl; [done|lia].
  - unfold CompleteReviewJob. repeat keeps_step. apply keeps_update_wf; [done|]. by intros j _ Hj.
  - unfold PromoteHash. do 5 keeps_step. apply keeps_transaction. unfold promote_body.
    repeat keeps_step.
    + apply keeps_exec. intros d x d' Hd H'. apply upsert_frame in H' as (? & _ & ?).
      by eapply jobs_wf_same.
    + apply keeps_exec. intros d x d' Hd H'. unfold insert_promotion in H'.
      destruct (review_jobs d !! _); [|done]. destruct (rule_promotions d !! _);
        injection H' as _ <-; [done|].
      by eapply jobs_wf_same; [..|exact Hd]; simpl; [done|lia].
    + apply keeps_update_wf; [done|]. by intros j _ Hj.
Qed.

(** A digest is reviewed at most three times: however jobs are created,
    claimed, retried, requeued after a restart, completed and promoted, and
    whatever statements fail, there is one job per key and its attempts
    never exceed three. *)
Theorem attempts_bounded os c :
  jobs_wf (tables c) → jobs_wf (tables (run_job_ops os c)).
Proof. intros H. apply run_job_ops_keeps; [|done]. intros o _. apply run_job_op_wf. Qed.

(** ** Exclusive claims *)

Definition is_running (id : Z) (d : db) : Prop :=
  ∃ j, review_jobs d !! id = Some j ∧ ReviewJob.Status j = "running"%string.

(** The operations that can happen while a worker holds job [id]: its own
    retry and completion and the requeueing of stale jobs are not among them;
    other jobs are retried and completed. *)
Definition leaves_running (id : Z) (o : job_op) : Prop :=
  match o with
  | JCreate _ _ _ _ _ _ _ _ _ _ | JClaim _ _ | JVote _ _ | JPromote _ _ _ _ _ _ _ _ => True
  | JRetry _ other _ _ | JComplete _ other _ _ => other ≠ id
  | JRequeue _ _ _ => False
  end.

Definition held (id : Z) (d : db) : Prop := jobs_wf d ∧ is_running id d.

Lemma keeps_update_held id p f :
  (∀ j, ReviewJob.ID (f j) = ReviewJob.ID j ∧ ReviewJob.JobKey (f j) = ReviewJob.JobKey j) →
  (∀ j, p j = true → (0 ≤ ReviewJob.Attempts j ≤ 3)%Z → (0 ≤ ReviewJob.Attempts (f j) ≤ 3)%Z) →
  (∀ j, ReviewJob.ID j = id → ReviewJob.Status j = "running"%string → p j = true →
        ReviewJob.Status (f j) = "running"%string) →
  keeps (held id) (exec io (update_jobs p f)).
Proof.
  intros Hf Hp Hs. apply keeps_exec. intros d a d' [Hwf (j & Hj & Hr)] H.
  split; [by eapply update_jobs_wf|]. injection H as _ <-. unfold is_running. simpl.
  rewrite lookup_fmap, Hj. simpl. eexists. split; [done|].
  destruct (jobs_id _ Hwf id j Hj) as [Hid _]. destruct (p j) eqn:E; auto.
Qed.

Lemma running_same id d d' : review_jobs d' = review_jobs d → is_running id d → is_running id d'.
Proof. unfold is_running. by intros ->. Qed.

Lemma insert_job_running id key sha field model fp hn sampled sample content now d a d' :
  jobs_wf d → is_running id d →
  insert_job key sha field model fp hn sampled sample content now d = Ok (a, d') → is_running id d'.
Proof.
  intros [Hid _ _] (j & Hj & Hs). unfold insert_job, take_id.
  destruct (job_by_key key d); intros [= _ <-]; exists j; [done|]. simpl. split; [|done].
  rewrite lookup_insert_ne; [done|]. destruct (Hid id j Hj). lia.
Qed.

(** Other tables may change under a held job. *)
Lemma held_same id d d' :
  review_jobs d' = review_jobs d → (next_id d ≤ next_id d')%Z → held id d → held id d'.
Proof. intros Hj Hn [Hwf Hr]. split; [by eapply jobs_wf_same|by eapply running_same]. Qed.

Lemma leaves_running_keeps id o : leaves_running id o → keeps (held id) (run_job_op o).
Proof.
  destruct o as [| |? other|? ?| |? other|]; intros Ho; try done; simpl.
  - unfold CreateReviewJob. repeat keeps_step; try apply keeps_encrypt_payload;
      try apply keeps_guard; try apply select_job_keeps.
    + apply keeps_exec. intros d x d' [Hd Hr] H'. split; [by eapply insert_job_wf|].
      by eapply insert_job_running.
    + by apply keeps_update_held; [|intros j _ Hj; exact Hj|].
  - unfold ClaimReviewJob. repeat keeps_step.
    apply keeps_update_held; [done| |done]. intros j Hp Hj; simpl; to_prop; lia.
  - unfold ScheduleReviewRetry. repeat keeps_step. apply keeps_update_held; [done|by intros j _ Hj|].
    intros j Hj _ Hp. unfold has_id in Hp. to_prop. simpl in *. lia.
  - unfold RecordReviewVote. repeat keeps_step. apply keeps_exec. intros d x d' Hd H'.
    destruct (review_jobs d !! _); [|done]. injection H' as _ <-.
    by eapply held_same; [..|exact Hd]; simpl; [done|lia].
  - unfold CompleteReviewJob. repeat keeps_step. apply keeps_update_held; [done|by intros j _ Hj|].
    intros j Hj _ Hp. unfold has_id in Hp. to_prop. simpl in *. lia.
  - unfold PromoteHash. do 5 keeps_step. apply keeps_transaction. unfold promote_body.
    repeat keeps_step.
    + apply keeps_exec. intros d x d' Hd H'. apply upsert_frame in H' as (Hj & _ & ?).
      by eapply held_same.
    + apply keeps_exec. intros d x d' Hd H'. unfold insert_promotion in H'.
      destruct (review_jobs d !! _); [|done]. destruct (rule_promotions d !! _);
        injection H' as _ <-; [done|].
      by eapply held_same; [..|exact Hd]; simpl; [done|lia].
    + apply keeps_update_held; [done|by intros j _ Hj|done].
Qed.

(** The rows an update that selects one id can touch. *)
Lemma claim_filter id q d :
  jobs_wf d →
  filter (λ kj : Z * ReviewJob.t, (has_id id kj.2 && q kj.2) = true) (review_jobs d) =
    match review_jobs d !! id with
    | Some j => if q j then {[id := j]} else ∅
    | None => ∅
    end.
Proof.
  intros [Hid _ _]. apply map_eq. intros i. apply option_eq. intros j.
  rewrite map_lookup_filter_Some. split.
  - intros [Hj Hq]. simpl in Hq. apply andb_true_iff in Hq as [Hi Hq].
    destruct (Hid i j Hj) as [Hij _]. unfold has_id in Hi. apply Z.eqb_eq in Hi.
    assert (i = id) as -> by lia. rewrite Hj, Hq. by rewrite lookup_singleton_eq.
  - destruct (review_jobs d !! id) as [j0|] eqn:E; [|by rewrite lookup_empty].
    destruct (q j0) eqn:Eq; [|by rewrite lookup_empty].
    intros [<- <-]%lookup_singleton_Some. split; [done|]. simpl.
    destruct (Hid id j0 E) as [Hij _]. unfold has_id. rewrite Hij, Z.eqb_refl. exact Eq.
Qed.

Lemma claim_result now id c r c' :
  jobs_wf (tables c) → ClaimReviewJob io now id c = (Ok r, c') →
  match review_jobs (tables c) !! id with
  | Some j => r = due (format_time now) j && (ReviewJob.Attempts j <? 3)%Z
  | None => r = false
  end ∧ (r = true → is_running id (tables c')).
Proof.
  intros Hwf. unfold ClaimReviewJob, mbind, Store_bind, exec.
  destruct (io _); [|done]. unfold update_jobs.
  set (q := λ j, due (format_time now) j && (ReviewJob.Attempts j <? 3)%Z).
  assert (∀ j, has_id id j && due (format_time now) j && (ReviewJob.Attempts j <? 3)%Z =
               has_id id j && q j) as Hq by (intros j; unfold q; by rewrite andb_assoc).
  assert (filter (λ kj : Z * ReviewJob.t, (has_id id kj.2 && due (format_time now) kj.2 &&
            (ReviewJob.Attempts kj.2 <? 3)%Z) = true) (review_jobs (tables c)) =
          filter (λ kj : Z * ReviewJob.t, (has_id id kj.2 && q kj.2) = true) (review_jobs (tables c)))
    as Hf.
  { apply map_filter_ext. intros i j _. simpl. by rewrite Hq. }
  rewrite Hf, claim_filter by done. cbn [tables mret Store_ret]. intros [= <- <-].
  destruct (review_jobs (tables c) !! id) as [j|] eqn:Ej.
  2: { rewrite map_size_empty. split; [done|discriminate]. }
  fold (q j). destruct (q j) eqn:Eqj.
  2: { rewrite map_size_empty. split; [done|discriminate]. }
  rewrite map_size_singleton. split; [done|]. intros _. unfold is_running. simpl.
  rewrite lookup_fmap, Ej. simpl. rewrite Hq, Eqj.
  destruct (jobs_id _ Hwf id j Ej) as [Hij _]. unfold has_id. rewrite Hij, Z.eqb_refl. simpl.
  by eexists.
Qed.

(** C20. A claimed job has one owner: after a successful claim, and whatever
    operations on jobs follow (with any failures), no claim of that job
    succeeds until it is retried or completed or stale jobs are requeued. *)
Theorem claim_exclusive now id c c1 os now' r c2 :
  jobs_wf (tables c) → ClaimReviewJob io now id c = (Ok true, c1) →
  Forall (leaves_running id) os →
  ClaimReviewJob io now' id (run_job_ops os c1) = (Ok r, c2) → r = false.
Proof.
  intros Hwf Hc Hos Hc2.
  assert (jobs_wf (tables c1)) as Hwf1.
  { pose proof (run_job_op_wf (JClaim now id) c Hwf) as H. simpl in H.
    unfold mbind, Store_bind in H. by rewrite Hc in H. }
  destruct (claim_result _ _ _ _ _ Hwf Hc) as [_ Hrun].
  assert (jobs_wf (tables (run_job_ops os c1)) ∧ is_running id (tables (run_job_ops os c1)))
    as [Hwf2 (j & Hj & Hs)].
  { apply (run_job_ops_keeps (held id)); [|by split; [|apply Hrun]].
    intros o Ho. apply leaves_running_keeps. rewrite Forall_forall in Hos. by apply Hos. }
  destruct (claim_result _ _ _ _ _ Hwf2 Hc2) as [Hr _]. rewrite Hj in Hr. subst r.
  unfold due. rewrite Hs. done.
Qed.

(** ** Promotion *)

Lemma upsert_result kind h label content source fp hn seen now d u d' :
  content ≠ ""%string → upsert_hash kind h label content source fp hn seen now d = Ok (u, d') →
  ∃ e, table kind d' !! h = Some e ∧ HashEntry.Enabled e = true ∧ HashEntry.Content e = content.
Proof.
  intros Hc. unfold upsert_hash, take_id. set (row := upsert_row _ _ _ _ _ _ _ _ _ _).
  intros [= _ <-]. exists row. split_and!.
  - unfold table, set_table. by destruct (kind =? "risk")%string; simpl; rewrite lookup_insert_eq.
  - subst row. unfold upsert_row. by destruct (_ !! h).
  - subst row. unfold upsert_row. destruct (_ !! h); [simpl|done].
    by destruct (String.eqb_spec content "").
Qed.

Lemma insert_promotion_result jobID sha kind summary now d u d' :
  insert_promotion jobID sha kind summary now d = Ok (u, d') →
  is_Some (review_jobs d !! jobID) ∧ review_jobs d' = review_jobs d ∧
  table kind d' = table kind d ∧ is_Some (rule_promotions d' !! (jobID, kind)).
Proof.
  unfold insert_promotion. destruct (review_jobs d !! jobID) as [j|]; [|done].
  destruct (rule_promotions d !! (jobID, kind)) as [p|] eqn:Ep; intros [= _ <-]; simpl;
    (split; [by exists j|]; split; [done|]; split; [done|]).
  - by exists p.
  - rewrite lookup_insert_eq. by eexists.
Qed.

(** What the statements of a promotion establish when none of them fails. *)
Lemma promote_body_result jobID sha kind content summary fp hn seen now c u c' :
  jobs_wf (tables c) → content ≠ ""%string →
  promote_body io jobID sha kind content summary fp hn seen now c = (Ok u, c') →
  ∃ e j, table kind (tables c') !! sha = Some e ∧ HashEntry.Enabled e = true ∧
    HashEntry.Content e = content ∧ is_Some (rule_promotions (tables c') !! (jobID, kind)) ∧
    review_jobs (tables c') !! jobID = Some j ∧ ReviewJob.ContentCiphertext j = [].
Proof.
  intros Hwf Hc. unfold promote_body, mbind, Store_bind.
  unfold exec at 1. destruct (io _); [|done].
  destruct (upsert_hash _ _ _ _ _ _ _ _ _ _) as [[u1 d1]|] eqn:E1; [|done].
  unfold exec at 1. destruct (io _); [|done]. cbn [tables].
  destruct (insert_promotion _ _ _ _ _ d1) as [[u2 d2]|] eqn:E2; [|done].
  unfold exec. destruct (io _); [|done]. unfold update_jobs. intros [= _ <-]. cbn [tables].
  pose proof (upsert_frame _ _ _ _ _ _ _ _ _ _ _ _ E1) as (Hj1 & _ & _).
  apply upsert_result in E1 as (e & He & Hen & Hcon); [|done].
  apply insert_promotion_result in E2 as ([j Hj] & Hj2 & Ht2 & Hp). rewrite Hj1 in Hj.
  destruct (jobs_id _ Hwf jobID j Hj) as [Hid _].
  exists e, (clear_content j). split_and!; try done.
  - unfold table in *. simpl. by rewrite Ht2.
  - simpl. rewrite lookup_fmap, Hj2, Hj1, Hj. simpl. unfold has_id. by rewrite Hid, Z.eqb_refl.
Qed.

(** The outcome of a promotion: the checks and then the whole transaction. *)
Lemma PromoteHash_outcome now jobID sha kind content summary fp hn c r c' :
  PromoteHash hashPlaintext io now jobID sha kind content summary fp hn c = (r, c') →
  match r with
  | Err _ => tables c' = tables c
  | Ok _ => ∃ fp' hn' seen c0 c1, kind_ok kind = true ∧ hashPattern sha = true ∧ content ≠ ""%string ∧
      content_ok hashPlaintext sha content = true ∧ tables c0 = tables c ∧
      promote_body io jobID (to_lower sha) kind content summary fp' hn' seen (format_time now) c0 = (Ok (), c1) ∧
      tables c' = tables c1
  end.
Proof.
  unfold PromoteHash, mbind, Store_bind, validateHash, validateHashContent,
    validateAPIKeyTrace, guard_ok, mret, Store_ret.
  destruct (kind_ok kind); [|by intros [= <- <-]].
  destruct (hashPattern sha); [|by intros [= <- <-]].
  destruct (String.eqb_spec content "") as [|Hcne]; [by intros [= <- <-]|]. cbn [negb].
  destruct (content_ok _ sha content) eqn:Hco; [|by intros [= <- <-]].
  destruct (api_key_trace fp hn) as [[fp' hn']|]; [|by intros [= <- <-]].
  intros Ht. destruct r as [[]|e]; [|by eapply transaction_atomic].
  apply transaction_inv in Ht as (c0 & c1 & Hc0 & Hbody & ->). by eexists _, _, _, c0, c1.
Qed.

(** C11. A promotion is all or nothing: when it succeeds, the digest is an
    enabled rule of the promoted kind whose text is the reviewed text and
    hashes to it, the promotion is recorded for the job, and the job no
    longer holds the encrypted text; when it fails, at whichever statement,
    no table has changed. *)
Theorem promotion_atomic now jobID sha kind content summary fp hn c r c' :
  jobs_wf (tables c) →
  PromoteHash hashPlaintext io now jobID sha kind content summary fp hn c = (r, c') →
  (r = Ok () → ∃ e j,
     table kind (tables c') !! to_lower sha = Some e ∧ HashEntry.Enabled e = true ∧
     HashEntry.Content e = content ∧ hashPlaintext content = to_lower sha ∧
     is_Some (rule_promotions (tables c') !! (jobID, kind)) ∧
     review_jobs (tables c') !! jobID = Some j ∧ ReviewJob.ContentCiphertext j = []) ∧
  (r ≠ Ok () → tables c' = tables c).
Proof.
  intros Hwf H%PromoteHash_outcome. split; [intros ->|intros Hr; by destruct r as [[]|]].
  destruct H as (? & ? & ? & c0 & c1 & _ & _ & Hne & Hco & Hc0 & Hbody & ->).
  apply content_ok_cases in Hco as [|Hhash]; [done|].
  apply promote_body_result in Hbody as (e & j & ? & ? & ? & ? & ? & ?); [|by rewrite Hc0|done].
  exists e, j. by split_and!.
Qed.

(** ** The text of a job that exists already *)

Lemma job_by_key_some key d j :
  jobs_wf d → job_by_key key d = Some j →
  review_jobs d !! ReviewJob.ID j = Some j ∧ ReviewJob.JobKey j = key.
Proof.
  intros Hwf [Hin Hk]%List.find_some. apply String.eqb_eq in Hk. split; [|done].
  apply in_map_iff in Hin as ([id j'] & Hj & Hin). simpl in Hj. subst j'.
  apply list_elem_of_In, elem_of_map_to_list in Hin. by destruct (jobs_id _ Hwf id j Hin) as [-> _].
Qed.

(** A payload as it is stored: nothing, or a ciphertext of the text. *)
Definition sealed_payload (plain : string) (b : bytes) : Prop :=
  (plain = ""%string ∧ b = []) ∨ ∃ n, b = seal n (B plain).

Lemma encrypt_payload_inv plain c b c' :
  encrypt_payload plain c = (Ok b, c') → sealed_payload plain b ∧ c' = c.
Proof.
  unfold encrypt_payload, encrypt, sealed_payload. destruct (String.eqb_spec plain ""); intros [= <- <-].
  - split; [by left|done].
  - split; [right; by eexists|done].
Qed.

Lemma fill_payload_job sample content fp hn now key key' d d' n j :
  jobs_wf d → update_jobs (λ j, (ReviewJob.JobKey j =? key')%string) (fill_payload sample content fp hn now) d = Ok (n, d') →
  job_by_key key d' = Some j →
  ∃ row, review_jobs d !! ReviewJob.ID j = Some row ∧ ReviewJob.JobKey row = key ∧
    (ReviewJob.SampleCiphertext j = ReviewJob.SampleCiphertext row ∨
     ReviewJob.SampleCiphertext row = [] ∧ ReviewJob.SampleCiphertext j = sample).
Proof.
  intros Hwf Hu Hj. assert (jobs_wf d') as Hwf' by (by eapply update_jobs_wf; [| |exact Hwf|exact Hu]; [done|]).
  destruct (job_by_key_some _ _ _ Hwf' Hj) as [Hl Hk]. injection Hu as _ <-. cbn [review_jobs set_jobs] in Hl.
  rewrite lookup_fmap in Hl. destruct (review_jobs d !! ReviewJob.ID j) as [row|]; [|done].
  exists row. split; [done|]. apply (inj Some) in Hl. subst j.
  destruct (ReviewJob.JobKey row =? key')%string; [|by split; [|left]].
  split; [done|]. cbn. case_bool_decide; [by right|by left].
Qed.

(** The record of a digest that was seen before: its sample is the one at hand
    only when none was stored. *)
Lemma create_existing now key sha field model review rule sampled fp hn c record c' :
  jobs_wf (tables c) →
  CreateReviewJob hashPlaintext io now key sha field model review rule sampled fp hn c = (Ok (record, false), c') →
  jobs_wf (tables c') ∧ review_jobs (tables c') !! ReviewJob.ID record = Some record ∧
  ∃ row, review_jobs (tables c) !! ReviewJob.ID record = Some row ∧ ReviewJob.JobKey row = trim_space key ∧
    (ReviewJob.SampleCiphertext record = ReviewJob.SampleCiphertext row ∨
     ReviewJob.SampleCiphertext row = [] ∧ sealed_payload review (ReviewJob.SampleCiphertext record)).
Proof.
  intros Hwf Hr. assert (jobs_wf (tables c')) as Hwf'.
  { pose proof (run_job_op_wf (JCreate now key sha field model review rule sampled fp hn) c Hwf) as H.
    simpl in H. unfold mbind, Store_bind in H. by rewrite Hr in H. }
  split; [done|]. unfold CreateReviewJob, validateHash, validateHashContent in Hr.
  apply bind_inv in Hr as (u1 & s1 & [_ ->]%guard_inv & Hr). cbv zeta in Hr.
  apply bind_inv in Hr as (u2 & s2 & [_ ->]%guard_inv & Hr).
  apply bind_inv in Hr as ([fp' hn'] & s3 & Htrace & Hr).
  assert (s3 = c) as ->.
  { unfold validateAPIKeyTrace in Htrace. destruct (api_key_trace fp hn); [|done]. by injection Htrace as _ <-. }
  apply bind_inv in Hr as (sample & s4 & [Hsample ->]%encrypt_payload_inv & Hr).
  apply bind_inv in Hr as (u5 & s5 & H5 & Hr).
  assert (s5 = c) as ->.
  { destruct (_ =? _)%string; [by injection H5 as _ <-|]. by apply guard_inv in H5 as [_ ->]. }
  apply bind_inv in Hr as (content & s6 & [_ ->]%encrypt_payload_inv & Hr).
  apply bind_inv in Hr as (created & s7 & Hi%exec_inv & Hr).
  apply bind_inv in Hr as (n & s8 & H8 & Hr).
  apply bind_inv in Hr as (j & s9 & H9%exec_inv & Hr). injection Hr as -> -> <-.
  unfold insert_job in Hi. destruct (job_by_key (trim_space key) (tables c)) as [j0|] eqn:E0; [|by destruct (take_id _)].
  injection Hi as Ht7.
  destruct (job_by_key (trim_space key) (tables s8)) as [j1|] eqn:E1; [|done]. injection H9 as -> H9.
  assert (jobs_wf (tables s8)) as Hwf8 by (by rewrite H9).
  destruct (job_by_key_some _ _ _ Hwf8 E1) as [Hl _]. rewrite <- H9. split; [done|].
  cbn [orb] in H8. destruct (_ && _) in H8.
  - injection H8 as _ <-. rewrite <- Ht7 in E1. destruct (job_by_key_some _ _ _ Hwf E1) as [Hl0 Hk].
    exists record. split; [done|]. split; [done|by left].
  - apply exec_inv in H8. rewrite <- Ht7 in H8.
    destruct (fill_payload_job _ _ _ _ _ _ _ _ _ _ _ Hwf H8 E1) as (row & Hrow & Hk & Hs).
    exists row. split; [done|]. split; [done|]. destruct Hs as [|[? ->]]; [by left|by right].
Qed.

(** What a load of a stored payload returns. *)
Lemma load_payload_inv id f c s c' j :
  load_payload io id f c = (Ok s, c') → review_jobs (tables c) !! id = Some j →
  (f j = [] ∧ s = ""%string) ∨ (f j ≠ [] ∧ ∃ p, unseal (f j) = Some p ∧ s = S_ p).
Proof.
  unfold load_payload. intros Hr Hj. apply bind_inv in Hr as (b & c1 & Hb%exec_inv & Hr).
  rewrite Hj in Hb. injection Hb as -> _. case_bool_decide; [injection Hr as <- _; by left|].
  right. split; [done|]. unfold decrypt in Hr. destruct (unseal _) as [p|]; [|done]. injection Hr as <- _. by exists p.
Qed.
End jobs_theorems.

(** ** Witnesses *)

(** A toy cipher: a marker in front of the text. *)
#[local] Instance demo_cipher : Cipher := {
  seal := λ _ p, "x"%char :: p;
  unseal := λ b, match b with [] => None | _ :: p => Some p end;
}.

Definition demo_sha : string := demo_hash "attack!".
Definition demo_create : job_op := JCreate 0 "key" demo_sha "prompt" "m" "attack!" "attack!" false "" "".

Lemma demo_jobs_wf : jobs_wf empty_db.
Proof. split; [apply map_Forall_empty|apply map_Forall_empty|]. intros i1 i2 j1 j2 H. done. Qed.

Lemma attempts_bounded_witness :
  let c := run_job_ops demo_hash (λ _, true)
    [demo_create; JClaim 0 1; JRetry 0 1 "e" second; JClaim (2 * second) 1; JRetry 0 1 "e" second;
     JClaim (2 * second) 1; JRetry 0 1 "e" second; JClaim (2 * second) 1] demo_conn in
  jobs_wf (tables c) ∧ ReviewJob.Attempts <$> review_jobs (tables c) !! 1%Z = Some 3%Z.
Proof.
  intros c. split; [|vm_compute; reflexivity].
  apply (attempts_bounded demo_hash (λ _, true)). exact demo_jobs_wf.
Defined.

Definition demo_job_conn : conn :=
  (run_job_op demo_hash (λ _, true) demo_create demo_conn).2.

Lemma demo_job_conn_wf : jobs_wf (tables demo_job_conn).
Proof. apply run_job_op_wf. exact demo_jobs_wf. Qed.

Lemma claim_exclusive_witness :
  let c1 := (ClaimReviewJob (λ _, true) 0 1 demo_job_conn).2 in
  let c2 := run_job_ops demo_hash (λ _, true) [demo_create] c1 in
  (ClaimReviewJob (λ _, true) 0 1 demo_job_conn).1 = Ok true ∧
  (ClaimReviewJob (λ _, true) (hour) 1 c2).1 = Ok false.
Proof.
  intros c1 c2. split; [vm_compute; reflexivity|].
  destruct (ClaimReviewJob (λ _, true) hour 1 c2) as [[r|e] c3] eqn:E; [|vm_compute in E; discriminate].
  simpl. f_equal.
  apply (claim_exclusive demo_hash (λ _, true) 0 1 demo_job_conn c1 [demo_create] hour r c3);
    [exact demo_job_conn_wf|vm_compute; reflexivity|by constructor|exact E].
Defined.

Lemma promotion_atomic_witness :
  let out := PromoteHash demo_hash (λ _, true) 0 1 demo_sha "risk" "attack!" "2/2" "" "" demo_job_conn in
  out.1 = Ok () ∧
  ∃ e, table "risk" (tables out.2) !! to_lower demo_sha = Some e ∧ HashEntry.Enabled e = true.
Proof.
  intros out. assert (out.1 = Ok ()) as Hok by (vm_compute; reflexivity). split; [exact Hok|].
  destruct (promotion_atomic demo_hash (λ _, true) 0 1 demo_sha "risk" "attack!" "2/2" "" ""
    demo_job_conn out.1 out.2 demo_job_conn_wf (surjective_pairing out)) as [H _].
  destruct (H Hok) as (e & j & He & Hen & _). exists e. split; [exact He|exact Hen].
Defined.
