(* ===== verification/StoreEvents.v ===== *)
(** * Audit events and blocked evidence ([internal/storage/store.go])

    One row of [audit_events] per recorded decision, and one row of
    [blocked_evidence] per enforced block.  What a client or a reviewer wrote
    is bounded and cleaned before it is stored.  [julianday] and [LIKE] of
    SQLite and the outcome of a WAL checkpoint are the interface [SqlFunctions]. *)

From S2P Require Export StoreRules Profile.

(** ** Cleaning of text *)

Definition no_control (r : rune_at) : bool := negb ((rn r <? 32)%N || (rn r =? 127)%N).

Definition safeEventText (value : string) (maxBytes : Z) : string :=
  let value := trim_space value in
  if (value =? "")%string || (maxBytes <? slen value)%Z || negb (valid_utf8 (B value)) then ""
  else if forallb no_control (runes (B value)) then value else "".

(** Line feeds, carriage returns and tabs are allowed in a reason. *)
Definition reason_rune (r : rune_at) : bool :=
  negb (((rn r <? 32)%N && negb ((rn r =? 10)%N || (rn r =? 13)%N || (rn r =? 9)%N)) ||
        (rn r =? 127)%N).

Definition safeReviewerReason (value : string) : string :=
  let value := trim_space value in
  if (value =? "")%string || (1000 <? slen value)%Z || negb (valid_utf8 (B value)) then ""
  else if forallb reason_rune (runes (B value)) then value else "".

(** ** Evidence of bounded size *)

Definition evidence_marker : string :=
  S_ ([chr 10; chr 10] ++ B "[... evidence truncated ...]" ++ [chr 10; chr 10]).

(** [utf8.RuneStart] *)
Definition rune_start (c : ascii) : bool := negb (cont c).

(** [for firstEnd > 0 && firstEnd < len(b) && !utf8.RuneStart(b[firstEnd])] *)
Fixpoint back_to_start (b : bytes) (firstEnd : nat) : nat :=
  match firstEnd with
  | O => O
  | S k => match b !! firstEnd with
           | Some c => if rune_start c then firstEnd else back_to_start b k
           | None => firstEnd
           end
  end.

(** [for lastStart < len(b) && !utf8.RuneStart(b[lastStart])], on the bytes
    from [lastStart] on. *)
Fixpoint from_start (tail : bytes) : bytes :=
  match tail with
  | [] => []
  | c :: rest => if rune_start c then tail else from_start rest
  end.

Definition boundedEvidence (v : string) (limit : Z) : string * bool :=
  let b := B v in
  if (Z.of_nat (length b) <=? limit)%Z then (v, false)
  else if (limit <=? slen evidence_marker)%Z
  then (S_ (take (Z.to_nat (Z.max 0 limit)) (B evidence_marker)), true)
  else
    let contentBudget := (limit - slen evidence_marker)%Z in
    let firstEnd := back_to_start b (Z.to_nat (Z.quot (contentBudget * 2) 3)) in
    let lastBudget := (contentBudget - Z.quot (contentBudget * 2) 3)%Z in
    let lastStart := (length b - Z.to_nat lastBudget)%nat in
    (S_ (take firstEnd b) +:+ evidence_marker +:+ S_ (from_start (drop lastStart b)), true).

Definition maxEvidenceBytes : Z := Z.shiftl 4 20.

(** ** The stored form of a request *)

(** What a client of the store sees of an event. *)
Module StoredEvent.
Record t : Type := mk {
  ID : Z;
  Row : EventRow.t;
  EvidenceAvailable : bool;
  Review : option (ReviewJob.t * list ReviewVote.t);
}.
End StoredEvent.

Module EventFilter.
Record t : Type := mk { Decision : string; Query : string; From : Time; To : Time }.
End EventFilter.

Module EventDeleteResult.
Record t : Type := mk { DeletedEvents : nat; DeletedEvidence : nat; WALTruncated : bool }.
End EventDeleteResult.

Class SqlFunctions := {
  julianday : string → option float64;
  sql_like : string → string → bool;             (** value, pattern *)
  wal_checkpoint : nat → Z * Z;                  (** busy, remaining *)
}.

Section events.
Context `{U : Unicode, SQL : SqlFunctions} (io : nat → bool).

(** The contract fields an older caller leaves empty are derived. *)
Definition event_contract (e : Event.t) : string * string * string :=
  let blocked := (Event.Decision e =? "block")%string ||
                 (Event.Outcome e =? EventOutcomeBlock)%string in
  let '(action, outcome) :=
    if (Event.Action e =? "")%string || (Event.Outcome e =? "")%string
    then DeriveEventContract (Event.Reason e) blocked
    else (Event.Action e, Event.Outcome e) in
  let decision :=
    if (Event.Decision e =? "")%string
    then if (outcome =? EventOutcomeBlock)%string then "block"%string else "allow"%string
    else Event.Decision e in
  (action, outcome, decision).

Definition event_latencies (e : Event.t) : Duration * Duration :=
  (if (Event.AuditLatency e =? 0)%Z then Event.Latency e else Event.AuditLatency e,
   match Event.AIVerdict e with
   | Some v => if (Event.AILatency e =? 0)%Z then wrap64 (AIVerdict.LatencyMS v * millisecond)
               else Event.AILatency e
   | None => Event.AILatency e
   end).

(** The values [insertEvent] binds to the columns. *)
Definition event_row (now : Time) (e : Event.t) : EventRow.t :=
  let created := if is_zero_time (Event.CreatedAt e) then now else Event.CreatedAt e in
  let '(action, outcome, decision) := event_contract e in
  let '(audit, ai) := event_latencies e in
  let '(fp, hn) := default ("", "")%string
                     (api_key_trace (Event.APIKeyFingerprint e) (Event.APIKeyHint e)) in
  let '(aiResult, aiConf, aiReason, aiCategory) :=
    match Event.AIVerdict e with
    | Some v => (AIVerdict.Result v, AIVerdict.Confidence v,
                 safeReviewerReason (AIVerdict.Reason v), safeEventText (AIVerdict.Category v) 120)
    | None => (""%string, f64_zero, ""%string, ""%string)
    end in
  EventRow.mk (safeEventText (Event.RequestID e) 128) (safeEventText (Event.Method e) 16)
    (safeEventText (Event.Path e) 2048) (safeEventText (Event.Protocol e) 64)
    (safeEventText (Event.Model e) 256) (SanitizeUserAgent (Event.UserAgent e))
    (safeEventText (Event.ProfileKey e) 64) fp hn (safeEventText decision 16) action outcome
    (Event.Reason e) (safeEventText (Event.Field e) 64)
    (if hashPattern (Event.SHA256 e) then Event.SHA256 e else "") (Event.PromptBytes e)
    (Event.PromptRunes e) (Event.AISampled e) aiResult aiConf aiReason aiCategory
    (milliseconds audit) (milliseconds audit) (milliseconds ai)
    (negb (outcome =? EventOutcomeBlock)%string || Event.UpstreamAccessed e) (format_time created).

Definition insert_event_row (r : EventRow.t) (d : db) : result store_err (Z * db) :=
  let '(id, d) := take_id d in Ok (id, set_events d (<[id := r]> (audit_events d))).

Definition insertEvent (now : Time) (e : Event.t) : Store Z := exec io (insert_event_row (event_row now e)).

Definition RecordAuditEvent (now : Time) (e : Event.t) : Store unit :=
  transaction io (insertEvent now e;; mret ()).

(** The foreign key on [audit_events] is enforced. *)
Definition insert_evidence (r : EvidenceRow.t) (d : db) : result store_err (unit * db) :=
  match audit_events d !! EvidenceRow.EventID r with
  | None => Err ErrConstraint
  | Some _ =>
      let '(id, d) := take_id d in Ok ((), set_evidence d (<[id := r]> (blocked_evidence d)))
  end.

(** [now] is the clock inside [insertEvent], [later] the one after it. *)
Definition RecordBlockedEvent (now later : Time) (e : Event.t) (field plaintext : string) : Store unit :=
  transaction io (
    id ← insertEvent now e;
    let '(content, partial) := boundedEvidence plaintext maxEvidenceBytes in
    exec io (insert_evidence (EvidenceRow.mk id field content partial
               (format_time (later + 7 * 24 * hour)) (format_time later)))).

(** ** Reading *)

(** [EXISTS(SELECT 1 FROM blocked_evidence b WHERE b.event_id=id AND b.expires_at>?)] *)
Definition live_evidence (now : string) (id : Z) (d : db) : option EvidenceRow.t :=
  List.find (λ r, (EvidenceRow.EventID r =? id)%Z && text_lt now (EvidenceRow.ExpiresAt r))
    (map snd (map_to_list (blocked_evidence d))).

Definition stored (now : string) (d : db) (kr : Z * EventRow.t) : StoredEvent.t :=
  StoredEvent.mk kr.1 kr.2 (bool_decide (is_Some (live_evidence now kr.1 d))) None.

Fixpoint insert_event_desc (x : Z * EventRow.t) (l : list (Z * EventRow.t)) :=
  match l with
  | [] => [x]
  | y :: l => if (y.1 <? x.1)%Z then x :: y :: l else y :: insert_event_desc x l
  end.
Definition events_desc (m : gmap Z EventRow.t) : list (Z * EventRow.t) :=
  foldr insert_event_desc [] (map_to_list m).

Definition ListRecentEvents (now : Time) (limit : Z) : Store (list StoredEvent.t) :=
  let limit := if (limit <? 1)%Z || (100 <? limit)%Z then 8%Z else limit in
  query io (λ d, map (stored (format_time now) d) (take (Z.to_nat limit) (events_desc (audit_events d)))).

(** A comparison with NULL selects nothing. *)
Definition julianday_cmp (cmp : float64 → float64 → bool) (x y : string) : bool :=
  match julianday x, julianday y with Some x, Some y => cmp x y | _, _ => false end.

Definition event_matches (f : EventFilter.t) (r : EventRow.t) : bool :=
  ((EventFilter.Decision f =? "")%string || (EventRow.Decision r =? EventFilter.Decision f)%string) &&
  ((EventFilter.Query f =? "")%string ||
   existsb (λ v, sql_like v ("%" +:+ EventFilter.Query f +:+ "%"))
     [EventRow.RequestID r; EventRow.Reason r; EventRow.SHA256 r; EventRow.APIKeyFingerprint r;
      EventRow.APIKeyHint r]) &&
  (is_zero_time (EventFilter.From f) ||
   julianday_cmp f64_ge (EventRow.CreatedAt r) (format_time (EventFilter.From f))) &&
  (is_zero_time (EventFilter.To f) ||
   julianday_cmp f64_lt (EventRow.CreatedAt r) (format_time (EventFilter.To f))).

(** A negative [OFFSET], which [(page-1)*size] can overflow to, is zero. *)
Definition ListEventsFiltered (now : Time) (page size : Z) (f : EventFilter.t) :
    Store (list StoredEvent.t * nat) :=
  let page := if (page <? 1)%Z then 1%Z else page in
  let size := if (size <? 1)%Z || (200 <? size)%Z then 50%Z else size in
  guard_ok (is_zero_time (EventFilter.From f) || is_zero_time (EventFilter.To f) ||
            negb (EventFilter.To f <? EventFilter.From f)%Z) "range";;
  total ← query io (λ d, length (List.filter (λ kr, event_matches f kr.2) (events_desc (audit_events d))));
  rows ← query io (λ d, map (stored (format_time now) d)
    (take (Z.to_nat size) (drop (Z.to_nat (wrap64 ((page - 1) * size)))
      (List.filter (λ kr, event_matches f kr.2) (events_desc (audit_events d))))));
  mret (rows, total).
Definition ListEvents (now : Time) (page size : Z) (decision q : string) :=
  ListEventsFiltered now page size (EventFilter.mk decision q zero_time zero_time).

Fixpoint insert_vote (v : ReviewVote.t) (l : list ReviewVote.t) : list ReviewVote.t :=
  match l with
  | [] => [v]
  | x :: l => if text_lt (ReviewVote.NodeSlot v) (ReviewVote.NodeSlot x) then v :: x :: l
              else x :: insert_vote v l
  end.
Definition ListReviewVotes (jobID : Z) : Store (list ReviewVote.t) :=
  query io (λ d, foldr insert_vote []
    (List.filter (λ v, (ReviewVote.JobID v =? jobID)%Z) (map snd (map_to_list (review_votes d))))).

(** The job with the largest id of a digest. *)
Definition latest_job (sha : string) (d : db) : option ReviewJob.t :=
  foldr (λ j best, match best with
                   | Some b => if (ReviewJob.ID b <? ReviewJob.ID j)%Z then Some j else best
                   | None => Some j
                   end) None
    (List.filter (λ j, (ReviewJob.SHA256 j =? sha)%string) (map snd (map_to_list (review_jobs d)))).

Definition latestReviewForSHA (sha256Value : string) : Store (ReviewJob.t * list ReviewVote.t) :=
  job ← exec io (λ d, match latest_job (to_lower sha256Value) d with
                      | Some j => Ok (j, d) | None => Err ErrNoRows end);
  votes ← ListReviewVotes (ReviewJob.ID job);
  mret (job, votes).

Definition GetEvent (now : Time) (id : Z) : Store StoredEvent.t :=
  e ← exec io (λ d, match audit_events d !! id with
                    | Some r => Ok (stored (format_time now) d (id, r), d) | None => Err ErrNoRows end);
  if (EventRow.SHA256 (StoredEvent.Row e) =? "")%string then mret e else
  r ← attempt (latestReviewForSHA (EventRow.SHA256 (StoredEvent.Row e)));
  match r with
  | Ok review =>
      mret (StoredEvent.mk (StoredEvent.ID e) (StoredEvent.Row e) (StoredEvent.EvidenceAvailable e)
              (Some review))
  | Err ErrNoRows => mret e
  | Err err => store_fail err
  end.

Definition GetEvidence (now : Time) (id : Z) : Store EvidenceRow.t :=
  exec io (λ d, match live_evidence (format_time now) id d with
                | Some r => Ok (r, d) | None => Err ErrNoRows end).

(** ** Deletion *)

(** [DELETE FROM audit_events WHERE p], cascading to the evidence. *)
Definition delete_events_where (p : Z → EventRow.t → bool) (d : db) : db :=
  let kept := filter (λ kr, p kr.1 kr.2 = false) (audit_events d) in
  set_evidence (set_events d kept)
    (filter (λ ke, match audit_events d !! EvidenceRow.EventID ke.2 with
                   | Some r => negb (p (EvidenceRow.EventID ke.2) r)
                   | None => true
                   end = true) (blocked_evidence d)).

Definition selected_events (p : Z → EventRow.t → bool) (d : db) : gmap Z EventRow.t :=
  filter (λ kr, p kr.1 kr.2 = true) (audit_events d).
Definition selected_evidence (p : Z → EventRow.t → bool) (d : db) : gmap Z EvidenceRow.t :=
  filter (λ ke, EvidenceRow.EventID ke.2 ∈ dom (selected_events p d)) (blocked_evidence d).

(** A failed checkpoint leaves [WALTruncated] false. *)
Definition truncate_wal : Store (Z * Z) := λ c, query io (λ _, wal_checkpoint (statements c)) c.
Definition wal_truncated (r : result store_err (Z * Z)) : bool :=
  match r with Ok (busy, remaining) => (busy =? 0)%Z && (remaining =? 0)%Z | Err _ => false end.

Definition deleteEvents (p : Z → EventRow.t → bool) : Store EventDeleteResult.t :=
  counts ← transaction io (
    evidence ← query io (λ d, size (selected_evidence p d));
    events ← exec io (λ d, Ok (size (selected_events p d), delete_events_where p d));
    mret (events, evidence));
  r ← attempt truncate_wal;
  mret (EventDeleteResult.mk counts.1 counts.2 (wal_truncated r)).

Definition DeleteEvent (id : Z) : Store EventDeleteResult.t := deleteEvents (λ k _, (k =? id)%Z).
Definition DeleteEventsBefore (before : option Time) : Store EventDeleteResult.t :=
  match before with
  | None => deleteEvents (λ _ _, true)
  | Some t => deleteEvents (λ _ r, julianday_cmp f64_lt (EventRow.CreatedAt r) (format_time t))
  end.

(** [Cleanup]: the two deletions are separate statements. *)
Definition Cleanup (now : Time) (eventDays : Z) : Store unit :=
  let eventDays := if (eventDays <? 1)%Z then 30%Z else eventDays in
  exec io (λ d, Ok ((), set_evidence d
    (filter (λ ke, text_lt (EvidenceRow.ExpiresAt ke.2) (format_time now) = false) (blocked_evidence d))));;
  exec io (λ d, Ok ((), delete_events_where (λ _ r,
    text_lt (EventRow.CreatedAt r) (format_time (now + wrap64 (- eventDays * 24 * hour)))) d));;
  r ← truncate_wal;
  if negb (r.1 =? 0)%Z || negb (r.2 =? 0)%Z then store_fail (ErrInvalid "wal") else mret ().

(** ** [migrateEventContractV2]: the CASE expressions of the backfill *)

Definition v2_action (reason : string) : string :=
  if bool_decide (reason ∈ ["disabled"; "route_bypass"; "protocol_unreviewed_allow"; "ua_bypass";
       "websocket_unreviewed_allow"; "body_read_fail_open"; "unsupported_content_encoding_fail_open";
       "content_decode_fail_open"]%string) then "bypass" else "audit".
Definition v2_outcome (decision reason : string) : string :=
  if (decision =? "block")%string then "block"
  else if bool_decide (reason ∈ ["parse_bypass"; "empty_bypass"; "oversize_bypass"; "ai_uncertain";
       "ai_low_confidence"; "ai_unavailable"; "ai_rate_limited"; "ai_timeout"; "ai_invalid";
       "ai_bulkhead_fail_open"; "storage_fail_open"; "body_read_fail_open";
       "unsupported_content_encoding_fail_open"; "content_decode_fail_open"]%string)
  then "fail_open" else "allow".

Definition v2_row (r : EventRow.t) : EventRow.t :=
  EventRow.mk (EventRow.RequestID r) (EventRow.Method r) (EventRow.Path r) (EventRow.Protocol r)
    (EventRow.Model r) (EventRow.UserAgent r) (EventRow.ProfileKey r) (EventRow.APIKeyFingerprint r)
    (EventRow.APIKeyHint r) (EventRow.Decision r) (v2_action (EventRow.Reason r))
    (v2_outcome (EventRow.Decision r) (EventRow.Reason r)) (EventRow.Reason r) (EventRow.FieldName r)
    (EventRow.SHA256 r) (EventRow.PromptBytes r) (EventRow.PromptRunes r) (EventRow.AISampled r)
    (EventRow.AIResult r) (EventRow.AIConfidence r) (EventRow.AIReason r) (EventRow.AICategory r)
    (EventRow.LatencyMS r) (EventRow.LatencyMS r)
    (if (EventRow.AILatencyMS r <? 0)%Z then 0 else EventRow.AILatencyMS r)
    (negb (EventRow.Decision r =? "block")%string) (EventRow.CreatedAt r).

(** The migration runs once: the version is recorded with the backfill. *)
Definition migrateEventContractV2 (appliedAt : string) : Store unit :=
  transaction io (
    applied ← query io (λ d, bool_decide (is_Some (schema_migrations (conf d) !! 2%Z)));
    if (applied : bool) then mret () else
    exec io (λ d, Ok ((), set_events d (v2_row <$> audit_events d)));;
    exec io (λ d, match schema_migrations (conf d) !! 2%Z with
                  | Some _ => Err ErrConstraint
                  | None => Ok ((), set_migrations d (<[2%Z := appliedAt]> (schema_migrations (conf d))))
                  end)).
End events.
