(* ===== verification/StoreEventsTheorems.v ===== *)
(** * Theorems on audit events and evidence

    Bounds and cleaning of what is stored, atomicity of a block record, exact
    deletion, and the agreement of the schema backfill with the contract
    computed for new events. *)

From S2P Require Export StoreTheorems StoreEvents.

(** ** Cleaning *)

(** Text of at most [n] bytes, valid UTF-8, whose runes all satisfy [ok]. *)
Definition clean (ok : rune_at → bool) (n : Z) (s : string) : Prop :=
  (slen s ≤ n)%Z ∧ valid_utf8 (B s) = true ∧ forallb ok (runes (B s)) = true.

Lemma clean_empty ok n : (0 ≤ n)%Z → clean ok n "".
Proof. by split. Qed.

Lemma safeEventText_clean v n : (0 ≤ n)%Z → clean no_control n (safeEventText v n).
Proof.
  intros Hn. unfold safeEventText.
  destruct (_ || _ || _) eqn:E; [by apply clean_empty|]. to_prop.
  destruct (forallb no_control _) eqn:Ef; [|by apply clean_empty]. by split_and!.
Qed.

Lemma safeReviewerReason_clean v : clean reason_rune 1000 (safeReviewerReason v).
Proof.
  unfold safeReviewerReason.
  destruct (_ || _ || _) eqn:E; [by apply clean_empty|]. to_prop.
  destruct (forallb reason_rune _) eqn:Ef; [|by apply clean_empty]. by split_and!.
Qed.

(** ** Evidence *)

Lemma back_to_start_spec b n :
  back_to_start b n ≤ n ∧
  (n ≤ length b → ∀ c, b !! back_to_start b n = Some c → back_to_start b n ≠ 0 → cont c = false).
Proof.
  induction n as [|n [IH1 IH2]]; simpl; [by split|].
  destruct (b !! S n) as [c|] eqn:E; [|split; [lia|]; intros _ c; by rewrite E].
  unfold rune_start. destruct (cont c) eqn:Ec; simpl.
  - split; [lia|]. intros Hl c' Hc. apply IH2; [lia|done].
  - split; [lia|]. intros _ c'. rewrite E. by intros [= <-].
Qed.

(** No start of a rune lies between. *)
Lemma back_to_start_max b n i :
  i ≤ n → (∀ c, b !! i = Some c → cont c = false) → i ≤ back_to_start b n.
Proof.
  intros Hi Hc. induction n as [|n IH]; simpl; [done|].
  destruct (b !! S n) as [c|] eqn:E; [|done]. unfold rune_start. destruct (cont c) eqn:Ec; simpl; [|done].
  apply IH. destruct (decide (i = S n)) as [->|]; [|lia]. by rewrite (Hc c E) in Ec.
Qed.

(** What is kept of a tail is the longest suffix of it that starts with a
    rune. *)
Lemma from_start_spec l :
  ∃ j, from_start l = drop j l ∧ j ≤ length l ∧ (∀ c, l !! j = Some c → cont c = false) ∧
    ∀ i, (∀ c, l !! i = Some c → cont c = false) → j ≤ i.
Proof.
  induction l as [|c l (j & Hj & Hl & Hc & Hi)]; simpl; [exists 0; split_and!; by try lia|].
  unfold rune_start. destruct (cont c) eqn:E; simpl.
  - exists (S j). split; [done|]. split; [lia|]. split; [done|]. intros [|i] H; [|apply le_n_S, Hi, H].
    by rewrite (H c eq_refl) in E.
  - exists 0. split; [done|]. split; [lia|]. split; [by intros c' [= <-]|]. lia.
Qed.

Lemma take_cut_valid l n :
  valid_utf8 l = true → (n ≠ 0 → ∀ c, l !! n = Some c → cont c = false) → valid_utf8 (take n l) = true.
Proof.
  intros Hv Hn. destruct n as [|n]; [done|]. apply valid_cut; [done|]. by apply Hn.
Qed.

Lemma marker_ascii : Forall (λ c, code c < 128)%N (B evidence_marker).
Proof. repeat (constructor; [done|]). constructor. Qed.

(** The bytes that the beginning and the end of the text may take. *)
Definition head_share (limit : Z) : Z := Z.quot ((limit - slen evidence_marker) * 2) 3.
Definition tail_share (limit : Z) : Z := (limit - slen evidence_marker - head_share limit)%Z.

(** The two cuts of a text that is too long. *)
Lemma boundedEvidence_cut v limit :
  (slen evidence_marker < limit < slen v)%Z → ∃ n k,
    boundedEvidence v limit = (S_ (take n (B v)) +:+ evidence_marker +:+ S_ (drop k (B v)), true) ∧
    n ≤ k ∧ (Z.of_nat n + slen evidence_marker + (slen v - Z.of_nat k) ≤ limit)%Z ∧ k ≤ length (B v) ∧
    (n ≠ 0 → ∀ c, B v !! n = Some c → cont c = false) ∧ (∀ c, B v !! k = Some c → cont c = false) ∧
    (Z.of_nat n ≤ head_share limit ∧ slen v - Z.of_nat k ≤ tail_share limit)%Z ∧
    (valid_utf8 (B v) = true →
     head_share limit - 3 ≤ Z.of_nat n ∧ tail_share limit - 3 ≤ slen v - Z.of_nat k)%Z.
Proof.
  intros [Hm Hgt]. unfold boundedEvidence, tail_share, head_share. cbv zeta. set (b := B v).
  change (Z.of_nat (length b)) with (slen v).
  rewrite (proj2 (Z.leb_gt _ _) Hgt), (proj2 (Z.leb_gt _ _) Hm).
  set (M := slen evidence_marker) in *.
  assert (0 ≤ M)%Z by apply slen_nonneg.
  set (first := Z.quot ((limit - M) * 2) 3).
  assert (0 ≤ first ∧ 3 * first ≤ (limit - M) * 2 ∧ first ≤ limit - M)%Z as (F1 & F2 & F3)
    by (subst first; rewrite Z.quot_div_nonneg by lia; Z.to_euclidean_division_equations; lia).
  set (n := Z.to_nat first). set (ls := length b - Z.to_nat (limit - M - first)).
  assert (Z.of_nat (length b) = slen v) as Hb by done.
  destruct (back_to_start_spec b n) as [B1 B2]. specialize (B2 ltac:(lia)).
  destruct (from_start_spec (drop ls b)) as (j & Hj & Hjl & Hc & Hji).
  rewrite length_drop in Hjl. rewrite Hj, drop_drop. rewrite lookup_drop in Hc.
  exists (back_to_start b n), (ls + j). split_and!; [done|lia..| |done|lia|lia|].
  - intros Hne c Hcc. by eapply B2.
  - intros Hv. destruct (start_before b n Hv) as (i & I1 & I2 & I3); [lia|].
    pose proof (back_to_start_max b n i I2 I3).
    destruct (start_after b ls Hv) as (i' & J1 & J2 & J3).
    assert (j ≤ i' - ls) by (apply Hji; intros c; rewrite lookup_drop; replace (ls + (i' - ls)) with i' by lia; apply J3).
    split; lia.
Qed.

Lemma boundedEvidence_whole v limit :
  (slen v ≤ limit)%Z → boundedEvidence v limit = (v, false).
Proof. intros H. unfold boundedEvidence. fold (slen v). by rewrite (proj2 (Z.leb_le _ _) H). Qed.

Lemma boundedEvidence_marker v limit :
  (0 ≤ limit < slen v)%Z → (limit ≤ slen evidence_marker)%Z →
  boundedEvidence v limit = (S_ (take (Z.to_nat limit) (B evidence_marker)), true).
Proof.
  intros [H0 H] Hm. unfold boundedEvidence. fold (slen v).
  by rewrite (proj2 (Z.leb_gt _ _) H), (proj2 (Z.leb_le _ _) Hm), Z.max_r.
Qed.

Lemma boundedEvidence_bound v limit :
  (0 ≤ limit)%Z → (slen (boundedEvidence v limit).1 ≤ limit)%Z.
Proof.
  intros H. destruct (Z.le_gt_cases (slen v) limit); [by rewrite boundedEvidence_whole|].
  destruct (Z.le_gt_cases limit (slen evidence_marker)).
  - rewrite boundedEvidence_marker by lia. unfold slen. simpl. rewrite B_S_, length_take. lia.
  - destruct (boundedEvidence_cut v limit) as (n & k & -> & Hnk & Hs & Hk & _); [lia|].
    cbn [fst]. rewrite !slen_app. unfold slen in *. rewrite !B_S_, length_take, length_drop. lia.
Qed.

(** C26. Evidence is bounded and readable: the text kept with a block has at most
    [limit] bytes, is the whole text when that fits, and is otherwise marked
    partial.  When the marker fits, it then consists of a beginning and an end
    of the text around the marker, of at most two thirds and one third of the
    remaining bytes; of a text in valid UTF-8 each of the two is at most three
    bytes shorter than its share, so neither is empty without need, and what is
    kept is valid UTF-8, too. *)
Theorem boundedEvidence_spec v limit :
  (0 ≤ limit)%Z →
  let '(content, partial) := boundedEvidence v limit in
  (slen content ≤ limit)%Z ∧
  (valid_utf8 (B v) = true → valid_utf8 (B content) = true) ∧
  (partial = true ↔ (limit < slen v)%Z) ∧
  (partial = false → content = v) ∧
  (partial = true → (slen evidence_marker < limit)%Z → ∃ p m q,
     B v = p ++ m ++ q ∧ content = S_ p +:+ evidence_marker +:+ S_ q ∧
     (Z.of_nat (length p) ≤ head_share limit ∧ Z.of_nat (length q) ≤ tail_share limit)%Z ∧
     (valid_utf8 (B v) = true →
      head_share limit - 3 ≤ Z.of_nat (length p) ∧ tail_share limit - 3 ≤ Z.of_nat (length q))%Z).
Proof.
  intros Hl. pose proof (boundedEvidence_bound v limit Hl) as Hb.
  destruct (Z.le_gt_cases (slen v) limit) as [Hle|Hgt].
  { rewrite boundedEvidence_whole in * by done. split_and!; try done. split; [done|lia]. }
  destruct (Z.le_gt_cases limit (slen evidence_marker)) as [Hm|Hm].
  { rewrite boundedEvidence_marker in * by lia. split_and!; [done|intros _|done|done|lia].
    rewrite B_S_. apply ascii_valid, Forall_take, marker_ascii. }
  destruct (boundedEvidence_cut v limit) as (n & k & E & Hnk & _ & Hk & Hn & Hc & Hmax & Hmin); [lia|].
  rewrite E in *. cbn [fst] in Hb. split_and!; [done| |done|done|].
  - intros Hv. rewrite !B_app, !B_S_. apply valid_app; [by apply take_cut_valid|].
    apply valid_app; [apply ascii_valid, marker_ascii|]. by apply valid_cut.
  - intros _ _. exists (take n (B v)), (drop n (take k (B v))), (drop k (B v)).
    rewrite length_take, length_drop, Nat.min_l by lia. unfold slen in Hmax, Hmin.
    split; [|split; [done|split; [lia|intros Hv; specialize (Hmin Hv); lia]]].
    rewrite app_assoc.
    replace (take n (B v)) with (take n (take k (B v))) by (rewrite take_take; f_equal; lia).
    by rewrite !take_drop.
Qed.

(** ** The contract of an event *)

Definition known_reasons : list string :=
  [ReasonDisabled; ReasonRouteBypass; ReasonProtocolBypass; ReasonUABypass; ReasonWebSocketBypass;
   ReasonBodyReadBypass; ReasonEncodingBypass; ReasonDecodeBypass; ReasonParseBypass;
   ReasonEmptyBypass; ReasonOversizeBypass; ReasonAIUncertain; ReasonAILowConfidence;
   ReasonAIUnavailable; ReasonAIRateLimited; ReasonAITimeout; ReasonAIInvalid; ReasonAIBulkhead;
   ReasonStorageFailOpen].

Lemma v2_unknown reason :
  reason ∉ known_reasons → v2_action reason = "audit"%string ∧
  (∀ d, v2_outcome d reason = if (d =? "block")%string then "block"%string else "allow"%string) ∧
  DeriveEventContract reason false = (EventActionAudit, EventOutcomeAllow).
Proof.
  intros Hn. assert (∀ l, l ⊆ known_reasons → bool_decide (reason ∈ l) = false) as H.
  { intros l Hl. apply bool_decide_eq_false. intros Hin. by apply Hn, Hl. }
  assert (∀ l, forallb (λ x, bool_decide (x ∈ known_reasons)) l = true → l ⊆ known_reasons) as Hs.
  { intros l Hl x Hx. rewrite forallb_Forall, Forall_forall in Hl.
    specialize (Hl x Hx). by apply bool_decide_eq_true in Hl. }
  unfold v2_action, v2_outcome, DeriveEventContract.
  rewrite !H by (apply Hs; vm_compute; reflexivity). done.
Qed.

Lemma v2_known reason :
  reason ∈ known_reasons →
  DeriveEventContract reason false = (v2_action reason, v2_outcome "allow" reason).
Proof.
  assert (forallb (λ r, bool_decide (DeriveEventContract r false = (v2_action r, v2_outcome "allow" r)))
            known_reasons = true) as H by (vm_compute; reflexivity).
  rewrite forallb_Forall, Forall_forall in H. intros Hr. specialize (H _ Hr).
  by apply bool_decide_eq_true in H.
Qed.

Lemma v2_outcome_allowed d reason :
  d ≠ "block"%string → v2_outcome d reason = v2_outcome "allow" reason.
Proof. intros Hd. unfold v2_outcome. by rewrite (proj2 (String.eqb_neq _ _) Hd). Qed.

Lemma v2_derive reason :
  DeriveEventContract reason false = (v2_action reason, v2_outcome "allow" reason).
Proof.
  destruct (decide (reason ∈ known_reasons)) as [H|H]; [by apply v2_known|].
  apply v2_unknown in H as (-> & -> & ->). done.
Qed.

Lemma safe_allow : safeEventText "allow" 16 = "allow"%string.
Proof. vm_compute. reflexivity. Qed.
Lemma safe_block : safeEventText "block" 16 = "block"%string.
Proof. vm_compute. reflexivity. Qed.

(** The backfill of the schema migration agrees with the contract the
    program computes: a row written for an event whose contract fields were
    empty is a fixed point of the migration's CASE expressions (for a block,
    when its reason is one a block can have), so that old and new events with
    the same reason and decision show the same action and outcome. *)
Theorem v2_backfill_agrees `{U : Unicode} now e :
  Event.Action e = ""%string → Event.Outcome e = ""%string →
  Event.Decision e ∈ [""; "allow"; "block"]%string →
  (Event.Decision e = "block"%string → v2_action (Event.Reason e) = "audit"%string) →
  let r := event_row now e in
  EventRow.Action (v2_row r) = EventRow.Action r ∧
  EventRow.Outcome (v2_row r) = EventRow.Outcome r ∧
  (EventRow.UpstreamAccessed r = true ∨ EventRow.Decision r = "block"%string).
Proof.
  intros Ha Ho Hd Hb. unfold event_row, event_contract, event_latencies. rewrite Ha, Ho.
  cbn [orb]. rewrite orb_false_r. cbv zeta.
  destruct (default _ _) as [fp hn]. destruct (match Event.AIVerdict e with Some _ => _ | None => _ end) as [[[aiR aiC] aiRe] aiCa] eqn:Ev; clear Ev.
  destruct (String.eqb_spec (Event.Decision e) "block") as [Hd'|Hne].
  - rewrite Hd'. cbn [DeriveEventContract]. simpl. rewrite (Hb Hd'), safe_block.
    split_and!; [done|done|by right].
  - change (DeriveEventContract (Event.Reason e) (("" =? EventOutcomeBlock)%string))
      with (DeriveEventContract (Event.Reason e) false).
    rewrite v2_derive.
    change ("" =? "")%string with true. cbn [orb]. cbv beta iota.
    assert ((v2_outcome "allow" (Event.Reason e) =? EventOutcomeBlock)%string = false) as Hob.
    { unfold v2_outcome. simpl. by destruct (bool_decide _). }
    rewrite Hob. simpl.
    assert ((if (Event.Decision e =? "")%string then "allow"%string else Event.Decision e) = "allow"%string) as ->.
    { rewrite !elem_of_cons, elem_of_nil in Hd. destruct Hd as [Hd|[Hd|[Hd|[]]]]; rewrite ?Hd; done. }
    rewrite safe_allow. split_and!; [done|done|by left].
Qed.

(** ** What a row can hold *)

Record row_safe (r : EventRow.t) : Prop := {
  rs_request : clean no_control 128 (EventRow.RequestID r);
  rs_method : clean no_control 16 (EventRow.Method r);
  rs_path : clean no_control 2048 (EventRow.Path r);
  rs_protocol : clean no_control 64 (EventRow.Protocol r);
  rs_model : clean no_control 256 (EventRow.Model r);
  rs_agent : (slen (EventRow.UserAgent r) ≤ DefaultEventClientMaxSize)%Z;
  rs_profile : clean no_control 64 (EventRow.ProfileKey r);
  rs_decision : clean no_control 16 (EventRow.Decision r);
  rs_field : clean no_control 64 (EventRow.FieldName r);
  rs_sha : EventRow.SHA256 r = ""%string ∨ hashPattern (EventRow.SHA256 r) = true;
  rs_reason : clean reason_rune 1000 (EventRow.AIReason r);
  rs_category : clean no_control 120 (EventRow.AICategory r);
  rs_key : EventRow.APIKeyFingerprint r = ""%string → EventRow.APIKeyHint r = ""%string;
  rs_fingerprint : EventRow.APIKeyFingerprint r = ""%string ∨
    hashPattern (EventRow.APIKeyFingerprint r) = true;
  rs_upstream : EventRow.Outcome r ≠ EventOutcomeBlock → EventRow.UpstreamAccessed r = true;
}.

Lemma user_agent_bound v : (slen (SanitizeUserAgent v) ≤ DefaultEventClientMaxSize)%Z.
Proof.
  unfold SanitizeUserAgent. destruct (negb _); [done|].
  unfold slen. rewrite B_S_. by apply truncate_loop_bound.
Qed.

Lemma trace_shape `{U : Unicode} f h :
  let '(fp, hn) := default ("", "")%string (api_key_trace f h) in
  (fp = ""%string → hn = ""%string) ∧ (fp = ""%string ∨ hashPattern fp = true).
Proof.
  destruct (api_key_trace f h) as [[fp hn]|] eqn:E; simpl; [|auto]. split.
  - by eapply api_key_trace_hint.
  - revert E. unfold api_key_trace. set (k := to_lower (trim_space f)).
    destruct (k =? "")%string; [destruct (negb _); [done|]; intros [= <- <-]; by left|].
    destruct (hashPattern k) eqn:Ek; simpl; [|done]. destruct (_ && _); [done|].
    intros [= <- <-]. by right.
Qed.

#[local] Hint Resolve safeEventText_clean safeReviewerReason_clean user_agent_bound : guard.
#[local] Hint Extern 1 (_ ≤ _)%Z => lia : guard.
#[local] Hint Extern 1 (clean _ _ "") => apply clean_empty; lia : guard.

Lemma event_row_safe `{U : Unicode} now e : row_safe (event_row now e).
Proof.
  unfold event_row. destruct (event_contract e) as [[action outcome] decision].
  destruct (event_latencies e) as [audit ai].
  pose proof (trace_shape (Event.APIKeyFingerprint e) (Event.APIKeyHint e)) as Ht.
  destruct (default _ _) as [fp hn]. destruct Ht as [Ht1 Ht2].
  destruct (match Event.AIVerdict e with Some _ => _ | None => _ end) as [[[aiR aiC] aiRe] aiCa] eqn:Ev.
  assert (clean reason_rune 1000 aiRe ∧ clean no_control 120 aiCa) as [Hre Hca].
  { destruct (Event.AIVerdict e); injection Ev as <- <- <- <-; auto with guard. }
  split; simpl; auto with guard.
  - destruct (hashPattern (Event.SHA256 e)) eqn:E; auto.
  - intros Ho. by rewrite (proj2 (String.eqb_neq _ _) Ho).
Qed.

(** ** Well-formed event tables *)

Record events_wf (d : db) : Prop := {
  ew_ids : map_Forall (λ id _, (id < next_id d)%Z) (audit_events d);
  ew_rows : map_Forall (λ _ r, row_safe r) (audit_events d);
  ew_evidence_ids : map_Forall (λ id _, (id < next_id d)%Z) (blocked_evidence d);
  ew_event : map_Forall (λ _ r, is_Some (audit_events d !! EvidenceRow.EventID r)) (blocked_evidence d);
  ew_bound : map_Forall (λ _ r, (slen (EvidenceRow.Content r) ≤ maxEvidenceBytes)%Z) (blocked_evidence d);
  ew_single : ∀ i1 i2 r1 r2, blocked_evidence d !! i1 = Some r1 → blocked_evidence d !! i2 = Some r2 →
    EvidenceRow.EventID r1 = EvidenceRow.EventID r2 → i1 = i2;
}.

(** The tables other than those of events. *)
Definition same_elsewhere (d d' : db) : Prop :=
  trusted_hashes d' = trusted_hashes d ∧ risk_hashes d' = risk_hashes d ∧
  review_jobs d' = review_jobs d ∧ review_votes d' = review_votes d ∧
  rule_promotions d' = rule_promotions d ∧ conf d' = conf d.

Lemma insert_event_wf r d id d' :
  row_safe r → events_wf d → insert_event_row r d = Ok (id, d') →
  events_wf d' ∧ id = next_id d ∧ next_id d' = (next_id d + 1)%Z ∧
  audit_events d' = <[id := r]> (audit_events d) ∧ blocked_evidence d' = blocked_evidence d ∧
  same_elsewhere d d' ∧ (∀ i e, blocked_evidence d' !! i = Some e → EvidenceRow.EventID e ≠ id).
Proof.
  intros Hr [H1 H2 H3 H4 H5 H6] [= <- <-]. simpl.
  split_and!; try done; [split; simpl; try done|].
  - apply map_Forall_insert_2; [lia|]. eapply map_Forall_impl; [exact H1|]. simpl. lia.
  - by apply map_Forall_insert_2.
  - eapply map_Forall_impl; [exact H3|]. simpl. lia.
  - eapply map_Forall_impl; [exact H4|]. intros i e He. cbv beta in *.
    destruct (decide (next_id d = EvidenceRow.EventID e)) as [<-|Hne];
      [rewrite lookup_insert_eq; by eexists|by rewrite lookup_insert_ne].
  - intros i e Hi Heq. destruct (H4 i e Hi) as [x Hx]. rewrite Heq in Hx.
    specialize (H1 _ _ Hx). simpl in H1. lia.
Qed.

Lemma insert_evidence_wf r d u d' :
  (slen (EvidenceRow.Content r) ≤ maxEvidenceBytes)%Z →
  (∀ i e, blocked_evidence d !! i = Some e → EvidenceRow.EventID e ≠ EvidenceRow.EventID r) →
  events_wf d → insert_evidence r d = Ok (u, d') →
  events_wf d' ∧ audit_events d' = audit_events d ∧
  blocked_evidence d' = <[next_id d := r]> (blocked_evidence d) ∧ same_elsewhere d d'.
Proof.
  intros Hb Hn [H1 H2 H3 H4 H5 H6]. unfold insert_evidence.
  destruct (audit_events d !! EvidenceRow.EventID r) as [e|] eqn:He; [|done]. intros [= _ <-].
  simpl. split_and!; try done. split; simpl; try done.
  - eapply map_Forall_impl; [exact H1|]. simpl. lia.
  - apply map_Forall_insert_2; [lia|]. eapply map_Forall_impl; [exact H3|]. simpl. lia.
  - apply map_Forall_insert_2; [by exists e|done].
  - by apply map_Forall_insert_2.
  - intros i1 i2 r1 r2 E1 E2 Heq.
    apply lookup_insert_Some in E1 as [[<- <-]|[? E1]], E2 as [[<- <-]|[? E2]]; try done.
    + by destruct (Hn i2 r2 E2).
    + by destruct (Hn i1 r1 E1).
    + by eapply H6.
Qed.

Section events_theorems.
Context `{U : Unicode, SQL : SqlFunctions} (io : nat → bool).

(** What a block record that succeeds does. *)
(** When every statement runs, a block is recorded. *)
Lemma RecordBlockedEvent_runs now later e field plaintext c :
  (∀ n, io n = true) → (RecordBlockedEvent io now later e field plaintext c).1 = Ok ().
Proof.
  intros Hio. unfold RecordBlockedEvent, insertEvent. generalize (event_row now e). intros row.
  destruct (boundedEvidence plaintext maxEvidenceBytes) as [content partial].
  unfold transaction, query, mbind, Store_bind. rewrite exec_ok by done. cbn [tables]. rewrite exec_ok by done.
  unfold insert_event_row, take_id. cbn [tables]. rewrite exec_ok by done. unfold insert_evidence, take_id.
  cbn [tables audit_events EvidenceRow.EventID set_events].
  rewrite lookup_insert_eq, exec_ok by done. done.
Qed.

Lemma RecordBlockedEvent_result now later e field plaintext c u c' :
  events_wf (tables c) →
  RecordBlockedEvent io now later e field plaintext c = (Ok u, c') →
  let id := next_id (tables c) in
  let '(content, partial) := boundedEvidence plaintext maxEvidenceBytes in
  events_wf (tables c') ∧ same_elsewhere (tables c) (tables c') ∧
  audit_events (tables c') = <[id := event_row now e]> (audit_events (tables c)) ∧
  blocked_evidence (tables c') =
    <[(id + 1)%Z := EvidenceRow.mk id field content partial
        (format_time (later + 7 * 24 * hour)) (format_time later)]> (blocked_evidence (tables c)).
Proof.
  intros Hwf Ht. apply transaction_inv in Ht as (c0 & c1 & Hc0 & Hb & ->). rewrite <- Hc0 in *.
  apply bind_inv in Hb as (id & c2 & Hi & Hb). apply exec_inv in Hi.
  apply insert_event_wf in Hi as (Hwf2 & -> & Hn & Hev & Hbe & Hs & Hfresh);
    [|by apply event_row_safe|done].
  pose proof (boundedEvidence_bound plaintext maxEvidenceBytes ltac:(done)) as Hbound.
  destruct (boundedEvidence plaintext maxEvidenceBytes) as [content partial]. cbn [fst] in Hbound.
  apply exec_inv in Hb. apply insert_evidence_wf in Hb as (? & Hev' & Hbe' & Hs'); [|done..].
  rewrite Hev', Hbe', Hev, Hbe, Hn. split_and!; try done.
  unfold same_elsewhere in *. naive_solver congruence.
Qed.

(** C12. A block and its evidence are saved together: when [RecordBlockedEvent]
    succeeds there is exactly one new event, for this request, and exactly one
    new evidence row, which belongs to that event and keeps the whole text
    unless it is larger than 4 MiB; when it fails, at whichever statement, no
    table has changed. *)
Theorem RecordBlockedEvent_atomic now later e field plaintext c r c' :
  events_wf (tables c) →
  RecordBlockedEvent io now later e field plaintext c = (r, c') →
  match r with
  | Ok _ => ∃ id i ev,
      audit_events (tables c) !! id = None ∧ blocked_evidence (tables c) !! i = None ∧
      audit_events (tables c') = <[id := event_row now e]> (audit_events (tables c)) ∧
      blocked_evidence (tables c') = <[i := ev]> (blocked_evidence (tables c)) ∧
      EvidenceRow.EventID ev = id ∧ EvidenceRow.FieldName ev = field ∧
      ((slen plaintext ≤ maxEvidenceBytes)%Z →
       EvidenceRow.Content ev = plaintext ∧ EvidenceRow.Partial ev = false) ∧
      same_elsewhere (tables c) (tables c')
  | Err _ => tables c' = tables c
  end.
Proof.
  intros Hwf Hr. destruct r as [u|err]; [|by eapply transaction_atomic].
  apply RecordBlockedEvent_result in Hr; [|done].

  destruct (boundedEvidence plaintext maxEvidenceBytes) as [content partial] eqn:Eb.
  destruct Hr as (_ & Hs & Hev & Hbe). eexists _, _, _. split_and!; [| |exact Hev|exact Hbe|done|done| |exact Hs].
  - destruct (audit_events (tables c) !! next_id (tables c)) eqn:E; [|done].
    pose proof (ew_ids _ Hwf _ _ E). simpl in *. lia.
  - destruct (blocked_evidence (tables c) !! (next_id (tables c) + 1)%Z) eqn:E; [|done].
    pose proof (ew_evidence_ids _ Hwf _ _ E). simpl in *. lia.
  - intros H. rewrite boundedEvidence_whole in Eb by done. by injection Eb as <- <-.
Qed.

(** *** Reading evidence back *)

Lemma live_evidence_some now id d i r :
  events_wf d → blocked_evidence d !! i = Some r → EvidenceRow.EventID r = id →
  text_lt now (EvidenceRow.ExpiresAt r) = true → live_evidence now id d = Some r.
Proof.
  intros Hwf Hi Hid Ht. unfold live_evidence.
  set (f := λ r, (EvidenceRow.EventID r =? id)%Z && text_lt now (EvidenceRow.ExpiresAt r)).
  destruct (List.find f _) as [r'|] eqn:E.
  - apply List.find_some in E as [Hin Hf]. apply in_map_iff in Hin as ([k r2] & <- & Hin).
    apply list_elem_of_In, elem_of_map_to_list in Hin. simpl in *.
    unfold f in Hf. apply andb_true_iff in Hf as [Hf%Z.eqb_eq _].
    assert (k = i) as -> by (eapply (ew_single _ Hwf); [exact Hin|exact Hi|congruence]). congruence.
  - exfalso. eapply List.find_none in E.
    2: { apply in_map_iff. exists (i, r). split; [done|].
         by apply list_elem_of_In, elem_of_map_to_list. }
    simpl in E. unfold f in E. by rewrite Hid, Z.eqb_refl, Ht in E.
Qed.

(** What was blocked can be shown: the evidence of a block that was saved
    is read back under the id of its event until it expires, and is the
    text that was judged when that has at most 4 MiB. *)
Theorem evidence_roundtrip now later e field plaintext c u c' t :
  events_wf (tables c) →
  RecordBlockedEvent io now later e field plaintext c = (Ok u, c') →
  text_lt (format_time t) (format_time (later + 7 * 24 * hour)) = true →
  (∀ n, io n = true) →
  ∃ id r, audit_events (tables c') !! id = Some (event_row now e) ∧
    (GetEvidence io t id c').1 = Ok r ∧ EvidenceRow.FieldName r = field ∧
    (EvidenceRow.Partial r = false → EvidenceRow.Content r = plaintext) ∧
    ((slen plaintext ≤ maxEvidenceBytes)%Z → EvidenceRow.Partial r = false).
Proof.
  intros Hwf Hr Ht Hio. apply RecordBlockedEvent_result in Hr; [|done].
  destruct (boundedEvidence plaintext maxEvidenceBytes) as [content partial] eqn:Eb.
  destruct Hr as (Hwf' & _ & Hev & Hbe). set (id := next_id (tables c)) in *.
  set (r := EvidenceRow.mk _ _ _ _ _ _) in Hbe.
  exists id, r. rewrite Hev, lookup_insert_eq. split; [done|].
  unfold GetEvidence. rewrite exec_ok by done.
  erewrite (live_evidence_some _ _ _ (id + 1)%Z r); [|done| |done|done].
  2: { by rewrite Hbe, lookup_insert_eq. }
  simpl. split_and!; [done|done| |].
  - intros ->. destruct (Z.le_gt_cases (slen plaintext) maxEvidenceBytes) as [Hl|Hl].
    + rewrite boundedEvidence_whole in Eb by done. by injection Eb as <-.
    + destruct (boundedEvidence_cut plaintext maxEvidenceBytes) as (n & k & Hc & _); [done|].
      rewrite Hc in Eb. done.
  - intros H. rewrite boundedEvidence_whole in Eb by done. by injection Eb as _ <-.
Qed.

(** *** Deletion *)

Lemma cascade_evidence p d :
  events_wf d →
  blocked_evidence (delete_events_where p d) =
    filter (λ ke, EvidenceRow.EventID ke.2 ∉ dom (selected_events p d)) (blocked_evidence d).
Proof.
  intros Hwf. simpl. apply map_filter_ext. intros i e He. simpl.
  destruct (ew_event _ Hwf i e He) as [r Hr]. rewrite Hr, negb_true_iff.
  rewrite not_elem_of_dom. unfold selected_events. rewrite map_lookup_filter, Hr. simpl.
  destruct (p _ r); simpl; by split.
Qed.

Lemma delete_events_wf p d : events_wf d → events_wf (delete_events_where p d).
Proof.
  intros Hwf. pose proof (cascade_evidence p d Hwf) as Hc. destruct Hwf as [H1 H2 H3 H4 H5 H6].
  assert (∀ i e, blocked_evidence (delete_events_where p d) !! i = Some e →
            blocked_evidence d !! i = Some e ∧ EvidenceRow.EventID e ∉ dom (selected_events p d)) as Hin.
  { intros i e. rewrite Hc, map_lookup_filter_Some. done. }
  split.
  - simpl. intros i r [Hi _]%map_lookup_filter_Some. by eapply H1.
  - simpl. intros i r [Hi _]%map_lookup_filter_Some. by eapply H2.
  - intros i e [Hi _]%Hin. by eapply H3.
  - intros i e [Hi Hn]%Hin. destruct (H4 i e Hi) as [r Hr]. simpl.
    exists r. apply map_lookup_filter_Some. split; [done|]. simpl.
    rewrite not_elem_of_dom in Hn. unfold selected_events in Hn. rewrite map_lookup_filter, Hr in Hn.
    simpl in Hn. by destruct (p _ r).
  - intros i e [Hi _]%Hin. by eapply H5.
  - intros i1 i2 r1 r2 [E1 _]%Hin [E2 _]%Hin. by eapply H6.
Qed.

Lemma size_filter_split {A} (P : Z * A → Prop) `{∀ x, Decision (P x)} (m : gmap Z A) :
  size (filter P m) + size (filter (λ x, ¬ P x) m) = size m.
Proof.
  rewrite <- map_size_disj_union by apply map_disjoint_filter_complement.
  by rewrite map_filter_union_complement.
Qed.

(** C25. An administrative deletion removes what it reports and nothing else:
    when it succeeds, exactly the selected events and the evidence attached to
    them are gone, the counts are the numbers of removed rows, and rules, jobs,
    votes, promotions and settings are untouched; when it fails, no table has
    changed.  The outcome of the WAL checkpoint only decides the flag. *)
Theorem deleteEvents_exact p c r c' :
  events_wf (tables c) → deleteEvents io p c = (r, c') →
  match r with
  | Ok out =>
      (∀ id e, audit_events (tables c') !! id = Some e ↔
               audit_events (tables c) !! id = Some e ∧ p id e = false) ∧
      (∀ i ev, blocked_evidence (tables c') !! i = Some ev ↔
               blocked_evidence (tables c) !! i = Some ev ∧
               is_Some (audit_events (tables c') !! EvidenceRow.EventID ev)) ∧
      EventDeleteResult.DeletedEvents out + size (audit_events (tables c')) = size (audit_events (tables c)) ∧
      EventDeleteResult.DeletedEvidence out + size (blocked_evidence (tables c')) =
        size (blocked_evidence (tables c)) ∧
      same_elsewhere (tables c) (tables c')
  | Err _ => tables c' = tables c
  end.
Proof.
  intros Hwf. unfold deleteEvents, mbind at 1, Store_bind at 1.
  destruct (transaction io _ c) as [[counts|e] c1] eqn:Ht.
  2: { intros [= <- <-]. by eapply transaction_atomic. }
  unfold attempt, mbind, Store_bind, mret, Store_ret, truncate_wal, query, exec. cbn [tables].
  intros Hr. assert (tables c' = tables c1 ∧ ∃ w, r = Ok (EventDeleteResult.mk counts.1 counts.2 w)) as
    [Hc' [w ->]].
  { destruct (io (statements c1)); injection Hr as <- <-; (split; [done|by eexists]). }
  apply transaction_inv in Ht as (c0 & c2 & Hc0 & Hb & Hc1).
  apply bind_inv in Hb as (ev & c3 & [-> H3]%query_inv & Hb).
  apply bind_inv in Hb as (en & c4 & H4%exec_inv & Hb). injection Hb as <- <-.
  rewrite H3, Hc0 in H4. injection H4 as <- H4. rewrite Hc', Hc1, <- H4. rewrite Hc0.
  cbn [EventDeleteResult.DeletedEvents EventDeleteResult.DeletedEvidence fst snd].
  set (d := tables c) in *. split_and!.
  - intros id e. simpl. by rewrite map_lookup_filter_Some.
  - intros i e. rewrite cascade_evidence, map_lookup_filter_Some by done. simpl.
    enough (blocked_evidence d !! i = Some e → EvidenceRow.EventID e ∉ dom (selected_events p d) ↔
      is_Some (filter (λ kr, p kr.1 kr.2 = false) (audit_events d) !! EvidenceRow.EventID e)) by tauto.
    intros He. destruct (ew_event _ Hwf i e He) as [x Hx].
    rewrite not_elem_of_dom. unfold selected_events. rewrite !map_lookup_filter, Hx. simpl.
    destruct (p _ x); simpl; by split.
  - simpl. rewrite <- (size_filter_split (λ kr, p kr.1 kr.2 = true) (audit_events d)). f_equal. f_equal.
    apply map_filter_ext. intros i e _. simpl. by destruct (p i e).
  - rewrite cascade_evidence by done. unfold selected_evidence. apply size_filter_split.
  - done.
Qed.

(** *** The invariant *)

(** The operations of the store on events, with the clock readings they make. *)
Inductive event_op : Type :=
| ERecord (now : Time) (e : Event.t)
| EBlock (now later : Time) (e : Event.t) (field plaintext : string)
| EDelete (id : Z)
| EDeleteBefore (before : option Time)
| ECleanup (now : Time) (days : Z)
| EMigrate (appliedAt : string).

Definition run_event_op (o : event_op) : Store unit :=
  match o with
  | ERecord now e => RecordAuditEvent io now e
  | EBlock now later e field plaintext => RecordBlockedEvent io now later e field plaintext
  | EDelete id => DeleteEvent io id;; mret ()
  | EDeleteBefore before => DeleteEventsBefore io before;; mret ()
  | ECleanup now days => Cleanup io now days
  | EMigrate appliedAt => migrateEventContractV2 io appliedAt
  end.

Fixpoint run_event_ops (os : list event_op) (c : conn) : conn :=
  match os with [] => c | o :: os => run_event_ops os (run_event_op o c).2 end.

Lemma Forall_filter_map {A} (Q : Z → A → Prop) (P : Z * A → Prop) `{∀ x, Decision (P x)} (m : gmap Z A) :
  map_Forall Q m → map_Forall Q (filter P m).
Proof. intros HQ i x [Hi _]%map_lookup_filter_Some. by apply HQ. Qed.

Lemma drop_evidence_wf (P : Z * EvidenceRow.t → Prop) `{∀ x, Decision (P x)} d :
  events_wf d → events_wf (set_evidence d (filter P (blocked_evidence d))).
Proof.
  intros [H1 H2 H3 H4 H5 H6]. split; simpl; [done|done|by apply Forall_filter_map|by apply Forall_filter_map|by apply Forall_filter_map|].
  intros i1 i2 r1 r2 [E1 _]%map_lookup_filter_Some [E2 _]%map_lookup_filter_Some. by eapply H6.
Qed.

Lemma v2_row_safe r : row_safe r → row_safe (v2_row r).
Proof.
  intros []. split; simpl; try done. intros Ho. apply negb_true_iff, String.eqb_neq. intros Hd.
  apply Ho. unfold v2_outcome. by rewrite Hd.
Qed.

Lemma backfill_wf d : events_wf d → events_wf (set_events d (v2_row <$> audit_events d)).
Proof.
  intros [H1 H2 H3 H4 H5 H6]. split; simpl; try done.
  - intros i r. rewrite lookup_fmap. destruct (audit_events d !! i) eqn:E; [|done].
    intros _. by eapply H1.
  - intros i r. rewrite lookup_fmap. destruct (audit_events d !! i) as [r0|] eqn:E; [|done].
    intros [= <-]. apply v2_row_safe. by eapply H2.
  - eapply map_Forall_impl; [exact H4|]. intros i e He. cbv beta in *.
    rewrite lookup_fmap. by apply fmap_is_Some.
Qed.

Lemma migration_row_wf d m : events_wf d → events_wf (set_migrations d m).
Proof. intros []. by split. Qed.

Lemma keeps_attempt {A} P (m : Store A) : keeps P m → keeps P (attempt m).
Proof. intros H c Hc. unfold attempt. specialize (H c Hc). by destruct (m c). Qed.

Lemma keeps_wal : keeps events_wf (truncate_wal io).
Proof. intros c Hc. by apply (keeps_query io events_wf (λ _, wal_checkpoint (statements c))). Qed.

Lemma deleteEvents_wf p : keeps events_wf (deleteEvents io p).
Proof.
  unfold deleteEvents. apply keeps_bind.
  - apply keeps_transaction. apply keeps_bind; [apply keeps_query|intros ? ? ? _].
    apply keeps_bind; [|intros; apply keeps_ret]. apply keeps_exec.
    intros d x d' Hd [= _ <-]. by apply delete_events_wf.
  - intros ? ? ? _. apply keeps_bind; [apply keeps_attempt, keeps_wal|]. intros. apply keeps_ret.
Qed.

Lemma run_event_op_wf o : keeps events_wf (run_event_op o).
Proof.
  destruct o as [now e|now later e field plaintext|id|before|now days|appliedAt]; simpl.
  - apply keeps_transaction. apply keeps_bind; [|intros; apply keeps_ret].
    apply keeps_exec. intros d x d' Hd H.
    by apply insert_event_wf in H as [? _]; [|apply event_row_safe|].
  - intros c Hc. destruct (RecordBlockedEvent io now later e field plaintext c) as [[u|err] c'] eqn:E.
    + apply RecordBlockedEvent_result in E; [|done].
      destruct (boundedEvidence _ _). simpl. tauto.
    + simpl. by rewrite (transaction_atomic _ _ _ _ _ E).
  - apply keeps_bind; [apply deleteEvents_wf|]. intros. apply keeps_ret.
  - apply keeps_bind; [destruct before; apply deleteEvents_wf|]. intros. apply keeps_ret.
  - unfold Cleanup. apply keeps_bind.
    { apply keeps_exec. intros d x d' Hd [= _ <-]. by apply drop_evidence_wf. }
    intros _ _ _ _. apply keeps_bind.
    { apply keeps_exec. intros d x d' Hd [= _ <-]. by apply delete_events_wf. }
    intros _ _ _ _. apply keeps_bind; [apply keeps_wal|]. intros r _ _ _.
    destruct (_ || _); [apply keeps_fail|apply keeps_ret].
  - apply keeps_transaction. apply keeps_bind; [apply keeps_query|]. intros b _ _ _.
    destruct b; [apply keeps_ret|]. apply keeps_bind.
    { apply keeps_exec. intros d x d' Hd [= _ <-]. by apply backfill_wf. }
    intros _ _ _ _. apply keeps_exec. intros d x d' Hd H.
    destruct (_ !! 2%Z); [done|]. injection H as _ <-. by apply migration_row_wf.
Qed.

(** Every stored event is well formed, whatever clients and reviewers sent:
    under every sequence of recordings, deletions, clean-ups and the schema
    backfill, with any pattern of I/O failures, the text columns are bounded
    and free of control characters, a digest is empty or 64 hexadecimal
    digits, a key hint never stands without its fingerprint, everything that
    was not blocked counts as forwarded, and every evidence row belongs to an
    existing event, at most one per event, of at most 4 MiB. *)
Theorem events_stay_wf os c : events_wf (tables c) → events_wf (tables (run_event_ops os c)).
Proof.
  revert c. induction os as [|o os IH]; intros c Hc; [done|].
  simpl. by apply IH, run_event_op_wf.
Qed.
End events_theorems.

(** ** Witnesses *)

#[local] Instance demo_sql : SqlFunctions := {
  julianday := λ _, Some f64_one;
  sql_like := λ v p, contains p v;
  wal_checkpoint := λ _, (0, 0)%Z;
}.

Definition demo_event : Event.t :=
  Event.mk "r-1" "POST" "/v1/responses" "openai_responses" "m" "ua" "codex_cli" "" "" "block" "" ""
    ReasonRiskHashMatch "instructions" "" 3 3 false None 0 0 0 false 0.

Lemma demo_events_wf : events_wf empty_db.
Proof. split; try apply map_Forall_empty. intros i1 i2 r1 r2 H. done. Qed.

(** Forty digits within thirty-eight bytes: the marker takes thirty-two. *)
Definition demo_long : string := "0123456789012345678901234567890123456789".
Lemma boundedEvidence_spec_witness :
  (slen (boundedEvidence demo_long 38).1 ≤ 38)%Z ∧
  ∃ p m q, B demo_long = p ++ m ++ q ∧ (boundedEvidence demo_long 38).1 = S_ p +:+ evidence_marker +:+ S_ q ∧ 1 ≤ length p.
Proof.
  pose proof (boundedEvidence_spec demo_long 38 ltac:(lia)) as H.
  assert ((boundedEvidence demo_long 38).2 = true) as Hp by (vm_compute; reflexivity).
  destruct (boundedEvidence demo_long 38) as [content partial]. simpl in Hp.
  destruct H as (Hb & _ & _ & _ & H). split; [exact Hb|].
  destruct (H Hp eq_refl) as (p & m & q & E1 & E2 & _ & H2). exists p, m, q. split; [exact E1|]. split; [exact E2|].
  destruct H2 as [H2 _]; [vm_compute; reflexivity|].
  assert (head_share 38 = 4)%Z as Hs by (vm_compute; reflexivity). lia.
Defined.

Lemma v2_backfill_agrees_witness :
  EventRow.Outcome (v2_row (event_row 0 demo_event)) = EventRow.Outcome (event_row 0 demo_event).
Proof.
  refine (proj1 (proj2 (v2_backfill_agrees 0 demo_event eq_refl eq_refl _ (λ _, eq_refl)))).
  right. right. left.
Defined.

Lemma RecordBlockedEvent_atomic_witness :
  let out := RecordBlockedEvent (λ _, true) 0 0 demo_event "instructions" "bad" demo_conn in
  out.1 = Ok () ∧ ∃ id i ev, audit_events (tables demo_conn) !! id = None ∧
    blocked_evidence (tables out.2) = <[i := ev]> (blocked_evidence (tables demo_conn)).
Proof.
  intros out. assert (out.1 = Ok ()) as Hok by (vm_compute; reflexivity). split; [exact Hok|].
  pose proof (RecordBlockedEvent_atomic (λ _, true) 0 0 demo_event "instructions" "bad" demo_conn
    out.1 out.2 demo_events_wf (surjective_pairing out)) as H.
  rewrite Hok in H. destruct H as (id & i & ev & Hid & _ & _ & Hev & _).
  exists id, i, ev. split; [exact Hid|exact Hev].
Defined.

Lemma evidence_roundtrip_witness :
  let out := RecordBlockedEvent (λ _, true) 0 0 demo_event "instructions" "bad" demo_conn in
  ∃ id r, (GetEvidence (λ _, true) hour id out.2).1 = Ok r ∧ EvidenceRow.Content r = "bad"%string.
Proof.
  intros out.
  destruct (evidence_roundtrip (λ _, true) 0 0 demo_event "instructions" "bad" demo_conn () out.2 hour
    demo_events_wf ltac:(vm_compute; reflexivity) ltac:(vm_compute; reflexivity) ltac:(reflexivity))
    as (id & r & _ & Hg & _ & Hc & Hp).
  exists id, r. split; [exact Hg|]. apply Hc, Hp. vm_compute. discriminate.
Defined.

Lemma deleteEvents_exact_witness :
  let c := (RecordAuditEvent (λ _, true) 0 demo_event demo_conn).2 in
  let out := deleteEvents (λ _, true) (λ _ _, true) c in
  ∃ o, out.1 = Ok o ∧
    EventDeleteResult.DeletedEvents o + size (audit_events (tables out.2)) = size (audit_events (tables c)).
Proof.
  intros c out. assert (events_wf (tables c)) as Hwf.
  { apply (run_event_op_wf (λ _, true) (ERecord 0 demo_event)). exact demo_events_wf. }
  pose proof (deleteEvents_exact (λ _, true) (λ _ _, true) c out.1 out.2 Hwf (surjective_pairing out)) as H.
  destruct out.1 as [o|e] eqn:E; [|vm_compute in E; discriminate].
  exists o. split; [reflexivity|]. exact (proj1 (proj2 (proj2 H))).
Defined.

Lemma events_stay_wf_witness :
  let c := run_event_ops (λ _, true)
    [ERecord 0 demo_event; EBlock 0 0 demo_event "instructions" "bad"; EDelete 1] demo_conn in
  events_wf (tables c) ∧ size (audit_events (tables c)) = 1.
Proof.
  intros c. split; [|vm_compute; reflexivity].
  apply (events_stay_wf (λ _, true)). exact demo_events_wf.
Defined.
