(* ===== verification/StoreMigrate.v ===== *)
(** * Data migrations of the schema ([internal/storage/store.go], [migrate])

    [migrate] creates the tables and columns, which [Db] takes for granted, and
    then moves the data of older releases once: the event contract (version 2,
    in [StoreEvents]) and the plaintext of the rules (version 4, here). *)

From S2P Require Export StoreJobs StoreEvents.

(** Rows by descending key. *)
Fixpoint insert_key_desc {A} (x : Z * A) (l : list (Z * A)) : list (Z * A) :=
  match l with
  | [] => [x]
  | y :: l => if (y.1 <? x.1)%Z then x :: y :: l else y :: insert_key_desc x l
  end.
Definition keys_desc {A} (l : list (Z * A)) : list (Z * A) := foldr insert_key_desc [] l.

Section migrate.
Context `{U : Unicode, C : Cipher} (hashPlaintext : string → string) (io : nat → bool).

(** [candidates]: the text found for a rule of a kind, by kind and digest. *)
Abbreviation candidates := (gmap (string * string) string) (only parsing).
Definition addCandidate (kind : string) (m : candidates) (row : string * string) : candidates :=
  let '(hash, content) := row in
  if (content =? "")%string || negb (content_ok hashPlaintext hash content) then m
  else match m !! (kind, to_lower hash) with
       | Some _ => m
       | None => <[(kind, to_lower hash) := content]> m
       end.

(** A rule without its text. *)
Definition lacks_text (kind sha : string) (d : db) : bool :=
  match table kind d !! sha with
  | Some e => (HashEntry.Content e =? "")%string
  | None => false
  end.

(** The join of rules, events and complete evidence, latest evidence first. *)
Definition evidence_rows (d : db) : list (string * string) :=
  omap (λ '(_, b),
    match audit_events d !! EvidenceRow.EventID b with
    | Some e =>
        if lacks_text "risk" (EventRow.SHA256 e) d && negb (EvidenceRow.Partial b)
        then Some (EventRow.SHA256 e, EvidenceRow.Content b) else None
    | None => None
    end) (keys_desc (map_to_list (blocked_evidence d))).

(** The join of rules, promotions of the kind and unsampled jobs. *)
Definition sample_rows (kind : string) (d : db) : list (string * bytes) :=
  omap (λ '(_, (p, j)),
    if lacks_text kind (RulePromotion.SHA256 p) d && negb (ReviewJob.Sampled j) &&
       negb (bool_decide (ReviewJob.SampleCiphertext j = []))
    then Some (RulePromotion.SHA256 p, ReviewJob.SampleCiphertext j) else None)
    (keys_desc (omap (λ '(_, p),
       if (RulePromotion.Kind p =? kind)%string
       then (λ j, (RulePromotion.JobID p, (p, j))) <$> review_jobs d !! RulePromotion.JobID p
       else None) (map_to_list (rule_promotions d)))).
(** A sample that cannot be decrypted is skipped. *)
Definition decrypted (row : string * bytes) : option (string * string) :=
  (λ plain, (row.1, S_ plain)) <$> StoreJobs.unseal row.2.

Definition fill_text (kind sha content : string) (d : db) : result store_err (unit * db) :=
  Ok ((), set_table kind d (alter (λ e,
    HashEntry.mk (HashEntry.ID e) (HashEntry.SHA256 e) (HashEntry.Label e)
      (if (HashEntry.Content e =? "")%string then content else HashEntry.Content e) (HashEntry.Source e)
      (HashEntry.APIKeyFingerprint e) (HashEntry.APIKeyHint e) (HashEntry.APIKeySeenAt e)
      (HashEntry.Enabled e) (HashEntry.CreatedAt e)) sha (table kind d))).
Fixpoint fill_all (items : list (string * string * string)) : Store unit :=
  match items with
  | [] => mret ()
  | (kind, sha, content) :: items =>
      exec io (fill_text (if (kind =? "risk")%string then "risk" else "trusted") sha content);; fill_all items
  end.

(** [INSERT INTO schema_migrations]; the version is the primary key. *)
Definition record_version (v : Z) (appliedAt : string) (d : db) : result store_err (unit * db) :=
  match schema_migrations (conf d) !! v with
  | Some _ => Err ErrConstraint
  | None => Ok ((), set_migrations d (<[v := appliedAt]> (schema_migrations (conf d))))
  end.
Definition record_version_or_ignore (v : Z) (appliedAt : string) (d : db) : result store_err (unit * db) :=
  match record_version v appliedAt d with Ok r => Ok r | Err _ => Ok ((), d) end.

(** What the first queries of the migration find. *)
Definition rule_candidates : Store candidates :=
  evidence ← query io evidence_rows;
  let m := foldl (addCandidate "risk") ∅ evidence in
  trusted ← query io (sample_rows "trusted");
  let m := foldl (addCandidate "trusted") m (omap decrypted trusted) in
  risk ← query io (sample_rows "risk");
  mret (foldl (addCandidate "risk") m (omap decrypted risk)).

(** The items are filled in some order; they belong to different rows. *)
Definition migrateRulePlaintextV4 (appliedAt : string) : Store unit :=
  applied ← query io (λ d, bool_decide (is_Some (schema_migrations (conf d) !! 4%Z)));
  if (applied : bool) then mret () else
  m ← rule_candidates;
  transaction io (
    fill_all (map_to_list m);;
    exec io (record_version 4 appliedAt)).

(** The data part of [migrate], on tables with all columns. *)
Definition migrate (now : Time) : Store unit :=
  let appliedAt := format_time now in
  exec io (record_version_or_ignore 1 appliedAt);;
  migrateEventContractV2 io appliedAt;;
  exec io (record_version_or_ignore 3 appliedAt);;
  migrateRulePlaintextV4 appliedAt;;
  exec io (record_version_or_ignore 5 appliedAt);;
  exec io (record_version_or_ignore 6 appliedAt).
End migrate.
