(* ===== verification/StoreMigrateTheorems.v ===== *)
(** * Theorems on the data migrations

    The backfill of rule texts only adds proven texts, adds every text that
    complete evidence proves, and happens as a whole or not at all. *)

From S2P Require Export StoreJobsTheorems StoreEventsTheorems StoreMigrate.

Section migrate_theorems.
Context `{U : Unicode, C : Cipher} (hashPlaintext : string → string) (io : nat → bool).
Abbreviation candidates := (gmap (string * string) string) (only parsing).

Lemma insert_key_desc_perm {A} (x : Z * A) l : insert_key_desc x l ≡ₚ x :: l.
Proof.
  induction l as [|y l IH]; simpl; [done|]. destruct (_ <? _)%Z; [done|].
  rewrite IH. apply Permutation_swap.
Qed.
Lemma keys_desc_perm {A} (l : list (Z * A)) : keys_desc l ≡ₚ l.
Proof.
  unfold keys_desc. induction l as [|x l IH]; simpl; [done|]. by rewrite insert_key_desc_perm, IH.
Qed.

(** ** The candidates *)

(** Every candidate is a text that hashes to the digest it is filed under. *)
Definition proven (m : candidates) : Prop :=
  map_Forall (λ k content, kind_ok k.1 = true ∧ content ≠ ""%string ∧ hashPlaintext content = k.2) m.

Lemma addCandidate_proven kind m row :
  kind_ok kind = true → proven m → proven (addCandidate hashPlaintext kind m row).
Proof.
  intros Hk Hm. destruct row as [hash content]. unfold addCandidate.
  destruct (String.eqb_spec content "") as [|Hne]; [done|].
  destruct (content_ok hashPlaintext hash content) eqn:Hok; [|done]. simpl.
  destruct (m !! _); [done|]. apply map_Forall_insert_2; [|done].
  apply content_ok_cases in Hok as [|Hok]; done.
Qed.
Lemma foldl_proven kind rows m :
  kind_ok kind = true → proven m → proven (foldl (addCandidate hashPlaintext kind) m rows).
Proof.
  intros Hk. revert m. induction rows as [|r rows IH]; intros m Hm; [done|]. simpl. by apply IH, addCandidate_proven.
Qed.

Lemma addCandidate_mono kind m row k :
  is_Some (m !! k) → is_Some (addCandidate hashPlaintext kind m row !! k).
Proof.
  intros Hk. destruct row as [hash content]. unfold addCandidate. destruct (_ || _); [done|].
  destruct (m !! (kind, to_lower hash)) eqn:E; [done|].
  rewrite lookup_insert_ne; [done|]. intros <-. rewrite E in Hk. by destruct Hk.
Qed.
Lemma foldl_mono kind rows m k :
  is_Some (m !! k) → is_Some (foldl (addCandidate hashPlaintext kind) m rows !! k).
Proof. revert m. induction rows as [|r rows IH]; intros m Hm; [done|]. simpl. by apply IH, addCandidate_mono. Qed.

Lemma foldl_finds kind rows m hash content :
  (hash, content) ∈ rows → content ≠ ""%string → content_ok hashPlaintext hash content = true →
  is_Some (foldl (addCandidate hashPlaintext kind) m rows !! (kind, to_lower hash)).
Proof.
  intros Hin Hne Hok. revert m. induction rows as [|x rows IH]; intros m; [by apply elem_of_nil in Hin|].
  apply elem_of_cons in Hin as [<-|Hin]; simpl; [|by apply IH].
  apply foldl_mono. unfold addCandidate. rewrite (proj2 (String.eqb_neq _ _) Hne), Hok. simpl.
  destruct (m !! _) eqn:E; [by rewrite E|]. by rewrite lookup_insert_eq.
Qed.

(** ** Filling *)

Lemma fill_text_only e content :
  only_filled e (HashEntry.mk (HashEntry.ID e) (HashEntry.SHA256 e) (HashEntry.Label e)
      (if (HashEntry.Content e =? "")%string then content else HashEntry.Content e) (HashEntry.Source e)
      (HashEntry.APIKeyFingerprint e) (HashEntry.APIKeyHint e) (HashEntry.APIKeySeenAt e)
      (HashEntry.Enabled e) (HashEntry.CreatedAt e)).
Proof.
  split; simpl; [done| |done]. intros H. by destruct (String.eqb_spec (HashEntry.Content e) "").
Qed.

(** The change of a migration of this kind: texts are filled and a version may
    be recorded, nothing else. *)
Definition backfilled (d d' : db) : Prop :=
  (∃ M, d' = set_migrations (set_risk (set_trusted d (trusted_hashes d')) (risk_hashes d')) M) ∧
  grows_by_filling (trusted_hashes d) (trusted_hashes d') ∧
  grows_by_filling (risk_hashes d) (risk_hashes d').

Lemma backfilled_refl d : backfilled d d.
Proof.
  split; [|split; apply grows_refl]. exists (schema_migrations (conf d)).
  destruct d as [???????? k]. by destruct k.
Qed.

Lemma backfilled_fill d d1 kind sha content a d' :
  backfilled d d1 → fill_text kind sha content d1 = Ok (a, d') → backfilled d d'.
Proof.
  intros ([M Hd] & Ht & Hr) [= _ <-]. unfold set_table, table.
  set (f := λ e, HashEntry.mk _ _ _ _ _ _ _ _ _ _).
  assert (∀ m, grows_by_filling m (alter f sha m)) as Hg.
  { intros m. split; [apply dom_alter_L|]. intros k e H. destruct (decide (k = sha)) as [->|Hne].
    - rewrite lookup_alter_eq, H. eexists. split; [done|]. apply fill_text_only.
    - rewrite lookup_alter_ne by done. exists e. split; [done|apply only_filled_refl]. }
  rewrite Hd. destruct (kind =? "risk")%string; (split; [by exists M|]); simpl; split; try done;
    (eapply grows_trans; [eassumption|apply Hg]).
Qed.

(** The text of the rule [sha] is there, if there is such a rule. *)
Definition texted (kind sha : string) (d : db) : Prop :=
  ∀ e, table kind d !! sha = Some e → HashEntry.Content e ≠ ""%string.

Lemma grows_texted kind sha d d' :
  (grows_by_filling (table kind d) (table kind d')) → texted kind sha d → texted kind sha d'.
Proof.
  intros [Hdom Hg] Ht e' He'.
  assert (is_Some (table kind d !! sha)) as [e He] by (apply elem_of_dom; rewrite <- Hdom; by apply elem_of_dom_2 in He').
  destruct (Hg sha e He) as (e2 & H2 & [_ Hk _]). assert (e2 = e') as -> by congruence.
  rewrite (Hk (Ht e He)). by apply Ht.
Qed.

(** The statements of the transaction fill exactly the candidates. *)
Lemma fill_all_spec items c u c' d0 :
  Forall (λ it, kind_ok it.1.1 = true ∧ it.2 ≠ ""%string) items →
  backfilled d0 (tables c) → fill_all io items c = (Ok u, c') →
  backfilled d0 (tables c') ∧ schema_migrations (conf (tables c')) = schema_migrations (conf (tables c)) ∧
  (∀ kind sha, texted kind sha (tables c) → texted kind sha (tables c')) ∧
  (∀ it, it ∈ items → texted it.1.1 it.1.2 (tables c')).
Proof.
  revert c. induction items as [|[[kind sha] content] items IH]; intros c Hok Hb; simpl.
  { intros [= _ <-]. split_and!; try done. intros it Hit. by apply elem_of_nil in Hit. }
  apply Forall_cons in Hok as [[Hk Hne] Hok]. simpl in Hk, Hne.
  intros (a & c1 & H1%exec_inv & H)%bind_inv.
  assert ((if (kind =? "risk")%string then "risk"%string else "trusted"%string) = kind) as Hkind.
  { unfold kind_ok in Hk. destruct (String.eqb_spec kind "risk") as [->|]; [done|].
    rewrite orb_false_r in Hk. by apply String.eqb_eq in Hk. }
  rewrite Hkind in H1.
  pose proof (backfilled_fill _ _ _ _ _ _ _ Hb H1) as Hb1.
  assert (schema_migrations (conf (tables c1)) = schema_migrations (conf (tables c))) as Hs1.
  { injection H1 as _ <-. unfold set_table. by destruct (kind =? "risk")%string. }
  assert (backfilled (tables c) (tables c1)) as (_ & Gt & Gr) by (eapply backfilled_fill; [apply backfilled_refl|exact H1]).
  assert (∀ k s, texted k s (tables c) → texted k s (tables c1)) as Hmono.
  { intros k s. apply grows_texted. unfold table. by destruct (k =? "risk")%string. }
  assert (texted kind sha (tables c1)) as Hnew.
  { injection H1 as _ <-. intros e. unfold table, set_table.
    destruct (kind =? "risk")%string; simpl; rewrite lookup_alter_eq; intros (e0 & _ & ->)%fmap_Some; simpl;
      by destruct (String.eqb_spec (HashEntry.Content e0) ""). }
  destruct (IH c1 Hok Hb1 H) as (Hb2 & Hs2 & Hm2 & Hall). split_and!; [done|congruence|auto|].
  intros it [->|Hit]%elem_of_cons; [by apply Hm2|by apply Hall].
Qed.

Lemma fill_all_keeps items :
  Forall (λ it, it.2 ≠ ""%string ∧ hashPlaintext it.2 = it.1.2) items →
  keeps (rules_wf hashPlaintext) (fill_all io items).
Proof.
  induction items as [|[[kind sha] content] items IH]; intros Hok; simpl; [apply keeps_ret|].
  apply Forall_cons in Hok as [[Hne Hh] Hok]. simpl in Hne, Hh.
  apply keeps_bind; [|intros ? ? ? _; by apply IH]. apply keeps_exec. intros d a d' Hd [= _ <-].
  apply set_table_wf; [done|]. intros k e He. pose proof (table_wf hashPlaintext
    (if (kind =? "risk")%string then "risk"%string else "trusted"%string) d Hd) as Hlib.
  destruct (decide (k = sha)) as [->|Hne']; [|rewrite lookup_alter_ne in He by done; by apply Hlib].
  rewrite lookup_alter_eq in He. apply fmap_Some in He as (e0 & He0 & ->).
  destruct (Hlib _ _ He0) as [H1 H2 H3 H4]. split; simpl; try done.
  destruct (String.eqb_spec (HashEntry.Content e0) ""); [by right|done].
Qed.

Lemma rule_candidates_spec c m c' :
  rule_candidates hashPlaintext io c = (Ok m, c') →
  tables c' = tables c ∧ proven m ∧
  (∀ hash content, (hash, content) ∈ evidence_rows (tables c) → content ≠ ""%string →
     content_ok hashPlaintext hash content = true → is_Some (m !! ("risk"%string, to_lower hash))).
Proof.
  unfold rule_candidates. intros (ev & c1 & [-> H1]%query_inv & H)%bind_inv.
  apply bind_inv in H as (tr & c2 & [-> H2]%query_inv & H).
  apply bind_inv in H as (rk & c3 & [-> H3]%query_inv & [= <- <-]). split; [congruence|]. split.
  - do 3 (apply foldl_proven; [done|]). apply map_Forall_empty.
  - intros hash content Hin Hne Hok. do 2 apply foldl_mono. by eapply foldl_finds.
Qed.

Lemma evidence_rows_complete d i b e r :
  blocked_evidence d !! i = Some b → EvidenceRow.Partial b = false →
  audit_events d !! EvidenceRow.EventID b = Some e →
  risk_hashes d !! EventRow.SHA256 e = Some r → HashEntry.Content r = ""%string →
  (EventRow.SHA256 e, EvidenceRow.Content b) ∈ evidence_rows d.
Proof.
  intros Hb Hp He Hr Hc. unfold evidence_rows. apply list_elem_of_omap. exists (i, b). split.
  - rewrite keys_desc_perm. by apply elem_of_map_to_list.
  - rewrite He. unfold lacks_text, table. simpl. by rewrite Hr, Hc, Hp.
Qed.

Lemma rule_candidates_tables c : tables (rule_candidates hashPlaintext io c).2 = tables c.
Proof.
  apply (λ H : keeps (λ d, d = tables c) _, H c eq_refl). unfold rule_candidates.
  do 3 (apply keeps_bind; [apply keeps_query|intros ? ? ? _]). apply keeps_ret.
Qed.

(** The transaction of the migration. *)
Lemma backfill_transaction m appliedAt c r c' :
  rules_wf hashPlaintext (tables c) → proven m →
  transaction io (fill_all io (map_to_list m);; exec io (record_version 4 appliedAt)) c = (r, c') →
  rules_wf hashPlaintext (tables c') ∧ backfilled (tables c) (tables c') ∧
  match r with
  | Err _ => tables c' = tables c
  | Ok _ => is_Some (schema_migrations (conf (tables c')) !! 4%Z) ∧
            ∀ k, is_Some (m !! k) → texted k.1 k.2 (tables c')
  end.
Proof.
  intros Hwf Hm H. assert (∀ it, it ∈ map_to_list m →
    kind_ok it.1.1 = true ∧ it.2 ≠ ""%string ∧ hashPlaintext it.2 = it.1.2) as Hit.
  { intros [k content] Hin%elem_of_map_to_list. exact (Hm k content Hin). }
  destruct r as [u|e].
  - apply transaction_inv in H as (c0 & c1 & H0 & H & ->).
    apply bind_inv in H as (a & c2 & Hf & H). pose proof Hf as Hf'.
    apply (fill_all_spec _ _ _ _ (tables c)) in Hf as (Hb & _ & _ & Hall);
      [|apply Forall_forall; intros it Hin; by destruct (Hit it Hin) as (? & ? & _)
       |rewrite H0; apply backfilled_refl].
    assert (rules_wf hashPlaintext (tables c2)) as Hwf2.
    { rewrite <- H0 in Hwf. refine (eq_ind _ (λ x, rules_wf hashPlaintext (tables x.2)) _ _ Hf').
      apply fill_all_keeps; [|done]. apply Forall_forall. intros it Hin. by destruct (Hit it Hin) as (_ & ? & ?). }
    apply exec_inv in H. unfold record_version in H. destruct (_ !! _); [done|]. injection H as _ <-.
    split; [exact Hwf2|]. split.
    + destruct Hb as ([M Hd] & Ht & Hr). split; [|done]. eexists. rewrite Hd at 1. reflexivity.
    + split; [simpl; rewrite lookup_insert_eq; by eexists|]. intros k [content Hk].
      apply (Hall (k, content)). by apply elem_of_map_to_list.
  - apply transaction_atomic in H. rewrite H. split; [done|]. split; [apply backfilled_refl|done].
Qed.

(** C39. The migration to version 4 adds texts to rules and nothing else: every
    text it adds has the digest of its rule, no text, label, state or trace
    that was there changes, and a run that fails changes no table.  When it
    succeeds for the first time, every risk rule without a text whose digest
    is proved by complete evidence of a blocked event has a text afterwards. *)
Theorem plaintext_backfill appliedAt c r c' :
  rules_wf hashPlaintext (tables c) → migrateRulePlaintextV4 hashPlaintext io appliedAt c = (r, c') →
  rules_wf hashPlaintext (tables c') ∧ backfilled (tables c) (tables c') ∧
  match r with
  | Err _ => tables c' = tables c
  | Ok _ =>
      is_Some (schema_migrations (conf (tables c')) !! 4%Z) ∧
      (schema_migrations (conf (tables c)) !! 4%Z = None →
       ∀ i b e row, blocked_evidence (tables c) !! i = Some b → EvidenceRow.Partial b = false →
         audit_events (tables c) !! EvidenceRow.EventID b = Some e →
         risk_hashes (tables c) !! EventRow.SHA256 e = Some row →
         EvidenceRow.Content b ≠ ""%string →
         content_ok hashPlaintext (EventRow.SHA256 e) (EvidenceRow.Content b) = true →
         ∃ row', risk_hashes (tables c') !! EventRow.SHA256 e = Some row' ∧ HashEntry.Content row' ≠ ""%string)
  end.
Proof.
  intros Hwf. unfold migrateRulePlaintextV4, mbind at 1, Store_bind at 1.
  destruct (query io _ c) as [[applied|err] c1] eqn:E1.
  2:{ intros [= <- <-]. assert (tables c1 = tables c) as ->; [|by split_and!; [|apply backfilled_refl|]].
      refine (eq_ind _ (λ x, tables x.2 = tables c) _ _ E1). by apply (keeps_query io (λ d, d = tables c)). }
  apply query_inv in E1 as [-> H1]. rewrite <- H1 in Hwf |- *. clear H1.
  case_bool_decide as Ha; [intros [= <- <-]; split_and!; try done; [apply backfilled_refl|]|].
  { intros Hn. rewrite Hn in Ha. by destruct Ha. }
  unfold mbind at 1, Store_bind at 1. pose proof (rule_candidates_tables c1) as Ht.
  destruct (rule_candidates hashPlaintext io c1) as [[m|err] c2] eqn:E2; simpl in Ht.
  2:{ intros [= <- <-]. rewrite Ht. by split_and!; [|apply backfilled_refl|]. }
  apply rule_candidates_spec in E2 as (_ & Hm & Hfinds). rewrite <- Ht in Hwf, Hfinds |- *.
  intros H. destruct (backfill_transaction m appliedAt c2 r c' Hwf Hm H) as (Hwf' & Hb & Hr).
  split; [done|]. split; [done|]. destruct r as [u|err]; [|done]. destruct Hr as [Hv Hall]. split; [done|].
  intros _ i b e row Hbi Hp He Hrow Hne Hok. destruct Hb as (_ & _ & Hg).
  destruct (proj2 Hg _ _ Hrow) as (row' & Hrow' & Honly). exists row'. split; [done|].
  destruct (decide (HashEntry.Content row = "")) as [Hc|Hc]; [|by rewrite (of_content _ _ Honly Hc)].
  assert (is_Some (m !! ("risk"%string, to_lower (EventRow.SHA256 e)))) as Hk.
  { apply (Hfinds _ (EvidenceRow.Content b)); [by eapply evidence_rows_complete|done|done]. }
  pose proof (row_lower _ _ _ (proj2 Hwf _ _ Hrow)) as Hl. rewrite Hl in Hk. exact (Hall _ Hk row' Hrow').
Qed.
End migrate_theorems.

(** ** Witness *)

Section migrate_witness.
#[local] Instance demo_cipher : Cipher := { seal := λ _ p, p; unseal := λ b, Some b }.

Definition all_io (n : nat) : bool := true.
Definition old_sha : string := demo_hash "attack".
Definition old_event : Event.t :=
  Event.mk "r-1" "POST" "/v1/responses" "openai_responses" "m" "ua" "codex_cli" "" "" "block" "" ""
    ReasonRiskHashMatch "instructions" old_sha 6 6 false None 0 0 0 false 0.
(** A blocked request, and a rule for its digest without a text. *)
Definition old_block : conn := (RecordBlockedEvent all_io 0 0 old_event "instructions" "attack" demo_conn).2.
Definition old_release : conn :=
  run_ops demo_hash all_io [OpAdd 0 "risk" old_sha "label" "" "manual" "" ""] old_block.

Lemma plaintext_backfill_witness :
  let out := migrateRulePlaintextV4 demo_hash all_io "now" old_release in
  HashEntry.Content <$> risk_hashes (tables old_release) !! old_sha = Some ""%string ∧
  ∃ row, risk_hashes (tables out.2) !! old_sha = Some row ∧ HashEntry.Content row ≠ ""%string.
Proof.
  intros out. assert (rules_wf demo_hash (tables old_release)) as Hwf.
  { unfold old_release. cbn [run_ops]. apply run_op_keeps.
    assert (size (trusted_hashes (tables old_block)) = 0 ∧ size (risk_hashes (tables old_block)) = 0)
      as [Ht%map_size_empty_inv Hr%map_size_empty_inv] by (split; vm_compute; reflexivity).
    split; [rewrite Ht|rewrite Hr]; apply map_Forall_empty. }
  split; [vm_compute; reflexivity|].
  assert (migrateRulePlaintextV4 demo_hash all_io "now" old_release = (Ok (), out.2)) as E
    by (apply run_eq; vm_compute; reflexivity).
  destruct (plaintext_backfill demo_hash all_io "now" old_release (Ok ()) out.2 Hwf E) as (_ & _ & _ & H).
  destruct (blocked_evidence (tables old_release) !! 2%Z) as [b|] eqn:Hb; [|vm_compute in Hb; discriminate Hb].
  destruct (audit_events (tables old_release) !! EvidenceRow.EventID b) as [e|] eqn:He.
  2:{ vm_compute in Hb. injection Hb as <-. vm_compute in He. discriminate He. }
  destruct (risk_hashes (tables old_release) !! EventRow.SHA256 e) as [row|] eqn:Hrow.
  2:{ vm_compute in Hb. injection Hb as <-. vm_compute in He. injection He as <-.
      vm_compute in Hrow. discriminate Hrow. }
  assert (EvidenceRow.Partial b = false ∧ EvidenceRow.Content b = "attack"%string ∧ EventRow.SHA256 e = old_sha)
    as (Hp & Hc & Hs).
  { vm_compute in Hb. injection Hb as <-. vm_compute in He. injection He as <-. vm_compute. auto. }
  rewrite <- Hs. apply (H eq_refl 2%Z b e row Hb Hp He Hrow); [rewrite Hc; discriminate|].
  rewrite Hs, Hc. vm_compute. reflexivity.
Defined.
End migrate_witness.
