(* ===== verification/StoreOpen.v ===== *)
(** * Opening the store ([internal/storage/store.go], [Open], [migrate])

    The schema is a map from tables to their columns; the statements that
    create or extend it are data.  A statement that needs a column the file
    does not have is an error.  The data part of the migrations is that of
    [StoreMigrate.v]. *)

From S2P Require Export StoreMigrateTheorems Url.

(** ** Encryption *)

(** AES-256-GCM and SHA-256 of the standard library. *)
Class AEAD := {
  Sum256 : bytes → bytes;
  gcm_Seal : bytes → bytes → bytes → bytes → bytes;            (** key, nonce, text, additional data *)
  gcm_Open : bytes → bytes → bytes → bytes → option bytes;
}.
Class AEADLaws `{AEAD} := {
  gcm_Open_Seal : ∀ key nonce text ad, gcm_Open key nonce (gcm_Seal key nonce text ad) ad = Some text;
}.
Definition NonceSize : nat := 12.
Definition additional_data : bytes := B "nocyber-guard:ai-key:v1".

Section crypto.
Context `{AE : AEAD} (masterKey : bytes) (rand : nat → bytes).

(** [s.masterKey] is the digest of the key of the configuration; [rand n]
    are the twelve random bytes of the n-th statement. *)
Definition store_key : bytes := Sum256 masterKey.
Definition store_encrypt (n : nat) (plain : bytes) : bytes :=
  let nonce := rand n in nonce ++ gcm_Seal store_key nonce plain additional_data.
Definition store_decrypt (ciphertext : bytes) : option bytes :=
  if (length ciphertext <? NonceSize)%nat then None
  else gcm_Open store_key (take NonceSize ciphertext) (drop NonceSize ciphertext) additional_data.

Definition store_cipher : Cipher := {| StoreJobs.seal := store_encrypt; StoreJobs.unseal := store_decrypt |}.

End crypto.

(** ** The data source *)

(** [url.QueryEscape]; [Values.Encode] of one key keeps the order. *)
Definition unreserved (c : ascii) : bool :=
  let n := code c in
  ((48 <=? n)%N && (n <=? 57)%N) || ((65 <=? n)%N && (n <=? 90)%N) || ((97 <=? n)%N && (n <=? 122)%N) ||
  bool_decide (c ∈ ["-"; "_"; "."; "~"]%char).
Definition upper_hex (n : N) : ascii := chr (if (n <? 10)%N then 48 + n else 55 + n)%N.
Definition QueryEscape (s : string) : string :=
  S_ (concat (map (λ c, if unreserved c then [c] else if bool_decide (c = " "%char) then ["+"%char]
                        else ["%"%char; upper_hex (code c / 16); upper_hex (code c mod 16)]) (B s))).
Definition pragmas : list string :=
  ["busy_timeout(5000)"; "foreign_keys(ON)"; "secure_delete(ON)"; "synchronous(NORMAL)"; "journal_mode(WAL)"]%string.
Definition sqliteDSN (path : string) : string :=
  "file:" +:+ path +:+ "?" +:+ join (map (λ p, "_pragma=" +:+ QueryEscape p) pragmas) "&".

Example sqliteDSN_ex :
  sqliteDSN "/data/nocyber-guard.db" =
  "file:/data/nocyber-guard.db?_pragma=busy_timeout%285000%29&_pragma=foreign_keys%28ON%29&_pragma=secure_delete%28ON%29&_pragma=synchronous%28NORMAL%29&_pragma=journal_mode%28WAL%29"%string.
Proof. vm_compute. reflexivity. Qed.

(** ** The schema *)

(** A column with its definition, the name first, as in the statements. *)
Inductive ddl : Type :=
| CreateTable (table : string) (columns constraints : list string)     (** [IF NOT EXISTS] *)
| CreateIndex (index table : string) (columns : list string).

Definition column_name (column : string) : string :=
  match cut (B column) (B " ") with Some (name, _) => S_ name | None => column end.

(** The statements at the start of [migrate]. *)
Definition schema_statements : list ddl :=
  [CreateTable "schema_migrations"
      ["version INTEGER PRIMARY KEY"; "applied_at TEXT NOT NULL"] [];
   CreateTable "settings"
      ["key TEXT PRIMARY KEY"; "value TEXT NOT NULL"; "version INTEGER NOT NULL DEFAULT 1";
       "updated_at TEXT NOT NULL"] [];
   CreateTable "admin_users"
      ["id INTEGER PRIMARY KEY"; "username TEXT NOT NULL UNIQUE"; "password_hash BLOB NOT NULL";
       "created_at TEXT NOT NULL"; "updated_at TEXT NOT NULL"] [];
   CreateTable "admin_sessions"
      ["token_hash TEXT PRIMARY KEY"; "username TEXT NOT NULL"; "csrf_token TEXT NOT NULL";
       "expires_at TEXT NOT NULL"; "created_at TEXT NOT NULL"] [];
   CreateTable "ai_endpoints"
      ["id INTEGER PRIMARY KEY CHECK(id=1)"; "base_url TEXT NOT NULL DEFAULT ''";
       "model TEXT NOT NULL DEFAULT ''"; "api_key BLOB NOT NULL DEFAULT ''";
       "timeout_ms INTEGER NOT NULL DEFAULT 15000"; "max_concurrency INTEGER NOT NULL DEFAULT 16";
       "updated_at TEXT NOT NULL"] [];
   CreateTable "ai_nodes"
      ["id INTEGER PRIMARY KEY AUTOINCREMENT"; "slot TEXT NOT NULL UNIQUE"; "name TEXT NOT NULL DEFAULT ''";
       "base_url TEXT NOT NULL"; "model TEXT NOT NULL"; "api_key BLOB NOT NULL DEFAULT ''";
       "timeout_ms INTEGER NOT NULL DEFAULT 15000"; "enabled INTEGER NOT NULL DEFAULT 1";
       "updated_at TEXT NOT NULL"] [];
   CreateIndex "ai_nodes_enabled_idx" "ai_nodes" ["enabled"; "slot"];
   CreateTable "client_profiles"
      ["id INTEGER PRIMARY KEY AUTOINCREMENT"; "name TEXT NOT NULL UNIQUE";
       "description TEXT NOT NULL DEFAULT ''"; "enabled INTEGER NOT NULL DEFAULT 1";
       "priority INTEGER NOT NULL DEFAULT 100"; "matchers_json TEXT NOT NULL"; "created_at TEXT NOT NULL";
       "updated_at TEXT NOT NULL"] [];
   CreateTable "trusted_hashes"
      ["id INTEGER PRIMARY KEY AUTOINCREMENT"; "sha256 TEXT NOT NULL UNIQUE"; "label TEXT NOT NULL DEFAULT ''";
       "content TEXT NOT NULL DEFAULT ''"; "source TEXT NOT NULL DEFAULT 'manual'";
       "api_key_fingerprint TEXT NOT NULL DEFAULT ''"; "api_key_hint TEXT NOT NULL DEFAULT ''";
       "api_key_seen_at TEXT NOT NULL DEFAULT ''"; "enabled INTEGER NOT NULL DEFAULT 1";
       "created_at TEXT NOT NULL"] [];
   CreateTable "risk_hashes"
      ["id INTEGER PRIMARY KEY AUTOINCREMENT"; "sha256 TEXT NOT NULL UNIQUE"; "label TEXT NOT NULL DEFAULT ''";
       "content TEXT NOT NULL DEFAULT ''"; "source TEXT NOT NULL DEFAULT 'manual'";
       "api_key_fingerprint TEXT NOT NULL DEFAULT ''"; "api_key_hint TEXT NOT NULL DEFAULT ''";
       "api_key_seen_at TEXT NOT NULL DEFAULT ''"; "enabled INTEGER NOT NULL DEFAULT 1";
       "created_at TEXT NOT NULL"] [];
   CreateTable "audit_events"
      ["id INTEGER PRIMARY KEY AUTOINCREMENT"; "request_id TEXT NOT NULL"; "method TEXT NOT NULL";
       "path TEXT NOT NULL"; "protocol TEXT NOT NULL"; "model TEXT NOT NULL"; "user_agent TEXT NOT NULL";
       "profile_key TEXT NOT NULL"; "api_key_fingerprint TEXT NOT NULL DEFAULT ''";
       "api_key_hint TEXT NOT NULL DEFAULT ''"; "decision TEXT NOT NULL";
       "action TEXT NOT NULL DEFAULT 'audit'"; "outcome TEXT NOT NULL DEFAULT 'allow'"; "reason TEXT NOT NULL";
       "field_name TEXT NOT NULL"; "sha256 TEXT NOT NULL"; "prompt_bytes INTEGER NOT NULL";
       "prompt_runes INTEGER NOT NULL"; "ai_sampled INTEGER NOT NULL"; "ai_result TEXT NOT NULL DEFAULT ''";
       "ai_confidence REAL NOT NULL DEFAULT 0"; "ai_reason TEXT NOT NULL DEFAULT ''";
       "ai_category TEXT NOT NULL DEFAULT ''"; "latency_ms INTEGER NOT NULL";
       "audit_latency_ms INTEGER NOT NULL DEFAULT 0"; "ai_latency_ms INTEGER NOT NULL DEFAULT 0";
       "upstream_accessed INTEGER NOT NULL DEFAULT 1"; "created_at TEXT NOT NULL"] [];
   CreateIndex "audit_events_created_idx" "audit_events" ["created_at"];
   CreateIndex "audit_events_reason_idx" "audit_events" ["reason"];
   CreateIndex "audit_events_decision_id_idx" "audit_events" ["decision"; "id"];
   CreateTable "blocked_evidence"
      ["id INTEGER PRIMARY KEY AUTOINCREMENT";
       "event_id INTEGER NOT NULL REFERENCES audit_events(id) ON DELETE CASCADE"; "field_name TEXT NOT NULL";
       "content TEXT NOT NULL"; "partial INTEGER NOT NULL DEFAULT 0"; "expires_at TEXT NOT NULL";
       "created_at TEXT NOT NULL"] [];
   CreateIndex "blocked_evidence_event_expiry_idx" "blocked_evidence" ["event_id"; "expires_at"];
   CreateTable "guard_meta"
      ["key TEXT PRIMARY KEY"; "value TEXT NOT NULL"] [];
   CreateTable "review_jobs"
      ["id INTEGER PRIMARY KEY AUTOINCREMENT"; "job_key TEXT NOT NULL UNIQUE"; "sha256 TEXT NOT NULL";
       "field_name TEXT NOT NULL"; "model TEXT NOT NULL DEFAULT ''";
       "api_key_fingerprint TEXT NOT NULL DEFAULT ''"; "api_key_hint TEXT NOT NULL DEFAULT ''";
       "sampled INTEGER NOT NULL DEFAULT 0"; "status TEXT NOT NULL DEFAULT 'queued'";
       "promotion TEXT NOT NULL DEFAULT ''"; "attempts INTEGER NOT NULL DEFAULT 0";
       "next_attempt_at TEXT NOT NULL DEFAULT ''"; "last_error TEXT NOT NULL DEFAULT ''";
       "sample_ciphertext BLOB NOT NULL DEFAULT ''"; "content_ciphertext BLOB NOT NULL DEFAULT ''";
       "created_at TEXT NOT NULL"; "updated_at TEXT NOT NULL"; "completed_at TEXT NOT NULL DEFAULT ''"] [];
   CreateIndex "review_jobs_created_idx" "review_jobs" ["created_at"];
   CreateTable "review_votes"
      ["id INTEGER PRIMARY KEY AUTOINCREMENT";
       "job_id INTEGER NOT NULL REFERENCES review_jobs(id) ON DELETE CASCADE"; "node_slot TEXT NOT NULL";
       "result TEXT NOT NULL DEFAULT ''"; "confidence REAL NOT NULL DEFAULT 0";
       "reason TEXT NOT NULL DEFAULT ''"; "category TEXT NOT NULL DEFAULT ''";
       "latency_ms INTEGER NOT NULL DEFAULT 0"; "error TEXT NOT NULL DEFAULT ''"; "created_at TEXT NOT NULL"] ["UNIQUE(job_id,node_slot)"];
   CreateTable "rule_promotions"
      ["id INTEGER PRIMARY KEY AUTOINCREMENT";
       "job_id INTEGER NOT NULL REFERENCES review_jobs(id) ON DELETE CASCADE"; "sha256 TEXT NOT NULL";
       "kind TEXT NOT NULL"; "vote_summary TEXT NOT NULL"; "created_at TEXT NOT NULL"] ["UNIQUE(job_id,kind)"]]%string.

(** The columns of [ensureColumn], in the order of the calls before the data
    migrations. *)
Definition on_table (table : string) (columns : list string) : list (string * string) := map (pair table) columns.
Definition late_columns : list (string * string) :=
  on_table "ai_endpoints" ["timeout_ms INTEGER NOT NULL DEFAULT 15000"; "max_concurrency INTEGER NOT NULL DEFAULT 16"] ++
  on_table "review_jobs" ["attempts INTEGER NOT NULL DEFAULT 0"; "next_attempt_at TEXT NOT NULL DEFAULT ''";
    "last_error TEXT NOT NULL DEFAULT ''"; "sample_ciphertext BLOB NOT NULL DEFAULT ''";
    "content_ciphertext BLOB NOT NULL DEFAULT ''"; "updated_at TEXT NOT NULL DEFAULT ''"] ++
  concat (map (λ table, on_table table ["content TEXT NOT NULL DEFAULT ''"; "api_key_fingerprint TEXT NOT NULL DEFAULT ''";
      "api_key_hint TEXT NOT NULL DEFAULT ''"; "api_key_seen_at TEXT NOT NULL DEFAULT ''"])
    ["trusted_hashes"; "risk_hashes"]) ++
  on_table "audit_events" ["action TEXT NOT NULL DEFAULT 'audit'"; "outcome TEXT NOT NULL DEFAULT 'allow'";
    "audit_latency_ms INTEGER NOT NULL DEFAULT 0"; "ai_latency_ms INTEGER NOT NULL DEFAULT 0";
    "upstream_accessed INTEGER NOT NULL DEFAULT 1"; "api_key_fingerprint TEXT NOT NULL DEFAULT ''";
    "api_key_hint TEXT NOT NULL DEFAULT ''"]%string.
(** ... and after them. *)
Definition last_columns : list (string * string) :=
  on_table "review_jobs" ["api_key_fingerprint TEXT NOT NULL DEFAULT ''"; "api_key_hint TEXT NOT NULL DEFAULT ''"]%string.

(** The file of the database: tables with their columns, indexes, content. *)
Abbreviation schema := (gmap string (list string)) (only parsing).
Record db_file : Type := mk_file { columns : schema; indexes : list string; data : conn }.

Definition has_column (s : schema) (table name : string) : bool :=
  match s !! table with Some cs => bool_decide (name ∈ map column_name cs) | None => false end.

Definition Setup (A : Type) : Type := db_file → result store_err A * db_file.
#[export] Instance Setup_ret : MRet Setup := λ A a f, (Ok a, f).
#[export] Instance Setup_bind : MBind Setup := λ A B f m s,
  match m s with (Ok a, s) => f a s | (Err e, s) => (Err e, s) end.

Section migrate.
Context `{U : Unicode, C : Cipher} (hashPlaintext : string → string) (io : nat → bool).

(** A statement on the schema. *)
Definition alter_schema {A} (g : schema → list string → result store_err (A * (schema * list string))) : Setup A := λ f,
  let next c := mk_conn (tables c) (S (statements c)) in
  let failed e := (Err e, mk_file (columns f) (indexes f) (next (data f))) in
  if io (statements (data f)) then
    match g (columns f) (indexes f) with
    | Ok (a, (s, ixs)) => (Ok a, mk_file s ixs (next (data f)))
    | Err e => failed e
    end
  else failed ErrIO.
Definition run_ddl (d : ddl) : Setup unit :=
  alter_schema (λ s ixs,
    match d with
    | CreateTable table cs _ => Ok ((), (match s !! table with Some _ => s | None => <[table := cs]> s end, ixs))
    | CreateIndex index table cs =>
        if bool_decide (index ∈ ixs) then Ok ((), (s, ixs))
        else if forallb (has_column s table) cs then Ok ((), (s, index :: ixs)) else Err ErrIO
    end).
Fixpoint run_all {A} (run : A → Setup unit) (l : list A) : Setup unit :=
  match l with [] => mret () | a :: l => run a;; run_all run l end.

(** [ensureColumn]: a query and, when the column is missing, a change. *)
Definition ensureColumn (tc : string * string) : Setup unit :=
  let '(table, column) := tc in
  found ← alter_schema (λ s ixs, Ok (has_column s table (column_name column), (s, ixs)));
  if (found : bool) then mret () else
  alter_schema (λ s ixs,
    match s !! table with
    | Some cs => Ok ((), (<[table := cs ++ [column]]> s, ixs))
    | None => Err ErrIO
    end).

(** A statement on the data that needs these columns. *)
Definition with_columns {A} (needed : list (string * string)) (m : Store A) : Setup A := λ f,
  if forallb (λ tc, has_column (columns f) tc.1 tc.2) needed
  then let '(r, c) := m (data f) in (r, mk_file (columns f) (indexes f) c)
  else (Err ErrIO, mk_file (columns f) (indexes f) (mk_conn (tables (data f)) (S (statements (data f))))).

Definition needs_version : list (string * string) :=
  [("schema_migrations", "version"); ("schema_migrations", "applied_at")]%string.
Definition needs_events : list (string * string) :=
  needs_version ++ map (pair "audit_events") ["action"; "reason"; "outcome"; "decision"; "audit_latency_ms"; "latency_ms";
    "ai_latency_ms"; "upstream_accessed"]%string.
Definition needs_plaintext : list (string * string) :=
  needs_version ++ concat (map (λ t, [(t, "sha256"); (t, "content")]) ["risk_hashes"; "trusted_hashes"]) ++
  [("audit_events", "sha256"); ("audit_events", "id"); ("blocked_evidence", "event_id"); ("blocked_evidence", "id");
   ("blocked_evidence", "content"); ("blocked_evidence", "partial"); ("rule_promotions", "sha256");
   ("rule_promotions", "kind"); ("rule_promotions", "job_id"); ("review_jobs", "id"); ("review_jobs", "sampled");
   ("review_jobs", "sample_ciphertext")]%string.

Definition record_or_ignore (v : Z) (appliedAt : string) : Setup unit :=
  with_columns needs_version (exec io (record_version_or_ignore v appliedAt)).
Definition migrate_file (now : Time) : Setup unit :=
  run_all run_ddl schema_statements;;
  run_all ensureColumn late_columns;;
  let now := format_time now in
  record_or_ignore 1 now;;
  with_columns needs_events (migrateEventContractV2 io now);;
  record_or_ignore 3 now;;
  with_columns needs_plaintext (migrateRulePlaintextV4 hashPlaintext io now);;
  run_all ensureColumn last_columns;;
  record_or_ignore 5 now;;
  record_or_ignore 6 now.

(** ** [Open] *)

Definition pragma_statements : list string :=
  ["PRAGMA journal_mode=WAL"; "PRAGMA synchronous=NORMAL"; "PRAGMA busy_timeout=5000"; "PRAGMA foreign_keys=ON";
   "PRAGMA secure_delete=ON"]%string.
(** A pragma changes how the connection works, not what is stored. *)
Definition run_pragma (_ : string) : Setup unit := alter_schema (λ s ixs, Ok ((), (s, ixs))).

(** What the operating system and the driver answer. *)
Record opening : Type := mk_opening { dir_ok : bool; driver_ok : bool }.
(** The open handle, if any, is part of the outcome: [None] once closed. *)
Definition Open (o : opening) (dataDir : string) (now : Time) (f : db_file) :
    result store_err string * option string * db_file :=
  if negb (dir_ok o) then (Err ErrIO, None, f) else
  let dsn := sqliteDSN (path_Join dataDir "nocyber-guard.db") in
  if negb (driver_ok o) then (Err ErrIO, None, f) else
  match (run_all run_pragma pragma_statements;; migrate_file now) f with
  | (Ok _, f) => (Ok dsn, Some dsn, f)
  | (Err e, f) => (Err e, None, f)
  end.
End migrate.
