(* ===== verification/StoreOpenTheorems.v ===== *)
(** * Theorems on opening the store: encryption and the schema *)

From S2P Require Export StoreOpen.

Section crypto.
Context `{AE : AEAD} (masterKey : bytes) (rand : nat → bytes).

(** What the store encrypts it decrypts, and a ciphertext is never empty:
    the nonce in front of the sealed text is found again.  So the store's
    cipher has the laws the secrets and the review payloads rely on. *)
Theorem store_cipher_laws `{!AEADLaws} :
  (∀ n, length (rand n) = NonceSize) → CipherLaws (H := store_cipher masterKey rand).
Proof.
  intros Hr. split; intros n p; simpl; unfold store_encrypt, store_decrypt.
  - rewrite (proj2 (Nat.ltb_ge _ _)) by (rewrite length_app, Hr; lia).
    rewrite <- (Hr n), take_app_length, drop_app_length. apply gcm_Open_Seal.
  - specialize (Hr n). by destruct (rand n).
Qed.
End crypto.

(** ** Schemas that grow *)

(** Tables stay and columns are only appended. *)
Definition extends (s s' : gmap string (list string)) : Prop :=
  ∀ t cs, s !! t = Some cs → ∃ more, s' !! t = Some (cs ++ more).
#[export] Instance extends_preorder : PreOrder extends.
Proof.
  split.
  - intros s t cs H. exists []. by rewrite app_nil_r.
  - intros s1 s2 s3 H1 H2 t cs H. destruct (H1 t cs H) as [m1 E1]. destruct (H2 t _ E1) as [m2 E2].
    exists (m1 ++ m2). by rewrite app_assoc.
Qed.
Lemma extends_has s s' t c : extends s s' → has_column s t c = true → has_column s' t c = true.
Proof.
  intros H. unfold has_column. destruct (s !! t) as [cs|] eqn:E; [|done]. destruct (H t cs E) as [more ->].
  intros Hc%bool_decide_eq_true. apply bool_decide_eq_true. rewrite map_app. apply elem_of_app. by left.
Qed.
Lemma extends_some s s' t : extends s s' → is_Some (s !! t) → is_Some (s' !! t).
Proof. intros H [cs E]. destruct (H t cs E) as [more ->]. by eexists. Qed.

Definition has (s : gmap string (list string)) (p : string * string) : Prop := has_column s p.1 p.2 = true.

Section schema.
Context `{U : Unicode, C : Cipher} (hashPlaintext : string → string) (io : nat → bool).
Context (Hio : ∀ n, io n = true).

Lemma alter_ok {A} (g : gmap string (list string) → list string → result store_err (A * (gmap string (list string) * list string))) f a s ixs :
  g (columns f) (indexes f) = Ok (a, (s, ixs)) →
  alter_schema io g f = (Ok a, mk_file s ixs (mk_conn (tables (data f)) (S (statements (data f))))).
Proof. intros H. unfold alter_schema. by rewrite Hio, H. Qed.

(** [run] on every element, when it succeeds on each and keeps the content. *)
Definition grown (f f' : db_file) : Prop := tables (data f') = tables (data f) ∧ extends (columns f) (columns f').

Lemma grown_refl f : grown f f.
Proof. by split. Qed.
Lemma grown_trans f1 f2 f3 : grown f1 f2 → grown f2 f3 → grown f1 f3.
Proof. intros [H1 H2] [H3 H4]. split; [congruence|by etrans]. Qed.

(** *** Missing columns *)

Lemma ensure_ok t col f :
  is_Some (columns f !! t) →
  ∃ f', ensureColumn io (t, col) f = (Ok (), f') ∧ grown f f' ∧ has (columns f') (t, column_name col) ∧
    (has (columns f) (t, column_name col) → columns f' = columns f).
Proof.
  intros [cs Hcs]. unfold ensureColumn, mbind, Setup_bind. erewrite alter_ok by reflexivity.
  destruct (has_column (columns f) t (column_name col)) eqn:E.
  - eexists. split; [reflexivity|]. split; [by split|]. split; [exact E|done].
  - erewrite alter_ok by (simpl; by rewrite Hcs). eexists. split; [reflexivity|]. split_and!.
    + split; [done|]. simpl. intros t' cs' Ht'. destruct (decide (t' = t)) as [->|Hne].
      * simplify_eq. exists [col]. by simplify_map_eq.
      * exists []. rewrite app_nil_r. by simplify_map_eq.
    + unfold has, has_column. simpl. simplify_map_eq. apply bool_decide_eq_true. rewrite map_app. apply elem_of_app. right. by left.
    + unfold has. simpl. congruence.
Qed.
Lemma ensure_all_ok l f :
  Forall (λ tc, is_Some (columns f !! tc.1)) l →
  ∃ f', run_all (ensureColumn io) l f = (Ok (), f') ∧ grown f f' ∧
    Forall (λ tc, has (columns f') (tc.1, column_name tc.2)) l ∧
    (Forall (λ tc, has (columns f) (tc.1, column_name tc.2)) l → columns f' = columns f).
Proof.
  revert f. induction l as [|[t col] l IH]; intros f Hl.
  { exists f. split_and!; [done|apply grown_refl|constructor|done]. }
  apply Forall_cons in Hl as [Ht Hl]. destruct (ensure_ok t col f Ht) as (f1 & H1 & G1 & Hh & He).
  destruct (IH f1) as (f2 & H2 & G2 & Hh2 & He2).
  { eapply Forall_impl; [exact Hl|]. intros tc. apply extends_some, G1. }
  exists f2. cbn [run_all]. unfold mbind, Setup_bind. rewrite H1. split; [done|]. split; [by eapply grown_trans|]. split.
  - constructor; [|done]. eapply extends_has; [apply G2|exact Hh].
  - intros [Ha Hb]%Forall_cons. rewrite He2, He; [done|done|]. by rewrite (He Ha).
Qed.

(** *** The statements of the schema *)

(** The columns a table of an older release is expected to have: those that are
    not added later. *)
Definition late (t name : string) : bool :=
  existsb (λ tc, (tc.1 =? t)%string && (column_name tc.2 =? name)%string) (late_columns ++ last_columns).
Definition early (t : string) (cs : list string) : list (string * string) :=
  List.filter (λ p, negb (late p.1 p.2)) (map (λ c, (t, column_name c)) cs).
(** Every table is created once, and an index comes after the columns it
    needs. *)
Fixpoint ordered (done : list (string * string)) (l : list ddl) : bool :=
  match l with
  | [] => true
  | CreateTable t cs _ :: l =>
      forallb (λ d, match d with CreateTable t' _ _ => negb (t' =? t)%string | _ => true end) l &&
      ordered (done ++ early t cs) l
  | CreateIndex _ t cs :: l => forallb (λ c, bool_decide ((t, c) ∈ done)) cs && ordered done l
  end.
(** A table of the file has the early columns of its statement. *)
Definition fits (s : gmap string (list string)) (d : ddl) : Prop :=
  match d with CreateTable t cs _ => s !! t = None ∨ Forall (has s) (early t cs) | CreateIndex _ _ _ => True end.
Definition made (s : gmap string (list string)) (d : ddl) : Prop :=
  match d with CreateTable t cs _ => is_Some (s !! t) ∧ Forall (has s) (early t cs) | CreateIndex _ _ _ => True end.

Lemma extends_Forall s s' ps : extends s s' → Forall (has s) ps → Forall (has s') ps.
Proof. intros H HF. eapply Forall_impl; [exact HF|]. intros p. apply extends_has, H. Qed.
Lemma extends_made s s' d : extends s s' → made s d → made s' d.
Proof.
  intros H. destruct d; [|done]. intros [H1 H2]. split; [by eapply extends_some|by eapply extends_Forall].
Qed.

Lemma create_ok t cs k f :
  fits (columns f) (CreateTable t cs k) →
  ∃ f', run_ddl io (CreateTable t cs k) f = (Ok (), f') ∧ grown f f' ∧ made (columns f') (CreateTable t cs k) ∧
    (∀ t', t' ≠ t → columns f' !! t' = columns f !! t') ∧ (is_Some (columns f !! t) → columns f' = columns f).
Proof.
  intros Hf. unfold run_ddl. destruct (columns f !! t) as [old|] eqn:E.
  - erewrite alter_ok by (by rewrite E). eexists. split; [reflexivity|]. simpl. split; [by split|]. split; [|done].
    split; [by eexists|]. by destruct Hf as [|Hf]; [congruence|].
  - erewrite alter_ok by (by rewrite E). eexists. split; [reflexivity|]. simpl. split; [|split; [|split]].
    + split; [done|]. intros t' cs' Ht'. exists []. rewrite app_nil_r. simpl.
      rewrite lookup_insert_ne by congruence. done.
    + split; [simplify_map_eq; by eexists|]. apply Forall_forall. intros p Hp.
      unfold early in Hp. apply list_elem_of_In, filter_In in Hp as [(c & <- & Hc)%in_map_iff _].
      unfold has, has_column. simpl. simplify_map_eq. apply bool_decide_eq_true, list_elem_of_In, in_map_iff. by exists c.
    + intros t' Hne. by rewrite lookup_insert_ne.
    + by intros [? ?].
Qed.

Lemma schema_ok l done f :
  ordered done l = true → Forall (has (columns f)) done → Forall (fits (columns f)) l →
  ∃ f', run_all (run_ddl io) l f = (Ok (), f') ∧ grown f f' ∧ Forall (made (columns f')) l ∧
    (Forall (made (columns f)) l → columns f' = columns f).
Proof.
  revert done f. induction l as [|d l IH]; intros done f Ho Hd Hl.
  { exists f. split_and!; [done|apply grown_refl|constructor|done]. }
  apply Forall_cons in Hl as [Hfit Hl]. cbn [run_all]. unfold mbind, Setup_bind. destruct d as [t cs k|index t cs]; simpl in Ho.
  - apply andb_true_iff in Ho as [Hnew Ho]. destruct (create_ok t cs k f Hfit) as (f1 & -> & G1 & M1 & Heq & Hs).
    destruct (IH (done ++ early t cs) f1 Ho) as (f2 & H2 & G2 & M2 & He).
    { apply Forall_app. split; [eapply extends_Forall; [apply G1|done]|apply M1]. }
    { rewrite forallb_forall in Hnew. apply Forall_forall. intros d Hin. rewrite Forall_forall in Hl. specialize (Hl d Hin).
      apply list_elem_of_In, Hnew in Hin. destruct d as [t' cs' k'|]; [|done]. simpl in *.
      apply negb_true_iff, String.eqb_neq in Hin. rewrite Heq by done.
      destruct Hl as [|Hl]; [by left|right]. eapply extends_Forall; [apply G1|done]. }
    exists f2. split; [done|]. split; [by eapply grown_trans|]. split.
    + constructor; [eapply extends_made; [apply G2|done]|done].
    + intros [[Hx ?] Hb]%Forall_cons. rewrite He, (Hs Hx); [done|]. by rewrite (Hs Hx).
  - apply andb_true_iff in Ho as [Hcols Ho].
    assert (∃ ixs, run_ddl io (CreateIndex index t cs) f =
              (Ok (), mk_file (columns f) ixs (mk_conn (tables (data f)) (S (statements (data f)))))) as [ixs ->].
    { unfold run_ddl. destruct (bool_decide (index ∈ indexes f)) eqn:E.
      - exists (indexes f). apply alter_ok. by rewrite E.
      - exists (index :: indexes f). apply alter_ok. rewrite E.
        assert (forallb (has_column (columns f) t) cs = true) as ->; [|done].
        rewrite forallb_forall in Hcols |- *. intros c Hc%Hcols%bool_decide_eq_true. rewrite Forall_forall in Hd.
        exact (Hd (t, c) Hc). }
    destruct (IH done (mk_file (columns f) ixs (mk_conn (tables (data f)) (S (statements (data f))))) Ho Hd Hl)
      as (f2 & H2 & G2 & M2 & He).
    exists f2. split; [done|]. split; [done|]. split; [by constructor|]. intros [_ Hb]%Forall_cons. by apply He.
Qed.

(** *** The data part never fails when no statement does *)

Definition total {A} (m : Store A) : Prop := ∀ c, ∃ a c', m c = (Ok a, c').
Lemma total_exec {A} (f : db → result store_err (A * db)) :
  (∀ d, ∃ a d', f d = Ok (a, d')) → total (exec io f).
Proof. intros H c. unfold exec. rewrite Hio. destruct (H (tables c)) as (a & d' & ->). eauto. Qed.
Lemma query_run {A} (f : db → A) c : query io f c = (Ok (f (tables c)), mk_conn (tables c) (S (statements c))).
Proof. unfold query, exec. by rewrite Hio. Qed.
Lemma transaction_run {A} (m : Store A) c :
  (∀ c1, tables c1 = tables c → ∃ a c', m c1 = (Ok a, c')) → ∃ a c', transaction io m c = (Ok a, c').
Proof.
  intros H. unfold transaction, mbind at 1, Store_bind at 1. rewrite query_run.
  destruct (H (mk_conn (tables c) (S (statements c))) eq_refl) as (a & c' & E). unfold mbind, Store_bind. rewrite E, query_run. eauto.
Qed.

Lemma total_record v at_ : total (exec io (record_version_or_ignore v at_)).
Proof. apply total_exec. intros d. unfold record_version_or_ignore, record_version. destruct (_ !! _); eauto. Qed.
Lemma total_events at_ : total (migrateEventContractV2 io at_).
Proof.
  intros c. apply transaction_run. intros c1 _. unfold mbind, Store_bind. rewrite query_run.
  case_bool_decide as Hv; [unfold mret, Store_ret; eauto|]. unfold exec. rewrite !Hio. simpl.
  destruct (schema_migrations (conf (tables c1)) !! 2%Z) eqn:E; [by destruct Hv|]. eauto.
Qed.

(** Texts of rules are filled without touching the versions. *)
Lemma fill_all_run items c :
  ∃ c', fill_all io items c = (Ok (), c') ∧ conf (tables c') = conf (tables c).
Proof.
  revert c. induction items as [|[[kind sha] content] items IH]; intros c; [by exists c|]. simpl.
  unfold mbind, Store_bind, exec at 1. rewrite Hio. unfold fill_text.
  match goal with |- context [mk_conn ?d ?n] => destruct (IH (mk_conn d n)) as (c' & -> & Hc) end.
  exists c'. split; [done|]. rewrite Hc. simpl. unfold set_table. by destruct (_ =? _)%string.
Qed.
Lemma bind_run {A B} (m : Store A) (k : A → Store B) c a c' : m c = (Ok a, c') → (m ≫= k) c = k a c'.
Proof. intros H. unfold mbind, Store_bind. by rewrite H. Qed.
Lemma candidates_run c : ∃ m c', rule_candidates hashPlaintext io c = (Ok m, c').
Proof.
  unfold rule_candidates. do 3 (erewrite bind_run by apply query_run; cbv zeta). by eexists _, _.
Qed.
Lemma total_plaintext at_ : total (migrateRulePlaintextV4 hashPlaintext io at_).
Proof.
  intros c. unfold migrateRulePlaintextV4. erewrite bind_run by apply query_run.
  case_bool_decide as Hv; [by eexists _, _|].
  set (c0 := mk_conn _ _). destruct (candidates_run c0) as (m & c1 & E). pose proof (rule_candidates_tables hashPlaintext io c0) as Ht.
  rewrite E in Ht. erewrite bind_run by exact E. apply transaction_run. intros c2 Hc2.
  destruct (fill_all_run (map_to_list m) c2) as (c3 & E3 & Hc3). erewrite bind_run by exact E3.
  unfold exec. rewrite Hio. unfold record_version. rewrite Hc3, Hc2. simpl in Ht. rewrite Ht.
  destruct (schema_migrations (conf (tables c)) !! 4%Z) eqn:Ev; [by destruct Hv|]. eauto.
Qed.

(** *** The recorded versions *)

Definition recorded (v : Z) (d : db) : Prop := is_Some (schema_migrations (conf d) !! v).
Lemma record_recorded v w at_ d a d' :
  recorded v d → record_version w at_ d = Ok (a, d') → recorded v d'.
Proof.
  unfold record_version, recorded. intros H. destruct (_ !! w); [done|]. intros [= _ <-]. simpl.
  destruct (decide (w = v)) as [->|]; by simplify_map_eq.
Qed.
Lemma keeps_record v w at_ : keeps (recorded v) (exec io (record_version_or_ignore w at_)).
Proof.
  apply keeps_exec. intros d a d' Hd. unfold record_version_or_ignore.
  destruct (record_version w at_ d) as [[]|] eqn:E; [|by intros [= _ <-]]. intros [= -> ->]. by eapply record_recorded.
Qed.
Lemma keeps_events v at_ : keeps (recorded v) (migrateEventContractV2 io at_).
Proof.
  apply keeps_transaction, keeps_bind; [apply keeps_query|]. intros [] _ _ _; [apply keeps_ret|].
  apply keeps_bind; [by apply keeps_exec; intros d a d' Hd [= _ <-]|]. intros _ _ _ _. apply keeps_exec.
  intros d a d' Hd H. apply (record_recorded v 2 at_ d a d' Hd). unfold record_version. by destruct (_ !! _).
Qed.
Lemma keeps_plaintext v at_ : keeps (recorded v) (migrateRulePlaintextV4 hashPlaintext io at_).
Proof.
  unfold migrateRulePlaintextV4, rule_candidates. apply keeps_bind; [apply keeps_query|]. intros [] _ _ _; [apply keeps_ret|].
  apply keeps_bind; [do 3 (apply keeps_bind; [apply keeps_query|intros ? ? ? _]); apply keeps_ret|]. intros m _ _ _.
  apply keeps_transaction, keeps_bind.
  - generalize (map_to_list m) as items. intros items c Hc. destruct (fill_all_run items c) as (c' & -> & Hc').
    unfold recorded in *. simpl. by rewrite Hc'.
  - intros _ _ _ _. apply keeps_exec. intros d a d' Hd H. by eapply record_recorded.
Qed.

(** A step that succeeded has recorded its version. *)
Lemma run_keeps {A} P (m : Store A) c a c' : keeps P m → m c = (Ok a, c') → P (tables c) → P (tables c').
Proof. intros H E Hc. specialize (H c Hc). by rewrite E in H. Qed.
Lemma record_sets v at_ c a c' :
  exec io (record_version_or_ignore v at_) c = (Ok a, c') → recorded v (tables c').
Proof.
  intros H%exec_inv. unfold record_version_or_ignore, record_version, recorded in *.
  destruct (schema_migrations (conf (tables c)) !! v) eqn:E; injection H as _ <-; [by rewrite E|]. simpl. by simplify_map_eq.
Qed.
Lemma events_sets at_ c a c' : migrateEventContractV2 io at_ c = (Ok a, c') → recorded 2 (tables c').
Proof.
  intros (c0 & c1 & _ & H & ->)%transaction_inv. apply bind_inv in H as (b & c2 & [-> H2]%query_inv & H).
  case_bool_decide as Hb; [injection H as _ <-; unfold recorded; by rewrite H2|].
  apply bind_inv in H as (u & c3 & _ & H%exec_inv). unfold recorded.
  destruct (schema_migrations (conf (tables c3)) !! 2%Z); [done|]. injection H as _ <-. simpl. by simplify_map_eq.
Qed.
Lemma plaintext_sets at_ c a c' : migrateRulePlaintextV4 hashPlaintext io at_ c = (Ok a, c') → recorded 4 (tables c').
Proof.
  unfold migrateRulePlaintextV4. intros (b & c1 & [-> H1]%query_inv & H)%bind_inv.
  case_bool_decide as Hb; [injection H as _ <-; unfold recorded; by rewrite H1|].
  apply bind_inv in H as (m & c2 & _ & H). apply transaction_inv in H as (c3 & c4 & _ & H & ->).
  apply bind_inv in H as (u & c5 & _ & H%exec_inv). unfold record_version, recorded in *.
  destruct (schema_migrations (conf (tables c5)) !! 4%Z); [done|]. injection H as _ <-. simpl. by simplify_map_eq.
Qed.

(** *** The rows *)

(** A rule that at most got the text it lacked. *)
Definition text_added (e e' : HashEntry.t) : Prop :=
  e' = e ∨ HashEntry.Content e = ""%string ∧ ∃ text,
    e' = HashEntry.mk (HashEntry.ID e) (HashEntry.SHA256 e) (HashEntry.Label e) text (HashEntry.Source e)
           (HashEntry.APIKeyFingerprint e) (HashEntry.APIKeyHint e) (HashEntry.APIKeySeenAt e)
           (HashEntry.Enabled e) (HashEntry.CreatedAt e).
Definition texts_added (m m' : gmap string HashEntry.t) : Prop :=
  ∀ k, option_Forall2 text_added (m !! k) (m' !! k).
Lemma text_added_trans e1 e2 e3 : text_added e1 e2 → text_added e2 e3 → text_added e1 e3.
Proof.
  intros [->|(H1 & t1 & ->)] [->|(H2 & t2 & ->)]; [by left|by right; eauto|by right; eauto|]. right. simpl. eauto.
Qed.
Lemma texts_added_refl m : texts_added m m.
Proof. intros k. destruct (m !! k); constructor. by left. Qed.
Lemma texts_added_alter m m' sha content :
  texts_added m m' →
  texts_added m (alter (λ e, HashEntry.mk (HashEntry.ID e) (HashEntry.SHA256 e) (HashEntry.Label e)
      (if (HashEntry.Content e =? "")%string then content else HashEntry.Content e) (HashEntry.Source e)
      (HashEntry.APIKeyFingerprint e) (HashEntry.APIKeyHint e) (HashEntry.APIKeySeenAt e)
      (HashEntry.Enabled e) (HashEntry.CreatedAt e)) sha m').
Proof.
  intros H k. specialize (H k). destruct (decide (k = sha)) as [->|Hne]; [rewrite lookup_alter_eq|by rewrite lookup_alter_ne].
  destruct H as [e e' He|]; constructor. eapply text_added_trans; [exact He|].
  destruct (String.eqb_spec (HashEntry.Content e') ""); [right; eauto|left; by destruct e'].
Qed.

(** [d] is [d0] with texts added to rules, with the events [E], and with more
    versions: every other row of every table is what it was. *)
Definition rows_kept (E : gmap Z EventRow.t) (d0 d : db) : Prop :=
  (∃ M, schema_migrations (conf d0) ⊆ M ∧
     d = set_migrations (set_events (set_risk (set_trusted d0 (trusted_hashes d)) (risk_hashes d)) E) M) ∧
  texts_added (trusted_hashes d0) (trusted_hashes d) ∧ texts_added (risk_hashes d0) (risk_hashes d).
(** What the migrations make of the rows: the events of a release before the
    event contract get their columns from it, once. *)
Definition upgraded (d0 d : db) : Prop :=
  rows_kept (if bool_decide (recorded 2 d0) then audit_events d0 else v2_row <$> audit_events d0) d0 d.

Lemma rows_kept_refl d : rows_kept (audit_events d) d d.
Proof.
  split; [|split; apply texts_added_refl]. exists (schema_migrations (conf d)). split; [done|].
  destruct d as [???????? k]. by destruct k.
Qed.
Lemma rows_kept_version E d0 d v at_ a d' :
  rows_kept E d0 d → record_version v at_ d = Ok (a, d') → rows_kept E d0 d'.
Proof.
  intros ([M [HM Hd]] & Ht & Hr). unfold record_version. destruct (_ !! v) eqn:Ev; [done|]. intros [= _ <-].
  split; [|by split]. exists (<[v:=at_]> (schema_migrations (conf d))). split; [|rewrite Hd; by destruct (conf d0)].
  transitivity M; [done|]. rewrite Hd. simpl. apply insert_subseteq. rewrite Hd in Ev. exact Ev.
Qed.
Lemma keeps_rows_record E d0 v at_ : keeps (rows_kept E d0) (exec io (record_version_or_ignore v at_)).
Proof.
  apply keeps_exec. intros d a d' Hd. unfold record_version_or_ignore.
  destruct (record_version v at_ d) as [[]|] eqn:Er; [|by intros [= _ <-]]. intros [= -> ->]. by eapply rows_kept_version.
Qed.
Lemma keeps_rows_plaintext E d0 at_ : keeps (rows_kept E d0) (migrateRulePlaintextV4 hashPlaintext io at_).
Proof.
  unfold migrateRulePlaintextV4, rule_candidates. apply keeps_bind; [apply keeps_query|]. intros [] _ _ _; [apply keeps_ret|].
  apply keeps_bind; [do 3 (apply keeps_bind; [apply keeps_query|intros ? ? ? _]); apply keeps_ret|]. intros m _ _ _.
  apply keeps_transaction, keeps_bind.
  - generalize (map_to_list m) as items. induction items as [|[[kind sha] content] items IH]; [apply keeps_ret|].
    apply keeps_bind; [|intros ? ? ? _; exact IH]. apply keeps_exec. intros d a d' (M & Ht & Hr) [= _ <-].
    unfold set_table, table. destruct M as [M [HM Hd]].
    destruct ((if (kind =? "risk")%string then "risk" else "trusted") =? "risk")%string;
      (split; [exists M; split; [done|rewrite Hd; by destruct (conf d0)]|]); split; try done; by apply texts_added_alter.
  - intros _ _ _ _. apply keeps_exec. intros d a d' Hd H. by eapply rows_kept_version.
Qed.
Lemma events_rows d0 at_ c a c' :
  rows_kept (audit_events d0) d0 (tables c) →
  schema_migrations (conf (tables c)) !! 2%Z = schema_migrations (conf d0) !! 2%Z →
  migrateEventContractV2 io at_ c = (Ok a, c') → upgraded d0 (tables c').
Proof.
  intros Hk H2 (c0 & c1 & H0 & H & ->)%transaction_inv. rewrite <- H0 in Hk, H2.
  apply bind_inv in H as (b & c2 & [-> Hc2]%query_inv & H). rewrite <- Hc2 in Hk, H2.
  unfold upgraded, recorded. rewrite <- H2, Hc2. rewrite Hc2 in Hk, H2.
  destruct (bool_decide (is_Some (schema_migrations (conf (tables c0)) !! 2%Z))); [injection H as _ <-; by rewrite Hc2|].
  rewrite <- Hc2 in Hk, H2.
  apply bind_inv in H as (u & c3 & H3%exec_inv & H%exec_inv). injection H3 as _ H3.
  assert (rows_kept (v2_row <$> audit_events d0) d0 (tables c3)) as Hk3.
  { rewrite <- H3. destruct Hk as ([M [HM Hd]] & Ht & Hr). split; [|by split]. exists M. split; [done|].
    rewrite Hd. by destruct (conf d0). }
  apply (rows_kept_version _ _ _ 2 at_ a _ Hk3). unfold record_version. by destruct (_ !! 2%Z).
Qed.
Lemma record_other v w at_ c a c' :
  v ≠ w → exec io (record_version_or_ignore v at_) c = (Ok a, c') →
  schema_migrations (conf (tables c')) !! w = schema_migrations (conf (tables c)) !! w.
Proof.
  intros Hne H%exec_inv. unfold record_version_or_ignore, record_version in H.
  destruct (_ !! v); injection H as _ <-; [done|]. simpl. by rewrite lookup_insert_ne.
Qed.
(** On rows of a database that is up to date nothing happens at all. *)
Lemma steady_record d0 v at_ : recorded v d0 → keeps (λ d, d = d0) (exec io (record_version_or_ignore v at_)).
Proof.
  intros [x Hx]. apply keeps_exec. intros d a d' ->. unfold record_version_or_ignore, record_version. rewrite Hx.
  by intros [= _ <-].
Qed.
Lemma steady_events d0 at_ c a c' :
  recorded 2 d0 → tables c = d0 → migrateEventContractV2 io at_ c = (Ok a, c') → tables c' = d0.
Proof.
  intros Hr Hc (c0 & c1 & H0 & H & ->)%transaction_inv. apply bind_inv in H as (b & c2 & [-> Hc2]%query_inv & H).
  rewrite H0, Hc in H. rewrite bool_decide_true in H by done. injection H as _ <-. congruence.
Qed.
Lemma steady_plaintext d0 at_ c a c' :
  recorded 4 d0 → tables c = d0 → migrateRulePlaintextV4 hashPlaintext io at_ c = (Ok a, c') → tables c' = d0.
Proof.
  unfold migrateRulePlaintextV4. intros Hr Hc (b & c1 & [-> H1]%query_inv & H)%bind_inv.
  rewrite Hc, bool_decide_true in H by done. injection H as _ <-. congruence.
Qed.

(** *** The whole migration *)

Lemma data_run {A} needed (m : Store A) f :
  Forall (has (columns f)) needed → total m →
  ∃ a c', with_columns needed m f = (Ok a, mk_file (columns f) (indexes f) c') ∧ m (data f) = (Ok a, c').
Proof.
  intros Hn Ht. unfold with_columns. assert (forallb (λ tc, has_column (columns f) tc.1 tc.2) needed = true) as ->.
  { apply forallb_Forall. exact Hn. }
  destruct (Ht (data f)) as (a & c' & ->). eauto.
Qed.
(** A step on the data, then the rest. *)
Lemma data_step {A} needed (m : Store A) f :
  Forall (has (columns f)) needed → total m →
  ∃ a f1, with_columns needed m f = (Ok a, f1) ∧ columns f1 = columns f ∧ m (data f) = (Ok a, data f1).
Proof. intros Hn Ht. destruct (data_run needed m f Hn Ht) as (a & c' & E & E'). by exists a, (mk_file (columns f) (indexes f) c'). Qed.
Lemma setup_run {A B} (m : Setup A) (k : A → Setup B) f a f' : m f = (Ok a, f') → (m ≫= k) f = k a f'.
Proof. intros H. unfold mbind, Setup_bind. by rewrite H. Qed.

Lemma setup_seq {A} (m n : Setup unit) (k : Setup A) f f' : (m;; n) f = (Ok (), f') → (m;; n;; k) f = k f'.
Proof. unfold mbind, Setup_bind. destruct (m f) as [[[]|e] f1]; [|done]. by intros ->. Qed.

(** What is there once the late columns are added. *)
Definition present_pairs : list (string * string) :=
  concat (map (λ d, match d with CreateTable t cs _ => early t cs | CreateIndex _ _ _ => [] end) schema_statements) ++
  map (λ tc, (tc.1, column_name tc.2)) late_columns.
Definition schema_pairs : list (string * string) :=
  concat (map (λ d, match d with CreateTable t cs _ => map (λ c, (t, column_name c)) cs | CreateIndex _ _ _ => [] end)
            schema_statements).
(** Every column the statements name is there. *)
Definition complete (s : gmap string (list string)) : Prop := Forall (has s) schema_pairs.
Definition table_in (d : ddl) (t : string) : bool :=
  match d with CreateTable t' _ _ => (t' =? t)%string | CreateIndex _ _ _ => false end.

Lemma pairs_subset s needed :
  Forall (has s) present_pairs → forallb (λ p, bool_decide (p ∈ present_pairs)) needed = true → Forall (has s) needed.
Proof.
  intros H Hn. rewrite forallb_Forall in Hn. eapply Forall_impl; [exact Hn|]. intros p Hp%bool_decide_eq_true.
  rewrite Forall_forall in H. by apply H.
Qed.
Lemma made_tables s l :
  Forall (made s) l → ∀ tcs, forallb (λ tc, existsb (λ d, table_in d tc.1) l) tcs = true →
  Forall (λ tc : string * string, is_Some (s !! tc.1)) tcs.
Proof.
  intros Hm tcs H. rewrite forallb_Forall in H. eapply Forall_impl; [exact H|].
  intros [t col] (d & Hin & Hd)%existsb_exists. rewrite Forall_forall in Hm. apply list_elem_of_In in Hin.
  specialize (Hm d Hin). destruct d as [t' cs k|]; [|done]. simpl in Hd. apply String.eqb_eq in Hd as ->. apply Hm.
Qed.
Lemma made_pairs s l :
  Forall (made s) l →
  Forall (has s) (concat (map (λ d, match d with CreateTable t cs _ => early t cs | CreateIndex _ _ _ => [] end) l)).
Proof. induction 1 as [|[t cs k|] l H _ IH]; simpl; [constructor| |done]. apply Forall_app. by split; [apply H|]. Qed.

Lemma has_table s t c : has s (t, c) → is_Some (s !! t).
Proof. unfold has, has_column. simpl. by destruct (s !! t). Qed.
Lemma complete_subset s needed :
  complete s → forallb (λ p, bool_decide (p ∈ schema_pairs)) needed = true → Forall (has s) needed.
Proof.
  intros H Hn. rewrite forallb_Forall in Hn. eapply Forall_impl; [exact Hn|]. intros p Hp%bool_decide_eq_true.
  unfold complete in H. rewrite Forall_forall in H. by apply H.
Qed.
(** A table with its columns in the statements. *)
Definition covered (d : ddl) : bool :=
  match d with
  | CreateTable t cs _ =>
      forallb (λ p, bool_decide (p ∈ schema_pairs)) (early t cs) && existsb (λ p, (p.1 =? t)%string) schema_pairs
  | CreateIndex _ _ _ => true
  end.
Lemma complete_made s : complete s → Forall (made s) schema_statements.
Proof.
  intros H. assert (forallb covered schema_statements = true) as Hc by (vm_compute; reflexivity).
  rewrite forallb_Forall in Hc. eapply Forall_impl; [exact Hc|]. intros [t cs k|]; [|done]. unfold covered.
  intros [H1 H2]%andb_true_iff. split; [|by apply complete_subset].
  apply existsb_exists in H2 as ([t' c] & Hin & Ht). cbn [fst] in Ht. apply String.eqb_eq in Ht as ->.
  apply list_elem_of_In in Hin. unfold complete in H. rewrite Forall_forall in H. by eapply has_table, (H (t, c)).
Qed.
Lemma complete_late s l :
  complete s → forallb (λ tc, bool_decide ((tc.1, column_name tc.2) ∈ schema_pairs)) l = true →
  Forall (λ tc : string * string, has s (tc.1, column_name tc.2)) l.
Proof.
  intros H Hl. apply (List.Forall_map (λ tc, (tc.1, column_name tc.2))), complete_subset; [done|].
  apply forallb_Forall, List.Forall_map. by apply forallb_Forall in Hl.
Qed.

Lemma columns_ok f :
  Forall (fits (columns f)) schema_statements →
  ∃ f', (run_all (run_ddl io) schema_statements;; run_all (ensureColumn io) late_columns) f = (Ok (), f') ∧ grown f f' ∧
    Forall (made (columns f')) schema_statements ∧ Forall (has (columns f')) present_pairs ∧
    (complete (columns f) → columns f' = columns f).
Proof.
  intros Hf. destruct (schema_ok schema_statements [] f) as (f1 & E1 & G1 & M1 & S1);
    [vm_compute; reflexivity|constructor|exact Hf|].
  destruct (ensure_all_ok late_columns f1) as (f2 & E2 & G2 & H2 & S2).
  { apply (made_tables _ _ M1). vm_compute. reflexivity. }
  assert (Forall (made (columns f2)) schema_statements) as M2.
  { eapply Forall_impl; [exact M1|]. intros d. apply extends_made, G2. }
  exists f2. rewrite (setup_run _ _ _ _ _ E1). split; [exact E2|]. split; [by eapply grown_trans|]. split; [exact M2|].
  split; [apply Forall_app; split; [by apply made_pairs|]; apply List.Forall_map; exact H2|].
  intros Hc. rewrite <- (S1 (complete_made _ Hc)) in Hc |- *. apply S2, complete_late; [done|vm_compute; reflexivity].
Qed.

Lemma migrate_ok now f :
  Forall (fits (columns f)) schema_statements →
  ∃ f', migrate_file hashPlaintext io now f = (Ok (), f') ∧
    extends (columns f) (columns f') ∧ complete (columns f') ∧
    (∀ v, (1 ≤ v ≤ 6)%Z → recorded v (tables (data f'))) ∧
    (complete (columns f) → columns f' = columns f) ∧
    upgraded (tables (data f)) (tables (data f')) ∧
    ((∀ v, (1 ≤ v ≤ 6)%Z → recorded v (tables (data f))) → tables (data f') = tables (data f)).
Proof.
  intros Hf. destruct (columns_ok f Hf) as (f1 & E1 & G1 & M1 & P1 & S1).
  unfold migrate_file. rewrite (setup_seq _ _ _ _ _ E1). cbv zeta. set (at_ := format_time now).
  assert (Forall (has (columns f1)) needs_version) as Nv by (eapply pairs_subset; [done|vm_compute; reflexivity]).
  assert (Forall (has (columns f1)) needs_events) as Ne by (eapply pairs_subset; [done|vm_compute; reflexivity]).
  assert (Forall (has (columns f1)) needs_plaintext) as Np by (eapply pairs_subset; [done|vm_compute; reflexivity]).
  destruct (data_step needs_version _ f1 Nv (total_record 1 at_)) as (u1 & f2 & R1 & C1 & D1).
  erewrite setup_run by exact R1. rewrite <- C1 in Ne. destruct (data_step needs_events _ f2 Ne (total_events at_)) as (u2 & f3 & R2 & C2 & D2).
  erewrite setup_run by exact R2. rewrite <- C1, <- C2 in Nv. destruct (data_step needs_version _ f3 Nv (total_record 3 at_)) as (u3 & f4 & R3 & C3 & D3).
  erewrite setup_run by exact R3. rewrite <- C1, <- C2, <- C3 in Np.
  destruct (data_step needs_plaintext _ f4 Np (total_plaintext at_)) as (u4 & f5 & R4 & C4 & D4).
  erewrite setup_run by exact R4.
  assert (columns f5 = columns f1) as C51 by congruence.
  destruct (ensure_all_ok last_columns f5) as (f6 & E6 & G6 & H6 & S6).
  { rewrite C51. apply (made_tables _ _ M1). vm_compute. reflexivity. }
  erewrite setup_run by exact E6. rewrite C2, C1, <- C51 in Nv. assert (Forall (has (columns f6)) needs_version) as Nv6.
  { eapply extends_Forall; [apply G6|done]. }
  destruct (data_step needs_version _ f6 Nv6 (total_record 5 at_)) as (u5 & f7 & R5 & C5 & D5).
  erewrite setup_run by exact R5. rewrite <- C5 in Nv6.
  destruct (data_step needs_version _ f7 Nv6 (total_record 6 at_)) as ([] & f8 & R6 & C6 & D6).
  exists f8. split; [exact R6|]. split; [|split; [|split; [|split; [|split]]]].
  - rewrite C6, C5. transitivity (columns f1); [apply G1|]. rewrite <- C51. apply G6.
  - rewrite C6, C5. assert (Forall (has (columns f6)) (present_pairs ++ map (λ tc, (tc.1, column_name tc.2)) last_columns)) as Hall.
    { apply Forall_app. split; [eapply extends_Forall; [apply G6|by rewrite C51]|]. by apply List.Forall_map. }
    rewrite Forall_forall in Hall. apply Forall_forall. intros p Hp. apply Hall.
    assert (forallb (λ p, bool_decide (p ∈ present_pairs ++ map (λ tc, (tc.1, column_name tc.2)) last_columns)) schema_pairs = true)
      as Hb by (vm_compute; reflexivity).
    rewrite forallb_forall in Hb. by apply list_elem_of_In, Hb, bool_decide_eq_true in Hp.
  - assert (∀ v, recorded v (tables (data f5)) → recorded v (tables (data f8))) as H58.
    { intros v Hv. rewrite <- (proj1 G6) in Hv. apply (run_keeps _ _ _ _ _ (keeps_record v 5 at_) D5) in Hv.
      exact (run_keeps _ _ _ _ _ (keeps_record v 6 at_) D6 Hv). }
    assert (∀ v, recorded v (tables (data f3)) → recorded v (tables (data f5))) as H35.
    { intros v Hv. apply (run_keeps _ _ _ _ _ (keeps_record v 3 at_) D3) in Hv. exact (run_keeps _ _ _ _ _ (keeps_plaintext v at_) D4 Hv). }
    intros v Hv. assert (v = 1 ∨ v = 2 ∨ v = 3 ∨ v = 4 ∨ v = 5 ∨ v = 6)%Z as [->|[->|[->|[->|[->| ->]]]]] by lia.
    + apply H58, H35. exact (run_keeps _ _ _ _ _ (keeps_events 1 at_) D2 (record_sets _ _ _ _ _ D1)).
    + apply H58, H35, (events_sets _ _ _ _ D2).
    + apply H58. exact (run_keeps _ _ _ _ _ (keeps_plaintext 3 at_) D4 (record_sets _ _ _ _ _ D3)).
    + apply H58, (plaintext_sets _ _ _ _ D4).
    + exact (run_keeps _ _ _ _ _ (keeps_record 5 6 at_) D6 (record_sets _ _ _ _ _ D5)).
    + apply (record_sets _ _ _ _ _ D6).
  - intros Hc. rewrite C6, C5, <- (S1 Hc), <- C51. apply S6. rewrite C51, (S1 Hc). apply complete_late; [done|vm_compute; reflexivity].
  - rewrite <- (proj1 G1). set (d0 := tables (data f1)).
    pose proof (run_keeps _ _ _ _ _ (keeps_rows_record _ d0 1 at_) D1 (rows_kept_refl d0)) as K1.
    pose proof (events_rows d0 at_ _ _ _ K1 (record_other 1 2 at_ _ _ _ ltac:(done) D1) D2) as K2. unfold upgraded in *.
    apply (run_keeps _ _ _ _ _ (keeps_rows_record _ d0 3 at_) D3) in K2.
    apply (run_keeps _ _ _ _ _ (keeps_rows_plaintext _ d0 at_) D4) in K2. rewrite <- (proj1 G6) in K2.
    apply (run_keeps _ _ _ _ _ (keeps_rows_record _ d0 5 at_) D5) in K2.
    exact (run_keeps _ _ _ _ _ (keeps_rows_record _ d0 6 at_) D6 K2).
  - rewrite <- (proj1 G1). set (d0 := tables (data f1)). intros Hv.
    pose proof (run_keeps _ _ _ _ _ (steady_record d0 1 at_ (Hv 1%Z ltac:(lia))) D1 eq_refl) as K.
    apply (steady_events d0 _ _ _ _ (Hv 2%Z ltac:(lia)) K) in D2.
    apply (run_keeps _ _ _ _ _ (steady_record d0 3 at_ (Hv 3%Z ltac:(lia))) D3) in D2.
    apply (steady_plaintext d0 _ _ _ _ (Hv 4%Z ltac:(lia)) D2) in D4. rewrite <- (proj1 G6) in D4.
    apply (run_keeps _ _ _ _ _ (steady_record d0 5 at_ (Hv 5%Z ltac:(lia))) D5) in D4.
    exact (run_keeps _ _ _ _ _ (steady_record d0 6 at_ (Hv 6%Z ltac:(lia))) D6 D4).
Qed.

Lemma pragmas_ok l f :
  ∃ f', run_all (run_pragma io) l f = (Ok (), f') ∧ columns f' = columns f ∧ tables (data f') = tables (data f).
Proof.
  revert f. induction l as [|p l IH]; intros f; [by exists f|]. cbn [run_all].
  erewrite setup_run by (apply alter_ok; reflexivity).
  match goal with |- context [run_all _ l ?g] => destruct (IH g) as (f' & E & H1 & H2) end. by exists f'.
Qed.

(** C33. Opening a database brings it up to date and loses nothing.  When no
    statement fails, on a file where every table that exists has its columns but
    for those added since (a file of any earlier release), [Open] succeeds:
    every column of the statements is there and none that was there is lost;
    the six versions are recorded; and no row of any table is deleted, added or
    changed but that rules without a text may get one and that the events, unless
    version 2 was recorded, get the columns of the event contract.  On a file
    that is up to date, neither the schema nor any row changes. *)
Theorem Open_upgrades dataDir now f :
  Forall (fits (columns f)) schema_statements →
  ∃ dsn f', Open hashPlaintext io (mk_opening true true) dataDir now f = (Ok dsn, Some dsn, f') ∧
    extends (columns f) (columns f') ∧ complete (columns f') ∧
    (∀ v, (1 ≤ v ≤ 6)%Z → recorded v (tables (data f'))) ∧
    (complete (columns f) → columns f' = columns f) ∧
    upgraded (tables (data f)) (tables (data f')) ∧
    ((∀ v, (1 ≤ v ≤ 6)%Z → recorded v (tables (data f))) → tables (data f') = tables (data f)).
Proof.
  intros Hf. destruct (pragmas_ok pragma_statements f) as (f0 & E0 & H1 & H2). rewrite <- H1, <- H2 in *.
  destruct (migrate_ok now f0 Hf) as (f' & E & H). eexists _, f'. split; [|exact H].
  unfold Open. simpl negb. cbv iota zeta. erewrite setup_run by exact E0. by rewrite E.
Qed.
End schema.

(** ** Witnesses *)

Section open_witnesses.
#[local] Instance plain_aead : AEAD := {| Sum256 := λ b, b; gcm_Seal := λ _ _ t _, t; gcm_Open := λ _ _ t _, Some t |}.
#[local] Instance plain_aead_laws : AEADLaws.
Proof. by split. Qed.

Definition twelve_bytes (n : nat) : bytes := B "123456789012".
Lemma store_cipher_laws_witness :
  store_decrypt (B "key") (store_encrypt (B "key") twelve_bytes 3 (B "secret")) = Some (B "secret").
Proof. exact (@unseal_seal _ (store_cipher_laws (B "key") twelve_bytes (λ _, eq_refl)) 3 (B "secret")). Defined.

#[local] Existing Instance demo_cipher.
(** A database of an early release: rules without their text. *)
Definition early_rules : list string := ["id INTEGER"; "sha256 TEXT"; "label TEXT"; "source TEXT"; "enabled INTEGER"; "created_at TEXT"].
Definition early_file : db_file := mk_file {["risk_hashes"%string := early_rules]} [] demo_conn.

Lemma early_fits : Forall (fits (columns early_file)) schema_statements.
Proof.
  repeat (constructor; [first [exact I|left; vm_compute; reflexivity
    |right; repeat (constructor; [vm_compute; reflexivity|]); constructor]|]). constructor.
Qed.
Lemma Open_upgrades_witness :
  let f' := (Open demo_hash all_io (mk_opening true true) "/data" 0 early_file).2 in
  complete (columns f') ∧ extends (columns early_file) (columns f') ∧
  upgraded (tables (data early_file)) (tables (data f')).
Proof.
  destruct (Open_upgrades demo_hash all_io (λ _, eq_refl) "/data" 0 early_file early_fits)
    as (dsn & f' & E & He & Hc & _ & _ & Hu & _).
  rewrite E. split; [exact Hc|]. split; [exact He|exact Hu].
Defined.
End open_witnesses.
