(* ===== verification/StoreSettings.v ===== *)
(** * Settings, profiles, AI endpoints and sessions
    ([internal/storage/store.go])

    The tables the administration edits.  [url.Parse] is the interface
    [UrlLib], AES-GCM [Cipher], RE2 [Regexp], Argon2id [Argon2]; random bytes
    are arguments ([None]: the generator failed).  JSON columns hold the value
    that [json.Unmarshal] gives back: [json.Marshal] replaces invalid UTF-8. *)

From S2P Require Export TimeText Url Profile StoreJobs.

(** ** The configuration *)

Definition minAuditBodyBytes : Z := Z.shiftl 1 20.
Definition maxAuditBodyBytes : Z := Z.shiftl 64 20.

Definition defaultConfig (upstream : string) : Config.t :=
  Config.mk 1 true "permissive" upstream
    ["/v1/responses"; "/responses"; "/backend-api/codex/responses"]%string [] 15000 (Z.shiftl 4 20) 30.

Inductive config_err : Type :=
| ErrMode
| ErrUpstreamRequired
| ErrUpstreamURL
| ErrPathCount
| ErrProtectedPath (path : string)
| ErrDuplicatePath (path : string)
| ErrTimeout
| ErrMaxBody
| ErrRetention
| ErrAncestorCount
| ErrAncestor (value : string)
| ErrDuplicateAncestor (origin : string).

#[export] Instance config_err_eq_dec : EqDecision config_err.
Proof. solve_decision. Defined.

(** The text an administrator sees starts like this. *)
Definition config_err_text (e : config_err) : string :=
  match e with
  | ErrMode => "mode must be permissive"
  | ErrUpstreamRequired => "upstream URL is required"
  | ErrUpstreamURL => "upstream URL must be an absolute http or https URL"
  | ErrPathCount => "protected_paths must contain 1 to 64 exact paths"
  | ErrProtectedPath p => "invalid protected path " +:+ p
  | ErrDuplicatePath p => "duplicate protected path " +:+ p
  | ErrTimeout => "request_timeout_ms must be between 100 and 30000"
  | ErrMaxBody => "max_body_bytes must be between 1 MiB and 64 MiB"
  | ErrRetention => "event_retention_days must be between 1 and 3650"
  | ErrAncestorCount => "admin_frame_ancestors must contain at most 16 origins"
  | ErrAncestor v => "invalid admin frame ancestor " +:+ v
  | ErrDuplicateAncestor o => "duplicate admin frame ancestor " +:+ o
  end.

Definition lift_config {A} (r : result config_err A) : Store A :=
  match r with Ok a => mret a | Err e => store_fail (ErrInvalid (config_err_text e)) end.

(** [json.Marshal] of the configuration, as it is read back. *)
Definition json_config (c : Config.t) : Config.t :=
  Config.mk (Config.Version c) (Config.Enabled c) (json_string (Config.Mode c))
    (json_string (Config.UpstreamURL c)) (map json_string (Config.ProtectedPaths c))
    (map json_string (Config.AdminFrameAncestors c)) (Config.RequestTimeoutMS c)
    (Config.MaxBodyBytes c) (Config.EventRetentionDays c).

(** [storage.ClientMatcher] is a triple of [ProfileRow]. *)
Definition ClientMatcher : Type := string * string * bool.
Definition json_matcher (m : ClientMatcher) : ClientMatcher :=
  let '(type, value, cs) := m in (json_string type, json_string value, cs).

(** [ai_nodes] and [ai_endpoints] as the API shows them. *)
Module AINode.
Record t : Type := mk {
  ID : Z;
  Slot : string;
  Name : string;
  BaseURL : string;
  Model : string;
  APIKey : string;
  HasAPIKey : bool;
  TimeoutMS : Z;
  Enabled : bool;
}.
End AINode.
Module AIEndpoint.
Record t : Type := mk {
  BaseURL : string;
  Model : string;
  APIKey : string;
  HasAPIKey : bool;
  TimeoutMS : Z;
  MaxConcurrency : Z;
}.
Definition zero : t := mk "" "" "" false 0 0.
End AIEndpoint.

(** [argon2.IDKey(password, salt, 1, 64*1024, 4, keyLen)] *)
Class Argon2 := { argon2_IDKey : bytes → bytes → nat → bytes }.
Class Argon2Laws `{Argon2} := {
  argon2_length : ∀ password salt n, length (argon2_IDKey password salt n) = n;
}.

Section settings.
Context `{U : Unicode, R : Regexp, C : Cipher, UL : UrlLib, AR : Argon2}.

(** The checks on one origin and its canonical form. *)
Definition ancestor_origin (value : string) : option string :=
  if (2048 <? slen value)%Z || contains_any value ["013"; "010"; "009"]%char then None else
  match url_parse value with
  | None => None
  | Some u =>
      if negb (Url.Scheme u =? "https")%string || (Url.Host u =? "")%string || Url.User u ||
         negb (Url.RawQuery u =? "")%string || negb (Url.Fragment u =? "")%string ||
         (negb (Url.Path u =? "")%string && negb (Url.Path u =? "/")%string) ||
         negb (Url.RawPath u =? "")%string || contains_any (Url.Host u) ["*"]%char
      then None
      else Some (url_string (Url.set_origin u "https" (to_lower (Url.Host u))))
  end.

(** The loop; [normalized] is also the set of the origins seen. *)
Fixpoint normalize_ancestors (values normalized : list string) : result config_err (list string) :=
  match values with
  | [] => Ok normalized
  | raw :: values =>
      let value := trim_space raw in
      if (value =? "")%string then normalize_ancestors values normalized else
      match ancestor_origin value with
      | None => Err (ErrAncestor value)
      | Some origin =>
          if bool_decide (origin ∈ normalized) then Err (ErrDuplicateAncestor origin)
          else normalize_ancestors values (normalized ++ [origin])
      end
  end.
Definition NormalizeAdminFrameAncestors (values : list string) : result config_err (list string) :=
  if (16 <? length values)%nat then Err ErrAncestorCount else normalize_ancestors values [].

Definition protected_path_ok (p : string) : bool :=
  negb ((p =? "")%string || (2048 <? slen p)%Z || negb (has_prefix p "/") || (p =? "/")%string ||
        negb (path_Clean p =? p)%string || contains_any p ["?"; "#"; "\"]%char).

Fixpoint check_paths (paths seen : list string) : result config_err unit :=
  match paths with
  | [] => Ok ()
  | p :: paths =>
      if negb (protected_path_ok p) then Err (ErrProtectedPath p)
      else if bool_decide (p ∈ seen) then Err (ErrDuplicatePath p)
      else check_paths paths (p :: seen)
  end.

Definition ValidateConfig (c : Config.t) : result config_err unit :=
  let paths := Config.ProtectedPaths c in
  if negb (Config.Mode c =? "permissive")%string then Err ErrMode
  else if blank (Config.UpstreamURL c) then Err ErrUpstreamRequired
  else if negb (absolute_http (Config.UpstreamURL c)) then Err ErrUpstreamURL
  else if (length paths =? 0)%nat || (64 <? length paths)%nat then Err ErrPathCount
  else
    check_paths paths [];;
    if (Config.RequestTimeoutMS c <? 100)%Z || (30000 <? Config.RequestTimeoutMS c)%Z
    then Err ErrTimeout
    else if (Config.MaxBodyBytes c <? minAuditBodyBytes)%Z || (maxAuditBodyBytes <? Config.MaxBodyBytes c)%Z
    then Err ErrMaxBody
    else if (Config.EventRetentionDays c <? 1)%Z || (3650 <? Config.EventRetentionDays c)%Z
    then Err ErrRetention
    else NormalizeAdminFrameAncestors (Config.AdminFrameAncestors c);; Ok ().

(** [hashPlaintext] is the hexadecimal SHA-256 of a text; [io] decides which
    statements fail. *)
Context (hashPlaintext : string → string) (io : nat → bool).

(** The transaction of [PutConfig]. *)
Definition put_config (now : Time) (c : Config.t) (expected : Z) : Store unit :=
  row ← query io (λ d, settings (conf d));
  let v := match row with Some r => SettingRow.Version r | None => 0%Z end in
  (if bool_decide (row ≠ None) && (0 <? expected)%Z && negb (v =? expected)%Z
   then store_fail (ErrVersionConflict v) else mret ());;
  let c := Config.set_version c (wrap64 (v + 1)) in
  exec io (λ d, Ok ((), set_settings d
    (Some (SettingRow.mk (json_config c) (Config.Version c) (format_time now))))).

Definition PutConfig (now : Time) (c : Config.t) (expected : Z) : Store unit :=
  ancestors ← lift_config (NormalizeAdminFrameAncestors (Config.AdminFrameAncestors c));
  let c := Config.set_ancestors c ancestors in
  lift_config (ValidateConfig c);;
  transaction io (put_config now c expected).

Definition GetConfig (now : Time) (bootstrapUpstream : string) : Store Config.t :=
  row ← query io (λ d, settings (conf d));
  match row with
  | None =>
      let c := defaultConfig bootstrapUpstream in PutConfig now c 0;; mret c
  | Some r =>
      let c := SettingRow.Value r in
      let c := if (Config.UpstreamURL c =? "")%string then Config.set_upstream c bootstrapUpstream else c in
      ancestors ← lift_config (NormalizeAdminFrameAncestors (Config.AdminFrameAncestors c));
      mret (Config.set_ancestors c ancestors)
  end.

(** ** Client profiles *)

Fixpoint insert_profile (p : ProfileRow.t) (l : list ProfileRow.t) : list ProfileRow.t :=
  match l with
  | [] => [p]
  | x :: l =>
      if (ProfileRow.Priority p <? ProfileRow.Priority x)%Z ||
         ((ProfileRow.Priority p =? ProfileRow.Priority x)%Z && (ProfileRow.ID p <? ProfileRow.ID x)%Z)
      then p :: x :: l else x :: insert_profile p l
  end.
Definition ListProfiles : Store (list ProfileRow.t) :=
  query io (λ d, foldr insert_profile [] (map snd (map_to_list (client_profiles (conf d))))).

(** The caller's matchers are trimmed in place, too. *)
Definition trimmed_matcher (m : ClientMatcher) : ClientMatcher :=
  let '(type, value, cs) := m in (to_lower (trim_space type), trim_space value, cs).
Definition trimmed_profile (p : ProfileRow.t) : ProfileRow.t :=
  ProfileRow.mk (ProfileRow.ID p) (trim_space (ProfileRow.Name p)) (trim_space (ProfileRow.Description p))
    (ProfileRow.Enabled p) (ProfileRow.Priority p) (map trimmed_matcher (ProfileRow.Matchers p))
    (ProfileRow.CreatedAt p) (ProfileRow.UpdatedAt p).

(** A profile as the audit package sees it. *)
Definition audit_matcher (m : ClientMatcher) : Matcher.t :=
  let '(type, value, cs) := m in Matcher.mk type value cs.
Definition audit_profile (key : string) (p : ProfileRow.t) : ClientProfile.t :=
  ClientProfile.mk key (ProfileRow.Name p) (ProfileRow.Description p) (ProfileRow.Priority p)
    (ProfileRow.Enabled p) (map audit_matcher (ProfileRow.Matchers p)).

Definition stamped (p : ProfileRow.t) (id : Z) (created updated : string) : ProfileRow.t :=
  ProfileRow.mk id (ProfileRow.Name p) (ProfileRow.Description p) (ProfileRow.Enabled p)
    (ProfileRow.Priority p) (map json_matcher (ProfileRow.Matchers p)) created updated.
Definition name_taken (id : Z) (name : string) (d : db) : bool :=
  existsb (λ p, (ProfileRow.Name p =? name)%string && negb (ProfileRow.ID p =? id)%Z)
    (map snd (map_to_list (client_profiles (conf d)))).

(** [INSERT INTO client_profiles]: the name is unique. *)
Definition insert_client_profile (p : ProfileRow.t) (now : string) (d : db) : result store_err (Z * db) :=
  let '(id, d') := take_id d in
  if name_taken id (ProfileRow.Name p) d then Err ErrConstraint
  else Ok (id, set_profiles d' (<[id := stamped p id now now]> (client_profiles (conf d)))).
(** [UPDATE client_profiles ... WHERE id=?]: no row, no change. *)
Definition update_client_profile (p : ProfileRow.t) (now : string) (d : db) : result store_err (Z * db) :=
  let id := ProfileRow.ID p in
  match client_profiles (conf d) !! id with
  | None => Ok (id, d)
  | Some old =>
      if name_taken id (ProfileRow.Name p) d then Err ErrConstraint
      else Ok (id, set_profiles d (<[id := stamped p id (ProfileRow.CreatedAt old) now]>
                                     (client_profiles (conf d))))
  end.

Definition SaveProfile (now : Time) (p : ProfileRow.t) : Store ProfileRow.t :=
  let p := trimmed_profile p in
  guard_ok (negb ((ProfileRow.Priority p <? 0)%Z || (999999 <? ProfileRow.Priority p)%Z)) "profile priority";;
  guard_ok (is_ok (NewProfileMatcher [audit_profile "profile_candidate" p])) "profile";;
  let now := format_time now in
  id ← exec io (if (ProfileRow.ID p =? 0)%Z then insert_client_profile p now
                else update_client_profile p now);
  mret (ProfileRow.mk id (ProfileRow.Name p) (ProfileRow.Description p) (ProfileRow.Enabled p)
          (ProfileRow.Priority p) (ProfileRow.Matchers p) now now).

Definition DeleteProfile (id : Z) : Store unit :=
  exec io (λ d, Ok ((), set_profiles d (delete id (client_profiles (conf d))))).

(** ** AI endpoint and nodes *)

Definition ValidateAIEndpoint (e : AIEndpoint.t) : bool :=
  let model := trim_space (AIEndpoint.Model e) in
  (slen (AIEndpoint.BaseURL e) <=? 2048)%Z &&
  absolute_http (trim_space (AIEndpoint.BaseURL e)) &&
  negb ((model =? "")%string || (256 <? slen model)%Z || negb (valid_utf8 (B model))) &&
  negb ((AIEndpoint.TimeoutMS e <? 100)%Z || (30000 <? AIEndpoint.TimeoutMS e)%Z) &&
  negb ((AIEndpoint.MaxConcurrency e <? 1)%Z || (256 <? AIEndpoint.MaxConcurrency e)%Z) &&
  (slen (AIEndpoint.APIKey e) <=? Z.shiftl 16 10)%Z.

(** A stored key: present if the blob is not empty. *)
Definition load_key (key : bytes) : Store (string * bool) :=
  if bool_decide (key = []) then mret ("", false)%string
  else plain ← decrypt key; mret (plain, true).
(** [CASE WHEN length(excluded.api_key)=0 THEN old ELSE excluded END] *)
Definition keep_key (old new : bytes) : bytes := if bool_decide (new = []) then old else new.

Definition GetAIEndpoint : Store AIEndpoint.t :=
  row ← query io (λ d, ai_endpoints (conf d));
  match row with
  | None => mret AIEndpoint.zero
  | Some r =>
      key ← load_key (AIEndpointRow.api_key r);
      mret (AIEndpoint.mk (AIEndpointRow.BaseURL r) (AIEndpointRow.Model r) key.1 key.2
              (AIEndpointRow.TimeoutMS r) (AIEndpointRow.MaxConcurrency r))
  end.

Definition SaveAIEndpoint (e : AIEndpoint.t) : Store unit :=
  let url := trim_space (AIEndpoint.BaseURL e) in
  let model := trim_space (AIEndpoint.Model e) in
  guard_ok (ValidateAIEndpoint (AIEndpoint.mk url model (AIEndpoint.APIKey e) (AIEndpoint.HasAPIKey e)
                                  (AIEndpoint.TimeoutMS e) (AIEndpoint.MaxConcurrency e))) "AI endpoint";;
  encrypted ← encrypt_payload (AIEndpoint.APIKey e);
  exec io (λ d,
    let old := match ai_endpoints (conf d) with Some r => AIEndpointRow.api_key r | None => [] end in
    Ok ((), set_endpoints d (Some (AIEndpointRow.mk url model (keep_key old encrypted)
                                     (AIEndpoint.TimeoutMS e) (AIEndpoint.MaxConcurrency e))))).

Definition node_slots : list string := ["async_1"; "async_2"; "async_3"].
Definition ValidateAINode (n : AINode.t) : bool :=
  bool_decide (AINode.Slot n ∈ node_slots) &&
  negb ((128 <? slen (AINode.Name n))%Z || negb (valid_utf8 (B (AINode.Name n)))) &&
  negb (AINode.BaseURL n =? "")%string &&
  absolute_http (trim_space (AINode.BaseURL n)) &&
  negb (blank (AINode.Model n) || (256 <? slen (AINode.Model n))%Z || negb (valid_utf8 (B (AINode.Model n)))) &&
  negb ((AINode.TimeoutMS n <? 100)%Z || (30000 <? AINode.TimeoutMS n)%Z) &&
  (slen (AINode.APIKey n) <=? Z.shiftl 16 10)%Z.

Fixpoint insert_node (x : string * AINodeRow.t) (l : list (string * AINodeRow.t)) :=
  match l with
  | [] => [x]
  | y :: l => if text_lt x.1 y.1 then x :: y :: l else y :: insert_node x l
  end.
Fixpoint load_nodes (rows : list (string * AINodeRow.t)) : Store (list AINode.t) :=
  match rows with
  | [] => mret []
  | (slot, r) :: rows =>
      key ← load_key (AINodeRow.api_key r);
      out ← load_nodes rows;
      mret (AINode.mk (AINodeRow.ID r) slot (AINodeRow.Name r) (AINodeRow.BaseURL r) (AINodeRow.Model r)
              key.1 key.2 (AINodeRow.TimeoutMS r) (AINodeRow.Enabled r) :: out)
  end.
Definition ListAINodes : Store (list AINode.t) :=
  rows ← query io (λ d, foldr insert_node [] (map_to_list (ai_nodes (conf d))));
  load_nodes rows.

Definition upsert_node (slot name url model : string) (key : bytes) (timeout : Z) (enabled : bool) (d : db) :
    result store_err (unit * db) :=
  match ai_nodes (conf d) !! slot with
  | Some old =>
      Ok ((), set_nodes d (<[slot := AINodeRow.mk (AINodeRow.ID old) name url model
                                       (keep_key (AINodeRow.api_key old) key) timeout enabled]>
                             (ai_nodes (conf d))))
  | None =>
      let '(id, d) := take_id d in
      Ok ((), set_nodes d (<[slot := AINodeRow.mk id name url model key timeout enabled]> (ai_nodes (conf d))))
  end.

Definition SaveAINode (n : AINode.t) : Store unit :=
  let n := AINode.mk (AINode.ID n) (trim_space (AINode.Slot n)) (trim_space (AINode.Name n))
             (trim_space (AINode.BaseURL n)) (trim_space (AINode.Model n)) (AINode.APIKey n)
             (AINode.HasAPIKey n) (AINode.TimeoutMS n) (AINode.Enabled n) in
  guard_ok (ValidateAINode n) "AI node";;
  encrypted ← encrypt_payload (AINode.APIKey n);
  exec io (upsert_node (AINode.Slot n) (AINode.Name n) (AINode.BaseURL n) (AINode.Model n) encrypted
             (AINode.TimeoutMS n) (AINode.Enabled n)).

(** ** Administrators and sessions *)

Definition password_prefix : string := "$argon2id$v=19$m=65536,t=1,p=4$".
Definition HashPassword (salt : bytes) (password : string) : string :=
  password_prefix +:+ hex_encode salt +:+ "$" +:+ hex_encode (argon2_IDKey (B password) salt 32).

Definition VerifyPassword (encoded password : string) : bool :=
  match split encoded "$" with
  | [_; _; _; _; salt; want] =>
      match hex_decode salt, hex_decode want with
      | Some salt, Some want => bool_decide (argon2_IDKey (B password) salt (length want) = want)
      | _, _ => false
      end
  | _ => false
  end.

(** Sixteen random bytes salt the first administrator's password. *)
Definition EnsureAdmin (salt : option bytes) (username password : string) : Store unit :=
  let username := if (username =? "")%string then "admin"%string else username in
  n ← query io (λ d, size (admin_users (conf d)));
  if (0 <? n)%nat then mret () else
  guard_ok (negb (password =? "")%string) "initial admin password";;
  match salt with
  | None => store_fail ErrIO
  | Some salt =>
      let hash := HashPassword salt password in
      exec io (λ d, match admin_users (conf d) !! username with
                    | Some _ => Err ErrConstraint
                    | None => Ok ((), set_users d (<[username := hash]> (admin_users (conf d))))
                    end)
  end.

Definition hashToken (v : string) : string := hashPlaintext v.
Definition sessionLifetime : Duration := (12 * hour)%Z.

Definition insert_session (key : string) (s : SessionRow.t) (d : db) : result store_err (unit * db) :=
  match admin_sessions (conf d) !! key with
  | Some _ => Err ErrConstraint
  | None => Ok ((), set_sessions d (<[key := s]> (admin_sessions (conf d))))
  end.

(** [raw] and [csrfRaw] are 32 and 24 random bytes. *)
Definition Login (now : Time) (raw csrfRaw : option bytes) (username password : string) :
    Store (string * string * Time) :=
  hash ← attempt (exec io (λ d, match admin_users (conf d) !! username with
                                | Some h => Ok (h, d)
                                | None => Err ErrNoRows
                                end));
  match hash with
  | Err _ => store_fail (ErrInvalid "invalid credentials")
  | Ok hash =>
      guard_ok (VerifyPassword hash password) "invalid credentials";;
      match raw, csrfRaw with
      | Some raw, Some c =>
          let token := hex_encode raw in
          let csrf := hex_encode c in
          let expires := (now + sessionLifetime)%Z in
          exec io (insert_session (hashToken token)
                     (SessionRow.mk username csrf (format_time expires) (format_time now)));;
          mret (token, csrf, expires)
      | _, _ => store_fail ErrIO
      end
  end.

Definition delete_session (token : string) : Store unit :=
  exec io (λ d, Ok ((), set_sessions d (delete (hashToken token) (admin_sessions (conf d))))).

(** The user and the CSRF token of a live session. *)
Definition Session (now : Time) (token : string) : Store (option (string * string)) :=
  row ← attempt (exec io (λ d, match admin_sessions (conf d) !! hashToken token with
                               | Some s => Ok (s, d)
                               | None => Err ErrNoRows
                               end));
  match row with
  | Err _ => mret None
  | Ok s =>
      match parse_time (SessionRow.ExpiresAt s) with
      | Some t =>
          if (t <? now)%Z then attempt (delete_session token);; mret None
          else mret (Some (SessionRow.Username s, SessionRow.Csrf s))
      | None => attempt (delete_session token);; mret None
      end
  end.

Definition Logout (token : string) : Store unit := attempt (delete_session token);; mret ().
End settings.
