(* ===== verification/StoreOverview.v ===== *)
(** * The overview of the administration ([internal/storage/store.go],
    [Overview])

    Aggregates over events, nodes and promotions, and the requests of the last
    twelve hours.  [CAST(round(avg(x)) AS INTEGER)] of SQLite is the interface
    [SqlAverage].  The theorem says what the hourly points count. *)

From S2P Require Export StoreSettings StoreEvents.

Class SqlAverage := { rounded_average : list Z → Z }.

Module HourlyPoint.
Record t : Type := mk { Hour : string; Total : nat; Blocked : nat }.
End HourlyPoint.

(** The keys of the map the code returns. *)
Module Overview.
Record t : Type := mk {
  total_requests : nat;
  blocked_requests : nat;
  audited_requests : nat;
  bypassed_requests : nat;
  last_event_at : option string;
  async_nodes_configured : nat;
  async_promotions : nat;
  hourly : list HourlyPoint.t;
  avg_audit_latency_ms : Z;
  avg_ai_latency_ms : Z;
  audit_latency_samples : nat;
  ai_latency_samples : nat;
}.
End Overview.

Section overview.
Context `{SA : SqlAverage} (io : nat → bool).

Definition event_rows (d : db) : list EventRow.t := map snd (map_to_list (audit_events d)).

(** [max(created_at)], NULL for an empty table. *)
Definition max_text (l : list string) : option string :=
  foldr (λ s best, match best with
                   | Some b => if text_lt b s then Some s else best
                   | None => Some s
                   end) None l.
Definition has_outcome (outcome : string) (r : EventRow.t) : bool := (EventRow.Outcome r =? outcome)%string.
Definition has_action (action : string) (r : EventRow.t) : bool := (EventRow.Action r =? action)%string.

Definition node_configured (slot : string) (n : AINodeRow.t) : bool :=
  AINodeRow.Enabled n && negb (bool_decide (AINodeRow.api_key n = [])) && bool_decide (slot ∈ node_slots).

(** [now.Truncate(time.Hour).Add(-11 * time.Hour)] *)
Definition firstHour (now : Time) : Time := (now - now mod hour - 11 * hour)%Z.

(** [substr(created_at,1,13)]; the stored times are ASCII. *)
Definition hour_key (created : string) : string := S_ (take 13 (B created)).

(** The group of a key in the query of the hours. *)
Definition in_group (first : Time) (key : string) (r : EventRow.t) : bool :=
  text_le (format_time first) (EventRow.CreatedAt r) && (hour_key (EventRow.CreatedAt r) =? key)%string.
Definition hourly_point (first : Time) (rows : list EventRow.t) (i : nat) : HourlyPoint.t :=
  let h := (first + Z.of_nat i * hour)%Z in
  let group := in_group first (hour_key (format_time h)) in
  HourlyPoint.mk (format_time h) (countb group rows) (countb (λ r, group r && has_outcome "block" r) rows).
Definition hourly_points (first : Time) (rows : list EventRow.t) : list HourlyPoint.t :=
  map (hourly_point first rows) (seq 0 12).

Definition average (l : list Z) : Z := match l with [] => 0%Z | _ => rounded_average l end.
Definition positive_values (l : list Z) : list Z := List.filter (λ n, 0 <? n)%Z l.

Definition Overview (now : Time) : Store Overview.t :=
  totals ← query io (λ d, let rows := event_rows d in
    (length rows, countb (has_outcome "block") rows, countb (has_action "audit") rows,
     countb (has_action "bypass") rows, max_text (map EventRow.CreatedAt rows)));
  let '(total, blocked, audited, bypassed, lastEvent) := totals in
  nodes ← query io (λ d, countb (λ sn, node_configured sn.1 sn.2) (map_to_list (ai_nodes (conf d))));
  promotions ← query io (λ d, size (rule_promotions d));
  let first := firstHour now in
  points ← query io (λ d, hourly_points first (event_rows d));
  recent ← query io (λ d, List.filter (λ r, text_le (format_time first) (EventRow.CreatedAt r)) (event_rows d));
  mret (Overview.mk total blocked audited bypassed lastEvent nodes promotions points
    (average (positive_values (map EventRow.AuditLatencyMS recent)))
    (average (positive_values (map EventRow.AILatencyMS recent)))
    (countb (has_action "audit") recent)
    (countb (λ r, (0 <? EventRow.AILatencyMS r)%Z) recent)).
End overview.

(** ** Texts of hours *)

#[local] Ltac Zify.zify_post_hook ::= Z.to_euclidean_division_equations.

(** The text of a time up to the hour. *)
Lemma hour_text t :
  in_range_time t →
  ∃ y m d, civil (t / second / 86400) = (y, m, d) ∧ (1 ≤ y ≤ 9999 ∧ 1 ≤ m ≤ 12 ∧ 1 ≤ d ≤ 31)%Z ∧
    (0 ≤ (t / second) mod 86400 / 3600 < 24)%Z ∧
    take 13 (B (format_time t)) =
      pad 4 y ++ "-"%char :: pad 2 m ++ "-"%char :: pad 2 d ++ "T"%char :: pad 2 ((t / second) mod 86400 / 3600).
Proof.
  intros (y & m & d & h & mi & s & ns & Hc & Hh & _ & _ & _ & _ & _ & Hy & Hm & Hd & Bh & _)%time_fields.
  pose proof (days_in_le y m). exists y, m, d. split; [done|]. split; [lia|]. rewrite Hh. split; [lia|].
  unfold format_time. rewrite Hc, Hh, B_S_.
  destruct (pad_4 y ltac:(lia)) as (y1 & y2 & y3 & y4 & -> & _).
  destruct (pad_2 m ltac:(lia)) as (m1 & m2 & -> & _). destruct (pad_2 d ltac:(lia)) as (d1 & d2 & -> & _).
  destruct (pad_2 h ltac:(lia)) as (h1 & h2 & -> & _). done.
Qed.

Lemma pad_inj w n m :
  (0 ≤ n < 10 ^ Z.of_nat w)%Z → (0 ≤ m < 10 ^ Z.of_nat w)%Z → 0 < w ≤ 20 → pad w n = pad w m → n = m.
Proof.
  intros Hn Hm Hw H. pose proof (digits_pad w n Hn Hw) as H1. rewrite H, (digits_pad w m Hm Hw) in H1. congruence.
Qed.
Lemma pad_app_inj w n m a b :
  (0 ≤ n < 10 ^ Z.of_nat w)%Z → (0 ≤ m < 10 ^ Z.of_nat w)%Z → 0 < w ≤ 20 →
  pad w n ++ a = pad w m ++ b → n = m ∧ a = b.
Proof.
  intros Hn Hm Hw H. apply app_inj_1 in H as [H1 H2]; [|by rewrite !length_pad].
  split; [by eapply pad_inj|done].
Qed.

(** Two times have the same text up to the hour if they are of the same hour. *)
Lemma hour_key_spec t u :
  in_range_time t → in_range_time u →
  (hour_key (format_time t) =? hour_key (format_time u))%string = (t / hour =? u / hour)%Z.
Proof.
  intros (y & m & d & Hc & Hb & Hh & Ht)%hour_text (y' & m' & d' & Hc' & Hb' & Hh' & Hu)%hour_text.
  unfold hour_key. rewrite Ht, Hu.
  assert (∀ v, v / hour = v / second / 86400 * 24 + (v / second) mod 86400 / 3600)%Z as Hhour.
  { intros v. unfold hour, minute, second. lia. }
  destruct (Z.eqb_spec (t / hour) (u / hour)) as [Heq|Hne].
  - rewrite !Hhour in Heq. assert (t / second / 86400 = u / second / 86400)%Z as Hd by lia.
    assert ((t / second) mod 86400 / 3600 = (u / second) mod 86400 / 3600)%Z as -> by lia.
    rewrite Hd, Hc' in Hc. injection Hc as <- <- <-. apply String.eqb_refl.
  - apply String.eqb_neq. intros Heq. apply Hne. rewrite !Hhour.
    apply (f_equal B) in Heq. rewrite !B_S_ in Heq.
    apply pad_app_inj in Heq as [<- [= Heq]]; [|lia..].
    apply pad_app_inj in Heq as [<- [= Heq]]; [|lia..].
    apply pad_app_inj in Heq as [<- [= Heq]]; [|lia..].
    apply pad_inj in Heq as ->; [|lia..].
    by rewrite <- (days_of_civil_civil _ _ _ _ Hc), <- (days_of_civil_civil _ _ _ _ Hc').
Qed.

Lemma text_lt_b_asym l k : text_lt_b l k = true → text_lt_b k l = false.
Proof.
  revert k. induction l as [|x l IH]; intros [|y k]; simpl; try done.
  intros [H|H]%orb_true_iff.
  - apply N.ltb_lt in H. rewrite (proj2 (N.ltb_ge _ _)) by lia.
    rewrite bool_decide_false; [done|]. intros ->. lia.
  - apply andb_true_iff in H as [->%bool_decide_eq_true_1 H]. rewrite (IH k H), andb_false_r, orb_false_r.
    apply N.ltb_ge. lia.
Qed.

Lemma fraction_positive ns : (0 < ns < second)%Z → ∃ l, fraction ns = "."%char :: l.
Proof.
  intros Hns. assert (fraction ns ≠ []) as Hne.
  { intros H. pose proof (parse_tail_fraction ns ltac:(lia)) as Hp. rewrite H in Hp. simpl in Hp. injection Hp. lia. }
  unfold fraction in *. destruct (rev _); [done|]. by eexists.
Qed.

(** The texts of two times within a second. *)
Lemma text_lt_asym s t : text_lt s t = true → text_lt t s = false.
Proof. apply text_lt_b_asym. Qed.

Lemma text_lt_same_second t u :
  (t / second = u / second)%Z → (u mod second = 0)%Z →
  text_lt (format_time t) (format_time u) = (u <? t)%Z.
Proof.
  intros Heq Hu. unfold text_lt, format_time. rewrite Heq, Hu.
  destruct (civil _) as [[y m] d]. rewrite !B_S_.
  do 5 (rewrite text_lt_b_app; match goal with |- context [text_lt_b (?c :: ?l) (?c :: ?k)] =>
    change (c :: l) with ([c] ++ l); change (c :: k) with ([c] ++ k); rewrite (text_lt_b_app [c]) end).
  rewrite text_lt_b_app.
  assert (t = u + t mod second)%Z as Ht by (unfold second in *; lia).
  assert (0 ≤ t mod second < second)%Z as Hb by (apply Z.mod_pos_bound; done).
  destruct (Z.ltb_spec u t).
  - destruct (fraction_positive (t mod second) ltac:(lia)) as [l ->]. by vm_compute.
  - assert (t mod second = 0)%Z as -> by lia. by vm_compute.
Qed.

(** The rows of the last hours are those not before the first hour, except
    that a time within its first second has the smaller text. *)
Lemma since_spec first t :
  in_range_time first → in_range_time t → (first mod second = 0)%Z →
  text_le (format_time first) (format_time t) = (first <=? t)%Z && negb ((first <? t) && (t <? first + second))%Z.
Proof.
  intros Hf Ht Hmod. unfold text_le.
  destruct (Z.lt_trichotomy (t / second) (first / second)) as [H|[H|H]].
  - rewrite (text_order_of_seconds t first) by done. rewrite (proj2 (Z.leb_gt _ _)); [done|unfold second in *; lia].
  - rewrite text_lt_same_second by done. rewrite (proj2 (Z.leb_le _ _)) by (unfold second in *; lia).
    rewrite (proj2 (Z.ltb_lt t (first + second))) by (unfold second in *; lia).
    by rewrite andb_true_r.
  - assert (text_lt (format_time t) (format_time first) = false) as ->.
    { apply text_lt_asym. exact (text_order_of_seconds first t Hf Ht H). }
    rewrite (proj2 (Z.leb_le _ _)), (proj2 (Z.ltb_ge t (first + second))) by (unfold second in *; lia).
    by rewrite andb_false_r.
Qed.

(** The time of a row. *)
Definition row_time (r : EventRow.t) : option Time := parse_time (EventRow.CreatedAt r).
Definition well_timed (r : EventRow.t) : Prop :=
  ∃ t, in_range_time t ∧ EventRow.CreatedAt r = format_time t.

(** The hour that begins at [h], without the part of the first second that
    the comparison of texts loses. *)
Definition counted_in (first h : Time) (r : EventRow.t) : bool :=
  match row_time r with
  | Some t => ((h <=? t) && (t <? h + hour))%Z && negb ((first <? t) && (t <? first + second))%Z
  | None => false
  end.

Lemma in_group_spec first i r :
  (first mod hour = 0)%Z → in_range_time first → in_range_time (first + Z.of_nat i * hour) → well_timed r →
  in_group first (hour_key (format_time (first + Z.of_nat i * hour))) r =
    counted_in first (first + Z.of_nat i * hour) r.
Proof.
  intros Hal Hf Hh (t & Ht & E). unfold in_group, counted_in, row_time. rewrite E, parse_time_format by done.
  rewrite since_spec, hour_key_spec by (done || (unfold hour, minute, second in *; lia)).
  set (h := (first + Z.of_nat i * hour)%Z) in *.
  assert ((t / hour =? h / hour) = ((h <=? t) && (t <? h + hour)))%Z as ->.
  { assert (h mod hour = 0)%Z as Hhm by (unfold h, hour, minute, second in *; lia).
    apply Bool.eq_iff_eq_true. rewrite Z.eqb_eq, andb_true_iff, Z.leb_le, Z.ltb_lt.
    unfold hour, minute, second in *. lia. }
  destruct (Z.leb_spec h t); simpl; [|by rewrite andb_false_r].
  assert (first ≤ h)%Z as Hfh by (unfold h, hour, minute, second; lia).
  rewrite (proj2 (Z.leb_le first t)) by lia. simpl. apply andb_comm.
Qed.

(** C40. The hourly points of the overview: the twelve points are the whole
    hours up to the current one, each counts the events whose time lies in its
    hour, and those of them that were blocked.  The only events left out are
    those within the first second of the first hour, after its beginning:
    the query compares times as text. *)
Theorem hourly_points_spec now rows :
  in_range_time (firstHour now) → in_range_time now → Forall well_timed rows →
  let first := firstHour now in
  length (hourly_points first rows) = 12 ∧
  (first mod hour = 0 ∧ first + 11 * hour ≤ now < first + 12 * hour)%Z ∧
  ∀ i, i < 12 → let h := (first + Z.of_nat i * hour)%Z in
    hourly_points first rows !! i =
      Some (HourlyPoint.mk (format_time h) (countb (counted_in first h) rows)
              (countb (λ r, counted_in first h r && has_outcome "block" r) rows)).
Proof.
  intros Hf Hnow Hrows first. split; [done|].
  assert (first mod hour = 0 ∧ first + 11 * hour ≤ now < first + 12 * hour)%Z as Hal
    by (unfold first, firstHour, hour, minute, second; lia).
  split; [done|]. intros i Hi h. unfold hourly_points. rewrite list_lookup_fmap, lookup_seq_lt by done. simpl.
  unfold hourly_point. fold h. f_equal.
  assert (in_range_time h) as Hh.
  { unfold in_range_time, h in *. fold first in Hf. unfold hour, minute, second in *. lia. }
  assert (Forall (λ r, in_group first (hour_key (format_time h)) r = counted_in first h r) rows) as Hg.
  { eapply Forall_impl; [exact Hrows|]. intros r Hr. apply in_group_spec; [apply Hal|done..]. }
  f_equal; (induction Hg as [|r rows Hr Hg IH]; [done|]); apply Forall_cons in Hrows as [_ Hrows];
    simpl; by rewrite Hr, IH.
Qed.

(** ** Witness *)

Definition demo_row (t : Time) : EventRow.t :=
  EventRow.mk "" "" "" "" "" "" "" "" "" "" "" "block" "" "" "" 0 0 false "" f64_zero "" "" 0 0 0 false (format_time t).
Definition demo_now : Time := (63844806605 * second)%Z.
(** An event now, one on the first hour and one in its first second. *)
Definition demo_rows : list EventRow.t :=
  map demo_row [demo_now; firstHour demo_now; firstHour demo_now + 1]%Z.

Lemma hourly_points_spec_witness :
  hourly_points (firstHour demo_now) demo_rows !! 0 = Some (HourlyPoint.mk "2024-02-29T01:00:00Z" 1 1) ∧
  hourly_points (firstHour demo_now) demo_rows !! 11 = Some (HourlyPoint.mk "2024-02-29T12:00:00Z" 1 1).
Proof.
  assert (∀ t, (0 <=? t) && (t <? 3652059 * 86400 * second) = true → in_range_time t)%Z as Hr.
  { intros t [H1 H2]%andb_true_iff. split; [by apply Z.leb_le|by apply Z.ltb_lt]. }
  assert (in_range_time (firstHour demo_now)) as H1 by (apply Hr; vm_compute; reflexivity).
  assert (in_range_time demo_now) as H2 by (apply Hr; vm_compute; reflexivity).
  assert (Forall well_timed demo_rows) as H3.
  { repeat constructor; eexists; (split; [|reflexivity]); apply Hr; vm_compute; reflexivity. }
  destruct (hourly_points_spec demo_now demo_rows H1 H2 H3) as (_ & _ & H).
  split; [rewrite (H 0) by lia|rewrite (H 11) by lia]; vm_compute; reflexivity.
Defined.
