(* ===== verification/StoreSettingsTheorems.v ===== *)
(** * Theorems on settings, profiles, AI endpoints and sessions *)

From S2P Require Export StoreTheorems StoreSettings.

Section settings_theorems.
Context `{U : Unicode, R : Regexp, C : Cipher, UL : UrlLib, AR : Argon2}.
Context (hashPlaintext : string → string) (io : nat → bool).

(** ** Configuration *)

Definition settings_version (d : db) : Z :=
  match settings (conf d) with Some r => SettingRow.Version r | None => 0 end.

(** What [PutConfig] writes. *)
Definition stored_config (now : Time) (c : Config.t) (v : Z) : SettingRow.t :=
  SettingRow.mk (json_config (Config.set_version c v)) v (format_time now).

Lemma lift_config_inv {A} (r : result config_err A) c a c' :
  lift_config r c = (Ok a, c') → r = Ok a ∧ c' = c.
Proof. unfold lift_config. destruct r; [|done]. by intros [= <- <-]. Qed.

Lemma put_config_inv now c e s u s' :
  put_config io now c e s = (Ok u, s') →
  (settings (conf (tables s)) = None ∨ (e ≤ 0)%Z ∨ settings_version (tables s) = e) ∧
  tables s' = set_settings (tables s)
    (Some (stored_config now c (wrap64 (settings_version (tables s) + 1)))).
Proof.
  unfold put_config, settings_version. intros (row & s1 & [-> H1]%query_inv & H)%bind_inv.
  apply bind_inv in H as (? & s2 & Hg & H). apply exec_inv in H. injection H as _ H.
  destruct (settings (conf (tables s))) as [r|].
  - destruct (_ && _) eqn:E in Hg; [done|]. injection Hg as _ <-. rewrite <-H, H1. split; [|done]. right.
    rewrite bool_decide_true in E by done. cbn [andb] in E.
    apply andb_false_iff in E as [E|E]; to_prop; [by left; lia|by right].
  - injection Hg as _ <-. rewrite <-H, H1. split; [by left|done].
Qed.

Lemma lift_config_tables {A} (r : result config_err A) c : (lift_config r c).2 = c.
Proof. by destruct r. Qed.

Lemma PutConfig_ok now c e s u s' :
  PutConfig io now c e s = (Ok u, s') →
  ∃ l, NormalizeAdminFrameAncestors (Config.AdminFrameAncestors c) = Ok l ∧
    ValidateConfig (Config.set_ancestors c l) = Ok () ∧
    (settings (conf (tables s)) = None ∨ (e ≤ 0)%Z ∨ settings_version (tables s) = e) ∧
    tables s' = set_settings (tables s)
      (Some (stored_config now (Config.set_ancestors c l) (wrap64 (settings_version (tables s) + 1)))).
Proof.
  unfold PutConfig. intros (l & s1 & [Hl ->]%lift_config_inv & H)%bind_inv.
  apply bind_inv in H as ([] & s2 & [Hv ->]%lift_config_inv & H).
  apply transaction_inv in H as (s3 & s4 & H3 & [Hver H4]%put_config_inv & H).
  rewrite H3 in *. exists l. by rewrite H, H4.
Qed.

Lemma PutConfig_err now c e s err s' : PutConfig io now c e s = (Err err, s') → tables s' = tables s.
Proof.
  unfold PutConfig, mbind at 1, Store_bind at 1.
  destruct (NormalizeAdminFrameAncestors _) as [l|]; [|by intros [= _ <-]]. simpl.
  unfold mbind at 1, Store_bind at 1.
  destruct (ValidateConfig _) as [[]|]; [|by intros [= _ <-]]. simpl. apply transaction_atomic.
Qed.

(** [PutConfig] is a compare-and-swap on the version.  It succeeds only for
    a valid configuration and, when the caller names a version, only if that is
    the version of the row; then the row holds the configuration with the
    normalised frame ancestors and the next version, and nothing else in the
    database has changed.  Every failure leaves the whole database as it was. *)
Theorem PutConfig_spec now c e s r s' :
  PutConfig io now c e s = (r, s') →
  match r with
  | Err _ => tables s' = tables s
  | Ok _ =>
      ∃ l, NormalizeAdminFrameAncestors (Config.AdminFrameAncestors c) = Ok l ∧
        ValidateConfig (Config.set_ancestors c l) = Ok () ∧
        (settings (conf (tables s)) = None ∨ (e ≤ 0)%Z ∨ settings_version (tables s) = e) ∧
        tables s' = set_settings (tables s)
          (Some (stored_config now (Config.set_ancestors c l) (wrap64 (settings_version (tables s) + 1))))
  end.
Proof. intros H. destruct r as [[]|err]; [by eapply PutConfig_ok|by eapply PutConfig_err]. Qed.

Lemma wrap64_wrap z : wrap64 (wrap64 z + 1) = wrap64 (z + 1).
Proof.
  unfold wrap64.
  replace ((z + 2 ^ 63) mod 2 ^ 64 - 2 ^ 63 + 1 + 2 ^ 63)%Z with ((z + 2 ^ 63) mod 2 ^ 64 + 1)%Z by lia.
  rewrite Zplus_mod_idemp_l. by replace (z + 2 ^ 63 + 1)%Z with (z + 1 + 2 ^ 63)%Z by lia.
Qed.
Lemma wrap64_distinct v j : (0 < j < 2 ^ 64)%Z → wrap64 (v + j) ≠ v.
Proof.
  unfold wrap64. intros Hj H.
  pose proof (Z.div_mod (v + j + 2 ^ 63) (2 ^ 64) ltac:(lia)).
  set (q := ((v + j + 2 ^ 63) / 2 ^ 64)%Z) in *. assert (j = 2 ^ 64 * q)%Z by lia. nia.
Qed.

(** What may happen to the configuration between two saves: something that
    leaves its row alone, or any call of [PutConfig], with whatever result. *)
Inductive config_step (s s' : conn) : Prop :=
| config_kept : settings (conf (tables s')) = settings (conf (tables s)) → config_step s s'
| config_put now c e r : PutConfig io now c e s = (r, s') → config_step s s'.

(** The version after some steps counts the saves among them. *)
Lemma config_steps_version v k s1 s2 j :
  nsteps config_step k s1 s2 → settings (conf (tables s1)) ≠ None →
  settings_version (tables s1) = wrap64 (v + j) →
  settings (conf (tables s2)) ≠ None ∧
  ∃ i, (i ≤ k)%nat ∧ settings_version (tables s2) = wrap64 (v + (j + Z.of_nat i)).
Proof.
  intros Hk. revert j. induction Hk as [s|k s1 s s2 Hs _ IH]; intros j Hrow Hv.
  - split; [done|]. exists 0%nat. split; [done|]. by rewrite Z.add_0_r.
  - assert (settings (conf (tables s)) = settings (conf (tables s1)) ∨
            settings (conf (tables s)) ≠ None ∧ settings_version (tables s) = wrap64 (settings_version (tables s1) + 1))
      as [Hsame|[Hrow' Hv']].
    { destruct Hs as [|now c e [[]|err] Hp]; [by left| |left; by rewrite (PutConfig_err _ _ _ _ _ _ Hp)].
      right. apply PutConfig_ok in Hp as (l & _ & _ & _ & ->). done. }
    + destruct (IH j) as (H1 & i & Hi & H2); [by rewrite Hsame|unfold settings_version; by rewrite Hsame|].
      split; [done|]. exists i. split; [lia|done].
    + destruct (IH (j + 1)%Z) as (H1 & i & Hi & H2); [done|by rewrite Hv', Hv, wrap64_wrap, Z.add_assoc|].
      split; [done|]. exists (S i). split; [lia|]. rewrite H2. f_equal. lia.
Qed.

(** C28. No lost update: of two administrators who read the same version of the
    stored configuration and both save, only the first succeeds.  Once a call of
    [PutConfig] that expects the version [v > 0] has replaced an existing row,
    no later call that expects [v] succeeds, and it changes nothing, whatever it
    writes, whatever statements fail, and however many other saves (fewer than
    2^64 - 1, after which the version would have come round) have been made in
    between, with or without an expected version.  A first save into the empty
    table, and a call that expects no version, are not protected by it. *)
Theorem lost_update_excluded now c v s s1 k now' c' s2 r s3 :
  (0 < v)%Z → settings (conf (tables s)) ≠ None →
  PutConfig io now c v s = (Ok (), s1) →
  nsteps config_step k s1 s2 → (Z.of_nat k < 2 ^ 64 - 1)%Z →
  PutConfig io now' c' v s2 = (r, s3) →
  is_ok r = false ∧ tables s3 = tables s2.
Proof.
  intros Hv Hrow (l & _ & _ & [?|[?|Hver]] & H1)%PutConfig_ok H2 Hk H3; [done|lia|].
  destruct r as [[]|err]; [|split; [done|by eapply PutConfig_err]]. exfalso.
  apply PutConfig_ok in H3 as (l' & _ & _ & Hver' & _).
  apply (config_steps_version v _ _ _ 1) in H2 as (Hrow2 & i & Hi & Hv2); [|by rewrite H1|].
  - rewrite Hv2 in Hver'. destruct Hver' as [?|[?|Hver']]; [done|lia|].
    by apply (wrap64_distinct v (1 + Z.of_nat i)) in Hver'; [|lia].
  - rewrite H1. cbn. by rewrite Hver.
Qed.

(** ** The AI endpoint *)

(** The specification: an endpoint and its key in the clear.  Saving with an
    empty key keeps the key. *)
Definition spec_save (e g : AIEndpoint.t) : AIEndpoint.t :=
  let key := if (AIEndpoint.APIKey e =? "")%string then AIEndpoint.APIKey g else AIEndpoint.APIKey e in
  AIEndpoint.mk (trim_space (AIEndpoint.BaseURL e)) (trim_space (AIEndpoint.Model e)) key
    (negb (key =? "")%string) (AIEndpoint.TimeoutMS e) (AIEndpoint.MaxConcurrency e).

(** A save that reported success counts. *)
Definition spec_step (g : AIEndpoint.t) (er : AIEndpoint.t * bool) : AIEndpoint.t :=
  if er.2 then spec_save er.1 g else g.

Fixpoint run_saves (es : list AIEndpoint.t) (s : conn) : list bool * conn :=
  match es with
  | [] => ([], s)
  | e :: es =>
      let '(r, s) := SaveAIEndpoint io e s in
      let '(rs, s) := run_saves es s in (is_ok r :: rs, s)
  end.

(** The row represents the endpoint. *)
Definition key_rep (blob : bytes) (key : string) : Prop :=
  (blob = [] ∧ key = ""%string) ∨ (blob ≠ [] ∧ unseal blob = Some (B key) ∧ key ≠ ""%string).
Definition endpoint_rep (d : db) (g : AIEndpoint.t) : Prop :=
  match ai_endpoints (conf d) with
  | None => g = AIEndpoint.zero
  | Some r =>
      ∃ key, key_rep (AIEndpointRow.api_key r) key ∧
        g = AIEndpoint.mk (AIEndpointRow.BaseURL r) (AIEndpointRow.Model r) key (negb (key =? "")%string)
              (AIEndpointRow.TimeoutMS r) (AIEndpointRow.MaxConcurrency r)
  end.

Lemma load_key_rep blob key s : key_rep blob key → load_key blob s = (Ok (key, negb (key =? "")%string), s).
Proof.
  unfold load_key. intros [[-> ->]|(Hb & Hu & Hk)]; [done|]. rewrite bool_decide_false by done.
  unfold decrypt, mbind, Store_bind. rewrite Hu. cbn. rewrite S_B.
  by apply String.eqb_neq in Hk as ->.
Qed.

Lemma encrypt_payload_rep `{!CipherLaws} plain s :
  ∃ blob, encrypt_payload plain s = (Ok blob, s) ∧ key_rep blob plain.
Proof.
  unfold encrypt_payload. destruct (String.eqb_spec plain "") as [->|Hne].
  - exists []. split; [done|by left].
  - eexists. split; [done|]. right. split_and!; [apply seal_nonempty|apply unseal_seal|done].
Qed.

Lemma keep_key_rep old new key key' :
  key_rep old key → key_rep new key' →
  key_rep (keep_key old new) (if (key' =? "")%string then key else key').
Proof.
  intros Ho [[-> ->]|(Hb & Hu & Hk)]; unfold keep_key; [done|].
  rewrite bool_decide_false by done. rewrite (proj2 (String.eqb_neq _ _) Hk). by right.
Qed.

Lemma SaveAIEndpoint_rep `{!CipherLaws} e s r s' g :
  endpoint_rep (tables s) g → SaveAIEndpoint io e s = (r, s') →
  endpoint_rep (tables s') (spec_step g (e, is_ok r)).
Proof.
  intros Hg. unfold SaveAIEndpoint. unfold mbind at 1, Store_bind at 1, guard_ok at 1.
  destruct (ValidateAIEndpoint _); cbn; [|by intros [= <- <-]].
  unfold mbind at 1, Store_bind at 1.
  destruct (encrypt_payload_rep (AIEndpoint.APIKey e) s) as (blob & -> & Hblob).
  unfold exec. destruct (io _); [|by intros [= <- <-]]. intros [= <- <-]. cbn.
  unfold endpoint_rep in *. cbn.
  destruct (ai_endpoints (conf (tables s))) as [row|]; [destruct Hg as (key & Hkey & ->)|subst g];
    eexists; (split; [by apply keep_key_rep; [first [exact Hkey|by left]|exact Hblob]|done]).
Qed.

Lemma run_saves_rep `{!CipherLaws} es s rs s' g :
  endpoint_rep (tables s) g → run_saves es s = (rs, s') →
  endpoint_rep (tables s') (foldl spec_step g (combine es rs)).
Proof.
  revert s rs g. induction es as [|e es IH]; intros s rs g Hg; simpl; [by intros [= <- <-]|].
  destruct (SaveAIEndpoint io e s) as [r s1] eqn:E1. destruct (run_saves es s1) as [rs1 s2] eqn:E2.
  intros [= <- <-]. simpl. eapply IH; [|exact E2]. by eapply SaveAIEndpoint_rep.
Qed.

(** C27. Refinement: after any sequence of saves, of which some may be refused
    or fail, [GetAIEndpoint] returns what the specification without encryption
    computes from the saves that reported success; in particular the API key is
    the last non-empty one saved. *)
Theorem AIEndpoint_refines_spec `{!CipherLaws} es s rs s' :
  ai_endpoints (conf (tables s)) = None → run_saves es s = (rs, s') → io (statements s') = true →
  (GetAIEndpoint io s').1 = Ok (foldl spec_step AIEndpoint.zero (combine es rs)).
Proof.
  intros Hs Hrun Hio.
  assert (endpoint_rep (tables s) AIEndpoint.zero) as Hrep by (unfold endpoint_rep; by rewrite Hs).
  pose proof (run_saves_rep es s rs s' _ Hrep Hrun) as Hrep'. revert Hrep'.
  generalize (foldl spec_step AIEndpoint.zero (combine es rs)) as g. intros g Hg.
  unfold GetAIEndpoint, query, exec, mbind at 1, Store_bind at 1. rewrite Hio. unfold endpoint_rep in Hg.
  destruct (ai_endpoints (conf (tables s'))) as [row|] eqn:E; [|by rewrite Hg].
  destruct Hg as (key & Hkey & ->). unfold mbind, Store_bind. by rewrite (load_key_rep _ key).
Qed.

(** ** Passwords and sessions *)

Lemma hex_encode_no_dollar b : "$"%char ∉ B (hex_encode b).
Proof.
  unfold hex_encode. rewrite B_S_. induction b as [|c b IH]; simpl; [by intros ?%not_elem_of_nil|].
  assert (∀ n, (n < 16)%N → "$"%char ≠ hex_char n) as Hn.
  { intros n Hn Heq. apply hex_value_char in Hn. rewrite <-Heq in Hn. by vm_compute in Hn. }
  assert (code c < 256)%N by apply code_lt.
  repeat rewrite elem_of_cons. intros [H1|[H1|H1]]; [..|done].
  - revert H1. apply Hn. apply N.Div0.div_lt_upper_bound. lia.
  - revert H1. apply Hn. by apply N.mod_lt.
Qed.

Lemma split_password salt key :
  split (password_prefix +:+ hex_encode salt +:+ "$" +:+ hex_encode key) "$" =
  [""; "argon2id"; "v=19"; "m=65536,t=1,p=4"; hex_encode salt; hex_encode key]%string.
Proof.
  unfold split. rewrite !B_app.
  change (B password_prefix ++ ?x) with
    ([] ++ "$"%char :: B "argon2id" ++ "$"%char :: B "v=19" ++ "$"%char :: B "m=65536,t=1,p=4" ++ "$"%char :: x).
  do 4 (rewrite split_bytes_app by (apply (bool_decide_unpack _); vm_compute; exact I)).
  change (B "$" ++ ?x) with ("$"%char :: x).
  rewrite split_bytes_app, split_bytes_word by apply hex_encode_no_dollar.
  cbn [map]. by rewrite !S_B.
Qed.

(** A stored password hash accepts exactly the passwords with the same
    Argon2id key under its salt: the encoding of salt and key round trips. *)
Theorem VerifyPassword_HashPassword `{!Argon2Laws} salt p q :
  VerifyPassword (HashPassword salt p) q =
  bool_decide (argon2_IDKey (B q) salt 32 = argon2_IDKey (B p) salt 32).
Proof.
  unfold VerifyPassword, HashPassword. rewrite split_password, !hex_decode_encode.
  by rewrite argon2_length.
Qed.

(** ** Sessions *)

Definition session_of (d : db) (token : string) : option SessionRow.t :=
  admin_sessions (conf d) !! hashToken hashPlaintext token.

Lemma Login_ok now raw csrfRaw u p s token csrf expires s' :
  Login hashPlaintext io now raw csrfRaw u p s = (Ok (token, csrf, expires), s') →
  (∃ h, admin_users (conf (tables s)) !! u = Some h ∧ VerifyPassword h p = true) ∧
  expires = (now + sessionLifetime)%Z ∧
  session_of (tables s') token = Some (SessionRow.mk u csrf (format_time expires) (format_time now)).
Proof.
  unfold Login. intros (hash & s1 & H1 & H)%bind_inv. unfold attempt in H1.
  destruct (exec io _ s) as [r s2] eqn:E. injection H1 as <- ->.
  destruct r as [h|e]; [|done]. apply exec_inv in E.
  destruct (admin_users _ !! u) as [h'|] eqn:Eu; [|done]. injection E as -> E.
  apply bind_inv in H as ([] & s2 & [Hv ->]%guard_inv & H).
  destruct raw as [raw|]; [|done]. destruct csrfRaw as [c|]; [|done].
  apply bind_inv in H as ([] & s3 & Hs%exec_inv & H). injection H as <- <- <- <-.
  unfold insert_session in Hs. destruct (admin_sessions _ !! _); [done|]. injection Hs as Hs.
  split; [by exists h|]. split; [done|]. unfold session_of. rewrite <-Hs. apply lookup_insert_eq.
Qed.

(** C29. A session lives for twelve hours and no longer.  [Login] succeeds only
    for a stored user whose hash verifies the password; whenever the database
    answers, [Session] gives that user and the CSRF token up to the moment of
    expiry and nothing after it, and an expired row is deleted as soon as it is
    presented; after [Logout] the row is gone. *)
Theorem session_lifecycle now raw csrfRaw u p s token csrf expires s1 s2 later :
  in_range_time (now + sessionLifetime) →
  Login hashPlaintext io now raw csrfRaw u p s = (Ok (token, csrf, expires), s1) →
  session_of (tables s2) token = session_of (tables s1) token →
  (∀ n, io n = true) →
  (∃ h, admin_users (conf (tables s)) !! u = Some h ∧ VerifyPassword h p = true) ∧
  (let '(r, s3) := Session hashPlaintext io later token s2 in
   if (later <=? now + sessionLifetime)%Z
   then r = Ok (Some (u, csrf)) ∧ tables s3 = tables s2
   else r = Ok None ∧ session_of (tables s3) token = None) ∧
  session_of (tables (Logout hashPlaintext io token s2).2) token = None.
Proof.
  intros Hrange (Huser & -> & Hsess)%Login_ok H2 Hio. split; [done|]. rewrite Hsess in H2. split.
  - unfold Session, attempt, exec, mbind, Store_bind. rewrite Hio. unfold session_of in H2. rewrite H2.
    cbn -[format_time parse_time]. rewrite Z.leb_antisym.
    assert (parse_time (format_time (now + sessionLifetime)) = Some (now + sessionLifetime)%Z) as ->
      by (by apply parse_time_format).
    destruct (_ <? _)%Z; [|done]. unfold delete_session, exec. rewrite Hio. cbn.
    split; [done|]. apply lookup_delete_eq.
  - unfold Logout, attempt, delete_session, exec, mbind, Store_bind. rewrite Hio. cbn. apply lookup_delete_eq.
Qed.
End settings_theorems.

(** ** Witnesses *)

Section settings_witnesses.

(** Every text is the URL of the host [h] over https. *)
#[local] Instance demo_url : UrlLib := {
  url_parse := λ s, if (s =? "")%string then None else Some (Url.mk "https" s s "" false "" "" "" "");
  url_string := λ u, Url.Scheme u +:+ "://" +:+ Url.Host u;
}.
#[local] Instance demo_cipher : Cipher := { seal := λ _ p, "x"%char :: p; unseal := λ c, Some (tail c) }.
#[local] Instance demo_cipher_laws : CipherLaws.
Proof. by split. Qed.
#[local] Instance demo_argon : Argon2 := { argon2_IDKey := λ p _ n, take n (p ++ replicate n zero) }.
#[local] Instance demo_argon_laws : Argon2Laws.
Proof. split. intros p s n. simpl. rewrite length_take, length_app, length_replicate. lia. Qed.

Definition demo_io (n : nat) : bool := true.
Definition demo_config : Config.t := Config.set_ancestors (defaultConfig "up") ["Host"; ""]%string.
Definition demo_put (e : Z) (s : conn) : result store_err unit * conn := PutConfig demo_io 0 demo_config e s.
Definition demo_settings : conn := (demo_put 0 demo_conn).2.

Lemma PutConfig_spec_witness :
  (demo_put 1 demo_settings).1 = Ok () ∧ ValidateConfig (Config.set_ancestors demo_config ["https://host"]%string) = Ok () ∧
  (settings (conf (tables (demo_put 1 demo_settings).2)) =
     Some (stored_config 0 (Config.set_ancestors demo_config ["https://host"]%string) 2)).
Proof.
  pose proof (PutConfig_spec demo_io 0 demo_config 1 demo_settings _ _ (surjective_pairing _)) as H.
  assert ((PutConfig demo_io 0 demo_config 1 demo_settings).1 = Ok ()) as Hok by (vm_compute; reflexivity).
  rewrite Hok in H. destruct H as (l & Hl & Hv & _ & Ht).
  assert (NormalizeAdminFrameAncestors (Config.AdminFrameAncestors demo_config) = Ok ["https://host"%string]) as Hn
    by (vm_compute; reflexivity).
  rewrite Hn in Hl. injection Hl as <-. split; [exact Hok|]. split; [exact Hv|].
  unfold demo_put. rewrite Ht. vm_compute. reflexivity.
Defined.

(** The second administrator is refused after a third one has saved, too. *)
Lemma lost_update_excluded_witness :
  let s1 := (demo_put 1 demo_settings).2 in
  let s2 := (demo_put 2 s1).2 in
  (demo_put 2 s1).1 = Ok () ∧ is_ok (demo_put 1 s2).1 = false.
Proof.
  intros s1 s2. split; [vm_compute; reflexivity|].
  assert (PutConfig demo_io 0 demo_config 1 demo_settings = (Ok (), s1)) as H1.
  { apply run_eq. vm_compute. reflexivity. }
  assert (settings (conf (tables demo_settings)) ≠ None) as H0 by (vm_compute; discriminate).
  assert (nsteps (config_step demo_io) 1 s1 s2) as Hs.
  { eapply nsteps_once, config_put. apply surjective_pairing. }
  exact (proj1 (lost_update_excluded demo_io 0 demo_config 1 demo_settings s1 1 0 demo_config s2 _ _
           eq_refl H0 H1 Hs eq_refl (surjective_pairing _))).
Defined.

Definition demo_endpoint (key model : string) : AIEndpoint.t := AIEndpoint.mk "host" model key false 1000 4.
Definition demo_saves : list AIEndpoint.t :=
  [demo_endpoint "k1" "m1"; demo_endpoint "" "m2"; demo_endpoint "k2" ""]%string.

(** The second save keeps the key, the third is refused: it names no model. *)
Lemma AIEndpoint_refines_spec_witness :
  (GetAIEndpoint demo_io (run_saves demo_io demo_saves demo_conn).2).1 =
  Ok (AIEndpoint.mk "host" "m2" "k1" true 1000 4).
Proof.
  pose proof (AIEndpoint_refines_spec demo_io demo_saves demo_conn _ _ eq_refl (surjective_pairing _) eq_refl) as H.
  rewrite H. vm_compute. reflexivity.
Defined.

Lemma VerifyPassword_HashPassword_witness :
  VerifyPassword (HashPassword (B "salt") "secret") "secret" = true ∧
  VerifyPassword (HashPassword (B "salt") "secret") "Secret" = false.
Proof. rewrite !VerifyPassword_HashPassword. split; vm_compute; reflexivity. Defined.

Definition demo_admin : conn :=
  mk_conn (set_users empty_db {["admin"%string := HashPassword (B "salt") "secret"]}) 0.
Definition demo_login : result store_err (string * string * Time) * conn :=
  Login demo_hash demo_io 0 (Some (B "raw")) (Some (B "csrf")) "admin" "secret" demo_admin.

Lemma session_lifecycle_witness :
  (Session demo_hash demo_io hour (hex_encode (B "raw")) demo_login.2).1 = Ok (Some ("admin", hex_encode (B "csrf")))%string ∧
  (Session demo_hash demo_io (13 * hour) (hex_encode (B "raw")) demo_login.2).1 = Ok None.
Proof.
  assert (Login demo_hash demo_io 0 (Some (B "raw")) (Some (B "csrf")) "admin" "secret" demo_admin =
    (Ok (hex_encode (B "raw"), hex_encode (B "csrf"), 0 + sessionLifetime)%Z, demo_login.2)) as H.
  { apply run_eq. vm_compute. reflexivity. }
  assert (in_range_time (0 + sessionLifetime)) as Hr by (vm_compute; split; [discriminate|reflexivity]).
  assert (∀ later, (Session demo_hash demo_io later (hex_encode (B "raw")) demo_login.2).1 =
    if (later <=? 0 + sessionLifetime)%Z then Ok (Some ("admin"%string, hex_encode (B "csrf"))) else Ok None) as Hs.
  { intros later.
    destruct (session_lifecycle demo_hash demo_io _ _ _ _ _ _ _ _ _ demo_login.2 demo_login.2 later Hr H eq_refl
              (λ _, eq_refl)) as (_ & H1 & _).
    destruct (Session demo_hash demo_io later _ _) as [r1 c1]. destruct (_ <=? _)%Z; exact (proj1 H1). }
  split; [exact (Hs hour)|exact (Hs (13 * hour)%Z)].
Defined.
End settings_witnesses.
