(* ===== verification/Runtime.v ===== *)
(** * The runtime ([cmd/nocyber-guard/main.go])

    What holds the components together: the rule snapshot and the reload, the
    adapter between the proxy and the engine, the event queue, and the
    background review of [asyncRuntime].  Time, random bytes and the answers of
    the AI services are arguments. *)

From S2P Require Export Engine Quorum StoreSettings StoreEvents Config Reviewer.

(** ** The rule snapshot *)

Abbreviation ruleSnapshot := (gmap string HashMatch.t) (only parsing).
Definition add_rules (kind : string) (rules : ruleSnapshot) (entries : list HashEntry.t) : ruleSnapshot :=
  foldl (λ rules e, if HashEntry.Enabled e then <[HashEntry.SHA256 e := match_of kind e]> rules else rules)
    rules entries.
(** Risk entries are added last: they win. *)
Definition snapshot_of (trusted risk : list HashEntry.t) : ruleSnapshot :=
  add_rules "risk" (add_rules "trusted" ∅ trusted) risk.
Definition loadRules (io : nat → bool) : Store ruleSnapshot :=
  trusted ← ListHashes io "trusted";
  risk ← ListHashes io "risk";
  mret (snapshot_of trusted risk).
(** [ruleSnapshot.LookupHash] *)
Definition snapshot_LookupHash (rules : ruleSnapshot) (sha : string) :
    result audit_err (option HashMatch.t) := Ok (rules !! sha).

(** ** Identification of a request *)

Section identification.
Context `{U : Unicode}.

Definition id_char (c : ascii) : bool :=
  in_range "a" "z" c || in_range "A" "Z" c || in_range "0" "9" c ||
  bool_decide (c ∈ ["."; "_"; "-"; ":"]%char).

(** [%x] *)
Fixpoint hex_digits (fuel : nat) (n : Z) (acc : bytes) : bytes :=
  match fuel with
  | O => acc
  | S fuel =>
      let acc := hex_char (Z.to_N (n mod 16)) :: acc in
      if (n <? 16)%Z then acc else hex_digits fuel (n / 16)%Z acc
  end.
Definition hex_number (n : Z) : string := S_ (hex_digits 16 n []).

(** [randomID]: twelve random bytes, or the clock and a counter. *)
Record random_source : Type := mk_random { bytes12 : option bytes; unix_nano : Z; counter : Z }.
Definition randomID (r : random_source) : string :=
  match bytes12 r with
  | Some b => hex_encode b
  | None => "fallback-" +:+ hex_number (unix_nano r) +:+ "-" +:+ hex_number (counter r)
  end.

Definition eventRequestID (r : random_source) (value : string) : string :=
  let value := trim_space value in
  if (value =? "")%string || (128 <? slen value)%Z then randomID r
  else if forallb id_char (B value) then value else randomID r.

Definition boundedEventValue (value : string) (maxBytes : Z) : string :=
  if (value =? "")%string || (maxBytes <? slen value)%Z then ""
  else if forallb no_control (runes (B value)) then value else "".

(** [strings.Fields]; [cur] is the word being read. *)
Fixpoint fields_fuel (fuel : nat) (l cur : bytes) : list bytes :=
  let flush := if bool_decide (cur = []) then [] else [cur] in
  match fuel with
  | O => flush
  | S fuel =>
      match leading_space space_encodings l with
      | Some rest => flush ++ fields_fuel fuel rest []
      | None => match l with
                | [] => flush
                | c :: l => fields_fuel fuel l (cur ++ [c])
                end
      end
  end.
Definition Fields (s : string) : list string := map S_ (fields_fuel (S (length (B s))) (B s) []).

Example Fields_ex : Fields "  Bearer	sk-abc  " = ["Bearer"; "sk-abc"]%string ∧ Fields "   " = [].
Proof. vm_compute. auto. Qed.

Definition bearer_credential (value : string) : string :=
  let credential := trim_space value in
  match Fields credential with
  | [scheme; token] => if equal_fold scheme "bearer" then token else credential
  | _ => credential
  end.

Definition hidden_hint : string := "••••".
Definition hint_rune (r : N) : bool :=
  ((97 <=? r) && (r <=? 122) || (65 <=? r) && (r <=? 90) || (48 <=? r) && (r <=? 57) ||
   (r =? 95) || (r =? 45))%N.
(** [string(runes)] *)
Definition of_runes (rs : list N) : string := S_ (concat (map encode_rune rs)).

Definition keyHint (credential : string) : string :=
  let runes := map rn (runes (B credential)) in
  if (length runes <? 8)%nat then hidden_hint else
  let suffix := drop (length runes - 4) runes in
  if negb (forallb hint_rune suffix) then hidden_hint else
  let lower := to_lower credential in
  let prefix := if has_prefix lower "sk-" || has_prefix lower "sk_" then of_runes (take 3 runes) else ""%string in
  prefix +:+ "…" +:+ of_runes suffix.

(** [hmac] is HMAC-SHA256 under the fingerprint key, in hexadecimal. *)
Definition apiKeyTrace (hmac : string → string) (value : string) : string * string :=
  let credential := bearer_credential value in
  if (credential =? "")%string then ("", "")%string else (hmac credential, keyHint credential).
End identification.

Section client_ip.
Context `{NL : NetLib}.

(** [net.ParseCIDR] and [IPNet.Contains] *)
Class CIDRLib := { CIDR : Type; ParseCIDR : string → option CIDR; Contains : CIDR → IP → bool }.
Context `{CL : CIDRLib}.

Definition parseTrustedCIDRs (values : list string) : list CIDR := omap ParseCIDR values.
Definition trustedIP (ip : IP) (networks : list CIDR) : bool := existsb (λ n, Contains n ip) networks.

(** From the right, the first address that is not a trusted proxy. *)
Fixpoint forwarded_client (networks : list CIDR) (entries : list string) : option IP :=
  match entries with
  | [] => None
  | e :: entries =>
      match ParseIP (trim_space e) with
      | Some ip => if trustedIP ip networks then forwarded_client networks entries else Some ip
      | None => forwarded_client networks entries
      end
  end.
Definition clientIP (networks : list CIDR) (req : HttpRequest.t) : string :=
  let host := match SplitHostPort (HttpRequest.RemoteAddr req) with
              | Some (host, _) => host
              | None => HttpRequest.RemoteAddr req
              end in
  match ParseIP host with
  | None => ""
  | Some remote =>
      let forwarded :=
        if trustedIP remote networks
        then forwarded_client networks
               (rev (split (join (Values (HttpRequest.header req) "X-Forwarded-For") ",") ","))
        else None in
      IP_String (default remote forwarded)
  end.
End client_ip.

(** ** The state of the runtime *)

Definition itoa (n : Z) : string :=
  if (n <? 0)%Z then "-" +:+ S_ (dec_digits 20 (- n) []) else S_ (dec_digits 20 n []).

Definition profileKey (p : ProfileRow.t) : string :=
  let name := ProfileRow.Name p in
  if (name =? "Codex VS Code")%string then "codex_vscode"
  else if (name =? "Codex CLI")%string then "codex_cli"
  else if (name =? "Codex Desktop")%string then "codex_desktop"
  else "profile_" +:+ itoa (ProfileRow.ID p).

Module runtimeState.
Record t `{R : Regexp} : Type := mk {
  engine : Engine.t;
  paths : gset string;
  rules : ruleSnapshot;
  adminFrameAncestors : list string;
  auditBodyLimit : Z;
  enabled : bool;
  (** the reviewer the engine was built with; [Some None] is the nil pointer
      that [NewOpenAIReviewer] returns with an error, in a non-nil interface *)
  reviewer : option (option OpenAIReviewer.t);
}.
End runtimeState.

(** [runtime]: what a reload replaces, and the shared gate. *)
Module runtime.
Record t `{R : Regexp} : Type := mk {
  state : option runtimeState.t;
  bulkhead : ConcurrencyGate.t;
  nodes : list (string * OpenAIReviewer.t);     (** [asyncRunner.nodes]: slot and reviewer *)
}.
Definition set_nodes `{R : Regexp} (rt : t) (ns : list (string * OpenAIReviewer.t)) : t :=
  mk _ (state rt) (bulkhead rt) ns.
End runtime.

(** [time.Duration(ms) * time.Millisecond] *)
Definition ms_duration (ms : Z) : Duration := wrap64 (ms * millisecond).

Inductive reload_err : Type := ReloadStore (e : store_err) | ReloadEngine (e : engine_err).

Section reload.
Context `{U : Unicode, R : Regexp, C : Cipher, UL : UrlLib, NL : NetLib, H : !HostLib}.
Context (io : nat → bool) (cfg : StartupConfig.t).

Definition listeners : list string := [StartupConfig.ListenAddr cfg; StartupConfig.AdminListenAddr cfg].
Definition upstream_text : string := url_string (StartupConfig.UpstreamURL cfg).

(** The reviewers of the enabled nodes with a key whose URL is acceptable. *)
Definition node_reviewer (n : AINode.t) : option (string * OpenAIReviewer.t) :=
  if negb (AINode.Enabled n) || negb (AINode.HasAPIKey n) then None else
  match url_parse (AINode.BaseURL n) with
  | None => None
  | Some u =>
      if negb (is_ok (ValidateEndpointAgainstListeners (Some u) listeners)) then None else
      r ← NewOpenAIReviewer (OpenAIReviewerConfig.mk (AINode.BaseURL n) (AINode.APIKey n) (AINode.Model n)
                               (ms_duration (AINode.TimeoutMS n)));
      Some (AINode.Slot n, r)
  end.

Definition sync_reviewer (e : AIEndpoint.t) : option (option OpenAIReviewer.t) :=
  if (AIEndpoint.BaseURL e =? "")%string || (AIEndpoint.Model e =? "")%string ||
     negb (AIEndpoint.HasAPIKey e) then None else
  match url_parse (AIEndpoint.BaseURL e) with
  | None => None
  | Some u =>
      if negb (is_ok (ValidateEndpointAgainstListeners (Some u) listeners)) then None
      else Some (NewOpenAIReviewer (OpenAIReviewerConfig.mk (AIEndpoint.BaseURL e) (AIEndpoint.APIKey e)
                                      (AIEndpoint.Model e) (ms_duration (AIEndpoint.TimeoutMS e))))
  end.

Definition engine_profiles (rows : list ProfileRow.t) : list ClientProfile.t :=
  match map (λ p, audit_profile (profileKey p) p) rows with
  | [] => DefaultClientProfiles
  | l => l
  end.

(** The configuration the new engine gets. *)
Definition engine_config (gate : ConcurrencyGate.t) (stored : Config.t) (profiles : list ProfileRow.t)
    (endpoint : AIEndpoint.t) : EngineConfig.t :=
  let d := DefaultEngineConfig in
  EngineConfig.mk (if Config.Enabled stored then ModePermissive else ModeOff) (Config.ProtectedPaths stored)
    (Some (engine_profiles profiles)) (Config.MaxBodyBytes stored) (EngineConfig.MaxPromptRunes d)
    (EngineConfig.RejectConfidenceThreshold d) (EngineConfig.ReviewCriteria d)
    (if (0 <? AIEndpoint.MaxConcurrency endpoint)%Z then AIEndpoint.MaxConcurrency endpoint
     else EngineConfig.AIConcurrency d)
    (EngineConfig.AIQueueTimeout d) (ms_duration (Config.RequestTimeoutMS stored)) (Some gate).

(** What [reload] reads before it replaces the background nodes. *)
Definition reload_reads (now : Time) :
    Store (Config.t * list ProfileRow.t * AIEndpoint.t * list AINode.t) :=
  stored ← GetConfig io now upstream_text;
  let stored := if (Config.UpstreamURL stored =? "")%string
                then Config.set_upstream stored upstream_text else stored in
  profiles ← ListProfiles io;
  endpoint ← GetAIEndpoint io;
  nodes ← ListAINodes io;
  mret (stored, profiles, endpoint, nodes).

(** The nodes are replaced first, the gate and the state only together with a
    new engine. *)
Definition reload (now : Time) (rt : runtime.t) (c : conn) : result reload_err unit * runtime.t * conn :=
  match reload_reads now c with
  | (Err e, c) => (Err (ReloadStore e), rt, c)
  | (Ok (stored, profiles, endpoint, nodes), c) =>
      let rt := runtime.set_nodes rt (omap node_reviewer nodes) in
      match loadRules io c with
      | (Err e, c) => (Err (ReloadStore e), rt, c)
      | (Ok rules, c) =>
          let config := engine_config (runtime.bulkhead rt) stored profiles endpoint in
          match NewEngine config with
          | Err e => (Err (ReloadEngine e), rt, c)
          | Ok engine =>
              let gate := SetLimit (runtime.bulkhead rt) (EngineConfig.AIConcurrency config) in
              (Ok (),
               runtime.mk _ (Some (runtimeState.mk _ engine (list_to_set (Config.ProtectedPaths stored)) rules
                                     (Config.AdminFrameAncestors stored) (Config.MaxBodyBytes stored)
                                     (Config.Enabled stored) (sync_reviewer endpoint)))
                 gate (runtime.nodes rt), c)
          end
      end
  end.

Definition adminFrameAncestors (rt : runtime.t) : option (list string) :=
  runtimeState.adminFrameAncestors <$> runtime.state rt.

(** [ready]; [None] is success. *)
Definition ready_runtime (now : Time) (rt : runtime.t) (c : conn) : option string * conn :=
  match runtime.state rt with
  | None => (Some "audit runtime unavailable"%string, c)
  | Some _ =>
      match GetConfig io now "" c with
      | (Ok _, c) => (None, c)
      | (Err _, c) => (Some "config"%string, c)
      end
  end.

(** Default profiles for an empty table; a profile that cannot be saved is
    skipped. *)
Definition seed_row (p : ClientProfile.t) : ProfileRow.t :=
  ProfileRow.mk 0 (ClientProfile.Name p) (ClientProfile.Description p) (ClientProfile.Enabled p)
    (ClientProfile.Priority p)
    (map (λ m, (Matcher.Type_ m, Matcher.Value m, Matcher.CaseSensitive m)) (ClientProfile.Matchers p)) "" "".
Fixpoint save_all (now : Time) (ps : list ClientProfile.t) : Store unit :=
  match ps with
  | [] => mret ()
  | p :: ps => attempt (SaveProfile io now (seed_row p));; save_all now ps
  end.
Definition seedProfiles (now : Time) : Store unit :=
  r ← attempt (ListProfiles io);
  match r with
  | Ok [] => save_all now DefaultClientProfiles
  | _ => mret ()
  end.
End reload.

(** ** The event queue *)

Definition eventQueueCapacity : nat := Z.to_nat 2048.

(** [events], [eventDrops] and [eventWarningAt]. *)
Record event_queue : Type := mk_event_queue {
  queued : list Event.t;
  drops : Z;
  warned_at : Z;
}.

(** [RecordAuditEvent] of the runtime; the result is whether the event is in
    the queue.  A warning resets the counter of drops, which wraps around. *)
Definition enqueue_event (unix_nano : Z) (ev : Event.t) (q : event_queue) : bool * event_queue :=
  if (length (queued q) <? eventQueueCapacity)%nat
  then (true, mk_event_queue (queued q ++ [ev]) (drops q) (warned_at q))
  else
    let dropped := ((drops q + 1) mod 2 ^ 64)%Z in
    if (warned_at q =? 0)%Z || (10 * second <=? unix_nano - warned_at q)%Z
    then (false, mk_event_queue (queued q) 0 unix_nano)
    else (false, mk_event_queue (queued q) dropped (warned_at q)).

(** The writer goroutine takes the oldest event; an error is only logged. *)
Definition write_event `{U : Unicode} (io : nat → bool) (now : Time) (q : event_queue) (c : conn) :
    event_queue * conn :=
  match queued q with
  | [] => (q, c)
  | ev :: rest => (mk_event_queue rest (drops q) (warned_at q), (RecordAuditEvent io now ev c).2)
  end.

(** ** The adapter between proxy and engine *)

Module asyncReviewJob.
Record t : Type := mk {
  Hash : string;
  Field : string;
  Content : string;
  RuleContent : string;
  Sampled : bool;
  Model : string;
  APIKeyFingerprint : string;
  APIKeyHint : string;
}.
End asyncReviewJob.

Definition asyncQueueCapacity : nat := 256.

(** [asyncRuntime.enqueue]: a full queue refuses. *)
Definition enqueue (job : asyncReviewJob.t) (queue : list asyncReviewJob.t) : bool * list asyncReviewJob.t :=
  if (length queue <? asyncQueueCapacity)%nat then (true, queue ++ [job]) else (false, queue).

Section adapter.
Context `{U : Unicode, R : Regexp, NL : NetLib, CL : !CIDRLib}.

(** The context of a request pins the state that [ShouldAudit] saw. *)
Abbreviation pin := (option runtimeState.t) (only parsing).

(** [requestState]: the state used, and the pin afterwards. *)
Definition requestState (current pinned : pin) (do_pin : bool) : pin * pin :=
  match pinned with
  | Some s => (Some s, pinned)
  | None => (current, if do_pin then current else None)
  end.

Definition ShouldAudit (current pinned : pin) (req : HttpRequest.t) : bool * pin :=
  if negb (HttpRequest.Method req =? "POST")%string then (false, pinned) else
  let '(state, pinned) := requestState current pinned true in
  (match state with
   | None => false
   | Some s => runtimeState.enabled s &&
               bool_decide (URL.Path (HttpRequest.URL req) ∈ runtimeState.paths s)
   end, pinned).

Definition AuditBodyLimit (current pinned : pin) : Z :=
  match (requestState current pinned false).1 with
  | Some s => runtimeState.auditBodyLimit s
  | None => DefaultMaxBodyBytes
  end.

(** What the adapter works on besides the state. *)
Record adapter_world : Type := mk_adapter_world {
  aw_conn : conn;
  aw_events : event_queue;
  aw_jobs : list asyncReviewJob.t;
  aw_limiter : FixedWindowLimiter.t;
}.

(** One evaluation's view of the outside world.  [blocked_now] are the two
    clock readings of the store while it records a block. *)
Record adapter_env : Type := mk_adapter_env {
  ae_io : nat → bool;
  ae_clock : nat → Time;
  ae_unix_nano : Z;
  ae_blocked_now : Time * Time;
  ae_context : N → option audit_err;
  ae_hash : string → string;                     (** hexadecimal SHA-256 *)
  ae_hmac : string → string;
  ae_random : random_source;
  ae_networks : list CIDR;
  ae_review : OpenAIReviewer.t → Reviewer;       (** [OpenAIReviewer.Review] *)
  ae_deadline : AIReviewRequest.t → bool;
  ae_acquire : ConcurrencyGate.t → Duration → option audit_err;
}.

Section evaluate.
Context (A : adapter_env).

(** [runtime.RecordBlockedEvent] is the store's. *)
Definition record_blocked (ev : Event.t) (field plaintext : string) : Store unit :=
  RecordBlockedEvent (ae_io A) (ae_blocked_now A).1 (ae_blocked_now A).2 ev field plaintext.

Definition reviewer_fn (r : option (option OpenAIReviewer.t)) : option AuditTypes.Reviewer :=
  match r with
  | None => None
  | Some (Some r) => Some (ae_review A r)
  | Some None => Some (λ _, (AIVerdict.zero, Some ErrAIUnavailable, 0%Z))
  end.

(** The collaborators [NewEngine] was given: the snapshot, the reviewer and
    the runtime as the event sink. *)
Definition engine_env (s : runtimeState.t) (c : conn) : env :=
  mk_env (ae_clock A) (ae_context A) (ae_hash A) (Some (snapshot_LookupHash (runtimeState.rules s)))
    (reviewer_fn (runtimeState.reviewer s)) (ae_deadline A) (ae_acquire A) true
    (Some (λ ev field plaintext,
       match (record_blocked ev field plaintext c).1 with
       | Ok _ => None
       | Err _ => Some (OtherError "storage")
       end)).

(** What the effects of the engine do to the runtime. *)
Definition apply_effect (w : adapter_world) (e : effect) : adapter_world :=
  match e with
  | EAudit ev =>
      mk_adapter_world (aw_conn w) (enqueue_event (ae_unix_nano A) ev (aw_events w)).2 (aw_jobs w) (aw_limiter w)
  | EBlocked ev field plaintext _ =>
      mk_adapter_world (record_blocked ev field plaintext (aw_conn w)).2 (aw_events w) (aw_jobs w) (aw_limiter w)
  | _ => w
  end.

(** The rule context that traffic may fill in. *)
Definition backfill_kind (result : Result.t) : option string :=
  if (Result.Hash result =? "")%string || (Result.RuleContent result =? "")%string then None
  else if (Result.Reason result =? ReasonTrustedHashMatch)%string then Some "trusted"%string
  else if (Result.Reason result =? ReasonRiskHashMatch)%string then Some "risk"%string
  else None.

Definition wants_async_review (result : Result.t) : bool :=
  negb (Result.Hash result =? "")%string && negb (Result.Field result =? "")%string &&
  negb (Result.Reason result =? ReasonTrustedHashMatch)%string &&
  negb (Result.Reason result =? ReasonRiskHashMatch)%string &&
  negb (Result.ReviewContent result =? "")%string.

Definition async_job (result : Result.t) (trace : string * string) : asyncReviewJob.t :=
  asyncReviewJob.mk (Result.Hash result) (Result.Field result) (Result.ReviewContent result)
    (Result.RuleContent result) (Result.AISampled result) (Result.Model result) trace.1 trace.2.

Definition UserAgentOf (req : HttpRequest.t) : string := Get (HttpRequest.header req) "User-Agent".

(** The request as the engine sees it. *)
Definition audit_request_of (req : HttpRequest.t) (body : bytes) : Request.t :=
  let trace := apiKeyTrace (ae_hmac A) (Get (HttpRequest.header req) "Authorization") in
  Request.mk (eventRequestID (ae_random A) (Get (HttpRequest.header req) "X-Request-Id"))
    (HttpRequest.Method req) (boundedEventValue (URL.Path (HttpRequest.URL req)) 2048) ProtocolResponses
    (UserAgentOf req) "" body trace.1 trace.2 (clientIP (ae_networks A) req).

Definition adapter_Evaluate (current pinned : pin) (req : HttpRequest.t) (body : bytes) (w : adapter_world) :
    Decision.t * adapter_world :=
  match (requestState current pinned false).1 with
  | None => (Decision.mk true false ReasonAIUnavailable "" 0 "" "" "" "" false, w)
  | Some s =>
      let request := audit_request_of req body in
      let trace := (Request.APIKeyFingerprint request, Request.APIKeyHint request) in
      let '(result, ew) := Evaluate (engine_env s (aw_conn w)) (runtimeState.engine s) request
                             (Engine.mk_world 0 (Some (aw_limiter w)) []) in
      let w := foldl apply_effect w (log ew) in
      let limiter := default (aw_limiter w) (Engine.limiter ew) in
      let c := match backfill_kind result with
               | Some kind =>
                   (StoreHashContext (ae_hash A) (ae_io A) (ae_clock A (ticks ew)) kind (Result.Hash result)
                      (Result.RuleContent result) trace.1 trace.2 (aw_conn w)).2
               | None => aw_conn w
               end in
      let jobs := if wants_async_review result then (enqueue (async_job result trace) (aw_jobs w)).2
                  else aw_jobs w in
      (Decision.mk (Result.Allow result) (Result.Blocked result) (Result.Reason result)
         (Request.ID request) (milliseconds (Result.AuditLatency result)) (Result.ProfileKey result)
         (Result.Field result) (Result.Hash result) (Result.Model result) false,
       mk_adapter_world c (aw_events w) jobs limiter)
  end.

(** [Observe]: an event for a request that was not audited. *)
Definition Observe (now : Time) (req : HttpRequest.t) (reason : string) (q : event_queue) : event_queue :=
  let trace := apiKeyTrace (ae_hmac A) (Get (HttpRequest.header req) "Authorization") in
  (enqueue_event (ae_unix_nano A)
     (Event.mk (eventRequestID (ae_random A) (Get (HttpRequest.header req) "X-Request-Id"))
        (HttpRequest.Method req) (boundedEventValue (URL.Path (HttpRequest.URL req)) 2048) "unreviewed" ""
        (SanitizeUserAgent (UserAgentOf req)) "" trace.1 trace.2 "allow" "" "" reason "" "" 0 0 false None
        0 0 0 false now) q).2.
End evaluate.
End adapter.

(** ** The background review *)

Section background.
Context `{U : Unicode, C : Cipher}.
Context (hashPlaintext : string → string) (io : nat → bool) (clk : nat → Time).
Context (format_confidence : float64 → string) (error_text : audit_err → string).

(** [time.Now] before a statement. *)
Definition time_now : Store Time := λ c, (Ok (clk (statements c)), c).

(** [fmt.Sprintf("%s:%s:%.3f", ...)], joined with commas. *)
Definition vote_summary (v : AsyncVote.t) : string :=
  match AsyncVote.Err v with
  | Some _ => AsyncVote.Slot v +:+ ":error"
  | None => AsyncVote.Slot v +:+ ":" +:+ AIVerdict.Result (AsyncVote.Verdict v) +:+ ":" +:+
            format_confidence (AIVerdict.Confidence (AsyncVote.Verdict v))
  end.
Definition makeVoteSummary (votes : list AsyncVote.t) : string := join (map vote_summary votes) ",".

Definition vote_row (id : Z) (v : AsyncVote.t) : ReviewVote.t :=
  let verdict := AsyncVote.Verdict v in
  let ms := milliseconds (AsyncVote.Latency v) in
  match AsyncVote.Err v with
  | Some e => ReviewVote.mk id (AsyncVote.Slot v) "" f64_zero "" "" ms (error_text e) ""
  | None => ReviewVote.mk id (AsyncVote.Slot v) (AIVerdict.Result verdict) (AIVerdict.Confidence verdict)
              (AIVerdict.Reason verdict) (AIVerdict.Category verdict) ms "" ""
  end.

(** A vote that cannot be written is only logged. *)
Fixpoint record_votes (id : Z) (votes : list AsyncVote.t) : Store unit :=
  match votes with
  | [] => mret ()
  | v :: votes =>
      t ← time_now;
      attempt (RecordReviewVote io t (vote_row id v));; record_votes id votes
  end.

Definition set_contents (job : asyncReviewJob.t) (content rule fp hint : string) : asyncReviewJob.t :=
  asyncReviewJob.mk (asyncReviewJob.Hash job) (asyncReviewJob.Field job) content rule
    (asyncReviewJob.Sampled job) (asyncReviewJob.Model job) fp hint.

(** A text that can be loaded and is not empty replaces the one at hand. *)
Definition loaded (r : result store_err string) (fallback : string) : string :=
  match r with Ok s => if (s =? "")%string then fallback else s | Err _ => fallback end.

(** The job as stored, for a digest that was seen before. *)
Definition recovered_job (record : ReviewJob.t) (job : asyncReviewJob.t) : Store asyncReviewJob.t :=
  sample ← attempt (LoadReviewJobSample io (ReviewJob.ID record));
  let content := loaded sample (asyncReviewJob.Content job) in
  rule ← attempt (LoadReviewJobContent io (ReviewJob.ID record));
  let ruleContent := loaded rule (asyncReviewJob.RuleContent job) in
  let ruleContent :=
    if (ruleContent =? "")%string && negb (ReviewJob.Sampled record) &&
       (hashPlaintext content =? ReviewJob.SHA256 record)%string
    then content else ruleContent in
  mret (set_contents job content ruleContent (ReviewJob.APIKeyFingerprint record) (ReviewJob.APIKeyHint record)).

Definition review_request (job : asyncReviewJob.t) : AIReviewRequest.t :=
  AIReviewRequest.mk (asyncReviewJob.Field job) (asyncReviewJob.Content job) (asyncReviewJob.Sampled job)
    (asyncReviewJob.Model job) (EngineConfig.ReviewCriteria DefaultEngineConfig) "" "".

Definition complete (id : Z) (status kind : string) : Store unit :=
  t ← time_now; attempt (CompleteReviewJob io t id status kind);; mret ().

(** [time.Duration(1<<attempts) * 10 * time.Second] *)
Definition retry_delay (attempts : Z) : Duration := wrap64 (Z.shiftl 1 attempts * (10 * second)).

(** After the votes: promotion, retry or the end of the job.  The result is
    the kind promoted, after which the rules are reloaded. *)
Definition conclude (record : ReviewJob.t) (job : asyncReviewJob.t) (votes : QuorumResult.t) :
    Store (option string) :=
  let id := ReviewJob.ID record in
  if QuorumResult.Reached votes && negb (QuorumResult.Conflict votes) then
    t ← time_now;
    r ← attempt (PromoteHash hashPlaintext io t id (asyncReviewJob.Hash job) (QuorumResult.Kind votes)
                   (asyncReviewJob.RuleContent job) (makeVoteSummary (QuorumResult.Votes votes))
                   (asyncReviewJob.APIKeyFingerprint job) (asyncReviewJob.APIKeyHint job));
    match r with
    | Err _ => complete id "failed" "";; mret None
    | Ok _ => complete id "promoted" (QuorumResult.Kind votes);; mret (Some (QuorumResult.Kind votes))
    end
  else if (ReviewJob.Attempts record + 1 <? 3)%Z then
    t ← time_now;
    attempt (ScheduleReviewRetry io t id "quorum_not_reached" (retry_delay (ReviewJob.Attempts record)));;
    mret None
  else complete id "completed_no_quorum" "";; mret None.

Definition finished_status (s : string) : bool :=
  bool_decide (s ∈ ["promoted"; "completed_no_quorum"; "failed"]%string).

(** [process]: the nodes vote on the job's text.  [schedule] is the order in
    which their votes arrive and how many are buffered when the loop drains the
    channel; the time the loop waits for them is not modelled. *)
Definition process (nodes : list AsyncNodeReviewer.t) (schedule : list nat * nat)
    (job : asyncReviewJob.t) : Store (option string) :=
  if negb (length nodes =? 3)%nat then mret None else
  t ← time_now;
  r ← attempt (CreateReviewJob hashPlaintext io t (asyncReviewJob.Hash job) (asyncReviewJob.Hash job)
                 (asyncReviewJob.Field job) (asyncReviewJob.Model job) (asyncReviewJob.Content job)
                 (asyncReviewJob.RuleContent job) (asyncReviewJob.Sampled job)
                 (asyncReviewJob.APIKeyFingerprint job) (asyncReviewJob.APIKeyHint job));
  match r with
  | Err _ => mret None
  | Ok (record, created) =>
      if negb created && finished_status (ReviewJob.Status record) then mret None else
      job ← (if created then mret job else recovered_job record job);
      t ← time_now;
      claimed ← attempt (ClaimReviewJob io t (ReviewJob.ID record));
      match claimed with
      | Ok true =>
          let '(places, ready) := schedule in
          let arrivals := arrivals_of places (map (node_vote (review_request job)) nodes) in
          let votes := ReviewAsyncQuorum arrivals ready DefaultRejectConfidence in
          record_votes (ReviewJob.ID record) (QuorumResult.Votes votes);;
          conclude record job votes
      | _ => mret None
      end
  end.

(** One due job of [recoverDue]; [None] when the job is skipped. *)
Definition recover_one (record : ReviewJob.t) : Store (option asyncReviewJob.t) :=
  sample ← attempt (LoadReviewJobSample io (ReviewJob.ID record));
  match sample with
  | Err _ => mret None
  | Ok sample =>
      if (sample =? "")%string then mret None else
      rule ← attempt (LoadReviewJobContent io (ReviewJob.ID record));
      let ruleContent := match rule with Ok s => s | Err _ => ""%string end in
      let ruleContent :=
        if (ruleContent =? "")%string && negb (ReviewJob.Sampled record) &&
           (hashPlaintext sample =? ReviewJob.SHA256 record)%string then sample else ruleContent in
      mret (Some (asyncReviewJob.mk (ReviewJob.SHA256 record) (ReviewJob.FieldName record) sample ruleContent
                    (ReviewJob.Sampled record) (ReviewJob.Model record)
                    (ReviewJob.APIKeyFingerprint record) (ReviewJob.APIKeyHint record)))
  end.
Fixpoint recover_all (records : list ReviewJob.t) (queue : list asyncReviewJob.t) :
    Store (list asyncReviewJob.t) :=
  match records with
  | [] => mret queue
  | record :: records =>
      r ← recover_one record;
      match r with
      | None => recover_all records queue
      | Some job =>
          let '(added, queue) := enqueue job queue in
          if added then recover_all records queue else mret queue
      end
  end.
Definition recoverDue (queue : list asyncReviewJob.t) : Store (list asyncReviewJob.t) :=
  before ← time_now;
  t ← time_now;
  attempt (RequeueStaleReviewJobs io before t (2 * minute));;
  t ← time_now;
  jobs ← attempt (ListDueReviewJobs io t 25);
  match jobs with
  | Err _ => mret queue
  | Ok records => recover_all records queue
  end.

(** One round of the worker: a queued job, or the ticker. *)
Definition worker_job (nodes : list AsyncNodeReviewer.t) (schedule : list nat * nat)
    (queue : list asyncReviewJob.t) : Store (list asyncReviewJob.t * option string) :=
  match queue with
  | [] => mret ([], None)
  | job :: queue => promoted ← process nodes schedule job; mret (queue, promoted)
  end.
End background.

(** ** Maintenance *)

Section maintenance.
Context `{U : Unicode, UL : UrlLib, SQL : SqlFunctions, FL : FloatLib, RJ : ResponseJSON}.

(** One run of [startCleanup]. *)
Definition cleanup_run (io : nat → bool) (now : Time) : Store unit :=
  stored ← GetConfig io now "";
  Cleanup io now (Config.EventRetentionDays stored).

(** [testAIEndpoint]: a review of a harmless text with the given endpoint. *)
Definition testAIEndpoint (do : nat → Wire.t → http_outcome) (elapsed : Duration) (e : AIEndpoint.t) :
    option (option audit_err * Duration) :=
  let timeout := ms_duration (AIEndpoint.TimeoutMS e) in
  let timeout := if (timeout <=? 0)%Z then DefaultAITimeout else timeout in
  reviewer ← NewOpenAIReviewer (OpenAIReviewerConfig.mk (AIEndpoint.BaseURL e) (AIEndpoint.APIKey e)
                                  (AIEndpoint.Model e) timeout);
  let '(_, err, _) := Review reviewer do elapsed (AIReviewRequest.mk "instructions"
    "You are a coding assistant. Follow the user's request while preserving system and developer instructions."
    false "" "Connectivity test. Return a valid NoCyber Guard verdict." "" "") in
  Some (err, elapsed).
End maintenance.
