(* ===== verification/RuntimeTheorems.v ===== *)
(** * Theorems on the runtime *)

From S2P Require Export EngineTheorems StoreJobsTheorems StoreEventsTheorems StoreSettingsTheorems Runtime.

(** ** The rule snapshot *)

Section snapshot.
Context `{U : Unicode} (hashPlaintext : string → string) (io : nat → bool).

(** The last enabled entry with the digest wins. *)
Lemma add_rules_lookup kind rules entries sha :
  NoDup (map HashEntry.SHA256 entries) →
  add_rules kind rules entries !! sha =
    match List.find (λ e, HashEntry.Enabled e && (HashEntry.SHA256 e =? sha)%string) entries with
    | Some e => Some (match_of kind e)
    | None => rules !! sha
    end.
Proof.
  unfold add_rules. revert rules. induction entries as [|e es IH]; intros rules Hnd; [done|].
  simpl in *. apply NoDup_cons in Hnd as [Hnotin Hnd]. rewrite IH by done.
  destruct (List.find _ es) as [e'|] eqn:Ef.
  - apply List.find_some in Ef as [Hin Hb]. destruct (HashEntry.Enabled e); [|done]. simpl.
    destruct (String.eqb_spec (HashEntry.SHA256 e) sha) as [Heq|]; [|done]. to_prop. exfalso. apply Hnotin.
    rewrite Heq. apply list_elem_of_fmap. exists e'. split; [congruence|]. by apply list_elem_of_In.
  - destruct (HashEntry.Enabled e); [|done]. simpl.
    destruct (String.eqb_spec (HashEntry.SHA256 e) sha) as [->|Hne]; [by rewrite lookup_insert_eq|].
    by rewrite lookup_insert_ne.
Qed.

Lemma insert_desc_perm e l : insert_desc e l ≡ₚ e :: l.
Proof.
  induction l as [|x l IH]; simpl; [done|]. destruct (_ <? _)%Z; [done|].
  rewrite IH. apply Permutation_swap.
Qed.
Lemma rows_desc_perm kind d : rows_desc kind d ≡ₚ map snd (map_to_list (table kind d)).
Proof.
  unfold rows_desc. induction (map snd _) as [|x l IH]; simpl; [done|]. by rewrite insert_desc_perm, IH.
Qed.

Lemma rows_nodup kind d : rules_wf hashPlaintext d → NoDup (map HashEntry.SHA256 (rows_desc kind d)).
Proof.
  intros Hwf. rewrite rows_desc_perm. rewrite map_map.
  rewrite (map_ext_in _ fst).
  - apply NoDup_fst_map_to_list.
  - intros [k e] Hin. apply list_elem_of_In, elem_of_map_to_list in Hin.
    exact (row_key _ _ _ (table_wf hashPlaintext kind d Hwf k e Hin)).
Qed.

Lemma find_row kind d sha :
  rules_wf hashPlaintext d → to_lower sha = sha →
  List.find (λ e, HashEntry.Enabled e && (HashEntry.SHA256 e =? sha)%string) (rows_desc kind d) =
  enabled_row kind sha d.
Proof.
  intros Hwf Hl. unfold enabled_row. rewrite Hl.
  destruct (List.find _ _) as [e|] eqn:Ef.
  - apply List.find_some in Ef as [Hin Hb]. to_prop.
    apply list_elem_of_In in Hin. rewrite rows_desc_perm in Hin.
    apply list_elem_of_fmap in Hin as ([k e'] & -> & Hin%elem_of_map_to_list). simpl in *.
    pose proof (row_key _ _ _ (table_wf hashPlaintext kind d Hwf k e' Hin)) as Hk.
    assert (k = sha) as -> by congruence. rewrite Hin. by destruct (HashEntry.Enabled e').
  - destruct (table kind d !! sha) as [e|] eqn:E; [|done]. destruct (HashEntry.Enabled e) eqn:Een; [|done].
    exfalso. pose proof (row_key _ _ _ (table_wf hashPlaintext kind d Hwf sha e E)) as Hk.
    eapply (List.find_none _ _) in Ef.
    2:{ apply list_elem_of_In. rewrite rows_desc_perm. apply list_elem_of_fmap. exists (sha, e).
        split; [reflexivity|]. by apply elem_of_map_to_list. }
    simpl in Ef. rewrite Een, Hk, String.eqb_refl in Ef. done.
Qed.

(** C21. Refinement: while the tables stay as they are, the snapshot a reload
    takes answers every lookup of a lower-case digest exactly as [LookupHash]
    on the database does: the enabled risk entry if there is one, otherwise the
    enabled trusted entry. *)
Theorem snapshot_refines_lookup c c' rules sha c2 :
  rules_wf hashPlaintext (tables c) → loadRules io c = (Ok rules, c') →
  to_lower sha = sha → tables c2 = tables c → (∀ n, io n = true) →
  (LookupHash io sha c2).1 = Ok (rules !! sha).
Proof.
  intros Hwf Hload Hl H2 Hio. unfold loadRules, ListHashes in Hload.
  apply bind_inv in Hload as (t & c1 & [-> H1]%query_inv & Hload).
  apply bind_inv in Hload as (r & c3 & [-> H3]%query_inv & Hload).
  injection Hload as <- _. rewrite H1.
  change (if ("trusted" =? "risk")%string then "risk"%string else "trusted"%string) with "trusted"%string.
  change (if ("risk" =? "risk")%string then "risk"%string else "trusted"%string) with "risk"%string.
  unfold snapshot_of. rewrite !add_rules_lookup by (by apply rows_nodup).
  rewrite !find_row by done.
  unfold StoreRules.LookupHash, query, exec, mbind, Store_bind. rewrite !Hio. simpl. rewrite H2.
  destruct (enabled_row "risk" sha (tables c)); simpl; [done|]. rewrite Hio. simpl.
  by destruct (enabled_row "trusted" sha (tables c)).
Qed.
End snapshot.

(** ** The adapter *)

Section adapter.
Context `{U : Unicode, R : Regexp, NL : NetLib, CL : !CIDRLib} (A : adapter_env).

(** A request is judged by one configuration from beginning to end: the
    state that [ShouldAudit] found is pinned to the request, and whatever
    reloads happen later, the body limit and the evaluation use that state, so
    that nothing is read with the limit of one configuration and judged by the
    rules of another. *)
Theorem request_state_pinned s0 s1 s2 req body w pinned :
  ShouldAudit s0 None req = (true, pinned) →
  pinned = s0 ∧ AuditBodyLimit s1 pinned = AuditBodyLimit s0 None ∧
  adapter_Evaluate A s2 pinned req body w = adapter_Evaluate A s0 None req body w.
Proof.
  unfold ShouldAudit. destruct (negb _); [done|]. simpl. destruct s0 as [s|]; [|done].
  intros [= _ <-]. done.
Qed.

Lemma apply_quiet es w :
  omap block_of es = [] → aw_conn (foldl (apply_effect A) w es) = aw_conn w.
Proof.
  revert w. induction es as [|e es IH]; intros w H; [done|]. simpl. simpl in H.
  destruct e; simpl in H; by rewrite IH.
Qed.

Lemma blocks_cons e es :
  omap block_of (e :: es) =
    match block_of e with Some b => b :: omap block_of es | None => omap block_of es end.
Proof. done. Qed.

Lemma apply_one_block es w ev f p saved :
  EBlocked ev f p saved ∈ es → length (omap block_of es) ≤ 1 →
  aw_conn (foldl (apply_effect A) w es) = (record_blocked A ev f p (aw_conn w)).2.
Proof.
  revert w. induction es as [|e es IH]; intros w Hin Hlen; [by apply not_elem_of_nil in Hin|].
  apply elem_of_cons in Hin as [<-|Hin].
  - simpl. rewrite apply_quiet; [done|]. rewrite blocks_cons in Hlen. simpl in Hlen.
    destruct (omap block_of es); [done|simpl in Hlen; lia].
  - assert (block_of e = None) as He.
    { destruct (block_of e) eqn:E; [|done]. exfalso. rewrite blocks_cons, E in Hlen. simpl in Hlen.
      assert (omap block_of es ≠ []) as Hne.
      { intros Hn. apply (not_elem_of_nil (EBlocked ev f p saved)). rewrite <-Hn.
        apply list_elem_of_omap. by exists (EBlocked ev f p saved). }
      destruct (omap block_of es); [done|simpl in Hlen; lia]. }
    simpl. rewrite blocks_cons, He in Hlen. rewrite IH by done. by destruct e.
Qed.

(** The rule context never touches events and evidence. *)
Lemma StoreHashContext_events io now kind h content fp hint c :
  let d' := tables (StoreHashContext (ae_hash A) io now kind h content fp hint c).2 in
  audit_events d' = audit_events (tables c) ∧ blocked_evidence d' = blocked_evidence (tables c).
Proof.
  set (P d := audit_events d = audit_events (tables c) ∧ blocked_evidence d = blocked_evidence (tables c)).
  assert (keeps P (StoreHashContext (ae_hash A) io now kind h content fp hint)) as Hk; [|by apply Hk].
  unfold StoreHashContext. repeat keeps_step. apply keeps_exec. intros d a d' Hd [= _ <-].
  unfold set_table. by destruct (kind =? "risk")%string.
Qed.

Lemma backfill_events io now kind h content fp hn c :
  let c' := match kind with
            | Some kind => (StoreHashContext (ae_hash A) io now kind h content fp hn c).2
            | None => c
            end in
  audit_events (tables c') = audit_events (tables c) ∧ blocked_evidence (tables c') = blocked_evidence (tables c).
Proof. destruct kind; [apply StoreHashContext_events|done]. Qed.

(** The columns of a row that come from the event unchanged. *)
Lemma event_row_fields now ev :
  EventRow.RequestID (event_row now ev) = safeEventText (Event.RequestID ev) 128 ∧
  (Event.Decision ev = "block"%string → EventRow.Decision (event_row now ev) = "block"%string) ∧
  EventRow.SHA256 (event_row now ev) = (if hashPattern (Event.SHA256 ev) then Event.SHA256 ev else "").
Proof.
  unfold event_row. destruct (event_contract ev) as [[action outcome] decision] eqn:Ec.
  destruct (event_latencies ev). destruct (default _ _) as [fp hn].
  destruct (match Event.AIVerdict ev with Some _ => _ | None => _ end) as [[[? ?] ?] ?]. simpl.
  split_and!; [done| |done]. intros Hd. unfold event_contract in Ec. rewrite Hd in Ec.
  destruct (if _ || _ then _ else _) as [a o]. injection Ec as <- <- <-. apply safe_block.
Qed.

(** The grounds of a block: the selected field of the request's own body is a
    risk rule of the pinned snapshot, or the configured reviewer rejected the
    sample of this field. *)
Definition block_grounds (s : runtimeState.t) (request' : Request.t) (name : string) (field : Field.t)
    (reason : string) : Prop :=
  (reason = ReasonRiskHashMatch ∧
   ∃ m, runtimeState.rules s !! Field.SHA256 field = Some m ∧
        to_lower (trim_space (HashMatch.Kind m)) = "risk"%string) ∨
  (reason = ReasonAIReject ∧
   ∃ rv v t, runtimeState.reviewer s = Some (Some rv) ∧
     ae_review A rv (field_review (runtimeState.engine s) request' name field) = (v, None, t) ∧
     AIVerdict.Result v = VerdictReject ∧ ValidateAIVerdict v = None ∧
     f64_lt (AIVerdict.Confidence v)
       (EngineConfig.RejectConfidenceThreshold (Engine.config (runtimeState.engine s))) = false).

(** C1. The whole audit path, from the request to the database.  A request is
    blocked only for the field that its own body selects: this field's digest
    is a risk rule of the pinned snapshot, or the configured reviewer, asked for
    the sample of this field, answered with a valid reject verdict whose
    confidence is not below the threshold.  When it is blocked, the database
    holds, before the proxy refuses it, one new event with the id the program
    gave the request, the decision and the digest of the field, and one new
    evidence row of that event with the field's name and its text, bounded.  A
    request that is not blocked leaves no new event or evidence row in the
    database; its event waits in the queue. *)
Theorem blocked_request_is_recorded s req body w d w' :
  events_wf (tables (aw_conn w)) →
  adapter_Evaluate A (Some s) None req body w = (d, w') →
  let request := audit_request_of A req body in
  if Decision.Blocked d then
    Decision.Allow d = false ∧
    Decision.RequestID d = eventRequestID (ae_random A) (Get (HttpRequest.header req) "X-Request-Id") ∧
    ∃ request' key name field,
      selection (engine_env A s (aw_conn w)) (runtimeState.engine s) request = Some (request', key, name, field) ∧
      Decision.Field d = name ∧ Decision.Hash d = Field.SHA256 field ∧
      block_grounds s request' name field (Decision.Reason d) ∧
      ∃ id i row ev,
        audit_events (tables (aw_conn w)) !! id = None ∧
        audit_events (tables (aw_conn w')) = <[id := row]> (audit_events (tables (aw_conn w))) ∧
        blocked_evidence (tables (aw_conn w')) = <[i := ev]> (blocked_evidence (tables (aw_conn w))) ∧
        EventRow.RequestID row = safeEventText (Decision.RequestID d) 128 ∧
        EventRow.Decision row = "block"%string ∧
        (hashPattern (Field.SHA256 field) = true → EventRow.SHA256 row = Field.SHA256 field) ∧
        EvidenceRow.EventID ev = id ∧ EvidenceRow.FieldName ev = name ∧
        (EvidenceRow.Content ev, EvidenceRow.Partial ev) = boundedEvidence (Field.Text field) maxEvidenceBytes
  else
    Decision.Allow d = true ∧
    audit_events (tables (aw_conn w')) = audit_events (tables (aw_conn w)) ∧
    blocked_evidence (tables (aw_conn w')) = blocked_evidence (tables (aw_conn w)).
Proof.
  intros Hwf. unfold adapter_Evaluate. cbn [requestState fst].
  set (request := audit_request_of A req body). set (E := engine_env A s (aw_conn w)).
  set (w0 := @Engine.mk_world fixed_window_limiter 0 (Some (aw_limiter w)) []).
  destruct (yields_conj _ _ _ (Evaluate_about E (runtimeState.engine s) request)
              (yields_conj _ _ _ (Evaluate_enforced E (runtimeState.engine s) request)
              (Evaluate_faithful E (runtimeState.engine s) request)) w0)
    as (es & Hlog & Habout & [Hallow Hblocked] & [Heff Hone]).
  destruct (Evaluate E (runtimeState.engine s) request w0) as [r ew]. cbn [fst snd] in *.
  simpl in Hlog. rewrite Hlog. intros [= <- <-]. cbn [Decision.Blocked Decision.Allow Decision.RequestID
    Decision.Hash Decision.Field aw_conn fst snd].
  match goal with
  | |- context [match backfill_kind r with
                | Some kind => (StoreHashContext _ ?io ?t kind ?h ?text ?fp ?hn ?c).2 | None => _ end] =>
      destruct (backfill_events io t (backfill_kind r) h text fp hn c) as [-> ->]
  end.
  destruct (Result.Blocked r) eqn:Hb.
  - destruct (Hblocked eq_refl) as [Hgrounds (ev & Hev & Hsha & _ & Hdec & _)].
    destruct (Habout eq_refl) as (request' & key & name & field & Hsel & Hh & Hn & Hs & Ht & Hq).
    split; [by rewrite Hallow|]. split; [done|]. exists request', key, name, field.
    split; [done|]. split; [done|]. split; [done|]. split.
    + destruct Hgrounds as [(Hr & lookup & m & [= <-] & Hm & Hk & _)|(Hr & review & q & v & t & Hrev & Hin & Hv & _ & Hres & Hval & Hc)].
      * left. split; [done|]. exists m. split; [|done]. unfold snapshot_LookupHash in Hm. rewrite <- Hh. by injection Hm.
      * right. split; [done|]. rewrite (Hq q Hin) in Hv. unfold E, engine_env in Hrev. simpl in Hrev. unfold reviewer_fn in Hrev.
        destruct (runtimeState.reviewer s) as [[rv|]|]; [|by injection Hrev as <-|done].
        injection Hrev as <-. by exists rv, v, t.
    + rewrite (apply_one_block es w _ _ _ _ Hev Hone).
      rewrite Forall_forall in Heff. destruct (Heff _ Hev) as (Hid & _ & rec & [= <-] & Hrec).
      unfold record_blocked in *. destruct (RecordBlockedEvent _ _ _ _ _ _ _) as [[u|e] c'] eqn:Er; [|done].
      apply RecordBlockedEvent_result in Er; [|done]. rewrite Ht in Er.
      destruct (boundedEvidence _ _) as [content partial]. cbn [snd]. destruct Er as (_ & _ & -> & ->).
      destruct (event_row_fields (ae_blocked_now A).1 ev) as (Rid & Rdec & Rsha).
      eexists _, _, _, _. split_and!; [|reflexivity|reflexivity|..|reflexivity|exact Hn|reflexivity].
      * destruct (audit_events _ !! _) eqn:Ea; [|done]. pose proof (ew_ids _ Hwf _ _ Ea). simpl in *. lia.
      * by rewrite Rid, Hid.
      * by apply Rdec.
      * intros Hp. by rewrite Rsha, Hsha, Hh, Hp.
  - split; [by rewrite Hallow|].
    assert (tables (aw_conn (foldl (apply_effect A) w es)) = tables (aw_conn w)) as Hsame; [|by rewrite Hsame].
    destruct (omap block_of es) as [|b bs] eqn:Ebs; [by rewrite apply_quiet|].
    assert (b ∈ omap block_of es) as Hin by (rewrite Ebs; left).
    apply list_elem_of_omap in Hin as (e & Hin & He). destruct e as [| | | | |ev f p saved]; try done.
    rewrite (apply_one_block es w ev f p saved) by (rewrite ?Ebs; done).
    rewrite Forall_forall in Heff. specialize (Heff _ Hin). destruct saved; [destruct Heff as (_ & ? & _); congruence|].
    destruct Heff as (rec & err & [= <-] & Hrec).
    unfold record_blocked in *. destruct (RecordBlockedEvent _ _ _ _ _ _ _) as [[u|e] c'] eqn:Er; [done|].
    by eapply transaction_atomic.
Qed.
End adapter.

(** ** Request ids *)

Section request_id.
Context `{U : Unicode}.

(** Visible ASCII: neither a space nor a control character. *)
Definition visible (c : ascii) : bool := (33 <=? code c)%N && (code c <=? 126)%N.

Lemma visible_not_leading encs c l :
  forallb (λ e, match e with x :: _ => negb (visible x) | [] => false end) encs = true →
  visible c = true → leading_space encs (c :: l) = None.
Proof.
  intros Hencs Hc. unfold leading_space. destruct (List.find _ encs) as [e|] eqn:Ef; [|done].
  apply List.find_some in Ef as [Hin Hp]. rewrite forallb_forall in Hencs. specialize (Hencs e Hin).
  destruct e as [|x e]; [done|]. apply has_prefix_b_spec in Hp as [k [= -> _]]. by rewrite Hc in Hencs.
Qed.

Lemma trim_space_visible s : forallb visible (B s) = true → trim_space s = s.
Proof.
  intros H. unfold trim_space.
  assert (∀ encs l, forallb (λ e, match e with x :: _ => negb (visible x) | [] => false end) encs = true →
    forallb visible l = true → trim_with encs (length l) l = l) as Htrim.
  { intros encs [|c l] Hencs Hl; [done|]. simpl in Hl. apply andb_true_iff in Hl as [Hc _].
    simpl length. cbn [trim_with]. by rewrite visible_not_leading. }
  unfold trim_left. rewrite Htrim by (done || (vm_compute; reflexivity)).
  unfold trim_right. rewrite <-(length_rev (B s)), Htrim; [|vm_compute; reflexivity|].
  - by rewrite rev_involutive, S_B.
  - apply forallb_forall. intros x Hx%in_rev. by apply (proj1 (forallb_forall _ _) H).
Qed.

Lemma visible_clean s n :
  s ≠ ""%string → (slen s ≤ n)%Z → forallb visible (B s) = true → safeEventText s n = s.
Proof.
  intros Hne Hlen H. unfold safeEventText. rewrite trim_space_visible by done.
  assert (Forall (λ c, code c < 128)%N (B s)) as Hascii.
  { apply Forall_forall. intros c Hc%list_elem_of_In. apply (proj1 (forallb_forall _ _) H) in Hc.
    unfold visible in Hc. apply andb_true_iff in Hc as [_ Hc%N.leb_le]. lia. }
  rewrite (proj2 (String.eqb_neq _ _) Hne), (proj2 (Z.ltb_ge _ _) Hlen), ascii_valid by done. simpl.
  assert (forallb no_control (runes (B s)) = true) as ->; [|done].
  revert H Hascii. clear. induction (B s) as [|c l IH]; intros H Hascii; [done|].
  simpl in H. apply andb_true_iff in H as [Hc H]. apply Forall_cons in Hascii as [Hca Hascii].
  rewrite runes_cons, decode_rune_ascii by done. cbn [rsize Nat.pred drop]. simpl. rewrite drop_0, IH by done.
  unfold visible in Hc. apply andb_true_iff in Hc as [H1%N.leb_le H2%N.leb_le].
  unfold no_control. simpl. rewrite (proj2 (N.ltb_ge _ _)), (proj2 (N.eqb_neq _ _)) by lia. done.
Qed.

Lemma id_char_visible c : id_char c = true → visible c = true.
Proof.
  unfold id_char, in_range, visible. intros H.
  apply andb_true_iff. rewrite !N.leb_le. repeat (apply orb_true_iff in H as [H|H]);
    try (apply andb_true_iff in H as [H1%N.leb_le H2%N.leb_le]; vm_compute (code _) in H1 at 1;
         vm_compute (code _) in H2 at 2; lia).
  to_prop. repeat (apply elem_of_cons in H as [->|H]; [by vm_compute|]). by apply not_elem_of_nil in H.
Qed.

Lemma hex_char_id n : (n < 16)%N → id_char (hex_char n) = true.
Proof.
  intros H. assert (forallb (λ k, id_char (hex_char (N.of_nat k))) (seq 0 16) = true) as Hall by (vm_compute; reflexivity).
  rewrite forallb_forall in Hall. specialize (Hall (N.to_nat n)). rewrite N2Nat.id in Hall. apply Hall, in_seq. lia.
Qed.
Lemma hex_encode_id b : forallb id_char (B (hex_encode b)) = true ∧ slen (hex_encode b) = (2 * Z.of_nat (length b))%Z.
Proof.
  unfold slen, hex_encode. rewrite B_S_. induction b as [|c b [IH1 IH2]]; [done|]. simpl.
  pose proof (code_lt c). rewrite !hex_char_id, IH1 by (first [apply N.mod_lt|apply N.Div0.div_lt_upper_bound]; lia).
  split; [done|]. simpl in IH2. lia.
Qed.

Lemma hex_number_id n : forallb id_char (B (hex_number n)) = true ∧ (slen (hex_number n) ≤ 16)%Z.
Proof.
  unfold hex_number, slen. rewrite B_S_.
  assert (∀ fuel n acc, forallb id_char acc = true →
    forallb id_char (hex_digits fuel n acc) = true ∧ length (hex_digits fuel n acc) ≤ fuel + length acc) as H.
  { induction fuel as [|fuel IH]; intros m acc Hacc; [done|]. cbn [hex_digits].
    set (acc' := hex_char _ :: acc).
    assert (forallb id_char acc' = true) as Hacc'.
    { subst acc'. cbn [forallb]. rewrite Hacc, hex_char_id; [done|]. pose proof (Z.mod_pos_bound m 16). lia. }
    assert (length acc' = S (length acc)) as Hl by done. clearbody acc'.
    destruct (m <? 16)%Z; [split; [done|lia]|].
    destruct (IH (m / 16)%Z _ Hacc') as [H1 H2]. split; [done|]. lia. }
  destruct (H 16 n [] eq_refl) as [H1 H2]. split; [done|]. cbn [length] in H2. lia.
Qed.

(** The id a request gets is the same everywhere: whatever the client sends
    as X-Request-ID, the id the program uses has at most 128 characters, only
    letters, digits, dots, dashes, underscores and colons, and the column of the
    event holds exactly that text.  A well-formed id of the client is kept. *)
Theorem event_request_id r value :
  (∀ b, bytes12 r = Some b → length b = 12) →
  let id := eventRequestID r value in
  forallb id_char (B id) = true ∧ (0 < slen id ≤ 128)%Z ∧ safeEventText id 128 = id ∧
  (value ≠ ""%string → (slen value ≤ 128)%Z → forallb id_char (B value) = true → id = value).
Proof.
  intros Hr id.
  assert (forallb id_char (B id) = true ∧ (0 < slen id ≤ 128)%Z) as [Hid Hlen].
  { assert (forallb id_char (B (randomID r)) = true ∧ (0 < slen (randomID r) ≤ 128)%Z) as Hrandom.
    { unfold randomID. destruct (bytes12 r) as [b|].
      - destruct (hex_encode_id b) as [H1 H2]. rewrite H2, (Hr b eq_refl). split; [done|lia].
      - destruct (hex_number_id (unix_nano r)) as [H1 H2], (hex_number_id (counter r)) as [H3 H4].
        rewrite !slen_app, !B_app, !forallb_app, H1, H3. split; [done|].
        pose proof (slen_nonneg (hex_number (unix_nano r))). pose proof (slen_nonneg (hex_number (counter r))).
        change (slen "fallback-") with 9%Z. change (slen "-") with 1%Z. lia. }
    subst id. unfold eventRequestID. destruct (_ || _) eqn:E; [done|].
    destruct (forallb id_char (B (trim_space value))) eqn:Ef; [|done]. to_prop. split; [done|].
    assert (slen (trim_space value) ≠ 0)%Z by (by rewrite slen_zero). pose proof (slen_nonneg (trim_space value)). lia. }
  assert (∀ s, forallb id_char (B s) = true → forallb visible (B s) = true) as Hvis.
  { intros s Hs. apply forallb_forall. intros c Hc. apply id_char_visible.
    by apply (proj1 (forallb_forall _ _) Hs). }
  split; [done|]. split; [done|]. split.
  - apply visible_clean; [|lia|by apply Hvis]. intros Hz. rewrite Hz in Hlen. change (slen "") with 0%Z in Hlen. lia.
  - intros Hne Hl Hv. unfold id, eventRequestID. rewrite trim_space_visible by (by apply Hvis).
    by rewrite (proj2 (String.eqb_neq _ _) Hne), (proj2 (Z.ltb_ge _ _) Hl), Hv.
Qed.
End request_id.

(** ** The background review *)

(** The rows of the two rule tables. *)
Definition rule_rows (d : db) : gmap string HashEntry.t * gmap string HashEntry.t :=
  (trusted_hashes d, risk_hashes d).

Section background.
Context `{U : Unicode, C : Cipher}.
Context (hashPlaintext : string → string) (io : nat → bool) (clk : nat → Time).
Context (format_confidence : float64 → string) (error_text : audit_err → string).

(** A call whose error is looked at, and a reading of the clock, never fail. *)
Lemma attempt_bind {A B} (m : Store A) (f : result store_err A → Store B) c :
  (attempt m ≫= f) c = f (m c).1 (m c).2.
Proof. unfold attempt, mbind, Store_bind. by destruct (m c). Qed.
Lemma time_bind {B} (f : Time → Store B) c : (time_now clk ≫= f) c = f (clk (statements c)) c.
Proof. done. Qed.

Lemma keeps_time P : keeps P (time_now clk).
Proof. by intros c. Qed.
Lemma keeps_unit {A} P (m : Store A) : keeps P (m;; mret ()) → keeps P m.
Proof.
  intros H c Hc. specialize (H c Hc). unfold mbind, Store_bind in H. by destruct (m c) as [[]].
Qed.
Lemma keeps_load P id f : keeps P (load_payload io id f).
Proof.
  unfold load_payload. apply keeps_bind.
  - apply keeps_exec. intros d a d' Hd H. destruct (review_jobs d !! id); [|done]. by injection H as _ <-.
  - intros b ? ? _. destruct (bool_decide _); [apply keeps_ret|]. unfold decrypt.
    destruct (StoreJobs.unseal b); by intros c0.
Qed.

Definition promotes (o : job_op) : bool :=
  match o with JPromote _ _ _ _ _ _ _ _ => true | _ => false end.

(** What the operations on jobs other than a promotion keep. *)
Definition job_invariant (P : db → Prop) : Prop :=
  ∀ o, promotes o = false → keeps P (run_job_op hashPlaintext io o).
(** From [c] to [c'] without a promotion. *)
Definition unpromoted (c c' : conn) : Prop :=
  ∀ P, job_invariant P → P (tables c) → P (tables c').

Lemma unpromoted_refl c : unpromoted c c.
Proof. by intros P. Qed.
Lemma unpromoted_trans c1 c2 c3 : unpromoted c1 c2 → unpromoted c2 c3 → unpromoted c1 c3.
Proof. intros H1 H2 P HP Hc. by apply H2, H1. Qed.
Lemma unpromoted_keeps {A} (m : Store A) c : (∀ P, job_invariant P → keeps P m) → unpromoted c (m c).2.
Proof. intros H P HP Hc. by apply H. Qed.
Lemma unpromoted_tables c c' : tables c' = tables c → unpromoted c c'.
Proof. intros Ht P _. by rewrite Ht. Qed.

Section keeps.
Context (P : db → Prop) (HP : job_invariant P).

Lemma record_votes_keeps id votes : keeps P (record_votes io clk error_text id votes).
Proof.
  induction votes as [|v votes IH]; [apply keeps_ret|]. simpl.
  apply keeps_bind; [apply keeps_time|intros t ? ? _].
  apply keeps_bind; [|intros ? ? ? _; apply IH]. apply keeps_attempt.
  exact (HP (JVote t (vote_row error_text id v)) eq_refl).
Qed.
Lemma recovered_job_keeps record job : keeps P (recovered_job hashPlaintext io record job).
Proof.
  unfold recovered_job. do 2 (apply keeps_bind; [apply keeps_attempt, keeps_load|intros ? ? ? _]).
  apply keeps_ret.
Qed.
Lemma complete_keeps id status kind : keeps P (complete io clk id status kind).
Proof.
  unfold complete. apply keeps_bind; [apply keeps_time|intros t ? ? _].
  apply keeps_bind; [|intros ? ? ? _; apply keeps_ret]. apply keeps_attempt.
  exact (HP (JComplete t id status kind) eq_refl).
Qed.
Lemma claim_keeps t id : keeps P (ClaimReviewJob io t id).
Proof. apply keeps_unit. exact (HP (JClaim t id) eq_refl). Qed.
Lemma create_keeps t key sha field model review rule sampled fp hn :
  keeps P (CreateReviewJob hashPlaintext io t key sha field model review rule sampled fp hn).
Proof. apply keeps_unit. exact (HP (JCreate t key sha field model review rule sampled fp hn) eq_refl). Qed.
Lemma retry_keeps t id err delay : keeps P (ScheduleReviewRetry io t id err delay).
Proof. exact (HP (JRetry t id err delay) eq_refl). Qed.
End keeps.

Lemma finish c id status kind (o : option string) :
  ∃ c', (complete io clk id status kind;; mret o) c = (Ok o, c') ∧ unpromoted c c'.
Proof.
  exists (complete io clk id status kind c).2. split.
  - unfold complete, mbind, Store_bind, attempt, time_now. by destruct (CompleteReviewJob _ _ _ _ _ _).
  - apply unpromoted_keeps. intros P HP. by apply complete_keeps.
Qed.

(** A run of [PromoteHash] that succeeded, with what the program did before
    and after it. *)
Definition promoted_between (sha kind : string) (c c' : conn) : Prop :=
  ∃ c1 c2 t id content summary fp hn, unpromoted c c1 ∧
    PromoteHash hashPlaintext io t id sha kind content summary fp hn c1 = (Ok (), c2) ∧ unpromoted c2 c'.

Lemma conclude_cases record job votes c :
  ∃ o c', conclude hashPlaintext io clk format_confidence record job votes c = (Ok o, c') ∧
    match o with
    | None => unpromoted c c'
    | Some kind => promotion votes = Some kind ∧ promoted_between (asyncReviewJob.Hash job) kind c c'
    end.
Proof.
  unfold conclude, promotion. destruct (_ && _); [|destruct (_ <? 3)%Z]; rewrite ?time_bind, ?attempt_bind.
  - destruct (PromoteHash _ _ _ _ _ _ _ _ _ _ _) as [[[]|e] c1] eqn:E; cbn [fst snd].
    + destruct (finish c1 (ReviewJob.ID record) "promoted" (QuorumResult.Kind votes)
                  (Some (QuorumResult.Kind votes))) as (c2 & -> & H).
      eexists _, c2. split; [done|]. split; [done|]. exists c, c1. repeat eexists; [|exact E|exact H].
      apply unpromoted_refl.
    + destruct (finish c1 (ReviewJob.ID record) "failed" "" None) as (c2 & -> & H).
      exists None, c2. split; [done|]. apply PromoteHash_outcome in E.
      eapply unpromoted_trans; [by apply unpromoted_tables|exact H].
  - eexists None, _. split; [done|]. apply unpromoted_keeps. intros P HP. by apply retry_keeps.
  - destruct (finish c (ReviewJob.ID record) "completed_no_quorum" "" None) as (c2 & -> & H).
    by exists None, c2.
Qed.

Lemma record_votes_runs id votes c :
  ∃ c', record_votes io clk error_text id votes c = (Ok (), c') ∧ unpromoted c c'.
Proof.
  exists (record_votes io clk error_text id votes c).2. split.
  - revert c. induction votes as [|v votes IH]; intros c; [done|]. cbn [record_votes].
    rewrite time_bind, attempt_bind. apply IH.
  - apply unpromoted_keeps. intros P HP. by apply record_votes_keeps.
Qed.

(** The text under review: the one at hand, or the stored sample of the job
    with the same key. *)
Definition reviewed_text (job : asyncReviewJob.t) (d : db) (content : string) : Prop :=
  content = asyncReviewJob.Content job ∨
  ∃ id row p, review_jobs d !! id = Some row ∧ ReviewJob.JobKey row = trim_space (asyncReviewJob.Hash job) ∧
    ReviewJob.SampleCiphertext row ≠ [] ∧ StoreJobs.unseal (ReviewJob.SampleCiphertext row) = Some p ∧
    content = S_ p.

(** What the nodes are asked about a job. *)
Definition job_request (job : asyncReviewJob.t) (content : string) : AIReviewRequest.t :=
  AIReviewRequest.mk (asyncReviewJob.Field job) content (asyncReviewJob.Sampled job)
    (asyncReviewJob.Model job) (EngineConfig.ReviewCriteria DefaultEngineConfig) "" "".

Lemma recovered_job_runs record job c :
  ∃ job' c', recovered_job hashPlaintext io record job c = (Ok job', c') ∧ unpromoted c c' ∧
    asyncReviewJob.Hash job' = asyncReviewJob.Hash job ∧
    review_request job' = job_request job (asyncReviewJob.Content job') ∧
    asyncReviewJob.Content job' =
      loaded (LoadReviewJobSample io (ReviewJob.ID record) c).1 (asyncReviewJob.Content job).
Proof.
  assert (unpromoted c (recovered_job hashPlaintext io record job c).2) as Hu.
  { apply unpromoted_keeps. intros P HP. by apply recovered_job_keeps. }
  revert Hu. unfold recovered_job. rewrite !attempt_bind. intros Hu. by eexists _, _.
Qed.

(** The stored sample of a digest that was seen before. *)
Lemma recovered_text `{!CipherLaws} t model rule sampled fp hn job c record c1 :
  jobs_wf (tables c) →
  CreateReviewJob hashPlaintext io t (asyncReviewJob.Hash job) (asyncReviewJob.Hash job) (asyncReviewJob.Field job)
    model (asyncReviewJob.Content job) rule sampled fp hn c = (Ok (record, false), c1) →
  reviewed_text job (tables c)
    (loaded (LoadReviewJobSample io (ReviewJob.ID record) c1).1 (asyncReviewJob.Content job)).
Proof.
  intros Hwf Hc. apply create_existing in Hc as (_ & Hrec & row & Hrow & Hk & Hs); [|done].
  destruct (LoadReviewJobSample io (ReviewJob.ID record) c1) as [[s|e] c2] eqn:E; [|by left]. simpl.
  destruct (String.eqb_spec s ""); [by left|].
  destruct (load_payload_inv _ _ _ _ _ _ _ E Hrec) as [[_ ->]|(Hne & p & Hp & ->)]; [done|].
  destruct Hs as [Hs|[_ [[_ Hs]|[n' Hs]]]]; [|done|].
  - right. rewrite Hs in Hne, Hp. by exists (ReviewJob.ID record), row, p.
  - left. rewrite Hs, unseal_seal in Hp. injection Hp as <-. apply string_of_list_ascii_of_string.
Qed.

Lemma process_cases nodes schedule job c :
  ∃ o c', process hashPlaintext io clk format_confidence error_text nodes schedule job c = (Ok o, c') ∧
    match o with
    | None => unpromoted c c'
    | Some kind =>
        promoted_between (asyncReviewJob.Hash job) kind c c' ∧ length nodes = 3 ∧ ∃ content,
        (CipherLaws → jobs_wf (tables c) → reviewed_text job (tables c) content) ∧
        promotion (ReviewAsyncQuorum
          (arrivals_of schedule.1 (map (node_vote (job_request job content)) nodes)) schedule.2
          DefaultRejectConfidence) = Some kind
    end.
Proof.
  unfold process. destruct (Nat.eqb_spec (length nodes) 3) as [Hn|]; [|exists None, c; split; [done|apply unpromoted_refl]].
  cbn [negb]. rewrite time_bind, attempt_bind.
  set (mk := CreateReviewJob _ _ _ _ _ _ _ _ _ _ _ _).
  assert (unpromoted c (mk c).2) as H1 by (apply unpromoted_keeps; intros P HP; by apply create_keeps).
  assert (∀ record c1, mk c = (Ok (record, false), c1) → CipherLaws → jobs_wf (tables c) → reviewed_text job (tables c)
    (loaded (LoadReviewJobSample io (ReviewJob.ID record) c1).1 (asyncReviewJob.Content job))) as Hrec.
  { intros record c1 Hmk ? Hwf. by eapply recovered_text. }
  clearbody mk. destruct (mk c) as [[[record created]|e] c1]; cbn [fst snd] in *; [|by exists None, c1].
  destruct (_ && _); [by exists None, c1|].
  assert (∃ job' c2, (if created then mret job else recovered_job hashPlaintext io record job) c1 = (Ok job', c2) ∧
            unpromoted c1 c2 ∧ asyncReviewJob.Hash job' = asyncReviewJob.Hash job ∧
            ∃ content, (CipherLaws → jobs_wf (tables c) → reviewed_text job (tables c) content) ∧ review_request job' = job_request job content)
    as (job' & c2 & E2 & H2 & Hh & content & Ht & Hq).
  { destruct created; [exists job, c1; split_and!; [done|apply unpromoted_refl|done|]|].
    - exists (asyncReviewJob.Content job). split; [intros _ _; by left|done].
    - destruct (recovered_job_runs record job c1) as (job' & c2 & ? & ? & ? & ? & Hcontent).
      exists job', c2. split_and!; try done. exists (asyncReviewJob.Content job'). split; [|done].
      rewrite Hcontent. by apply Hrec. }
  unfold mbind at 1, Store_bind at 1. rewrite E2, time_bind, attempt_bind.
  set (claim := ClaimReviewJob io _ _).
  assert (unpromoted c2 (claim c2).2) as H3 by (apply unpromoted_keeps; intros P HP; by apply claim_keeps).
  pose proof (unpromoted_trans _ _ _ H1 (unpromoted_trans _ _ _ H2 H3)) as H123. clearbody claim.
  destruct (claim c2) as [[[]|e] c3]; cbn [fst snd] in *; [|by exists None, c3..].
  rewrite Hq. destruct schedule as [places ready]. cbn [fst snd]. set (votes := ReviewAsyncQuorum _ _ _).
  destruct (record_votes_runs (ReviewJob.ID record) (QuorumResult.Votes votes) c3) as (c4 & E4 & H4).
  unfold mbind at 1, Store_bind at 1. rewrite E4.
  destruct (conclude_cases record job' votes c4) as (o & c5 & -> & H5). exists o, c5. split; [done|].
  destruct o as [kind|]; [|exact (unpromoted_trans _ _ _ H123 (unpromoted_trans _ _ _ H4 H5))].
  destruct H5 as [Hv (c6 & c7 & t & id & summary_content & summary & fp & hn & H6 & H7 & H8)]. rewrite Hh in H7.
  split; [|split; [done|by exists content]].
  exists c6, c7, t, id, summary_content, summary, fp, hn. split; [|done].
  exact (unpromoted_trans _ _ _ H123 (unpromoted_trans _ _ _ H4 H6)).
Qed.
End background.

Section promotions.
Context `{U : Unicode, C : Cipher}.
Context (hashPlaintext : string → string) (io : nat → bool) (clk : nat → Time).
Context (format_confidence : float64 → string) (error_text : audit_err → string).

(** A statement that touches neither rule table. *)
Lemma keeps_rows {A} R (f : db → result store_err (A * db)) :
  (∀ d a d', f d = Ok (a, d') → rule_rows d' = rule_rows d) → keeps (λ d, rule_rows d = R) (exec io f).
Proof. intros H. apply keeps_exec. intros d a d' Hd Hf. by rewrite (H d a d' Hf). Qed.

Lemma update_jobs_rows p f d a d' : update_jobs p f d = Ok (a, d') → rule_rows d' = rule_rows d.
Proof. by intros [= _ <-]. Qed.
Lemma insert_promotion_rows jobID sha kind summary now d a d' :
  insert_promotion jobID sha kind summary now d = Ok (a, d') → rule_rows d' = rule_rows d.
Proof.
  unfold insert_promotion. destruct (review_jobs d !! jobID); [|done].
  by destruct (rule_promotions d !! (jobID, kind)); intros [= _ <-].
Qed.

Lemma rows_job_invariant R : job_invariant hashPlaintext io (λ d, rule_rows d = R).
Proof.
  intros [] Ho; try done; simpl.
  - unfold CreateReviewJob. repeat keeps_step; try apply keeps_encrypt_payload;
      try apply keeps_guard; try apply select_job_keeps; apply keeps_rows.
    + intros d x d' Hi. unfold insert_job, take_id in Hi. destruct (job_by_key _ d); by injection Hi as _ <-.
    + intros d x d'. apply update_jobs_rows.
  - unfold ClaimReviewJob. repeat keeps_step. apply keeps_rows, update_jobs_rows.
  - unfold ScheduleReviewRetry. repeat keeps_step. apply keeps_rows, update_jobs_rows.
  - unfold RequeueStaleReviewJobs. repeat keeps_step; apply keeps_rows, update_jobs_rows.
  - unfold RecordReviewVote. repeat keeps_step. apply keeps_rows. intros d x d' Hv.
    destruct (review_jobs d !! _); [|done]. by injection Hv as _ <-.
  - unfold CompleteReviewJob. repeat keeps_step. apply keeps_rows, update_jobs_rows.
Qed.

Lemma rules_wf_rows d d' : rule_rows d' = rule_rows d → rules_wf hashPlaintext d → rules_wf hashPlaintext d'.
Proof. unfold rules_wf, rule_rows. by intros [= -> ->]. Qed.

Lemma kind_cases kind : kind_ok kind = true → kind = "trusted"%string ∨ kind = "risk"%string.
Proof. unfold kind_ok. intros [H%String.eqb_eq|H%String.eqb_eq]%orb_true_iff; auto. Qed.

(** What changes when a promotion succeeds: one row of one table. *)
Lemma upsert_others kind h label content source fp hn seen now d a d' kind' h' :
  upsert_hash kind h label content source fp hn seen now d = Ok (a, d') →
  (kind_ok kind' = true ∧ kind_ok kind = true ∧ (kind', h') ≠ (kind, h)) →
  table kind' d' !! h' = table kind' d !! h'.
Proof.
  unfold upsert_hash, take_id. intros [= _ <-] ([->| ->]%kind_cases & [->| ->]%kind_cases & Hne);
    unfold table, set_table; simpl; destruct (_ !! h); simpl; try done; rewrite lookup_insert_ne; congruence.
Qed.

Lemma PromoteHash_change now id sha kind content summary fp hn c c' :
  PromoteHash hashPlaintext io now id sha kind content summary fp hn c = (Ok (), c') →
  kind_ok kind = true ∧
  (∃ e, table kind (tables c') !! to_lower sha = Some e ∧ HashEntry.Enabled e = true ∧
     hashPlaintext (HashEntry.Content e) = to_lower sha) ∧
  (∀ kind' h, kind_ok kind' = true → (kind', h) ≠ (kind, to_lower sha) →
     table kind' (tables c') !! h = table kind' (tables c) !! h).
Proof.
  intros (fp' & hn' & seen & c0 & c1 & Hk & _ & Hne & Hco & Hc0 & Hb & ->)%PromoteHash_outcome.
  apply content_ok_cases in Hco as [|Hhash]; [done|]. rewrite <- Hc0.
  apply bind_inv in Hb as (? & c2 & H2%exec_inv & Hb). apply bind_inv in Hb as (? & c3 & H3%exec_inv & Hb).
  apply bind_inv in Hb as (? & c4 & H4%exec_inv & [= <-]).
  apply insert_promotion_rows in H3. apply update_jobs_rows in H4. rewrite <- H4 in H3. clear H4.
  assert (∀ k, table k (tables c4) = table k (tables c2)) as Ht.
  { intros k. unfold table. injection H3 as -> ->. done. }
  split; [done|]. split.
  - rewrite Ht. apply upsert_result in H2 as (e & He & Hen & Hcont); [|done]. exists e.
    split_and!; [done|done|congruence].
  - intros kind' h Hk' Hneq. rewrite Ht. by eapply upsert_others.
Qed.

Lemma promote_keeps_rules now id sha kind content summary fp hn :
  keeps (rules_wf hashPlaintext) (PromoteHash hashPlaintext io now id sha kind content summary fp hn).
Proof.
  unfold PromoteHash. do 4 keeps_step. apply keeps_trace. intros fp' hn' Ht. apply keeps_transaction.
  unfold promote_body. repeat keeps_step; apply keeps_exec; intros d x d' Hd.
  - apply upsert_wf; [by apply to_lower_idem, hex_ascii|by apply content_ok_cases|by apply seen_empty|done].
  - intros Hx. by eapply rules_wf_rows; [eapply insert_promotion_rows|].
  - intros Hx. by eapply rules_wf_rows; [eapply update_jobs_rows|].
Qed.

(** C3. The background review changes the rules only by a quorum of the nodes
    on the job's own text.  Once the votes are in, processing a queued job
    answers (waiting for the nodes is not part of the model).  Without a
    promotion both rule libraries are what they were.  With one there are
    exactly three nodes; all were asked about the job's field, model and
    criteria with its text, the queued one or the stored sample of the same
    digest; at least two of them answered without error, with a confidence not
    below 0.95, reject for a risk rule and pass for a trusted one; the votes in
    the order of their arrival have the quorum for that kind without a conflict;
    the row of the job's digest is an enabled rule whose text has this digest;
    and no other row of either library has changed.  The tables stay well
    formed. *)
Theorem process_promotes_on_quorum `{!CipherLaws} nodes schedule job c :
  jobs_wf (tables c) → rules_wf hashPlaintext (tables c) →
  ∃ o c', process hashPlaintext io clk format_confidence error_text nodes schedule job c = (Ok o, c') ∧
    jobs_wf (tables c') ∧ rules_wf hashPlaintext (tables c') ∧
    match o with
    | None => rule_rows (tables c') = rule_rows (tables c)
    | Some kind =>
        let sha := to_lower (asyncReviewJob.Hash job) in
        length nodes = 3 ∧ kind_ok kind = true ∧
        (∃ content, reviewed_text job (tables c) content ∧
           let votes := map (node_vote (job_request job content)) nodes in
           2 ≤ countb (backs DefaultRejectConfidence (verdict_of kind)) votes ∧
           promotion (ReviewAsyncQuorum (arrivals_of schedule.1 votes) schedule.2 DefaultRejectConfidence)
           = Some kind) ∧
        (∃ e, table kind (tables c') !! sha = Some e ∧ HashEntry.Enabled e = true ∧
           hashPlaintext (HashEntry.Content e) = sha) ∧
        (∀ kind' h, kind_ok kind' = true → (kind', h) ≠ (kind, sha) →
           table kind' (tables c') !! h = table kind' (tables c) !! h)
    end.
Proof.
  intros Hj Hr. destruct (process_cases hashPlaintext io clk format_confidence error_text nodes schedule job c)
    as (o & c' & E & Ho). exists o, c'. split; [done|].
  assert (∀ a b, unpromoted hashPlaintext io a b → jobs_wf (tables a) → jobs_wf (tables b)) as Uj.
  { intros a b Hab. apply Hab. intros op _. apply run_job_op_wf. }
  assert (∀ a b, unpromoted hashPlaintext io a b → rule_rows (tables b) = rule_rows (tables a)) as Ur.
  { intros a b Hab. by apply (Hab _ (rows_job_invariant (rule_rows (tables a)))). }
  destruct o as [kind|].
  - destruct Ho as [(c1 & c2 & t & id & content & summary & fp & hn & H1 & Hp & H2) (Hn & text & Htext & Hv)].
    pose proof (Ur _ _ H1) as R1. pose proof (Ur _ _ H2) as R2.
    pose proof (run_job_op_wf hashPlaintext io (JPromote t id (asyncReviewJob.Hash job) kind content summary fp hn) c1
                  (Uj _ _ H1 Hj)) as Hj2. simpl in Hj2. rewrite Hp in Hj2.
    pose proof (promote_keeps_rules t id (asyncReviewJob.Hash job) kind content summary fp hn c1
                  (rules_wf_rows _ _ R1 Hr)) as Hr2. rewrite Hp in Hr2.
    apply PromoteHash_change in Hp as (Hk & He & Ho).
    assert (∀ k, table k (tables c1) = table k (tables c)) as T1 by (intros k; unfold table; injection R1 as -> ->; done).
    assert (∀ k, table k (tables c') = table k (tables c2)) as T2 by (intros k; unfold table; injection R2 as -> ->; done).
    split; [by apply (Uj _ _ H2)|]. split; [by apply (rules_wf_rows _ _ R2)|]. rewrite T2.
    split_and!; try done; [|intros kind' h Hk' Hne; rewrite T2, <- T1; by apply Ho].
    exists text. split; [by apply Htext|]. split; [|done]. pose proof (promotion_backed _ _ _ _ Hv) as Hb.
    by rewrite (countb_Permutation _ _ _ (arrivals_of_Permutation _ _)) in Hb.
  - split; [by apply (Uj _ _ Ho)|]. split; [by apply (rules_wf_rows _ _ (Ur _ _ Ho))|by apply Ur].
Qed.
End promotions.

(** ** Witnesses *)

Section runtime_witnesses.

Definition all_io (n : nat) : bool := true.
(** A library with the digest of "attack" in both tables: risk wins. *)
Definition two_rules : conn :=
  run_ops demo_hash all_io [demo_add "trusted" "t" "attack"; demo_add "risk" "r" "attack"] demo_conn.
Definition attack_sha : string := demo_hash "attack".

Lemma empty_rules_wf hash : rules_wf hash (tables demo_conn).
Proof. split; apply map_Forall_empty. Qed.
Lemma two_rules_wf : rules_wf demo_hash (tables two_rules).
Proof.
  unfold two_rules. cbn [run_ops]. apply run_op_keeps, run_op_keeps, empty_rules_wf.
Qed.

Lemma snapshot_refines_lookup_witness :
  ∃ rules, (loadRules all_io two_rules).1 = Ok rules ∧
    rules !! attack_sha = Some (HashMatch.mk 2 attack_sha "risk" "r").
Proof.
  destruct (loadRules all_io two_rules) as [[rules|e] c'] eqn:E.
  - pose proof (snapshot_refines_lookup demo_hash all_io two_rules c' rules attack_sha two_rules two_rules_wf E
                  ltac:(vm_compute; reflexivity) eq_refl (λ _, eq_refl)) as H.
    assert ((LookupHash all_io attack_sha two_rules).1 =
      Ok (Some (HashMatch.mk 2 attack_sha "risk" "r"))) as Hl by (vm_compute; reflexivity).
    rewrite H in Hl. injection Hl as Hl. exists rules. split; [reflexivity|exact Hl].
  - assert (is_ok (loadRules all_io two_rules).1 = true) as Hok by (vm_compute; reflexivity).
    rewrite E in Hok. discriminate Hok.
Defined.

#[local] Instance demo_net : NetLib := {
  IP := string; ParseIP := λ s, if (s =? "")%string then None else Some s; IP_String := λ s, s;
  url_Parse := λ s, Some (mk_parsed_url s s "" false ""); gzip_NewReader := λ b, Some (bytes_reader b, false);
}.
#[local] Instance demo_cidr : CIDRLib := { CIDR := string; ParseCIDR := Some; Contains := String.eqb }.

Definition demo_adapter : adapter_env :=
  mk_adapter_env all_io (λ n, Z.of_nat n * second)%Z 0 (0, 0)%Z (λ _, None) demo_hash (λ s, s)
    (mk_random None 1 2) ["10.0.0.1"%string] (λ _ _, (AIVerdict.zero, Some ErrAIUnavailable, 0%Z)) (λ _, false)
    (λ _ _, None).
Definition demo_state : option (runtimeState.t (R := literal_regexp)) :=
  match demo_engine with
  | Ok e => Some (runtimeState.mk literal_regexp e {["/v1/responses"%string]}
                    {[attack_sha := HashMatch.mk 1 attack_sha "risk" "r"]} [] 64 true None)
  | Err _ => None
  end.
Definition demo_post (key : string) : HttpRequest.t :=
  HttpRequest.mk "POST" (URL.mk "http" "guard" "/v1/responses" "") "guard" "9.9.9.9:1" false
    (list_to_map [("X-Request-Id", [key]); ("User-Agent", ["codex_cli_rs/1"])]%string) None ∅.
Definition demo_body : bytes := json_text "{'instructions':'attack'}".
Definition demo_world : adapter_world :=
  mk_adapter_world demo_conn (mk_event_queue [] 0 0) [] (NewFixedWindowLimiter 10 second).

(** A reload that removes the state does not touch the request. *)
Lemma request_state_pinned_witness :
  (ShouldAudit (R := literal_regexp) demo_state None (demo_post "id-1")).1 = true ∧
  Decision.Blocked (adapter_Evaluate (R := literal_regexp) demo_adapter None demo_state (demo_post "id-1") demo_body
                      demo_world).1 = true.
Proof.
  assert (ShouldAudit (R := literal_regexp) demo_state None (demo_post "id-1") = (true, demo_state)) as H
    by (vm_compute; reflexivity).
  destruct (request_state_pinned (R := literal_regexp) demo_adapter demo_state None None (demo_post "id-1") demo_body
              demo_world demo_state H) as (_ & _ & E).
  split; [rewrite H; reflexivity|]. rewrite E. vm_compute. reflexivity.
Defined.

Lemma demo_world_wf : events_wf (tables (aw_conn demo_world)).
Proof. split; try apply map_Forall_empty. intros i1 i2 r1 r2 H. discriminate H. Qed.

Lemma blocked_request_is_recorded_witness :
  ∃ s id row ev, demo_state = Some s ∧
    let w' := (adapter_Evaluate (R := literal_regexp) demo_adapter (Some s) None (demo_post "id-1") demo_body
                 demo_world).2 in
    audit_events (tables (aw_conn w')) = <[id := row]> ∅ ∧ EventRow.RequestID row = "id-1"%string ∧
    EvidenceRow.EventID ev = id.
Proof.
  destruct demo_state as [s|] eqn:Es; [|vm_compute in Es; discriminate Es].
  set (out := adapter_Evaluate (R := literal_regexp) demo_adapter (Some s) None (demo_post "id-1") demo_body demo_world).
  pose proof (blocked_request_is_recorded (R := literal_regexp) demo_adapter s (demo_post "id-1") demo_body demo_world
                out.1 out.2 demo_world_wf (surjective_pairing out)) as H.
  assert (Decision.Blocked out.1 = true ∧ safeEventText (Decision.RequestID out.1) 128 = "id-1"%string) as [Hb Hid].
  { subst out. rewrite <- Es. split; vm_compute; reflexivity. }
  cbv zeta in H. rewrite Hb, Hid in H.
  destruct H as (_ & _ & ? & ? & ? & ? & _ & _ & _ & _ & id & i & row & ev & _ & He & _ & Hr & _ & _ & Hev & _).
  exists s, id, row, ev. split; [reflexivity|]. split; [exact He|]. split; [exact Hr|exact Hev].
Defined.

(** Without random bytes the id comes from the clock and the counter. *)
Lemma event_request_id_witness :
  let id := eventRequestID (mk_random None 255 1) "two words" in
  id = "fallback-ff-1"%string ∧ safeEventText id 128 = id.
Proof.
  intros id. split; [vm_compute; reflexivity|].
  exact (proj1 (proj2 (proj2 (event_request_id (mk_random None 255 1) "two words"
    (λ b (Hb : None = Some b), ltac:(discriminate Hb)))))).
Defined.

#[local] Instance demo_cipher : Cipher := {
  seal := λ _ p, "x"%char :: p; unseal := λ b, match b with [] => None | _ :: p => Some p end }.
(** Two nodes reject with full confidence, the third fails. *)
Definition demo_nodes : list AsyncNodeReviewer.t :=
  [node_of "async_1" VerdictReject; AsyncNodeReviewer.mk "async_2" None; node_of "async_3" VerdictReject].
#[local] Instance demo_cipher_laws : CipherLaws.
Proof. by split. Qed.
Definition demo_job : asyncReviewJob.t :=
  asyncReviewJob.mk attack_sha "instructions" "attack" "attack" false "m" "" "".

Lemma process_promotes_on_quorum_witness :
  ∃ c', process demo_hash all_io (λ _, 0%Z) (λ _, "1.000"%string) (λ _, ""%string) demo_nodes ([2; 1], 1) demo_job demo_conn =
          (Ok (Some "risk"%string), c') ∧
    ∃ e, risk_hashes (tables c') !! attack_sha = Some e ∧ HashEntry.Enabled e = true.
Proof.
  destruct (process_promotes_on_quorum demo_hash all_io (λ _, 0%Z) (λ _, "1.000"%string) (λ _, ""%string) demo_nodes
              ([2; 1], 1) demo_job demo_conn demo_jobs_wf (empty_rules_wf demo_hash)) as (o & c' & E & _ & _ & H).
  assert ((process demo_hash all_io (λ _, 0%Z) (λ _, "1.000"%string) (λ _, ""%string) demo_nodes ([2; 1], 1) demo_job
             demo_conn).1 = Ok (Some "risk"%string)) as Hr by (vm_compute; reflexivity).
  rewrite E in Hr. injection Hr as ->. exists c'. split; [exact E|].
  destruct H as (_ & _ & _ & (e & He & Hen & _) & _). exists e. split; [exact He|exact Hen].
Defined.
End runtime_witnesses.
