(* ===== verification/Admin.v ===== *)
(** * The administration server ([internal/admin/server.go])

    Every request passes [securityHeaders] and the router; everything under
    [/api/v1/] but the login needs a session and, when it changes something, the
    CSRF token.  A handler works on the [world]: the connection to the store,
    the login limiter and the runtime that [OnReload] replaces.  The files of
    the user interface are the handler [serve_files].

    What the request says in cookies, query and JSON is the interface
    [AdminRequest], general RFC 3339 times the interface [TimeLib]; the updater
    behind its socket is an argument. *)

From S2P Require Export Runtime StoreOverview.

Definition sessionCookie : string := "ncg_session".
Definition csrfCookie : string := "ncg_csrf".

(** ** Inputs *)

Module asyncNodeInput.
Record t : Type := mk {
  Slot : string; Name : string; BaseURL : string; Model : string; APIKey : string; TimeoutMS : Z; Enabled : bool;
}.
End asyncNodeInput.
Module aiInput.
Record t : Type := mk {
  BaseURL : string; Model : string; APIKey : string; HasAPIKey : bool; TimeoutMS : Z; MaxConcurrency : Z;
}.
End aiInput.
Module hashInput.
Record t : Type := mk { SHA256 : string; Label : string; Content : string; APIKeyFingerprint : string; APIKeyHint : string }.
End hashInput.
Module hashEdit.
Record t : Type := mk { Label : string; Enabled : bool; Content : option string }.
End hashEdit.

(** Package json: [decode_...] is the first [Decode] of a body into the struct
    of a handler, with unknown fields disallowed ([None] is an error), and
    [json_single] says that a body holds nothing after its first value. *)
Class AdminRequest := {
  request_Cookie : HttpRequest.t → string → option string;
  query_Get : HttpRequest.t → string → string;
  request_body : HttpRequest.t → bytes;
  json_single : bytes → bool;
  decode_login : bytes → option (string * string);
  decode_config : bytes → option (Config.t * option Z);       (** with [expected_version] *)
  decode_ai : bytes → option aiInput.t;
  decode_node : bytes → option asyncNodeInput.t;
  decode_nodes : bytes → option (list asyncNodeInput.t);
  decode_hash : bytes → option hashInput.t;
  decode_hash_edit : bytes → option hashEdit.t;
  decode_profile : bytes → option ProfileRow.t;
  decode_cleanup : bytes → option (string * string);          (** scope, before *)
  decode_version : bytes → option string;
}.
Class TimeLib := { parse_RFC3339 : string → option Time }.

(** ** Answers *)

(** A value of the updater's JSON object. *)
Inductive jvalue : Type := JText (s : string) | JBool (b : bool) | JOther (raw : string).

Inductive payload : Type :=
| PNone
| PError (code message : string)
| PStatus (status : string)
| PLogin (username expires_at : string)
| PUsername (username : string)
| POverview (counts : Overview.t) (enabled : bool) (uptime_seconds : Z) (ai_configured : bool) (ai_model : string)
    (recent : list StoredEvent.t)
| PConfig (c : Config.t)
| PFullConfig (c : Config.t) (e : AIEndpoint.t) (nodes : list AINode.t)
| PEndpoint (e : AIEndpoint.t)
| PNodes (nodes : list AINode.t)
| PTest (ok : bool) (latency_ms : option Z) (message : string)
| PJobs (items : list ReviewJob.t)
| PVotes (items : list ReviewVote.t)
| PRules (items : list (HashEntry.t * bool))
| PRule (item : HashEntry.t)
| PProfiles (items : list ProfileRow.t)
| PProfile (item : ProfileRow.t)
| PEvents (items : list StoredEvent.t) (total : nat) (page page_size : Z)
| PDeleted (r : EventDeleteResult.t)
| PEvidence (e : EvidenceRow.t)
| PEvent (e : StoredEvent.t)
| PUpdater (fields : gmap string jvalue)
| PFiles.

Module SetCookie.
Record t : Type := mk {
  Name : string; Value : string; HttpOnly : bool; Secure : bool; MaxAge : Z;
}.
End SetCookie.

(** A status of 0 stands for a handler that panics. *)
Module Response.
Record t : Type := mk {
  status : Z; headers : list (string * string); cookies : list SetCookie.t; body : payload;
}.
End Response.

Definition writeJSON (status : Z) (p : payload) : Response.t :=
  Response.mk status [("Content-Type", "application/json; charset=utf-8")%string] [] p.
(** [w.WriteHeader] without a body. *)
Definition writeHeader (status : Z) : Response.t := Response.mk status [] [] PNone.
Definition writeError (status : Z) (code message : string) : Response.t := writeJSON status (PError code message).
Definition with_cookies (cs : list SetCookie.t) (r : Response.t) : Response.t :=
  Response.mk (Response.status r) (Response.headers r) (cs ++ Response.cookies r) (Response.body r).
Definition with_headers (hs : list (string * string)) (r : Response.t) : Response.t :=
  Response.mk (Response.status r) (hs ++ Response.headers r) (Response.cookies r) (Response.body r).

Definition clearCookies (secure : bool) : list SetCookie.t :=
  map (λ name, SetCookie.mk name "" (name =? sessionCookie)%string secure (-1)) [sessionCookie; csrfCookie].

(** ** The login limiter *)

(** The times of the failed logins by address. *)
Abbreviation loginLimiter := (gmap string (list Time)) (only parsing).

Definition limiter_allow (ip : string) (now : Time) (l : loginLimiter) : bool * loginLimiter :=
  let recent := List.filter (λ v, now - minute <? v)%Z (default [] (l !! ip)) in
  ((length recent <? 5)%nat, <[ip := recent]> l).
Definition limiter_fail (ip : string) (now : Time) (l : loginLimiter) : loginLimiter :=
  <[ip := default [] (l !! ip) ++ [now]]> l.
Definition limiter_success (ip : string) (l : loginLimiter) : loginLimiter := delete ip l.

(** ** Helpers of the handlers *)

Definition remote_host (r : HttpRequest.t) : string :=
  match SplitHostPort (HttpRequest.RemoteAddr r) with
  | Some (host, _) => host
  | None => HttpRequest.RemoteAddr r
  end.

(** [strconv.ParseInt(part, 10, 64)], as [Atoi], of the last path element. *)
Definition lastID (path : string) : option Z :=
  let part := match cut_last "/" (B path) with Some (_, after) => S_ after | None => path end in
  match Atoi part with Some id => if (0 <? id)%Z then Some id else None | None => None end.

(** [n, _ := strconv.Atoi(s)]: zero for what is no number, the nearest number
    for what is out of range. *)
Definition Atoi_value (s : string) : Z :=
  let '(negative, l) := match B s with
                        | "-"%char :: l => (true, l)
                        | "+"%char :: l => (false, l)
                        | l => (false, l)
                        end in
  match l, digits l with
  | _ :: _, Some n => Z.max int64_min (Z.min int64_max (if negative then - n else n))
  | _, _ => 0%Z
  end.

(** [parseEventDate]: the zero time for the empty text, the midnight of an
    existing date written as YYYY-MM-DD; [None] is an error. *)
Definition date_shape (l : bytes) : bool :=
  (length l =? 10)%nat &&
  forallb (λ i, match l !! i with
                | Some c => if (i =? 4)%nat || (i =? 7)%nat then bool_decide (c = "-"%char)
                            else bool_decide (is_Some (digit_value c))
                | None => false
                end) (seq 0 10).
Definition parse_date (l : bytes) : option Time :=
  match digits (take 4 l), digits (take 2 (drop 5 l)), digits (take 2 (drop 8 l)) with
  | Some y, Some m, Some d =>
      if civil_ok y m d 0 0 0 then Some (days_of_civil y m d * 86400 * second)%Z else None
  | _, _, _ => None
  end.
Definition parseEventDate (value : string) : option Time :=
  if (value =? "")%string then Some zero_time
  else if date_shape (B value) then parse_date (B value) else None.
Definition parseEventCleanupCutoff `{TL : TimeLib} (value : string) : option Time :=
  match parse_RFC3339 value with Some t => Some t | None => parseEventDate value end.

Example parseEventDate_ex :
  parseEventDate "2024-02-29" = Some (63844761600 * second)%Z ∧ parseEventDate "2023-02-29" = None ∧
  parseEventDate "2024-2-29" = None ∧ parseEventDate "" = Some 0%Z.
Proof. vm_compute. auto. Qed.

(** ** The server *)

(** What [callUpdater] returns: an error, or the status and the object the
    updater answered; [None] is the JSON value [null], the nil map. *)
Definition updater_answer : Type := option (Z * option (gmap string jvalue)).

Section server.
(** The runtime that [OnReload] replaces. *)
Context {RT : Type}.

(** [Server] *)
Record AdminServer : Type := mk_server {
  FixedUpstreamURL : string;
  SecureCookies : bool;
  StartedAt : Time;
  OnReload : option (RT → conn → bool * RT * conn);
  ValidateUpstream : option (Url.t → bool);
  ValidateAI : option (Url.t → bool);
  FrameAncestors : option (RT → list string);
  TestAI : option (AIEndpoint.t → option Duration);      (** [None]: the test failed *)
  UpdaterSocket : string;
  unix_updater : string → string → option string → updater_answer;
}.

Record world : Type := mk_world { w_conn : conn; w_limiter : loginLimiter; w_runtime : RT }.

(** A handler. *)
Definition Admin (A : Type) : Type := world → A * world.
#[global] Instance Admin_ret : MRet Admin := λ A a w, (a, w).
#[global] Instance Admin_bind : MBind Admin := λ A B f m w, let '(a, w) := m w in f a w.

(** A call to the store. *)
Definition store {A} (m : Store A) : Admin (result store_err A) := λ w,
  let '(r, c) := m (w_conn w) in (r, mk_world c (w_limiter w) (w_runtime w)).
(** ... whose error ends the request with the answer [e]. *)
Definition on_ok {A} (m : Store A) (e : store_err → Response.t) (k : A → Admin Response.t) : Admin Response.t :=
  r ← store m; match r with Ok a => k a | Err err => mret (e err) end.
Definition failed (status : Z) (code message : string) (_ : store_err) : Response.t := writeError status code message.
Definition check (b : bool) (e : Response.t) (k : Admin Response.t) : Admin Response.t :=
  if b then k else mret e.
Definition limiter_step {A} (f : loginLimiter → A * loginLimiter) : Admin A := λ w,
  let '(a, l) := f (w_limiter w) in (a, mk_world (w_conn w) l (w_runtime w)).

(** [reloadRuntime] *)
Definition reloadRuntime (s : AdminServer) (k : Admin Response.t) : Admin Response.t :=
  match OnReload s with
  | None => k
  | Some reload => λ w,
      let '(ok, rt, c) := reload (w_runtime w) (w_conn w) in
      let w := mk_world c (w_limiter w) rt in
      if ok then k w
      else (writeError 503 "runtime_reload_failed" "配置已保存，但运行时重载失败；请重试或重启服务", w)
  end.
End server.
#[global] Arguments AdminServer : clear implicits.
#[global] Arguments world : clear implicits.
#[global] Arguments Admin : clear implicits.

(** ** The handlers *)

Section handlers.
Context `{U : Unicode, R : Regexp, C : Cipher, UL : UrlLib, AR : Argon2, NL : NetLib, SQL : SqlFunctions}.
Context `{SA : SqlAverage, AQ : AdminRequest, TL : TimeLib}.
Context {RT : Type} (s : AdminServer RT).

(** The request's view of the outside: failing statements, the clock (0 for
    the limiter, 1 for the store, 2 after a failed login, 3 at the end), the
    digest, the text of an error, the random bytes of a login, the version. *)
Context (io : nat → bool) (clock : nat → Time) (hashPlaintext : string → string).
Context (error_text : store_err → string) (raw csrfRaw : option bytes) (Version : string).
Abbreviation Handler := (Admin RT Response.t) (only parsing).

Definition storage_error (message : string) : store_err → Response.t := failed 500 "storage_error" message.
Definition refused (status : Z) (code : string) (e : store_err) : Response.t :=
  writeError status code (error_text e).

(** What [decodeJSONLimit] reads: nothing beyond the limit, and a body that
    goes on there is refused, too. *)
Definition decoded {A} (r : HttpRequest.t) (parse : bytes → option A) (limit : Z) : string + A :=
  let body := request_body r in
  let whole := (Z.of_nat (length body) <=? limit)%Z in
  match parse (if whole then body else take (Z.to_nat limit) body) with
  | None => inl "请求 JSON 无效"%string
  | Some input => if whole && json_single body then inr input else inl "只允许一个 JSON 值"%string
  end.
Definition decodeJSONLimit {A} (r : HttpRequest.t) (parse : bytes → option A) (limit : Z) (k : A → Handler) : Handler :=
  match decoded r parse limit with
  | inl message => mret (writeError 400 "invalid_json" message)
  | inr input => k input
  end.
Definition maxBody : Z := Z.shiftl 1 20.
Definition decodeJSON {A} (r : HttpRequest.t) (parse : bytes → option A) (k : A → Handler) : Handler :=
  decodeJSONLimit r parse maxBody k.

Definition login (r : HttpRequest.t) : Handler :=
  let ip := remote_host r in
  allowed ← limiter_step (limiter_allow ip (clock 0));
  if negb (allowed : bool) then mret (writeError 429 "login_rate_limited" "登录尝试过于频繁") else
  decodeJSON r decode_login (λ '(username, password),
    result ← store (Login hashPlaintext io (clock 1) raw csrfRaw (trim_space username) password);
    match result with
    | Err _ =>
        limiter_step (λ l, ((), limiter_fail ip (clock 2) l));;
        mret (writeError 401 "invalid_credentials" "用户名或密码错误")
    | Ok (token, csrf, exp) =>
        limiter_step (λ l, ((), limiter_success ip l));;
        let age := Z.quot (exp - clock 3) second in
        mret (with_cookies [SetCookie.mk sessionCookie token true (SecureCookies s) age;
                            SetCookie.mk csrfCookie csrf false (SecureCookies s) age]
                (writeJSON 200 (PLogin username (format_time (exp - exp mod second)))))
    end).

Definition logout (r : HttpRequest.t) : Handler :=
  match request_Cookie r sessionCookie with
  | Some token => store (Logout hashPlaintext io token);; mret ()
  | None => mret ()
  end;;
  mret (with_cookies (clearCookies (SecureCookies s)) (writeHeader 204)).

Definition overview : Handler :=
  on_ok (Overview io (clock 1)) (storage_error "读取概览失败") (λ counts,
    cfg ← store (GetConfig io (clock 1) (FixedUpstreamURL s));
    endpoint ← store (GetAIEndpoint io);
    items ← store (ListRecentEvents io (clock 1) 8);
    let endpoint := match endpoint with Ok e => e | Err _ => AIEndpoint.zero end in
    mret (writeJSON 200 (POverview counts
      (match cfg with Ok c => Config.Enabled c | Err _ => false end)
      (Z.quot (clock 3 - StartedAt s) second)
      (negb (AIEndpoint.BaseURL endpoint =? "")%string && negb (AIEndpoint.Model endpoint =? "")%string &&
       AIEndpoint.HasAPIKey endpoint)
      (AIEndpoint.Model endpoint)
      (match items with Ok l => l | Err _ => [] end)))).

Definition hide_key (n : AINode.t) : AINode.t :=
  AINode.mk (AINode.ID n) (AINode.Slot n) (AINode.Name n) (AINode.BaseURL n) (AINode.Model n) ""
    (AINode.HasAPIKey n) (AINode.TimeoutMS n) (AINode.Enabled n).
Definition hide_endpoint_key (e : AIEndpoint.t) : AIEndpoint.t :=
  AIEndpoint.mk (AIEndpoint.BaseURL e) (AIEndpoint.Model e) "" (AIEndpoint.HasAPIKey e) (AIEndpoint.TimeoutMS e)
    (AIEndpoint.MaxConcurrency e).

Definition getConfig : Handler :=
  on_ok (GetConfig io (clock 1) (FixedUpstreamURL s)) (storage_error "读取配置失败") (λ cfg,
    endpoint ← store (GetAIEndpoint io);
    let endpoint := match endpoint with Ok e => e | Err _ => AIEndpoint.zero end in
    on_ok (ListAINodes io) (storage_error "读取异步节点失败") (λ nodes,
      mret (writeJSON 200 (PFullConfig cfg (hide_endpoint_key endpoint) (map hide_key nodes))))).

Definition trim_upstream (c : Config.t) : Config.t := Config.set_upstream c (trim_space (Config.UpstreamURL c)).

Definition putConfig (r : HttpRequest.t) : Handler :=
  decodeJSON r decode_config (λ '(c, expected),
    match expected with
    | None => mret (writeError 400 "expected_version_required" "expected_version 必须为正整数")
    | Some expected =>
        check (1 <=? expected)%Z (writeError 400 "expected_version_required" "expected_version 必须为正整数") (
        let c := trim_upstream c in
        match ValidateConfig c with
        | Err e => mret (writeError 400 "invalid_config" (config_err_text e))
        | Ok _ =>
            match url_parse (Config.UpstreamURL c) with
            | None => mret (writeError 400 "invalid_upstream" "上游服务地址无效")
            | Some u =>
                check (match ValidateUpstream s with Some validate => validate u | None => true end)
                  (writeError 400 "invalid_upstream" "上游服务地址不能指向 Guard 自身")
                  (on_ok (PutConfig io (clock 1) c expected)
                     (λ e, if contains (error_text e) "version conflict"
                           then writeError 409 "version_conflict" "配置已被更新"
                           else writeError 500 "storage_error" "保存配置失败") (λ _,
                   reloadRuntime s (
                   on_ok (GetConfig io (clock 1) (FixedUpstreamURL s)) (storage_error "读取已保存配置失败") (λ saved,
                   mret (writeJSON 200 (PConfig saved))))))
            end
        end)
    end).

(** [validateAIEndpoint] *)
Definition validateAIEndpoint (text : string) : option Url.t :=
  let text := trim_space text in
  if negb (absolute_http text) then None else
  match url_parse text with
  | Some u => if match ValidateAI s with Some validate => validate u | None => true end then Some u else None
  | None => None
  end.

Definition putAI (r : HttpRequest.t) : Handler :=
  decodeJSON r decode_ai (λ e,
    match validateAIEndpoint (trim_space (aiInput.BaseURL e)) with
    | None => mret (writeError 400 "invalid_ai_endpoint" "审核节点地址无效")
    | Some u =>
        let item := AIEndpoint.mk (url_string u) (trim_space (aiInput.Model e)) (aiInput.APIKey e) false
                      (aiInput.TimeoutMS e) (aiInput.MaxConcurrency e) in
        check (ValidateAIEndpoint item) (refused 400 "invalid_ai_config" (ErrInvalid "AI endpoint")) (
        on_ok (SaveAIEndpoint io item) (storage_error "保存节点失败") (λ _,
        reloadRuntime s (
        saved ← store (GetAIEndpoint io);
        let has := match saved with Ok e => AIEndpoint.HasAPIKey e | Err _ => false end in
        mret (writeJSON 200 (PEndpoint (AIEndpoint.mk (AIEndpoint.BaseURL item) (AIEndpoint.Model item) "" has
                                          (AIEndpoint.TimeoutMS item) (AIEndpoint.MaxConcurrency item)))))))
    end).

(** The answer of a test of an endpoint. *)
Definition test_answer (e : AIEndpoint.t) : Response.t :=
  match TestAI s with
  | None => writeError 503 "ai_unavailable" "审核节点测试未配置"
  | Some test =>
      match test e with
      | None => writeJSON 200 (PTest false None "节点测试失败")
      | Some latency => writeJSON 200 (PTest true (Some (milliseconds latency)) "节点响应正常")
      end
  end.

Definition with_key (e : AIEndpoint.t) (key : string) : AIEndpoint.t :=
  AIEndpoint.mk (AIEndpoint.BaseURL e) (AIEndpoint.Model e) key (AIEndpoint.HasAPIKey e) (AIEndpoint.TimeoutMS e)
    (AIEndpoint.MaxConcurrency e).

Definition testAI (r : HttpRequest.t) : Handler :=
  decodeJSON r decode_ai (λ input,
    match validateAIEndpoint (trim_space (aiInput.BaseURL input)) with
    | None => mret (writeError 400 "invalid_ai_endpoint" "审核节点地址无效")
    | Some u =>
        let e := AIEndpoint.mk (url_string u) (trim_space (aiInput.Model input)) (aiInput.APIKey input)
                   (aiInput.HasAPIKey input) (aiInput.TimeoutMS input) (aiInput.MaxConcurrency input) in
        check (ValidateAIEndpoint e) (refused 400 "invalid_ai_config" (ErrInvalid "AI endpoint")) (
        if negb (AIEndpoint.APIKey e =? "")%string then mret (test_answer e) else
        saved ← store (GetAIEndpoint io);
        mret (test_answer (match saved with
                           | Ok g => if AIEndpoint.HasAPIKey g then with_key e (AIEndpoint.APIKey g) else e
                           | Err _ => e
                           end)))
    end).

(** [asyncNodeInput.AINode] *)
Definition node_of (n : asyncNodeInput.t) : AINode.t :=
  AINode.mk 0 (asyncNodeInput.Slot n) (asyncNodeInput.Name n) (asyncNodeInput.BaseURL n) (asyncNodeInput.Model n)
    (asyncNodeInput.APIKey n) false (asyncNodeInput.TimeoutMS n) (asyncNodeInput.Enabled n).
Definition set_base_url (n : AINode.t) (url : string) : AINode.t :=
  AINode.mk (AINode.ID n) (AINode.Slot n) (AINode.Name n) url (AINode.Model n) (AINode.APIKey n)
    (AINode.HasAPIKey n) (AINode.TimeoutMS n) (AINode.Enabled n).
(** [validateNode]; the caller's node keeps its URL. *)
Definition validateNode (n : AINode.t) : bool :=
  match validateAIEndpoint (trim_space (AINode.BaseURL n)) with
  | None => false
  | Some u => ValidateAINode (set_base_url n (url_string u))
  end.

(** The loop that checks the nodes before any is saved. *)
Fixpoint convert_nodes (inputs : list asyncNodeInput.t) (seen : list string) (converted : list AINode.t) :
    Response.t + list AINode.t :=
  match inputs with
  | [] => inr converted
  | i :: inputs =>
      let node := node_of i in
      if bool_decide (AINode.Slot node ∈ seen)
      then inl (writeError 400 "invalid_ai_nodes" "异步节点 slot 不能重复")
      else if negb (validateNode node) then inl (refused 400 "invalid_ai_node" (ErrInvalid "AI node"))
      else convert_nodes inputs (AINode.Slot node :: seen) (converted ++ [node])
  end.
Fixpoint save_nodes (nodes : list AINode.t) (k : Handler) : Handler :=
  match nodes with
  | [] => k
  | n :: nodes => on_ok (SaveAINode io n) (storage_error "保存异步节点失败") (λ _, save_nodes nodes k)
  end.

Definition asyncNodes (r : HttpRequest.t) : Handler :=
  if (HttpRequest.Method r =? "GET")%string
  then on_ok (ListAINodes io) (storage_error "读取异步节点失败") (λ nodes,
         mret (writeJSON 200 (PNodes (map hide_key nodes))))
  else decodeJSON r decode_nodes (λ inputs,
    if negb (length inputs =? 3)%nat then mret (writeError 400 "invalid_ai_nodes" "必须配置三个异步节点") else
    match convert_nodes inputs [] [] with
    | inl answer => mret answer
    | inr nodes =>
        save_nodes nodes (
        reloadRuntime s (
        on_ok (ListAINodes io) (storage_error "读取已保存异步节点失败") (λ saved,
          mret (writeJSON 200 (PNodes (map hide_key saved))))))
    end).

Definition provided (i : asyncNodeInput.t) : bool :=
  negb (asyncNodeInput.Slot i =? "")%string || negb (asyncNodeInput.Name i =? "")%string ||
  negb (asyncNodeInput.BaseURL i =? "")%string || negb (asyncNodeInput.Model i =? "")%string ||
  negb (asyncNodeInput.APIKey i =? "")%string || negb (asyncNodeInput.TimeoutMS i =? 0)%Z.

(** The node a test is about: the one given, with the stored key if it has
    none, or the stored one. *)
Definition tested_node (slot : string) (i : asyncNodeInput.t) (saved : option AINode.t) : Response.t + AINode.t :=
  if provided i then
    if negb (asyncNodeInput.Slot i =? "")%string && negb (asyncNodeInput.Slot i =? slot)%string
    then inl (writeError 400 "invalid_ai_node" "异步节点 slot 与请求路径不一致")
    else
      let key := match saved with
                 | Some n => if (asyncNodeInput.APIKey i =? "")%string then AINode.APIKey n else asyncNodeInput.APIKey i
                 | None => asyncNodeInput.APIKey i
                 end in
      inr (AINode.mk 0 slot (asyncNodeInput.Name i) (asyncNodeInput.BaseURL i) (asyncNodeInput.Model i) key false
             (asyncNodeInput.TimeoutMS i) (asyncNodeInput.Enabled i))
  else match saved with
       | Some n => inr n
       | None => inl (writeError 404 "ai_node_not_found" "异步节点不存在")
       end.

Definition testAsyncNode (r : HttpRequest.t) (path : string) : Handler :=
  let slot := trim_suffix (trim_prefix path "/ai-nodes/") "/test" in
  check (bool_decide (slot ∈ node_slots)) (writeError 404 "ai_node_not_found" "异步节点不存在") (
  decodeJSON r decode_node (λ input,
  on_ok (ListAINodes io) (storage_error "读取异步节点失败") (λ nodes,
    match tested_node slot input (List.find (λ n, (AINode.Slot n =? slot)%string) nodes) with
    | inl answer => mret answer
    | inr node =>
        match validateAIEndpoint (trim_space (AINode.BaseURL node)) with
        | None => mret (writeError 400 "invalid_ai_endpoint" "审核节点地址无效")
        | Some u =>
            let node := set_base_url node (url_string u) in
            check (ValidateAINode node) (refused 400 "invalid_ai_node" (ErrInvalid "AI node")) (
            mret (test_answer (AIEndpoint.mk (AINode.BaseURL node) (AINode.Model node) (AINode.APIKey node) false
                                 (AINode.TimeoutMS node) 1)))
        end
    end))).

Definition reviewJobs (r : HttpRequest.t) : Handler :=
  on_ok (ListReviewJobs io (Atoi_value (query_Get r "limit"))) (storage_error "读取投票任务失败") (λ items,
    mret (writeJSON 200 (PJobs items))).

Definition reviewVotes (path : string) : Handler :=
  match lastID (trim_suffix path "/votes") with
  | None => mret (writeError 400 "invalid_id" "任务 ID 无效")
  | Some id =>
      on_ok (ListReviewVotes io id) (storage_error "读取投票结果失败") (λ items, mret (writeJSON 200 (PVotes items)))
  end.

Definition path_kind (path : string) : string := if contains path "risk-" then "risk" else "trusted".
Definition not_allowed : Response.t := writeHeader 405.
Definition maxRuleBody : Z := Z.shiftl 128 20.

Definition hashCollection (r : HttpRequest.t) (path : string) : Handler :=
  let kind := path_kind path in
  let method := HttpRequest.Method r in
  if (method =? "GET")%string then
    on_ok (ListHashSummaries io kind) (storage_error "读取规则失败") (λ items, mret (writeJSON 200 (PRules items)))
  else if (method =? "POST")%string then
    decodeJSONLimit r decode_hash maxRuleBody (λ i,
      check (negb (hashInput.Content i =? "")%string) (writeError 400 "rule_content_required" "规则原文不能为空") (
      on_ok (AddHashSourceWithTrace hashPlaintext io (clock 1) kind (hashInput.SHA256 i) (hashInput.Label i)
               (hashInput.Content i) "manual" (hashInput.APIKeyFingerprint i) (hashInput.APIKeyHint i))
        (refused 400 "invalid_hash") (λ item,
      reloadRuntime s (mret (writeJSON 201 (PRule item))))))
  else mret not_allowed.

Definition not_found_or (e : Response.t) (other : store_err → Response.t) (err : store_err) : Response.t :=
  match err with ErrNoRows => e | _ => other err end.
Definition hash_not_found : Response.t := writeError 404 "hash_not_found" "规则不存在".

Definition hashItem (r : HttpRequest.t) (path : string) : Handler :=
  let kind := path_kind path in
  let method := HttpRequest.Method r in
  match lastID path with
  | None => mret (writeError 400 "invalid_id" "ID 无效")
  | Some id =>
      if (method =? "GET")%string then
        on_ok (GetHash io kind id) (not_found_or hash_not_found (storage_error "读取规则失败")) (λ item,
          mret (writeJSON 200 (PRule item)))
      else if (method =? "PUT")%string then
        decodeJSONLimit r decode_hash_edit maxRuleBody (λ i,
          on_ok (UpdateHashWithContent hashPlaintext io kind id (hashEdit.Label i) (hashEdit.Enabled i)
                   (hashEdit.Content i))
            (not_found_or hash_not_found (refused 400 "invalid_hash")) (λ item,
          reloadRuntime s (mret (writeJSON 200 (PRule item)))))
      else if (method =? "DELETE")%string then
        on_ok (DeleteHash io kind id) (storage_error "删除失败") (λ _, reloadRuntime s (mret (writeHeader 204)))
      else mret not_allowed
  end.

Definition save_profile (p : ProfileRow.t) (status : Z) : Handler :=
  on_ok (SaveProfile io (clock 1) p) (refused 400 "invalid_profile") (λ saved,
    reloadRuntime s (mret (writeJSON status (PProfile saved)))).
Definition profileCollection (r : HttpRequest.t) : Handler :=
  let method := HttpRequest.Method r in
  if (method =? "GET")%string then
    on_ok (ListProfiles io) (storage_error "读取客户端规则失败") (λ items, mret (writeJSON 200 (PProfiles items)))
  else if (method =? "POST")%string then decodeJSON r decode_profile (λ p, save_profile p 201)
  else mret not_allowed.
Definition set_profile_id (p : ProfileRow.t) (id : Z) : ProfileRow.t :=
  ProfileRow.mk id (ProfileRow.Name p) (ProfileRow.Description p) (ProfileRow.Enabled p) (ProfileRow.Priority p)
    (ProfileRow.Matchers p) (ProfileRow.CreatedAt p) (ProfileRow.UpdatedAt p).
Definition profileItem (r : HttpRequest.t) (path : string) : Handler :=
  let method := HttpRequest.Method r in
  match lastID path with
  | None => mret (writeError 400 "invalid_id" "ID 无效")
  | Some id =>
      if (method =? "PUT")%string then decodeJSON r decode_profile (λ p, save_profile (set_profile_id p id) 200)
      else if (method =? "DELETE")%string then
        on_ok (DeleteProfile io id) (storage_error "删除失败") (λ _, reloadRuntime s (mret (writeHeader 204)))
      else mret not_allowed
  end.

(** The filter of a request: the end of the range is the day after [to]. *)
Definition event_filter (r : HttpRequest.t) : string + EventFilter.t :=
  match parseEventDate (query_Get r "from") with
  | None => inl "开始日期必须为 YYYY-MM-DD"%string
  | Some from =>
      match parseEventDate (query_Get r "to") with
      | None => inl "结束日期必须为 YYYY-MM-DD"%string
      | Some to =>
          if negb (is_zero_time from) && negb (is_zero_time to) && (to <? from)%Z
          then inl "结束日期不能早于开始日期"%string
          else inr (EventFilter.mk (query_Get r "decision") (query_Get r "query") from
                      (if is_zero_time to then to else to + 24 * hour)%Z)
      end
  end.
Definition events (r : HttpRequest.t) : Handler :=
  let page := Atoi_value (query_Get r "page") in
  let size := Atoi_value (query_Get r "page_size") in
  match event_filter r with
  | inl message => mret (writeError 400 "invalid_event_date" message)
  | inr f =>
      on_ok (ListEventsFiltered io (clock 1) page size f) (storage_error "读取事件失败") (λ '(items, total),
        let page := if (page <? 1)%Z then 1%Z else page in
        let size := if (size <? 1)%Z || (200 <? size)%Z then 50%Z else size in
        mret (writeJSON 200 (PEvents items total page size)))
  end.

(** What a cleanup request selects: everything, or what is before a time. *)
Definition cleanup_scope (scope before : string) : string + option Time :=
  if (scope =? "all")%string then
    if (before =? "")%string then inr None else inl "清空全部事件时不能指定截止日期"%string
  else if (scope =? "before")%string then
    match parseEventCleanupCutoff before with
    | Some t => if is_zero_time t then inl "截止时间必须为 YYYY-MM-DD 或 RFC3339"%string else inr (Some t)
    | None => inl "截止时间必须为 YYYY-MM-DD 或 RFC3339"%string
    end
  else inl "清理范围必须为 all 或 before"%string.
Definition admin_deleteEvents (r : HttpRequest.t) : Handler :=
  decodeJSON r decode_cleanup (λ '(scope, before),
    match cleanup_scope scope before with
    | inl message => mret (writeError 400 "invalid_event_cleanup" message)
    | inr before =>
        on_ok (DeleteEventsBefore io before) (storage_error "清理事件失败") (λ result,
          mret (writeJSON 200 (PDeleted result)))
    end).

Definition no_store (r : Response.t) : Response.t := with_headers [("Cache-Control", "no-store")%string] r.
Definition eventItem (r : HttpRequest.t) (path : string) : Handler :=
  let evidence := has_suffix path "/evidence" in
  let method := HttpRequest.Method r in
  match lastID (trim_suffix path "/evidence") with
  | None => mret (writeError 400 "invalid_id" "ID 无效")
  | Some id =>
      if (method =? "DELETE")%string then
        if evidence then mret not_allowed else
        on_ok (DeleteEvent io id) (storage_error "删除事件失败") (λ result,
          mret (if (EventDeleteResult.DeletedEvents result =? 0)%nat
                then writeError 404 "event_not_found" "事件不存在" else writeJSON 200 (PDeleted result)))
      else if negb (method =? "GET")%string then mret not_allowed
      else if evidence then
        on_ok (GetEvidence io (clock 1) id)
          (λ e, no_store (not_found_or (writeError 404 "evidence_not_found" "证据不存在或已到期")
                            (storage_error "读取证据失败") e)) (λ item,
          mret (no_store (writeJSON 200 (PEvidence item))))
      else
        on_ok (GetEvent io (clock 1) id) (failed 404 "event_not_found" "事件不存在") (λ item,
          mret (no_store (writeJSON 200 (PEvent item))))
  end.

(** *** The updater *)

Definition callUpdater (method path : string) (version : option string) : updater_answer :=
  if blank (UpdaterSocket s) then None else unix_updater s method path version.

Definition success (status : Z) : bool := (200 <=? status)%Z && (status <? 300)%Z.
(** What the administrator sees of a command the updater answered. *)
Definition updater_reply (code fallback : string) (answer : updater_answer) : Response.t :=
  match answer with
  | None => writeError 503 "updater_unavailable" "更新服务未连接"
  | Some (status, fields) =>
      let fields := default ∅ fields in
      if negb (success status) then
        let message := match fields !! "message"%string with Some (JText m) => m | _ => ""%string end in
        writeError status code (if (message =? "")%string then fallback else message)
      else writeJSON status (PUpdater fields)
  end.
Definition systemUpdate (r : HttpRequest.t) : Handler :=
  if (HttpRequest.Method r =? "GET")%string then
    mret (match callUpdater "GET" "/v1/status" None with
          | None => writeJSON 200 (PUpdater (list_to_map
              [("available", JBool false); ("current_version", JText Version); ("message", JText "更新服务未连接")]%string))
          | Some (_, None) => Response.mk 0 [] [] PNone
          | Some (status, Some fields) =>
              writeJSON 200 (PUpdater (<["current_version"%string := JText Version]>
                                         (<["available"%string := JBool (success status)]> fields)))
          end)
  else decodeJSON r decode_version (λ version,
    mret (updater_reply "update_rejected" "无法开始更新" (callUpdater "POST" "/v1/update" (Some version)))).
Definition systemRollback : Handler :=
  mret (updater_reply "rollback_rejected" "无法开始回滚" (callUpdater "POST" "/v1/rollback" None)).

(** *** Routing and access *)

Definition admin_header : string := "X-Nocyber-Admin".
Definition api (r : HttpRequest.t) : Handler :=
  let path := trim_prefix (URL.Path (HttpRequest.URL r)) "/api/v1" in
  let method := HttpRequest.Method r in
  let on p m := (path =? p)%string && (method =? m)%string in
  if on "/auth/session"%string "GET"%string
  then mret (writeJSON 200 (PUsername (Get (HttpRequest.header r) admin_header)))
  else if on "/auth/logout"%string "POST"%string then logout r
  else if on "/overview"%string "GET"%string then overview
  else if on "/config"%string "GET"%string then getConfig
  else if on "/config"%string "PUT"%string then putConfig r
  else if on "/ai-endpoint"%string "PUT"%string then putAI r
  else if on "/ai-endpoint/test"%string "POST"%string then testAI r
  else if on "/ai-nodes"%string "GET"%string || on "/ai-nodes"%string "PUT"%string then asyncNodes r
  else if has_prefix path "/ai-nodes/" && has_suffix path "/test" && (method =? "POST")%string
  then testAsyncNode r path
  else if on "/review-jobs"%string "GET"%string then reviewJobs r
  else if on "/system/update"%string "GET"%string || on "/system/update"%string "POST"%string then systemUpdate r
  else if on "/system/rollback"%string "POST"%string then systemRollback
  else if has_prefix path "/review-jobs/" && has_suffix path "/votes" && (method =? "GET")%string
  then reviewVotes path
  else if (path =? "/trusted-hashes")%string || (path =? "/risk-hashes")%string then hashCollection r path
  else if has_prefix path "/trusted-hashes/" || has_prefix path "/risk-hashes/" then hashItem r path
  else if (path =? "/client-profiles")%string then profileCollection r
  else if has_prefix path "/client-profiles/" then profileItem r path
  else if on "/events"%string "DELETE"%string then admin_deleteEvents r
  else if on "/events"%string "GET"%string then events r
  else if has_prefix path "/events/" then eventItem r path
  else mret (writeError 404 "not_found" "接口不存在").

Definition safe_method (method : string) : bool :=
  (method =? "GET")%string || (method =? "HEAD")%string || (method =? "OPTIONS")%string.
(** The header and the cookie both carry the token of the session. *)
Definition csrf_ok (r : HttpRequest.t) (csrf : string) : bool :=
  match request_Cookie r csrfCookie with
  | Some value => (Get (HttpRequest.header r) "X-Csrf-Token" =? csrf)%string && (value =? csrf)%string
  | None => false
  end.
Definition requireAuth (next : HttpRequest.t → Handler) (r : HttpRequest.t) : Handler :=
  match request_Cookie r sessionCookie with
  | None => mret (writeError 401 "unauthorized" "请先登录")
  | Some token =>
      session ← store (Session hashPlaintext io (clock 1) token);
      match session with
      | Ok (Some (user, csrf)) =>
          if negb (safe_method (HttpRequest.Method r)) && negb (csrf_ok r csrf)
          then mret (writeError 403 "csrf_failed" "CSRF 校验失败")
          else next (HttpRequest.set_header r (Header_Set (HttpRequest.header r) admin_header user))
      | _ => mret (with_cookies (clearCookies (SecureCookies s)) (writeError 401 "unauthorized" "会话已过期"))
      end
  end.

Definition readyz : Handler :=
  on_ok (GetConfig io (clock 1) (FixedUpstreamURL s)) (failed 503 "not_ready" "database unavailable") (λ _,
    mret (writeJSON 200 (PStatus "ready"))).

(** [spaHandler]: an unknown path is answered with the start page.
    [http.FileServer] is the argument [files]. *)
Definition spaHandler (dist_has : string → bool) (files : HttpRequest.t → Response.t) (r : HttpRequest.t) : Response.t :=
  let path := trim_prefix (URL.Path (HttpRequest.URL r)) "/" in
  let path := if (path =? "")%string then "index.html"%string else path in
  if dist_has path then files r
  else files (HttpRequest.mk (HttpRequest.Method r)
                (URL.mk (URL.Scheme (HttpRequest.URL r)) (URL.Host (HttpRequest.URL r)) "/" (URL.RawQuery (HttpRequest.URL r)))
                (HttpRequest.Host r) (HttpRequest.RemoteAddr r) (HttpRequest.TLS r) (HttpRequest.header r)
                (HttpRequest.Body r) (HttpRequest.Trailer r)).

(** The handler [http.ServeMux] chooses for a path in canonical form; a
    pattern with GET matches HEAD, too. *)
Definition mux (dist_has : string → bool) (files : HttpRequest.t → Response.t) (r : HttpRequest.t) : Handler :=
  let path := URL.Path (HttpRequest.URL r) in
  let method := HttpRequest.Method r in
  let get := (method =? "GET")%string || (method =? "HEAD")%string in
  if (path =? "/_nocyber/healthz")%string && get then mret (writeJSON 200 (PStatus "ok"))
  else if (path =? "/_nocyber/readyz")%string && get then readyz
  else if (path =? "/api/v1/auth/login")%string && (method =? "POST")%string then login r
  else if has_prefix path "/api/v1/" then requireAuth api r
  else mret (spaHandler dist_has files r).

Definition frame_headers (ancestors : list string) : list (string * string) :=
  let policy := match ancestors with [] => "'none'"%string | _ => join ancestors " " end in
  [("X-Content-Type-Options", "nosniff"); ("Referrer-Policy", "no-referrer")]%string ++
  match ancestors with [] => [("X-Frame-Options", "DENY")]%string | _ => [] end ++
  [("Content-Security-Policy", "default-src 'self'; style-src 'self' 'unsafe-inline'; img-src 'self' data:; connect-src 'self'; frame-ancestors " +:+ policy)]%string.
Definition securityHeaders (next : HttpRequest.t → Handler) (r : HttpRequest.t) : Handler := λ w,
  let ancestors := match FrameAncestors s with Some f => f (w_runtime w) | None => [] end in
  let '(answer, w) := next r w in (with_headers (frame_headers ancestors) answer, w).

(** [Server.Handler] *)
Definition admin_Handler (dist_has : string → bool) (files : HttpRequest.t → Response.t) : HttpRequest.t → Handler :=
  securityHeaders (mux dist_has files).
End handlers.
