(* ===== verification/UpdaterAgent.v ===== *)
(** * The update agent as a process ([cmd/nocyber-updater/main.go])

    What surrounds the update of [Updater.v]: options from the environment, the
    socket, the HTTP interface, and the files, which are replaced by writing a
    temporary file and renaming it.  A system call may fail; the state of the
    file system after each one is recorded, so that a theorem can speak about
    the moment at which the process dies.  What a call has done is seen by the
    calls after it, in order; what of it survives a crash of the machine is not
    modelled (the program never syncs a file). *)

From S2P Require Export Admin Config Updater.

(** ** Package [path/filepath] on Unix *)

Module filepath.

Definition IsAbs (path : string) : bool := has_prefix path "/".
(** On Unix the functions of package [path]. *)
Definition Clean : string → string := path_Clean.
Definition Join : string → string → string := path_Join.
Definition Dir (path : string) : string :=
  match cut_last "/" (B path) with
  | Some (before, _) => Clean (S_ (before ++ ["/"%char]))
  | None => Clean ""
  end.
Definition Ext (path : string) : string :=
  let base := match cut_last "/" (B path) with Some (_, after) => after | None => B path end in
  match cut_last "." base with Some (_, after) => S_ ("."%char :: after) | None => ""%string end.

Example Clean_ex :
  map Clean ["/opt//a/./b/"; "/a/../../b"; "a/.."; ""; "../x/.."; "/"] = ["/opt/a/b"; "/b"; "."; "."; ".."; "/"]%string.
Proof. vm_compute. reflexivity. Qed.
Example Dir_ex :
  map Dir ["/opt/guard/.env"; "/.env"; ".env"; "a/b"] = ["/opt/guard"; "/"; "."; "a"]%string.
Proof. vm_compute. reflexivity. Qed.
Example Ext_ex : map Ext ["/run/updater.sock"; "/run/a.b/sock"; "x.sock/"] = [".sock"; ""; ""]%string.
Proof. vm_compute. reflexivity. Qed.
End filepath.

(** ** Options *)

Module options.
Record t : Type := mk {
  socket : string;
  composeDir : string;
  composeFiles : list string;
  envFile : string;
  service : string;
  healthURL : string;
  stateFile : string;
  socketGID : Z;
}.
End options.

Inductive options_err : Type := NotAbsolute | ComposeNotAbsolute | InvalidService.

Definition loadOptions (o : os) : result options_err options.t :=
  let composeDir := envOr o "NCG_UPDATER_COMPOSE_DIR" "/opt/nocyber-guard-main" in
  let gid := Atoi_value (envOr o "NCG_UPDATER_SOCKET_GID" "65532") in
  let composeFiles := [envOr o "NCG_UPDATER_COMPOSE_FILE" (filepath.Join composeDir "docker-compose.yml")] in
  let override := trim_space (Getenv o "NCG_UPDATER_COMPOSE_OVERRIDE") in
  let composeFiles := if negb (override =? "")%string then composeFiles ++ [override] else composeFiles in
  let opts := options.mk (envOr o "NCG_UPDATER_SOCKET" "/run/nocyber-updater/updater.sock") composeDir composeFiles
                (envOr o "NCG_UPDATER_ENV_FILE" (filepath.Join composeDir ".env"))
                (envOr o "NCG_UPDATER_SERVICE" "guard")
                (envOr o "NCG_UPDATER_HEALTH_URL" "http://127.0.0.1:18086/_nocyber/readyz")
                (envOr o "NCG_UPDATER_STATE_FILE" "/var/lib/nocyber-updater/state.json") gid in
  if negb (filepath.IsAbs (options.socket opts)) || negb (filepath.Ext (options.socket opts) =? ".sock")%string ||
     negb (filepath.IsAbs (options.composeDir opts)) || negb (filepath.IsAbs (options.envFile opts))
  then Err NotAbsolute
  else if negb (forallb filepath.IsAbs (options.composeFiles opts)) then Err ComposeNotAbsolute
  else if contains_any (options.service opts) [" "; "009"; "013"; "010"; "/"]%char || (options.service opts =? "")%string
  then Err InvalidService
  else Ok opts.

(** ** The file system *)

(** Paths are compared as texts: no links.  [sys] tells of the n-th system call
    whether it fails, and how much a failing write has written. *)
Module Fs.
Inductive node : Type :=
| Regular (data : bytes) (mode : Z)
| Socket (mode : Z) (gid : option Z)
| Directory.

Record t : Type := mk { nodes : gmap string node; past : list (gmap string node); calls : nat }.

(** The file system at every moment until now, the latest first. *)
Definition moments (f : t) : list (gmap string node) := nodes f :: past f.

Inductive error : Type := Exist | NotExist | Refused | Other.

Definition M (A : Type) : Type := t → result error A * t.
#[global] Instance M_ret : MRet M := λ A a f, (Ok a, f).
#[global] Instance M_bind : MBind M := λ A B f m s,
  match m s with (Ok a, s) => f a s | (Err e, s) => (Err e, s) end.
Definition fail {A} (e : error) : M A := λ f, (Err e, f).
(** A call whose error is looked at, or ignored. *)
Definition try {A} (m : M A) : M (result error A) := λ f, let '(r, f) := m f in (Ok r, f).

Section calls.
Context (sys : nat → option nat) (random : nat → string).

Definition call {A} (g : gmap string node → result error (A * gmap string node)) : M A := λ f,
  let failed e := (Err e, mk (nodes f) (nodes f :: past f) (S (calls f))) in
  match sys (calls f) with
  | Some _ => failed Other
  | None => match g (nodes f) with
            | Ok (a, ns) => (Ok a, mk ns (nodes f :: past f) (S (calls f)))
            | Err e => failed e
            end
  end.

Definition Lstat (path : string) : M node :=
  call (λ ns, match ns !! path with Some n => Ok (n, ns) | None => Err NotExist end).
Definition ReadFile (path : string) : M bytes :=
  call (λ ns, match ns !! path with
              | Some (Regular data _) => Ok (data, ns)
              | Some _ => Err Other
              | None => Err NotExist
              end).
Definition Remove (path : string) : M unit :=
  call (λ ns, match ns !! path with Some _ => Ok ((), delete path ns) | None => Err NotExist end).
Definition Rename (old new : string) : M unit :=
  call (λ ns, match ns !! old, ns !! new with
              | Some _, Some Directory => Err Exist
              | Some n, _ => Ok ((), <[new := n]> (delete old ns))
              | None, _ => Err NotExist
              end).
Definition mkdir (path : string) : M unit :=
  call (λ ns, match ns !! path with
              | None => Ok ((), <[path := Directory]> ns)
              | Some Directory => Ok ((), ns)
              | Some _ => Err Other
              end).

(** [os.MkdirAll]: the directories above a path, outermost first. *)
Fixpoint prefixes (parts : list bytes) (above : bytes) : list string :=
  match parts with
  | [] => []
  | [] :: parts => prefixes parts (above ++ ["/"%char])
  | p :: parts => S_ (above ++ p) :: prefixes parts (above ++ p ++ ["/"%char])
  end.
Fixpoint mkdirs (paths : list string) : M unit :=
  match paths with [] => mret () | p :: paths => mkdir p;; mkdirs paths end.
Definition MkdirAll (path : string) : M unit := mkdirs (prefixes (split_bytes (B path) "/") []).

(** [os.CreateTemp]: a name that was not taken. *)
Definition create_new (path : string) : M unit :=
  call (λ ns, match ns !! path with
              | None => Ok ((), <[path := Regular [] 384]> ns)
              | Some _ => Err Exist
              end).
Definition joinPath (dir name : string) : string := if has_suffix dir "/" then dir +:+ name else dir +:+ "/" +:+ name.
Fixpoint create_temp (fuel : nat) (dir prefix : string) : M string := λ f,
  let name := joinPath dir (prefix +:+ random (calls f)) in
  match create_new name f with
  | (Ok _, f) => (Ok name, f)
  | (Err Exist, f) => match fuel with O => (Err Exist, f) | S fuel => create_temp fuel dir prefix f end
  | (Err e, f) => (Err e, f)
  end.
Definition CreateTemp : string → string → M string := create_temp (Z.to_nat 9999).

(** Calls on an open file, which is found by its name. *)
Definition on_file (name : string) (g : bytes → Z → node) : M unit :=
  call (λ ns, match ns !! name with
              | Some (Regular data mode) => Ok ((), <[name := g data mode]> ns)
              | _ => Err Other
              end).
Definition file_Chmod (name : string) (mode : Z) : M unit := on_file name (λ data _, Regular data mode).
(** A write that fails leaves a part of the data behind. *)
Definition file_Write (name : string) (b : bytes) : M unit := λ f,
  match sys (calls f), nodes f !! name with
  | Some n, Some (Regular data mode) =>
      (Err Other, mk (<[name := Regular (data ++ take n b) mode]> (nodes f)) (nodes f :: past f) (S (calls f)))
  | _, _ => on_file name (λ data mode, Regular (data ++ b) mode) f
  end.
Definition file_Close (name : string) : M unit := call (λ ns, Ok ((), ns)).
End calls.
End Fs.

Section files.
Context (sys : nat → option nat) (random : nat → string) (umask : Z).

(** What follows once the temporary file exists. *)
Definition replace_with (path name : string) (data : bytes) (mode : Z) : Fs.M unit :=
  err ← Fs.try (Fs.file_Chmod sys name mode);
  err ← match err with Ok _ => Fs.try (Fs.file_Write sys name data) | Err e => mret (Err e) end;
  closeErr ← Fs.try (Fs.file_Close sys name);
  match err, closeErr with
  | Ok _, Ok _ => Fs.Rename sys name path
  | Ok _, Err e => Fs.fail e
  | Err e, _ => Fs.fail e
  end.
(** A name is renamed over [path] without a sync before it: atomic for the
    other processes, and when this one dies, but not when the machine does. *)
Definition atomicWrite (path : string) (data : bytes) (mode : Z) : Fs.M unit :=
  Fs.MkdirAll sys (filepath.Dir path);;
  name ← Fs.CreateTemp sys random (filepath.Dir path) ".nocyber-update-";
  r ← Fs.try (replace_with path name data mode);
  Fs.try (Fs.Remove sys name);;
  match r with Ok _ => mret () | Err e => Fs.fail e end.

(** [listenUnix]: closing the listener removes the socket. *)
Definition net_Listen (path : string) : Fs.M unit :=
  Fs.call sys (λ ns, match ns !! path with
                     | None => Ok ((), <[path := Fs.Socket (Z.ldiff 511 umask) None]> ns)
                     | Some _ => Err Fs.Exist
                     end).
Definition on_socket (path : string) (g : Z → option Z → Fs.node) : Fs.M unit :=
  Fs.call sys (λ ns, match ns !! path with
                     | Some (Fs.Socket mode gid) => Ok ((), <[path := g mode gid]> ns)
                     | _ => Err Fs.Other
                     end).
Definition or_close (path : string) (m : Fs.M unit) : Fs.M unit :=
  r ← Fs.try m;
  match r with Ok _ => mret () | Err e => Fs.try (Fs.Remove sys path);; Fs.fail e end.
Definition is_socket (n : Fs.node) : bool := match n with Fs.Socket _ _ => true | _ => false end.

Definition listenUnix (path : string) (gid : Z) : Fs.M unit :=
  Fs.MkdirAll sys (filepath.Dir path);;
  info ← Fs.try (Fs.Lstat sys path);
  match info with
  | Ok n => if negb (is_socket n) then Fs.fail Fs.Refused else Fs.Remove sys path
  | Err Fs.NotExist => mret ()
  | Err e => Fs.fail e
  end;;
  net_Listen path;;
  or_close path (on_socket path (λ _ gid, Fs.Socket 432 gid));;
  if (0 <=? gid)%Z then or_close path (on_socket path (λ mode _, Fs.Socket mode (Some gid))) else mret ().

(** [writeImage] and [readImage] on the files. *)
Definition writeImage_file (path image : string) : Fs.M unit :=
  if negb (digestPattern image) then Fs.fail Fs.Refused else
  b ← Fs.ReadFile sys path;
  atomicWrite path (new_content b image) 384.
End files.

(** ** JSON texts *)

Definition escape_rune (n : N) : bytes :=
  if (n =? 34)%N || (n =? 92)%N then ["\"%char; chr n]
  else if (n =? 8)%N then B "\b" else if (n =? 12)%N then B "\f" else if (n =? 10)%N then B "\n"
  else if (n =? 13)%N then B "\r" else if (n =? 9)%N then B "\t"
  else if (n <? 32)%N || (n =? 60)%N || (n =? 62)%N || (n =? 38)%N
  then B "\u00" ++ [hex_char (n / 16); hex_char (n mod 16)]
  else if (n =? 8232)%N || (n =? 8233)%N then B "\u202" ++ [hex_char (n mod 16)]
  else encode_rune n.
Definition escape_rune_at (r : rune_at) : bytes := if rvalid r then escape_rune (rn r) else B "\ufffd".
(** [json.Marshal] of a string, with HTML escaped and invalid bytes replaced. *)
Definition marshal_string (s : string) : bytes :=
  "034"%char :: concat (map escape_rune_at (runes (B s))) ++ ["034"%char].

Example marshal_string_ex :
  marshal_string (S_ ["a"; "034"; "010"; "<"; "001"; "255"]%char) = json_text "'a\'\n\u003c\u0001\ufffd'".
Proof. vm_compute. reflexivity. Qed.

(** [json.MarshalIndent(u.state, "", "  ")]; empty images are left out. *)
Definition state_fields (s : persistentState.t) : list (string * string) :=
  List.filter (λ kv, negb (kv.2 =? "")%string)
    [("previous_image", persistentState.PreviousImage s); ("current_image", persistentState.CurrentImage s)]%string.
Definition marshal_field (kv : string * string) : bytes :=
  newline :: B "  " ++ marshal_string kv.1 ++ B ": " ++ marshal_string kv.2.
Definition marshal_state (s : persistentState.t) : bytes :=
  match state_fields s with
  | [] => B "{}"
  | fields => "{"%char :: join_bytes (map marshal_field fields) "," ++ [newline; "}"%char]
  end.

Definition next_depth (t : token) (depth : nat) : nat :=
  match t with
  | TDelim c => if bool_decide (c = "{"%char) || bool_decide (c = "["%char) then S depth else pred depth
  | _ => depth
  end.
(** The first value of a text: its tokens and what follows. *)
Fixpoint value_tokens (fuel : nat) (depth : nat) (d : Decoder.decoder) : option (list token * Decoder.decoder) :=
  match fuel with
  | O => None
  | S fuel =>
      match Decoder.Token d with
      | Err _ => None
      | Ok (t, d) =>
          match next_depth t depth with
          | O => Some ([t], d)
          | S _ => '(ts, d) ← value_tokens fuel (next_depth t depth) d; Some (t :: ts, d)
          end
      end
  end.
Definition first_value (b : bytes) : option (list token * Decoder.decoder) :=
  value_tokens (S (length b)) 0 (Decoder.new b).

(** The tokens of a value at the head of a list, and the rest. *)
Fixpoint split_value (depth : nat) (ts : list token) : list token * list token :=
  match ts with
  | [] => ([], [])
  | t :: ts =>
      match next_depth t depth with
      | O => ([t], ts)
      | S _ => let '(v, rest) := split_value (next_depth t depth) ts in (t :: v, rest)
      end
  end.
Fixpoint members (fuel : nat) (ts : list token) : list (string * list token) :=
  match fuel, ts with
  | S fuel, TStr k :: ts => let '(v, rest) := split_value 0 ts in (k, v) :: members fuel rest
  | _, _ => []
  end.

Section state.
Context `{U : Unicode}.

(** A member of the object that is set on the state; a value of another type
    is an error for which the other members are still set. *)
Definition set_image (s : persistentState.t) (kv : string * list token) : persistentState.t :=
  match kv.2 with
  | [TStr v] =>
      if equal_fold kv.1 "previous_image" then persistentState.mk v (persistentState.CurrentImage s)
      else if equal_fold kv.1 "current_image" then persistentState.mk (persistentState.PreviousImage s) v
      else s
  | _ => s
  end.
(** [json.Unmarshal(b, &u.state)], whose error is ignored. *)
Definition unmarshal_state (b : bytes) (s : persistentState.t) : persistentState.t :=
  match first_value b with
  | Some (TDelim "{"%char :: ts, d) =>
      if Decoder.at_eof d then foldl set_image s (members (length ts) ts) else s
  | _ => s
  end.

Definition loadState (sys : nat → option nat) (path : string) (s : persistentState.t) : Fs.M persistentState.t :=
  b ← Fs.try (Fs.ReadFile sys path);
  mret (match b with Ok b => unmarshal_state b s | Err _ => s end).
Definition saveStateLocked (sys : nat → option nat) (random : nat → string) (path : string) (s : persistentState.t) :
    Fs.M unit :=
  Fs.try (atomicWrite sys random path (marshal_state s ++ [newline]) 384);; mret ().
End state.

(** ** The HTTP interface *)

(** The body of a request to update: the version, or [None] for an error. *)
Definition set_version_field `{U : Unicode} (input : option string) (kv : string * list token) : option string :=
  v ← input;
  if equal_fold kv.1 "version"
  then match kv.2 with [TStr s] => Some s | [TNull] => Some v | _ => None end
  else None.
Definition decode_update `{U : Unicode} (body : bytes) : option string :=
  match first_value (take (Z.to_nat 4096) body) with
  | Some ([TNull], _) => Some ""%string
  | Some (TDelim "{"%char :: ts, _) => foldl set_version_field (Some ""%string) (members (length ts) ts)
  | _ => None
  end.

(** The agent: the updater and the cached release. *)
Record agent : Type := mk_agent { ag_updater : updater; ag_latest : latest_cache }.

(** An answer: a status and a JSON object, or a text of the router. *)
Inductive agent_body : Type := AJson (fields : gmap string jvalue) | AText.
Definition message (text : string) : agent_body := AJson {["message"%string := JText text]}.

(** RFC 3339 in seconds; the zero time is an operation that has not begun. *)
Definition time_text (t : Time) : string := if is_zero_time t then ""%string else format_time (t - t mod second).

Section interface.
Context `{U : Unicode} (now : Time) (fetch : result unit string).

Definition handleStatus (a : agent) : Z * agent_body * agent :=
  let '(lat, cache) := latest now fetch (ag_latest a) in
  let u := ag_updater a in
  let o := op u in
  let current := default (persistentState.CurrentImage (state u)) (readImage (env_file u)) in
  let previous := persistentState.PreviousImage (state u) in
  let fields := list_to_map
    [("available", Admin.JBool true); ("state", JText (operation.State o)); ("action", JText (operation.Action o));
     ("target_version", JText (operation.Target o)); ("message", JText (operation.Message o));
     ("started_at", JText (time_text (operation.StartedAt o)));
     ("completed_at", JText (match operation.CompletedAt o with Some t => time_text t | None => ""%string end));
     ("current_image", JText current); ("previous_image", JText previous);
     ("rollback_available", Admin.JBool (digestPattern previous))]%string : gmap string jvalue in
  (200%Z, AJson (match lat with
                 | Ok v => <["latest_version"%string := JText v]> fields
                 | Err _ => <["latest_error"%string := JText "无法读取最新版本"]> fields
                 end), mk_agent u cache).

Definition busy : agent_body := message "已有更新或回滚任务正在执行".
Definition serve_update (body : bytes) (a : agent) : Z * agent_body * option task * agent :=
  match decode_update body with
  | None => (400%Z, message "请求 JSON 无效", None, a)
  | Some input =>
      let '(lat, cache) := if (trim_space input =? "")%string then latest now fetch (ag_latest a)
                           else (Err (), ag_latest a) in
      let '((status, started), u) :=
        handleUpdate now input (match lat with Ok v => Some v | Err _ => None end) (ag_updater a) in
      (status,
       match started with
       | Some (UpdateTask version) =>
           AJson (list_to_map [("state", JText "running"); ("message", JText "更新任务已开始");
                               ("target_version", JText version)]%string)
       | _ => if (status =? 502)%Z then message "无法获取最新版本"
              else if (status =? 400)%Z then message "版本号格式无效" else busy
       end, started, mk_agent u cache)
  end.
Definition serve_rollback (a : agent) : Z * agent_body * option task * agent :=
  let '((status, started), u) := handleRollback now (ag_updater a) in
  (status,
   match started with
   | Some _ => AJson (list_to_map [("state", JText "running"); ("message", JText "回滚任务已开始")]%string)
   | None => if digestPattern (persistentState.PreviousImage (state (ag_updater a))) then busy
             else message "没有可回滚的历史镜像"
   end, started, mk_agent u (ag_latest a)).

(** The patterns of [main]; GET covers HEAD. *)
Definition agent_mux (method path : string) (body : bytes) (a : agent) : Z * agent_body * option task * agent :=
  if (path =? "/v1/status")%string then
    if (method =? "GET")%string || (method =? "HEAD")%string then let '(r, a) := handleStatus a in (r, None, a)
    else (405%Z, AText, None, a)
  else if (path =? "/v1/update")%string then
    if (method =? "POST")%string then serve_update body a else (405%Z, AText, None, a)
  else if (path =? "/v1/rollback")%string then
    if (method =? "POST")%string then serve_rollback a else (405%Z, AText, None, a)
  else (404%Z, AText, None, a).

(** What the administration server sends, and what it makes of the answer. *)
Definition update_body (version : string) : bytes :=
  "{"%char :: marshal_string "version" ++ ":"%char :: marshal_string version ++ ["}"%char].
Definition call_agent (a : agent) (method path : string) (version : option string) : updater_answer :=
  let body := match version with Some v => update_body v | None => B "{}" end in
  match (agent_mux method path body a).1.1 with
  | (status, AJson fields) => Some (status, Some fields)
  | (_, AText) => None
  end.
End interface.

(** ** Startup *)

Inductive started_agent : Type := Exited (code : Z) | Serving (o : options.t) (a : agent).

Definition main `{U : Unicode} (o : os) (sys : nat → option nat) (umask : Z) (f : Fs.t) : started_agent * Fs.t :=
  match loadOptions o with
  | Err _ => (Exited 2, f)
  | Ok opts =>
      match loadState sys (options.stateFile opts) (persistentState.mk "" "") f with
      | (Err _, f) => (Exited 2, f)
      | (Ok s, f) =>
          match listenUnix sys umask (options.socket opts) (options.socketGID opts) f with
          | (Err _, f) => (Exited 2, f)
          | (Ok _, f) =>
              let env := match Fs.nodes f !! options.envFile opts with Some (Fs.Regular b _) => Some b | _ => None end in
              (Serving opts (mk_agent (mk_updater operation.idle s env None None 0 0) (mk_latest "" zero_time false)), f)
          end
      end
  end.
