(* ===== verification/Main.v ===== *)
(** * The program put together ([main] of [cmd/nocyber-guard/main.go])

    The data plane is the proxy with the adapter as its auditor; the
    administration server replaces the runtime and the upstream of the proxy
    when it reloads.  Both work on the same database. *)

From S2P Require Export Runtime Admin.

(** What the two servers share: the runtime, the target the proxy was started
    with and the one it was given since. *)
Module Guard.
Record t `{R : Regexp} : Type := mk {
  rt : runtime.t;
  Upstream : URL.t;
  upstream : option URL.t;
}.
End Guard.

(** A parsed URL as the target of the proxy. *)
Definition target_of (u : Url.t) : URL.t := URL.mk (Url.Scheme u) (Url.Host u) (Url.Path u) (Url.RawQuery u).

Inductive startup_err : Type :=
| StartAdmin (e : store_err)
| StartReload (e : reload_err)
| StartConfig (e : store_err)
| StartUpstream.

Section main.
Context `{U : Unicode, R : Regexp, C : Cipher, UL : UrlLib, AR : Argon2, NL : NetLib, H : !HostLib, CL : !CIDRLib}.
Context (cfg : StartupConfig.t).

(** ** Startup, from the opened database to the two servers *)

Definition startup (io : nat → bool) (now : Time) (salt : option bytes) (c : conn) :
    result startup_err Guard.t * conn :=
  match EnsureAdmin io salt "admin" (StartupConfig.InitialAdminPass cfg) c with
  | (Err e, c) => (Err (StartAdmin e), c)
  | (Ok _, c) =>
      let c := (seedProfiles io now c).2 in
      let rt := runtime.mk _ None (NewConcurrencyGate DefaultAIConcurrency) [] in
      match reload io cfg now rt c with
      | (Err e, _, c) => (Err (StartReload e), c)
      | (Ok _, rt, c) =>
          match GetConfig io now (upstream_text cfg) c with
          | (Err e, c) => (Err (StartConfig e), c)
          | (Ok stored, c) =>
              match url_parse (Config.UpstreamURL stored) with
              | None => (Err StartUpstream, c)
              | Some u => (Ok (Guard.mk _ rt (target_of u) None), c)
              end
          end
      end
  end.

(** ** The data plane *)

(** The adapter as the proxy sees it while it serves one request. *)
Definition auditor (A : adapter_env) (s : option runtimeState.t) (w : adapter_world) : Auditor.t :=
  Auditor.mk (λ req body, ((adapter_Evaluate A s None req body w).1, None))
    (Some (λ req, (ShouldAudit s None req).1))
    (Some (λ _, AuditBodyLimit s None)) true.

Definition public (A : adapter_env) (now : Time) (g : Guard.t) (w : adapter_world) : Proxy.Server :=
  let rt := Guard.rt g in
  mk_Server (Some (Guard.Upstream g)) (Some (auditor A (runtime.state rt) w)) (StartupConfig.AuditBodyLimit cfg)
    (Some (ready_runtime (ae_io A) now rt (aw_conn w)).1) (Some (λ ip, trustedIP ip (ae_networks A)))
    (Guard.upstream g).

Definition serve (A : adapter_env) (now : Time) (g : Guard.t) (w : adapter_world) (req : HttpRequest.t) :
    outcome * list string := Proxy.Handler (public A now g w) req.

(** ** The administration server *)

(** [public.SetUpstream] *)
Definition guard_SetUpstream (g : Guard.t) (rt : runtime.t) (u : Url.t) : bool * Guard.t :=
  let '(p, ok) := SetUpstream (mk_Server (Some (Guard.Upstream g)) None 0 None None (Guard.upstream g))
                    (Some (target_of u)) in
  (ok, Guard.mk _ rt (Guard.Upstream g) (Proxy.upstream p)).

(** [adminServer.OnReload] *)
Definition on_reload (io : nat → bool) (now : Time) (g : Guard.t) (c : conn) : bool * Guard.t * conn :=
  match reload io cfg now (Guard.rt g) c with
  | (Err _, rt, c) => (false, Guard.mk _ rt (Guard.Upstream g) (Guard.upstream g), c)
  | (Ok _, rt, c) =>
      let reloaded := Guard.mk _ rt (Guard.Upstream g) (Guard.upstream g) in
      match GetConfig io now (upstream_text cfg) c with
      | (Err _, c) => (false, reloaded, c)
      | (Ok latest, c) =>
          match url_parse (Config.UpstreamURL latest) with
          | None => (false, reloaded, c)
          | Some u => let '(ok, g) := guard_SetUpstream g rt u in (ok, g, c)
          end
      end
  end.

(** [asyncRunner.onPromotion]: after a promotion the runtime is reloaded, but
    not the upstream of the proxy; an error is only logged. *)
Definition onPromotion (io : nat → bool) (now : Time) (promoted : option string) (g : Guard.t) (c : conn) :
    Guard.t * conn :=
  match promoted with
  | Some _ =>
      let '(_, rt, c) := reload io cfg now (Guard.rt g) c in
      (Guard.mk _ rt (Guard.Upstream g) (Guard.upstream g), c)
  | None => (g, c)
  end.

(** [testAIEndpoint] is the argument [test]. *)
Definition adminServer (io : nat → bool) (now started : Time) (test : AIEndpoint.t → option Duration)
    (updater : string → string → option string → updater_answer) : AdminServer Guard.t :=
  let validate u := is_ok (ValidateEndpointAgainstListeners (Some u) (listeners cfg)) in
  mk_server (upstream_text cfg) (StartupConfig.AdminCookieSecure cfg) started (Some (on_reload io now))
    (Some validate) (Some validate)
    (Some (λ g, default [] (adminFrameAncestors (Guard.rt g))))
    (Some test) (StartupConfig.UpdaterSocket cfg) updater.
End main.
