(* ===== verification/Demo.v ===== *)
(** * A concrete environment for the witnesses

    Instances of the interfaces to code that is not part of the program, and a
    small database: an administrator with the password "secret", an open
    session and a saved configuration. *)

From S2P Require Export StoreSettingsTheorems RuntimeTheorems Main.

Module Demo.

Definition url : UrlLib := {|
  url_parse := λ s, if (s =? "")%string then None else Some (Url.mk "https" s s "" false "" "" "" "");
  url_string := λ u, Url.Host u;
|}.
Definition cipher : Cipher := {| StoreJobs.seal := λ _ p, "x"%char :: p; StoreJobs.unseal := λ c, Some (tail c) |}.
Definition argon : Argon2 := {| argon2_IDKey := λ p _ n, take n (p ++ replicate n zero) |}.
Definition net : NetLib := {|
  IP := string; ParseIP := λ s, if (s =? "")%string then None else Some s; IP_String := λ s, s;
  url_Parse := λ s, Some (mk_parsed_url s s "" false ""); gzip_NewReader := λ b, Some (bytes_reader b, false);
|}.
Definition host : HostLib (H := net) := {|
  IP_eq_dec := String.string_dec : EqDecision (IP (NetLib := net));
  IsLoopback := λ s, (s =? "127.0.0.1")%string : bool;
  IsUnspecified := λ s, (s =? "0.0.0.0")%string : bool;
  LookupPort := λ _, None; os_Hostname := None; InterfaceAddrs := None; LookupIPAddr := λ _, None;
|}.
Definition cidr : CIDRLib (NL := net) := {| CIDR := string; ParseCIDR := Some; Contains := λ c (ip : IP (NetLib := net)), (c =? ip)%string |}.
Definition sql : SqlFunctions := {|
  julianday := λ _, Some f64_one; sql_like := λ v p, contains p v; wal_checkpoint := λ _, (0, 0)%Z;
|}.
Definition average : SqlAverage := {| rounded_average := λ l, hd 0%Z l |}.
Definition times : TimeLib := {| parse_RFC3339 := parse_time |}.

Definition config : Config.t := Config.set_ancestors (defaultConfig "up") ["Host"; ""]%string.

(** A cookie is a header of its name; a body is the password, the digest, the
    content or the version it is about. *)
Definition requests : AdminRequest := {|
  request_Cookie := λ r name, head (Values (HttpRequest.header r) name);
  query_Get := λ _ _, ""%string;
  request_body := λ r, match HttpRequest.Body r with Some s => content s | None => [] end;
  json_single := λ _, true;
  decode_login := λ b, Some ("admin"%string, S_ b);
  decode_config := λ _, Some (config, Some 1%Z);
  decode_ai := λ _, None; decode_node := λ _, None; decode_nodes := λ _, None;
  decode_hash := λ b, Some (hashInput.mk "" "r" (S_ b) "" "");
  decode_hash_edit := λ _, None; decode_profile := λ _, None; decode_cleanup := λ _, None; decode_version := λ b, Some (S_ b);
|}.

Definition request (method path : string) (body : bytes) (headers : list (string * list string)) : HttpRequest.t :=
  HttpRequest.mk method (URL.mk "http" "guard" path "") "guard" "9.9.9.9:1" false (list_to_map headers)
    (Some (bytes_reader body)) ∅.

Definition io (n : nat) : bool := true.

(** The database after a login as the administrator at time 0 and with a
    configuration of version 1. *)
Definition users : conn :=
  mk_conn (set_users empty_db {["admin"%string := HashPassword (AR := argon) (B "salt") "secret"]}) 0.
Definition database : conn :=
  (PutConfig (UL := url) io 0 config 0
     (Login (AR := argon) demo_hash io 0 (Some (B "raw")) (Some (B "csrf")) "admin" "secret" users).2).2.
Definition token : string := hex_encode (B "raw").
Definition csrf : string := hex_encode (B "csrf").

End Demo.
