(* ===== verification/UpdaterAgentTheorems.v ===== *)
(** * Theorems on the update agent's files, socket and interface *)

From S2P Require Export Demo UpdaterTheorems UpdaterAgent.

(** ** Replacing a file *)

(** What a program keeps of the file system. *)
Definition keeps_fs {A} (I : Fs.t → Prop) (m : Fs.M A) : Prop := ∀ f, I f → I (m f).2.

Section keeping.
Context (I : Fs.t → Prop).

Lemma fs_ret {A} (a : A) : keeps_fs I (mret a).
Proof. by intros f. Qed.
Lemma fs_fail {A} e : keeps_fs I (Fs.fail e : Fs.M A).
Proof. by intros f. Qed.
Lemma fs_try {A} (m : Fs.M A) : keeps_fs I m → keeps_fs I (Fs.try m).
Proof. intros H f Hf. specialize (H f Hf). unfold Fs.try. by destruct (m f). Qed.
Lemma fs_bind {A B} (m : Fs.M A) (g : A → Fs.M B) :
  keeps_fs I m → (∀ a, keeps_fs I (g a)) → keeps_fs I (m ≫= g).
Proof.
  intros Hm Hg f Hf. specialize (Hm f Hf). unfold mbind, Fs.M_bind. destruct (m f) as [[a|e] f1]; [by apply Hg|done].
Qed.
End keeping.

Section replacing.
Context (sys : nat → option nat) (random : nat → string).
(** A file [path] with the content [x] in the file system [f0], and with [z] now. *)
Context (f0 : Fs.t) (path : string) (x z : Fs.node).

Definition moment_ok (ns : gmap string Fs.node) : Prop :=
  ns ∈ Fs.moments f0 ∨ ns !! path = Some x ∨ ns !! path = Some z.
Record stands (f : Fs.t) : Prop := {
  b_path : Fs.nodes f !! path = Some z;
  b_moments : Forall moment_ok (Fs.moments f);
  b_others : ∀ q n, q ≠ path → Fs.nodes f0 !! q = Some n → Fs.nodes f !! q = Some n;
}.

Lemma stands_start : Fs.nodes f0 !! path = Some z → stands f0.
Proof. intros H. split; [done| |done]. apply Forall_forall. intros ns Hns. by left. Qed.

Lemma stands_step f ns n :
  stands f → ns !! path = Some z →
  (∀ q m, q ≠ path → Fs.nodes f0 !! q = Some m → ns !! q = Some m) → stands (Fs.mk ns (Fs.moments f) n).
Proof. intros [H1 H2 H3] Hp Hq. split; [done| |done]. constructor; [by right; right|done]. Qed.

Lemma call_stands {A} (g : gmap string Fs.node → result Fs.error (A * gmap string Fs.node)) :
  (∀ f a ns, stands f → g (Fs.nodes f) = Ok (a, ns) → ns !! path = Some z ∧
     ∀ q m, q ≠ path → Fs.nodes f0 !! q = Some m → ns !! q = Some m) →
  keeps_fs stands (Fs.call sys g).
Proof.
  intros Hg f Hf. unfold Fs.call. pose proof (stands_step f (Fs.nodes f) (S (Fs.calls f)) Hf (b_path _ Hf) (b_others _ Hf)) as Hs.
  destruct (sys _); [done|]. destruct (g (Fs.nodes f)) as [[a ns]|e] eqn:E; [|done].
  destruct (Hg f a ns Hf E). by apply stands_step.
Qed.

(** A new entry is neither the file nor another one. *)
Lemma stands_fresh f q : stands f → Fs.nodes f !! q = None → q ≠ path ∧ Fs.nodes f0 !! q = None.
Proof.
  intros Hf Hq. assert (q ≠ path) as Hne by (intros ->; rewrite (b_path _ Hf) in Hq; done). split; [done|].
  destruct (Fs.nodes f0 !! q) as [n|] eqn:E; [|done]. rewrite (b_others _ Hf q n Hne E) in Hq. done.
Qed.
Lemma insert_stands (q : string) (n : Fs.node) (f : Fs.t) :
  stands f → q ≠ path → Fs.nodes f0 !! q = None →
  (<[q := n]> (Fs.nodes f)) !! path = Some z ∧
  ∀ q' m, q' ≠ path → Fs.nodes f0 !! q' = Some m → <[q := n]> (Fs.nodes f) !! q' = Some m.
Proof.
  intros Hf Hq H0. split; [rewrite lookup_insert_ne by done; apply Hf|].
  intros q' m Hq' Hm. rewrite lookup_insert_ne by congruence. by apply (b_others _ Hf).
Qed.

Lemma mkdirs_stands ps : keeps_fs stands (Fs.mkdirs sys ps).
Proof.
  induction ps as [|p ps IH]; [apply fs_ret|]. apply fs_bind; [|done].
  apply call_stands. intros f a ns Hf. destruct (Fs.nodes f !! p) as [[]|] eqn:E; [done|done| |]; intros [= <-]; simplify_eq.
  - by destruct Hf.
  - destruct (stands_fresh f p Hf E). by apply insert_stands.
Qed.

(** A temporary file is a fresh name. *)
Lemma create_temp_stands fuel dir prefix f r f' :
  stands f → Fs.create_temp sys random fuel dir prefix f = (r, f') →
  stands f' ∧ ∀ name, r = Ok name →
    name ≠ path ∧ Fs.nodes f0 !! name = None ∧ Fs.nodes f' !! name = Some (Fs.Regular [] 384).
Proof.
  revert f. induction fuel as [|fuel IH]; intros f Hf; simpl; unfold Fs.create_new, Fs.call;
    set (name := Fs.joinPath _ _); pose proof (stands_step f (Fs.nodes f) (S (Fs.calls f)) Hf (b_path _ Hf) (b_others _ Hf)) as Hs;
    destruct (sys _); try (by intros [= <- <-]); destruct (Fs.nodes f !! name) as [n|] eqn:E.
  - by intros [= <- <-].
  - intros [= <- <-]. destruct (stands_fresh f name Hf E) as [H1 H2].
    destruct (insert_stands name (Fs.Regular [] 384) f Hf H1 H2).
    split; [by apply stands_step|]. intros ? [= <-]. by simplify_map_eq.
  - by apply IH.
  - intros [= <- <-]. destruct (stands_fresh f name Hf E) as [H1 H2].
    destruct (insert_stands name (Fs.Regular [] 384) f Hf H1 H2).
    split; [by apply stands_step|]. intros ? [= <-]. by simplify_map_eq.
Qed.

(** The calls on the temporary file [name], which holds [n]. *)
Definition holds (name : string) (n : Fs.node) (f : Fs.t) : Prop :=
  stands f ∧ Fs.nodes f !! name = Some n.
Context (name : string) (Hname : name ≠ path) (Hnew : Fs.nodes f0 !! name = None).

Lemma holds_step f n n' ns k :
  holds name n f → ns = <[name := n']> (Fs.nodes f) → holds name n' (Fs.mk ns (Fs.moments f) k).
Proof.
  intros [Hf Hn] ->. destruct (insert_stands name n' f Hf Hname Hnew).
  split; [by apply stands_step|]. by simplify_map_eq.
Qed.
Lemma holds_still f n k : holds name n f → holds name n (Fs.mk (Fs.nodes f) (Fs.moments f) k).
Proof. intros [Hf Hn]. split; [|done]. apply stands_step; [done|apply Hf..]. Qed.

Lemma on_file_holds g data mode f r f' :
  holds name (Fs.Regular data mode) f → Fs.on_file sys name g f = (r, f') →
  holds name (if is_ok r then g data mode else Fs.Regular data mode) f'.
Proof.
  intros Hf. unfold Fs.on_file, Fs.call. rewrite (proj2 Hf). destruct (sys _); intros [= <- <-].
  - by apply holds_still.
  - by eapply holds_step.
Qed.
Lemma write_holds b data mode f r f' :
  holds name (Fs.Regular data mode) f → Fs.file_Write sys name b f = (r, f') →
  ∃ data', holds name (Fs.Regular data' mode) f' ∧ (is_ok r = true → data' = data ++ b).
Proof.
  intros Hf. unfold Fs.file_Write. rewrite (proj2 Hf).
  destruct (sys (Fs.calls f)) as [k|] eqn:E.
  - intros [= <- <-]. exists (data ++ take k b). split; [by eapply holds_step|done].
  - intros H. pose proof (on_file_holds _ _ _ _ _ _ Hf H) as Ho. destruct (is_ok r); eexists; (split; [exact Ho|done]).
Qed.
End replacing.

(** The file is replaced, or it is not: what was there stands until the rename. *)
Lemma remove_stands sys f0 path x z name :
  name ≠ path → Fs.nodes f0 !! name = None →
  keeps_fs (stands f0 path x z) (Fs.Remove sys name).
Proof.
  intros Hn H0. apply call_stands. intros f a ns Hf. destruct (Fs.nodes f !! name); [|done]. intros [= <- <-].
  split; [rewrite lookup_delete_ne by done; apply Hf|].
  intros q m Hq Hm. rewrite lookup_delete_ne by congruence. by apply (b_others _ _ _ _ _ Hf).
Qed.

Lemma rename_stands sys f0 path x y name f r f' :
  name ≠ path → Fs.nodes f0 !! name = None → (∃ data mode, x = Fs.Regular data mode) →
  holds f0 path x x name y f → Fs.Rename sys name path f = (r, f') →
  stands f0 path x (if is_ok r then y else x) f'.
Proof.
  intros Hn H0 (data & mode & Hx) [Hf Hy]. unfold Fs.Rename, Fs.call. rewrite Hy, (b_path _ _ _ _ _ Hf), Hx, <- Hx.
  destruct (sys _); intros [= <- <-]; simpl.
  - apply stands_step with (f := f); [done|apply Hf..].
  - destruct Hf as [H1 H2 H3]. split; simpl; [by simplify_map_eq| |].
    + constructor; [right; right; by simplify_map_eq|]. eapply Forall_impl; [exact H2|]. intros ns [|[|]]; unfold moment_ok; auto.
    + intros q m Hq Hm. rewrite lookup_insert_ne, lookup_delete_ne by congruence. by apply H3.
Qed.

Section atomic.
Context (sys : nat → option nat) (random : nat → string).
Context (f0 : Fs.t) (path : string) (x : Fs.node) (data : bytes) (mode : Z).
Abbreviation y := (Fs.Regular data mode).
Abbreviation untouched := (stands f0 path x x) (only parsing).
Context (Hx : ∃ d m, x = Fs.Regular d m).

Lemma try_run {A} (m : Fs.M A) f : Fs.try m f = (Ok (m f).1, (m f).2).
Proof. unfold Fs.try. by destruct (m f). Qed.
Lemma close_holds name n f :
  holds f0 path x x name n f → holds f0 path x x name n (Fs.file_Close sys name f).2.
Proof. intros Hf. unfold Fs.file_Close, Fs.call. destruct (sys _); by apply holds_still. Qed.

Lemma replace_with_stands name f r f' :
  name ≠ path → Fs.nodes f0 !! name = None → holds f0 path x x name (Fs.Regular [] 384) f →
  replace_with sys path name data mode f = (r, f') → stands f0 path x (if is_ok r then y else x) f'.
Proof.
  intros Hn H0 Hf. unfold replace_with, mbind, Fs.M_bind. rewrite try_run.
  destruct (Fs.file_Chmod sys name mode f) as [rc fc] eqn:Ec.
  pose proof (on_file_holds sys f0 path x x name Hn H0 _ _ _ _ _ _ Hf Ec) as Hc. cbn [fst snd].
  destruct rc as [[]|e]; cbn [is_ok] in Hc.
  - rewrite try_run. destruct (Fs.file_Write sys name data fc) as [rw fw] eqn:Ew.
    destruct (write_holds sys f0 path x x name Hn H0 _ _ _ _ _ _ Hc Ew) as (d & Hw & Hd).
    cbn [fst snd]. rewrite try_run. pose proof (close_holds _ _ _ Hw) as Hl.
    destruct rw as [[]|e]; [specialize (Hd eq_refl) as ->|by intros [= <- <-]; apply Hl].
    destruct (Fs.file_Close sys name fw) as [[[]|e] fl]; [|by intros [= <- <-]; apply Hl].
    by apply rename_stands.
  - unfold mret, Fs.M_ret. rewrite try_run. pose proof (close_holds _ _ _ Hc) as Hl. by intros [= <- <-]; apply Hl.
Qed.

Lemma atomicWrite_stands f r f' :
  untouched f → atomicWrite sys random path data mode f = (r, f') →
  stands f0 path x (if is_ok r then y else x) f'.
Proof.
  intros Hf. unfold atomicWrite, mbind, Fs.M_bind.
  pose proof (mkdirs_stands sys f0 path x x
    (Fs.prefixes (split_bytes (B (filepath.Dir path)) "/") []) f Hf) as Hm.
  unfold Fs.MkdirAll. destruct (Fs.mkdirs _ _ _) as [[[]|e] f1]; [|by intros [= <- <-]].
  destruct (Fs.CreateTemp _ _ _ _ f1) as [rt f2] eqn:Et.
  destruct (create_temp_stands sys random f0 path x x _ _ _ _ _ _ Hm Et) as [Hs Hname].
  destruct rt as [name|e]; [|by intros [= <- <-]]. destruct (Hname name eq_refl) as (Hn & H0 & Hnew).
  rewrite try_run. destruct (replace_with _ _ _ _ _ f2) as [rr f3] eqn:Er.
  pose proof (replace_with_stands name f2 rr f3 Hn H0 (conj Hs Hnew) Er) as H3. cbn [fst snd]. rewrite try_run.
  assert (stands f0 path x (if is_ok rr then y else x) (Fs.Remove sys name f3).2) as H4.
  { by apply remove_stands. }
  destruct rr as [[]|e]; by intros [= <- <-].
Qed.
End atomic.

(** ** The image of the deployment *)

Section image.
Context (sys : nat → option nat) (random : nat → string).

(** The environment file as [Updater.v] has it. *)
Definition env_of (path : string) (ns : gmap string Fs.node) : option bytes :=
  match ns !! path with Some (Fs.Regular b _) => Some b | _ => None end.

Lemma regular_or_not (n : option Fs.node) :
  (∃ b m, n = Some (Fs.Regular b m)) ∨ ∀ b m, n ≠ Some (Fs.Regular b m).
Proof. destruct n as [[]|]; eauto. Qed.
(** A file that cannot be read is not written. *)
Lemma unread path f r f' (k : bytes → Fs.M unit) :
  (∀ b m, Fs.nodes f !! path ≠ Some (Fs.Regular b m)) → (b ← Fs.ReadFile sys path; k b) f = (r, f') →
  is_ok r = false ∧ Fs.nodes f' = Fs.nodes f ∧ ∀ ns, ns ∈ Fs.moments f' → ns ∈ Fs.moments f.
Proof.
  intros Hn. unfold mbind, Fs.M_bind, Fs.ReadFile, Fs.call.
  assert (∀ ns, ns ∈ Fs.nodes f :: Fs.moments f → ns ∈ Fs.moments f) as Hm by (intros ns [->|H]%elem_of_cons; [by left|done]).
  destruct (sys _); [by intros [= <- <-]|]. destruct (Fs.nodes f !! path) as [[b m| |]|]; [by destruct (Hn b m)|by intros [= <- <-]..].
Qed.

(** C31. Setting the image of the deployment is all or nothing, also when the
    process dies at any moment: the system calls of [writeImage] on the
    environment file do what its abstract step does with the content - the new
    content when all of them succeed, nothing when one of them fails - and after
    each of them the file has the old content or the new one; no other file that
    was there changes.  (A crash of the machine is not covered: the file is not
    synced before it is renamed.) *)
Theorem writeImage_all_or_nothing ext path image u f r f' :
  env_file u = env_of path (Fs.nodes f) →
  writeImage_file sys random path image f = (r, f') →
  write_ok ext (writes u) = is_ok r →
  let '(ok, u') := writeImage ext image u in
  ok = is_ok r ∧ env_file u' = env_of path (Fs.nodes f') ∧
  (∀ ns, ns ∈ Fs.moments f' → ns ∈ Fs.moments f ∨ env_of path ns = env_file u ∨ env_of path ns = env_file u') ∧
  (∀ q n, q ≠ path → Fs.nodes f !! q = Some n → Fs.nodes f' !! q = Some n).
Proof.
  intros He. unfold writeImage_file, writeImage. destruct (digestPattern image); cbn [negb].
  2: { intros [= <- <-] _. simpl. auto. }
  destruct (regular_or_not (Fs.nodes f !! path)) as [(b & m & E)|E].
  2: { assert (env_of path (Fs.nodes f) = None) as Hnone.
       { unfold env_of. destruct (_ !! _) as [[b m| |]|]; [by destruct (E b m)|done..]. }
       rewrite He, Hnone. intros H _. destruct (unread path f r f' _ E H) as (-> & Hn & Hm). rewrite Hn, He, Hnone. split_and!; auto. }
  unfold env_of in He. rewrite E in He. rewrite He.
  unfold mbind, Fs.M_bind, Fs.ReadFile, Fs.call. rewrite E. destruct (sys (Fs.calls f)) as [k|].
  { intros [= <- <-] ->. simpl. unfold env_of. rewrite E. split; [done|]. split; [done|]. split; [|done].
    intros ns [->|H]%elem_of_cons; left; [by left|done]. }
  set (f1 := Fs.mk _ _ _). intros H Hok.
  pose proof (stands_start f1 path (Fs.Regular b m) (Fs.Regular b m) E) as Hs.
  destruct (atomicWrite_stands sys random f1 path (Fs.Regular b m) (new_content b image) 384 ltac:(eauto) f1 r f' Hs H)
    as [H1 H2 H3].
  set (z := if is_ok r then Fs.Regular (new_content b image) 384 else Fs.Regular b m) in *.
  assert (∀ ns, ns ∈ Fs.moments f' → ns ∈ Fs.moments f ∨ ns !! path = Some (Fs.Regular b m) ∨ ns !! path = Some z) as Hm.
  { intros ns Hns. rewrite Forall_forall in H2. destruct (H2 ns Hns) as [[->|Hin]%elem_of_cons|Hp]; [left; by left|by left|by right]. }
  rewrite Hok. unfold env_of, z in *.
  destruct (is_ok r); (split; [done|]); rewrite H1; (split; [done|]); (split; [|done]); intros ns [|[->| ->]]%Hm; auto.
Qed.
End image.

(** ** JSON texts are read back *)

Section marshal.
Import Decoder.

(** An ASCII character, escaped or not, is one step of the scanner. *)
Lemma lex_ascii n fuel rest acc :
  (n < 128)%N → lex_string (S fuel) (escape_rune n ++ rest) acc = lex_string fuel rest (rev (encode_rune n) ++ acc).
Proof.
  intros Hn. rewrite <- (N2Nat.id n) in *. assert (N.to_nat n < 128) as H by lia. revert H. generalize (N.to_nat n) as k.
  clear n Hn. intros k Hk.
  do 128 (destruct k as [|k]; [reflexivity|]). exfalso. lia.
Qed.

Lemma lex_rune b t fuel rest acc :
  lex_string (S fuel) (escape_rune_at (decode_rune b t) ++ rest) acc =
  lex_string fuel rest (rev (encode_rune (rn (decode_rune b t))) ++ acc).
Proof.
  pose proof (decode_rune_size b t) as Hs. unfold escape_rune_at. destruct (rvalid (decode_rune b t)) eqn:Hv.
  2: { assert (rn (decode_rune b t) = 65533%N) as -> by (revert Hv; unfold decode_rune, rune_error; repeat case_match; done).
       reflexivity. }
  destruct (N.lt_ge_cases (code b) 128) as [Hb|Hb].
  { apply lex_ascii. by rewrite decode_rune_ascii. }
  pose proof (decode_rune_high b t Hb) as Hn. pose proof (encode_decode b t Hv) as He.
  set (r := decode_rune b t) in *. unfold escape_rune.
  repeat match goal with |- context [(rn r =? ?k)%N] => rewrite (proj2 (N.eqb_neq (rn r) k)) by lia end.
  rewrite (proj2 (N.ltb_ge (rn r) 32)) by lia. cbn [orb].
  destruct ((rn r =? 8232)%N || (rn r =? 8233)%N) eqn:E.
  { apply orb_true_iff in E as [->%N.eqb_eq| ->%N.eqb_eq]; reflexivity. }
  assert (take (rsize r) (b :: t) = b :: take (pred (rsize r)) t) as Htk by (destruct (rsize r); [lia|done]).
  rewrite He, Htk. set (t' := take (pred (rsize r)) t) in *.
  assert (decode_rune b (t' ++ rest) = r) as Hd.
  { assert (decode_rune b t' = r) as Ht by (apply decode_rune_take; fold r; lia).
    rewrite decode_rune_app; [done|by rewrite Ht]. }
  assert (length (b :: t') = rsize r) as Hl by (rewrite <- Htk, length_take; simpl in *; lia).
  cbn [lex_string app]. rewrite !(proj2 (N.eqb_neq (code b) _)) by lia. rewrite !(proj2 (N.ltb_ge (code b) _)) by lia.
  rewrite Hd, He, Htk. cbv zeta. f_equal. rewrite <- Hl. apply (drop_app_length (b :: t')).
Qed.

Lemma lex_escaped l fuel acc k :
  length (runes l) < fuel →
  lex_string fuel (concat (map escape_rune_at (runes l)) ++ "034"%char :: k) acc =
    Ok (rev acc ++ B (json_string (S_ l)), k).
Proof.
  unfold json_string, map_runes. rewrite !B_S_. revert fuel acc.
  induction l as [|b l IH] using runes_ind; intros fuel acc Hf.
  { destruct fuel; [simpl in Hf; lia|]. simpl. by rewrite app_nil_r. }
  rewrite runes_cons in *. destruct fuel as [|fuel]; [simpl in Hf; lia|]. cbn [map concat].
  rewrite <- app_assoc, lex_rune, IH by (simpl in Hf; lia).
  by rewrite rev_app_distr, rev_involutive, <- app_assoc.
Qed.

(** A string that is cut off before its end is no string. *)
Lemma lex_high fuel l acc : Forall (λ c, 128 ≤ code c)%N l → is_ok (lex_string fuel l acc) = false.
Proof.
  revert l acc. induction fuel as [|fuel IH]; intros l acc H; [done|].
  destruct l as [|c l1]; [done|]. cbn [lex_string]. apply Forall_cons in H as [Hc H].
  rewrite !(proj2 (N.eqb_neq (code c) _)) by lia. rewrite !(proj2 (N.ltb_ge (code c) _)) by lia.
  apply IH, Forall_drop. by constructor.
Qed.
Lemma lex_cut_unicode (c1 c2 c3 c4 : ascii) fuel k acc :
  k < 6 → is_ok (lex_string fuel (take k ("\"%char :: "u"%char :: [c1; c2; c3; c4])) acc) = false.
Proof.
  intros Hk. destruct fuel; [done|].
  do 6 (destruct k as [|k]; [by simpl; unfold unicode_escape, hex4; repeat case_match|]). lia.
Qed.
Lemma lex_cut_ascii n fuel k acc :
  (n < 128)%N → k < length (escape_rune n) → is_ok (lex_string fuel (take k (escape_rune n)) acc) = false.
Proof.
  intros Hn. rewrite <- (N2Nat.id n) in *. assert (N.to_nat n < 128) as H by lia. revert H. generalize (N.to_nat n) as m.
  clear n Hn. intros m Hm.
  do 128 (destruct m as [|m]; [intros Hk; destruct fuel; [done|];
    destruct k as [|[|[|[|[|[|k]]]]]]; vm_compute in Hk; first [reflexivity|lia]|]). lia.
Qed.
Lemma lex_cut_rune b t fuel k acc :
  k < length (escape_rune_at (decode_rune b t)) →
  is_ok (lex_string fuel (take k (escape_rune_at (decode_rune b t))) acc) = false.
Proof.
  pose proof (decode_rune_size b t) as Hs. unfold escape_rune_at. destruct (rvalid (decode_rune b t)) eqn:Hv.
  2: { intros Hk. by apply (lex_cut_unicode "f"%char "f"%char "f"%char "d"%char). }
  destruct (N.lt_ge_cases (code b) 128) as [Hb|Hb].
  { apply lex_cut_ascii. by rewrite decode_rune_ascii. }
  pose proof (decode_rune_high b t Hb) as Hn. pose proof (encode_decode b t Hv) as He.
  set (r := decode_rune b t) in *. unfold escape_rune.
  repeat match goal with |- context [(rn r =? ?k)%N] => rewrite (proj2 (N.eqb_neq (rn r) k)) by lia end.
  rewrite (proj2 (N.ltb_ge (rn r) 32)) by lia. cbn [orb].
  destruct ((rn r =? 8232)%N || (rn r =? 8233)%N) eqn:E.
  { intros Hk. by apply (lex_cut_unicode "2"%char "0"%char "2"%char (hex_char (rn r mod 16))). }
  intros _. rewrite He. apply lex_high, Forall_take. apply Forall_lookup. intros i c Hc.
  destruct i as [|i]; [destruct (rsize r); [lia|]; by injection Hc as <-|].
  apply lookup_take_Some in Hc as [Hc Hi].
  pose proof (rune_tail_cont b t (S i) c Hv ltac:(fold r; lia) Hc) as Hcont. unfold cont in Hcont.
  apply andb_true_iff in Hcont as [Hcont%N.leb_le _]. done.
Qed.
Lemma lex_cut l fuel k acc :
  k ≤ length (concat (map escape_rune_at (runes l))) →
  is_ok (lex_string fuel (take k (concat (map escape_rune_at (runes l)))) acc) = false.
Proof.
  revert fuel k acc. induction l as [|b l IH] using runes_ind; intros fuel k acc Hk.
  { rewrite runes_nil. simpl. rewrite take_nil. by destruct fuel. }
  rewrite runes_cons in *. cbn [map concat] in *. rewrite length_app in Hk.
  set (e := escape_rune_at (decode_rune b l)) in *.
  destruct (Nat.lt_ge_cases k (length e)) as [Hlt|Hge].
  - rewrite take_app_le by lia. by apply lex_cut_rune.
  - rewrite take_app_ge by lia. destruct fuel as [|fuel]; [done|]. unfold e at 1. rewrite lex_rune. apply IH. lia.
Qed.

Lemma escape_nonempty r : 0 < length (escape_rune_at r).
Proof.
  unfold escape_rune_at, escape_rune, encode_rune. repeat case_match; simpl; lia.
Qed.
Lemma escaped_length l : length l ≤ length (concat (map escape_rune_at l)).
Proof.
  induction l as [|r l IH]; simpl; [lia|]. rewrite length_app. pose proof (escape_nonempty r). lia.
Qed.

(** A marshalled string is read as the string, with invalid bytes replaced. *)
Lemma lex_marshal s k : lex_scalar (marshal_string s ++ k) = Ok (TStr (json_string s), k).
Proof.
  unfold marshal_string, lex_scalar. cbn [app]. rewrite <- app_assoc. cbn [app].
  rewrite lex_escaped; [simpl rev; cbn [app]; by rewrite (S_B s), S_B|]. rewrite length_app. simpl.
  pose proof (escaped_length (runes (B s))). lia.
Qed.

Lemma marshal_head s : ∃ l, marshal_string s = "034"%char :: l.
Proof. by eexists. Qed.
(** Reading a token that is a marshalled string. *)
Lemma token_string s k st stack :
  tokenValueAllowed st = true ∨ st = tokenObjectStart ∨ st = tokenObjectKey →
  Token (mk (marshal_string s ++ k) st stack) =
    Ok (TStr (json_string s), mk k (match st with tokenObjectStart | tokenObjectKey => tokenObjectColon | _ => tokenValueEnd st end) stack).
Proof.
  intros Hst. pose proof (lex_marshal s k) as Hl. destruct (marshal_head s) as [l Hm]. unfold Token. rewrite Hm in *.
  set (next := match st with tokenObjectStart | tokenObjectKey => tokenObjectColon | _ => tokenValueEnd st end).
  transitivity (match lex_scalar (("034"%char :: l) ++ k) with Ok (t, r) => Ok (t, mk r next stack) | Err e => Err e end);
    [|by rewrite Hl].
  destruct Hst as [H|[->| ->]]; [destruct st; try done|..]; reflexivity.
Qed.

(** The strings of an object, with what separates them. *)
Ltac token_after :=
  match goal with
  | |- Token (mk (?pre ++ marshal_string ?s ++ ?k) ?st ?stack) = Ok (_, mk _ ?next _) =>
      let l := fresh "l" in let Hm := fresh "Hm" in let Hl := fresh "Hl" in
      destruct (marshal_head s) as [l Hm]; pose proof (lex_marshal s k) as Hl; rewrite Hm in *;
      transitivity (match lex_scalar (("034"%char :: l) ++ k) with Ok (t, r) => Ok (t, mk r next stack) | Err e => Err e end);
      [reflexivity|by rewrite Hl]
  end.
Lemma first_key pre s k stack :
  pre ∈ [[]; newline :: B "  "] →
  Token (mk (pre ++ marshal_string s ++ k) tokenObjectStart stack) = Ok (TStr (json_string s), mk k tokenObjectColon stack).
Proof. intros [->|[->|[]%elem_of_nil]%elem_of_cons]%elem_of_cons; token_after. Qed.
Lemma next_key s k stack :
  Token (mk (("," :: newline :: B "  ")%char ++ marshal_string s ++ k) tokenObjectComma stack) =
    Ok (TStr (json_string s), mk k tokenObjectColon stack).
Proof. token_after. Qed.
Lemma key_value pre s k stack :
  pre ∈ [[":"%char]; B ": "] →
  Token (mk (pre ++ marshal_string s ++ k) tokenObjectColon stack) = Ok (TStr (json_string s), mk k tokenObjectComma stack).
Proof. intros [->|[->|[]%elem_of_nil]%elem_of_cons]%elem_of_cons; token_after. Qed.
Lemma object_end pre k s stack :
  pre ∈ [[]; [newline]] →
  Token (mk (pre ++ "}"%char :: k) tokenObjectComma (s :: stack)) = Ok (TDelim "}", mk k (tokenValueEnd s) stack).
Proof. intros [->|[->|[]%elem_of_nil]%elem_of_cons]%elem_of_cons; reflexivity. Qed.

Lemma value_tokens_more fuel depth d : value_tokens (S fuel) depth d =
  match Token d with
  | Err _ => None
  | Ok (t, d) =>
      match next_depth t depth with
      | O => Some ([t], d)
      | S _ => '(ts, d) ← value_tokens fuel (next_depth t depth) d; Some (t :: ts, d)
      end
  end.
Proof. reflexivity. Qed.

Lemma object_start k : Token (mk ("{"%char :: k) tokenTopValue []) = Ok (TDelim "{", mk k tokenObjectStart [tokenTopValue]).
Proof. reflexivity. Qed.

(** One token after the other. *)
Ltac value_token H :=
  let Hk := fresh "Hk" in pose proof H as Hk; cbn [app] in Hk; rewrite value_tokens_more, Hk; clear Hk;
  repeat match goal with |- context [next_depth ?t ?n] => let v := eval vm_compute in (next_depth t n) in change (next_depth t n) with v end;
  cbv iota.
Ltac enough_fuel n :=
  unfold first_value, new;
  match goal with |- context [value_tokens (S ?l) 0 _] =>
    let m := fresh "m" in assert (∃ m, S l = n + m) as [m ->];
    [exists (S l - n); cbn [length]; rewrite ?length_app; simpl; lia|cbn [Nat.add]] end.

(** An object of one string, as the administration server sends it. *)
Lemma first_value_one key s k :
  first_value ("{"%char :: marshal_string key ++ ":"%char :: marshal_string s ++ "}"%char :: k) =
    Some ([TDelim "{"; TStr (json_string key); TStr (json_string s); TDelim "}"]%char, mk k tokenTopValue []).
Proof.
  enough_fuel 4.
  value_token (object_start (marshal_string key ++ ":"%char :: marshal_string s ++ "}"%char :: k)).
  value_token (first_key [] key (":"%char :: marshal_string s ++ "}"%char :: k) [tokenTopValue] ltac:(repeat constructor)).
  value_token (key_value [":"%char] s ("}"%char :: k) [tokenTopValue] ltac:(repeat constructor)).
  value_token (object_end [] k tokenTopValue [] ltac:(repeat constructor)).
  reflexivity.
Qed.

(** The object cut off within the second string, or right after it. *)
Lemma token_cut s n stack :
  0 < n < length (marshal_string s) →
  is_ok (Token (mk (":"%char :: take n (marshal_string s)) tokenObjectColon stack)) = false.
Proof.
  intros Hn. unfold marshal_string in *. cbn [length] in Hn. rewrite length_app in Hn. simpl in Hn.
  destruct n as [|n]; [lia|]. cbn [take]. rewrite take_app_le by lia.
  pose proof (lex_cut (B s) (length (take n (concat (map escape_rune_at (runes (B s)))))) n [] ltac:(lia)) as Hl.
  set (l := take n _) in *.
  transitivity (is_ok (match lex_scalar ("034"%char :: l) with
    | Ok (t, r) => Ok (t, mk r tokenObjectComma stack) | Err e => Err e end)); [reflexivity|].
  unfold lex_scalar. by destruct (lex_string _ _ _).
Qed.
Lemma value_tokens_cut fuel key s n :
  0 < n ≤ length (marshal_string s) →
  value_tokens fuel 0 (new ("{"%char :: marshal_string key ++ ":"%char :: take n (marshal_string s))) = None.
Proof.
  intros [Hn Hl]. unfold new. destruct fuel as [|fuel]; [done|].
  value_token (object_start (marshal_string key ++ ":"%char :: take n (marshal_string s))). destruct fuel as [|fuel]; [done|].
  value_token (first_key [] key (":"%char :: take n (marshal_string s)) [tokenTopValue] ltac:(repeat constructor)).
  destruct fuel as [|fuel]; [done|].
  destruct (decide (n = length (marshal_string s))) as [->|Hne].
  - rewrite firstn_all. pose proof (key_value [":"%char] s [] [tokenTopValue] ltac:(repeat constructor)) as Hk.
    rewrite app_nil_r in Hk. value_token Hk. by destruct fuel.
  - pose proof (token_cut s n [tokenTopValue] ltac:(lia)) as Hc. rewrite value_tokens_more.
    by destruct (Token _).
Qed.

(** The agent's record of one image, or of both. *)
Lemma first_value_field key s k :
  first_value ("{"%char :: (newline :: B "  " ++ marshal_string key ++ B ": " ++ marshal_string s) ++ [newline; "}"%char] ++ k) =
    Some ([TDelim "{"; TStr (json_string key); TStr (json_string s); TDelim "}"]%char, mk k tokenTopValue []).
Proof.
  cbn [app]. rewrite <- !app_assoc. cbn [app]. set (e := newline :: _ :: k).
  enough_fuel 4.
  value_token (object_start (newline :: B "  " ++ marshal_string key ++ B ": " ++ marshal_string s ++ e)).
  value_token (first_key (newline :: B "  ") key (B ": " ++ marshal_string s ++ e) [tokenTopValue] ltac:(repeat constructor)).
  value_token (key_value (B ": ") s e [tokenTopValue] ltac:(repeat constructor)).
  subst e. value_token (object_end [newline] k tokenTopValue [] ltac:(repeat constructor)).
  reflexivity.
Qed.
Lemma first_value_fields key s key' s' k :
  first_value ("{"%char :: (newline :: B "  " ++ marshal_string key ++ B ": " ++ marshal_string s) ++
               (","%char :: newline :: B "  " ++ marshal_string key' ++ B ": " ++ marshal_string s') ++ [newline; "}"%char] ++ k) =
    Some ([TDelim "{"; TStr (json_string key); TStr (json_string s); TStr (json_string key'); TStr (json_string s');
           TDelim "}"]%char, mk k tokenTopValue []).
Proof.
  cbn [app]. rewrite <- !app_assoc. cbn [app]. rewrite <- ?app_assoc. set (e := newline :: _ :: k).
  enough_fuel 6.
  set (e' := (","%char :: newline :: B "  " ++ marshal_string key' ++ B ": " ++ marshal_string s' ++ e)).
  value_token (object_start (newline :: B "  " ++ marshal_string key ++ B ": " ++ marshal_string s ++ e')).
  value_token (first_key (newline :: B "  ") key (B ": " ++ marshal_string s ++ e') [tokenTopValue] ltac:(repeat constructor)).
  value_token (key_value (B ": ") s e' [tokenTopValue] ltac:(repeat constructor)). subst e'.
  value_token (next_key key' (B ": " ++ marshal_string s' ++ e) [tokenTopValue]).
  value_token (key_value (B ": ") s' e [tokenTopValue] ltac:(repeat constructor)).
  subst e. value_token (object_end [newline] k tokenTopValue [] ltac:(repeat constructor)).
  reflexivity.
Qed.
End marshal.

Section records.
Context `{U : Unicode}.

Lemma json_string_empty : json_string "" = ""%string.
Proof. reflexivity. Qed.

(** C35. The agent's record survives a restart: what [saveStateLocked] writes is
    read back by [loadState] as the images, with bytes that are no UTF-8
    replaced. *)
Theorem state_roundtrip s :
  unmarshal_state (marshal_state s ++ [newline]) (persistentState.mk "" "") =
  persistentState.mk (json_string (persistentState.PreviousImage s)) (json_string (persistentState.CurrentImage s)).
Proof.
  destruct s as [p c]. unfold marshal_state, state_fields, unmarshal_state. simpl persistentState.PreviousImage; simpl persistentState.CurrentImage.
  assert (json_string "previous_image" = "previous_image"%string ∧ json_string "current_image" = "current_image"%string) as [Hp Hc]
    by (by rewrite !json_string_valid by (vm_compute; reflexivity)).
  cbn [List.filter snd]. destruct (String.eqb_spec p ""), (String.eqb_spec c ""); subst; cbn [negb].
  - reflexivity.
  - cbn [map join_bytes]. rewrite <- app_comm_cons, <- app_assoc. unfold marshal_field. cbn [fst snd].
    by rewrite first_value_field, Hc.
  - cbn [map join_bytes]. rewrite <- app_comm_cons, <- app_assoc. unfold marshal_field. cbn [fst snd].
    by rewrite first_value_field, Hp.
  - cbn [map join_bytes]. rewrite <- app_comm_cons, <- !app_assoc. unfold marshal_field. cbn [fst snd].
    pose proof (first_value_fields "previous_image" p "current_image" c [newline]) as H. cbn [app] in *.
    by rewrite H, Hp, Hc.
Qed.

Lemma update_body_eq v :
  update_body v = ("{"%char :: marshal_string "version" ++ [":"%char]) ++ marshal_string v ++ ["}"%char].
Proof. unfold update_body. by rewrite <- app_comm_cons, <- app_assoc. Qed.

(** What the agent reads of a request to update: the version, unless the
    request is longer than it accepts. *)
Lemma decode_update_body v :
  decode_update (update_body v) =
    if (Z.of_nat (length (update_body v)) <=? 4096)%Z then Some (json_string v) else None.
Proof.
  unfold decode_update. destruct (Z.leb_spec (Z.of_nat (length (update_body v))) 4096) as [Hl|Hl].
  - rewrite take_ge by lia. unfold update_body.
    rewrite (first_value_one "version" v []).
    assert (json_string "version" = "version"%string) as -> by (rewrite json_string_valid; [done|vm_compute; reflexivity]).
    reflexivity.
  - assert (length ("{"%char :: marshal_string "version" ++ [":"%char]) = 11) as Hp by (vm_compute; reflexivity).
    rewrite update_body_eq in *. set (pre := "{"%char :: marshal_string "version" ++ [":"%char]) in *.
    rewrite !length_app, Hp in Hl. cbn [length] in Hl.
    rewrite take_app_ge, Hp by lia. rewrite take_app_le by lia.
    set (n := Z.to_nat 4096 - 11) in *. assert (0 < n ≤ length (marshal_string v)) as Hn by lia.
    unfold first_value. generalize (S (length (pre ++ take n (marshal_string v)))) as fuel. intros fuel.
    pose proof (value_tokens_cut fuel "version" v n Hn) as Hc.
    subst pre. rewrite <- app_comm_cons, <- app_assoc. cbn [app]. by rewrite Hc.
Qed.
End records.

(** ** The interface *)

Section interface.
Context `{U : Unicode, R : Regexp, C : Cipher, UL : UrlLib, AR : Argon2, NL : NetLib, SQL : SqlFunctions}.
Context `{SA : SqlAverage, AQ : AdminRequest, TL : TimeLib}.

(** C34. A release an administrator asks for is the one the agent starts on.
    The administration server, connected to the agent, is sent
    [POST /api/v1/system/update]; [v] is the version its JSON body holds.  The
    request reaches the agent's update handler with this version: a request
    longer than 4096 bytes is answered 400; a blank version stands for the
    latest release, 502 when that is not known; what is no version 400; and 409
    while an operation runs; none of these changes the agent but for its cache
    of the latest release.  Otherwise the agent answers 202 and starts an update
    to exactly this version (bytes that are no UTF-8 replaced, as in every JSON
    text).  The administrator gets the agent's status, with the version on
    success, and nothing else of the server changes. *)
Theorem update_request_end_to_end {RT : Type} (s : AdminServer RT) io clock hash error_text Version r (w : world RT)
    now fetch (a : agent) v :
  blank (UpdaterSocket s) = false → unix_updater s = call_agent now fetch a →
  URL.Path (HttpRequest.URL r) = "/api/v1/system/update"%string → HttpRequest.Method r = "POST"%string →
  decoded r decode_version maxBody = inr v →
  let '(reply, w') := api s io clock hash error_text Version r w in
  let '(answer, started, a') := agent_mux now fetch "POST" "/v1/update" (update_body v) a in
  let asked := trim_space (json_string v) in
  let '(found, cache) := if (asked =? "")%string then latest now fetch (ag_latest a) else (Ok asked, ag_latest a) in
  let refused status := answer.1 = status ∧ started = None ∧ ag_updater a' = ag_updater a in
  w' = w ∧ Response.status reply = answer.1 ∧
  if (4096 <? Z.of_nat (length (update_body v)))%Z then refused 400%Z ∧ a' = a
  else
    ag_latest a' = cache ∧
    match found with
    | Err _ => refused 502%Z
    | Ok version =>
        if negb (versionPattern version) then refused 400%Z
        else if (operation.State (op (ag_updater a)) =? "running")%string then refused 409%Z
        else answer.1 = 202%Z ∧ started = Some (UpdateTask version) ∧
             operation.State (op (ag_updater a')) = "running"%string ∧
             operation.Target (op (ag_updater a')) = version ∧
             (∃ fields, Response.body reply = PUpdater fields ∧
                fields !! "target_version"%string = Some (JText version))
    end.
Proof.
  intros Hsocket Hagent Hpath Hmethod Hbody.
  assert (api s io clock hash error_text Version r w =
    (updater_reply "update_rejected" "无法开始更新" (call_agent now fetch a "POST" "/v1/update" (Some v)), w)) as ->.
  { unfold api. rewrite Hpath, Hmethod.
    transitivity (systemUpdate s Version r w); [reflexivity|]. unfold systemUpdate. rewrite Hmethod. cbn [String.eqb Ascii.eqb Bool.eqb].
    unfold decodeJSON, decodeJSONLimit. rewrite Hbody. unfold callUpdater. by rewrite Hsocket, Hagent. }
  unfold call_agent, agent_mux. simpl String.eqb. cbv iota. unfold serve_update.
  rewrite decode_update_body, Z.leb_antisym. set (asked := trim_space (json_string v)).
  destruct (4096 <? _)%Z; cbn [negb]; [destruct (if (asked =? "")%string then _ else _); by destruct a|].
  fold asked. unfold handleUpdate. fold asked.
  assert (∀ found cache, (found, cache) = (if (asked =? "")%string then latest now fetch (ag_latest a) else (Ok asked, ag_latest a)) →
    (if (asked =? "")%string then match (if (asked =? "")%string then latest now fetch (ag_latest a) else (Err (), ag_latest a)).1 with
                                  | Ok v => Some v | Err _ => None end else Some asked) =
    match found with Ok v => Some v | Err _ => None end ∧
    (if (asked =? "")%string then latest now fetch (ag_latest a) else (Err (), ag_latest a)).2 = cache) as Hfound.
  { intros found cache H. destruct (asked =? "")%string; [by rewrite <- H|by injection H as -> ->]. }
  destruct (if (asked =? "")%string then latest now fetch (ag_latest a) else (Ok asked, ag_latest a)) as [found cache] eqn:Ef.
  specialize (Hfound found cache eq_refl).
  destruct (if (asked =? "")%string then latest now fetch (ag_latest a) else (Err (), ag_latest a)) as [lat cache'].
  cbn [fst snd] in Hfound. destruct Hfound as [Hfound ->]. rewrite Hfound.
  destruct found as [version|e]; [|by destruct a].
  destruct (versionPattern version); cbn [negb]; [|by destruct a].
  unfold start, mbind, M_bind. destruct (operation.State (op (ag_updater a)) =? "running")%string eqn:E; [by destruct a|].
  simpl. split_and!; try done. eexists. split; [reflexivity|]. by simplify_map_eq.
Qed.

(** What is known after a call that succeeded. *)
Lemma fs_bind_ok {A B} (m : Fs.M A) (k : A → Fs.M B) f b f' :
  (m ≫= k) f = (Ok b, f') → ∃ a f1, m f = (Ok a, f1) ∧ k a f1 = (Ok b, f').
Proof. unfold mbind, Fs.M_bind. destruct (m f) as [[a|e] f1]; [eauto|done]. Qed.
Lemma call_ok {A} sys (g : gmap string Fs.node → result Fs.error (A * gmap string Fs.node)) f a f' :
  Fs.call sys g f = (Ok a, f') → g (Fs.nodes f) = Ok (a, Fs.nodes f').
Proof.
  unfold Fs.call. destruct (sys _); [done|]. destruct (g _) as [[a' ns]|e]; [|done]. by intros [= -> <-].
Qed.
Lemma or_close_ok sys path m f f' : or_close sys path m f = (Ok (), f') → m f = (Ok (), f').
Proof.
  unfold or_close, mbind, Fs.M_bind. rewrite try_run. destruct (m f) as [[[]|e] f1]; cbn [fst snd]; [done|].
  by rewrite try_run.
Qed.

(** What a file system still has of [f0], except at one path. *)
Section around.
Context (sys : nat → option nat) (f0 : Fs.t) (path : string).
Definition others_stand (f : Fs.t) : Prop :=
  ∀ q n, q ≠ path → Fs.nodes f0 !! q = Some n → Fs.nodes f !! q = Some n.
Lemma call_others {A} (g : gmap string Fs.node → result Fs.error (A * gmap string Fs.node)) :
  (∀ ns a ns' q n, g ns = Ok (a, ns') → q ≠ path → ns !! q = Some n → ns' !! q = Some n) →
  keeps_fs others_stand (Fs.call sys g).
Proof.
  intros Hg f Hf q n Hq Hn. specialize (Hf q n Hq Hn). unfold Fs.call.
  destruct (sys _); [done|]. destruct (g _) as [[a ns]|e] eqn:E; [|done]. by eapply Hg.
Qed.
Lemma mkdirs_others ps : keeps_fs others_stand (Fs.mkdirs sys ps).
Proof.
  induction ps as [|p ps IH]; [apply fs_ret|]. apply fs_bind; [|done]. apply call_others.
  intros ns a ns' q n E Hq Hn. destruct (ns !! p) as [[]|] eqn:Ep; [done|done| |]; injection E as <- <-; [done|].
  rewrite lookup_insert_ne; [done|]. intros ->. congruence.
Qed.
Lemma remove_others : keeps_fs others_stand (Fs.Remove sys path).
Proof.
  apply call_others. intros ns a ns' q n E Hq Hn. destruct (ns !! path); [|done]. injection E as <- <-.
  by rewrite lookup_delete_ne.
Qed.
Lemma on_socket_others g : keeps_fs others_stand (on_socket sys path g).
Proof.
  apply call_others. intros ns a ns' q n E Hq Hn. destruct (ns !! path) as [[]|]; try done. injection E as <- <-.
  by rewrite lookup_insert_ne.
Qed.
Lemma or_close_others m : keeps_fs others_stand m → keeps_fs others_stand (or_close sys path m).
Proof.
  intros Hm. apply fs_bind; [by apply fs_try|]. intros [|e]; [apply fs_ret|].
  apply fs_bind; [apply fs_try, remove_others|intros ?; apply fs_fail].
Qed.
Lemma listen_others umask gid : keeps_fs others_stand (listenUnix sys umask path gid).
Proof.
  unfold listenUnix. apply fs_bind; [apply mkdirs_others|intros _].
  apply fs_bind; [apply fs_try, call_others; intros ns a ns' q n E Hq Hn|intros info].
  { destruct (ns !! path); [|done]. by injection E as <- <-. }
  apply fs_bind; [|intros _; apply fs_bind; [|intros _; apply fs_bind; [|intros _]]].
  - destruct info as [n|[]]; try apply fs_fail; [|apply fs_ret].
    destruct (negb _); [apply fs_fail|apply remove_others].
  - apply call_others. intros ns a ns' q n E Hq Hn. destruct (ns !! path); [done|]. injection E as <- <-.
    by rewrite lookup_insert_ne.
  - apply or_close_others, on_socket_others.
  - destruct (0 <=? gid)%Z; [apply or_close_others, on_socket_others|apply fs_ret].
Qed.
End around.

(** C36. The agent's socket.  [listenUnix] never replaces anything but a socket:
    when the path holds another kind of file it is an error and the file stays.
    When it succeeds, on a path that was free (the usual start) as on one that
    held an old socket, the path is a socket with the mode 0660 and, unless the
    group is negative, with this group.  In every case all other files that were
    there are what they were. *)
Theorem listenUnix_guard sys umask path gid f r f' :
  listenUnix sys umask path gid f = (r, f') →
  (∀ n, Fs.nodes f !! path = Some n → is_socket n = false → is_ok r = false ∧ Fs.nodes f' !! path = Some n) ∧
  (is_ok r = true → ∃ g, Fs.nodes f' !! path = Some (Fs.Socket 432 g) ∧ ((0 ≤ gid)%Z → g = Some gid)) ∧
  (∀ q m, q ≠ path → Fs.nodes f !! q = Some m → Fs.nodes f' !! q = Some m).
Proof.
  intros E. split; [|split].
  - intros n Hn Hs. revert E. unfold listenUnix, Fs.MkdirAll, mbind, Fs.M_bind.
    pose proof (mkdirs_stands sys f path n n (Fs.prefixes (split_bytes (B (filepath.Dir path)) "/") []) f
      (stands_start f path n n Hn)) as Hm.
    destruct (Fs.mkdirs _ _ f) as [[[]|e] f1]; cbn [snd] in Hm; apply b_path in Hm as Hp; [|by intros [= <- <-]].
    rewrite try_run. unfold Fs.Lstat, Fs.call at 1 2. rewrite Hp.
    destruct (sys (Fs.calls f1)); cbn [fst snd]; [by intros [= <- <-]|]. rewrite Hs. by intros [= <- <-].
  - intros Hok. destruct r as [[]|e]; [clear Hok|done]. unfold listenUnix in E.
    apply fs_bind_ok in E as (? & f1 & _ & E). apply fs_bind_ok in E as (info & f2 & _ & E).
    apply fs_bind_ok in E as (? & f3 & _ & E).
    apply fs_bind_ok in E as (? & f4 & H4%call_ok & E). destruct (Fs.nodes f3 !! path); [done|]. injection H4 as _ H4.
    apply fs_bind_ok in E as ([] & f5 & H5%or_close_ok%call_ok & E).
    rewrite <- H4, lookup_insert_eq in H5. injection H5 as H5. destruct (Z.leb_spec 0 gid).
    + apply or_close_ok, call_ok in E. rewrite <- H5, lookup_insert_eq in E. injection E as <-.
      exists (Some gid). split; [apply lookup_insert_eq|done].
    + injection E as <-. exists None. rewrite <- H5. split; [apply lookup_insert_eq|lia].
  - assert (others_stand f path f) as Hstart by (intros ?; auto). apply (listen_others sys f path umask gid) in Hstart as Hend.
    rewrite E in Hend. exact Hend.
Qed.
End interface.

(** ** Witnesses *)

Section agent_witnesses.
#[local] Existing Instances Demo.url Demo.cipher Demo.argon Demo.net Demo.sql Demo.average Demo.times Demo.requests literal_regexp.
Definition demo_env_path : string := "/opt/guard/.env".
Definition demo_env_text : bytes := B "PORT=1" ++ [newline] ++ B "NCG_IMAGE=old" ++ [newline].
Definition demo_files : Fs.t := Fs.mk {[demo_env_path := Fs.Regular demo_env_text 416]} [] 0.
Definition demo_agent_updater : updater :=
  mk_updater operation.idle (persistentState.mk "" "") (Some demo_env_text) None None 0 0.
Definition demo_full_disk : outside := mk_outside (λ _, true) (λ _, None) (λ _, false) (λ _, true) (λ _, []).
(** The write of the temporary file fails after three bytes. *)
Definition failing_write (n : nat) : option nat := if (n =? 5)%nat then Some 3 else None.
Definition demo_write (sys : nat → option nat) : result Fs.error unit * Fs.t :=
  writeImage_file sys (λ _, "1"%string) demo_env_path (demo_digest "a") demo_files.

Lemma writeImage_all_or_nothing_witness :
  is_ok (demo_write (λ _, None)).1 = true ∧ is_ok (demo_write failing_write).1 = false ∧
  readImage (env_of demo_env_path (Fs.nodes (demo_write (λ _, None)).2)) = Some (demo_digest "a") ∧
  env_of demo_env_path (Fs.nodes (demo_write failing_write).2) = Some demo_env_text.
Proof.
  assert (is_ok (demo_write (λ _, None)).1 = true) as Hok by (vm_compute; reflexivity).
  assert (is_ok (demo_write failing_write).1 = false) as Hbad by (vm_compute; reflexivity).
  split; [exact Hok|]. split; [exact Hbad|]. split; [vm_compute; reflexivity|].
  pose proof (writeImage_all_or_nothing failing_write (λ _, "1"%string) demo_full_disk demo_env_path (demo_digest "a")
    demo_agent_updater demo_files (demo_write failing_write).1 (demo_write failing_write).2 eq_refl
    (surjective_pairing _) (eq_sym Hbad)) as H.
  destruct (writeImage _ _ _) as [ok u'] eqn:E. destruct H as (_ & <- & _).
  assert (env_file (writeImage demo_full_disk (demo_digest "a") demo_agent_updater).2 = Some demo_env_text) as Hu
    by (vm_compute; reflexivity).
  rewrite E in Hu. exact Hu.
Defined.

Definition demo_agent : agent := mk_agent demo_agent_updater (mk_latest "" 0 false).
(** The administration server connected to this agent, and a request to update. *)
Definition demo_connected : AdminServer unit :=
  mk_server "up" false 0 None None None None None "/run/agent.sock" (call_agent hour (Err ()) demo_agent).
Definition demo_update : HttpRequest.t := Demo.request "POST" "/api/v1/system/update" (B " v1.2.3") [].

Lemma update_request_end_to_end_witness :
  Response.status (api demo_connected Demo.io (λ _, hour) demo_hash (λ _, ""%string) "1.0" demo_update
                     (mk_world Demo.database ∅ ())).1 = 202%Z ∧
  (agent_mux hour (Err ()) "POST" "/v1/update" (update_body " v1.2.3") demo_agent).1.2 = Some (UpdateTask "v1.2.3").
Proof.
  pose proof (update_request_end_to_end demo_connected Demo.io (λ _, hour) demo_hash (λ _, ""%string) "1.0" demo_update
    (mk_world Demo.database ∅ ()) hour (Err ()) demo_agent " v1.2.3" ltac:(vm_compute; reflexivity) eq_refl
    ltac:(vm_compute; reflexivity) ltac:(vm_compute; reflexivity) ltac:(vm_compute; reflexivity)) as H.
  assert (trim_space (json_string " v1.2.3") = "v1.2.3"%string) as Ht by (vm_compute; reflexivity).
  assert ((4096 <? Z.of_nat (length (update_body " v1.2.3")))%Z = false) as Hl by (vm_compute; reflexivity).
  rewrite Ht, Hl in H. destruct (api _ _ _ _ _ _ _ _) as [reply w'].
  destruct (agent_mux hour (Err ()) "POST" "/v1/update" (update_body " v1.2.3") demo_agent) as [[answer started] a'].
  simpl in H. destruct H as (_ & Hr & _ & Ha & Hs & _). cbn [fst snd]. rewrite Hr. split; [exact Ha|exact Hs].
Defined.

Definition demo_socket_path : string := "/run/agent.sock".
(** The first start: no file, and the group 5. *)
Definition demo_no_files : Fs.t := Fs.mk ∅ [] 0.
Lemma listenUnix_guard_witness :
  is_ok (listenUnix (λ _, None) 18 demo_socket_path 5 demo_no_files).1 = true ∧
  Fs.nodes (listenUnix (λ _, None) 18 demo_socket_path 5 demo_no_files).2 !! demo_socket_path = Some (Fs.Socket 432 (Some 5%Z)).
Proof.
  destruct (listenUnix_guard (λ _, None) 18 demo_socket_path 5 demo_no_files _ _ (surjective_pairing _)) as (_ & H & _).
  assert (is_ok (listenUnix (λ _, None) 18 demo_socket_path 5 demo_no_files).1 = true) as Hok by (vm_compute; reflexivity).
  split; [exact Hok|]. destruct (H Hok) as (g & Hg & Hgid). rewrite Hg, Hgid; [reflexivity|lia].
Defined.
End agent_witnesses.
