(* ===== verification/AdminTheorems.v ===== *)
(** * Theorems on the administration server

    Who gets in, how often a password can be tried, what an answer may
    contain, and when a change takes effect in the running program. *)

From S2P Require Export RuntimeTheorems Admin Demo.

(** ** Access *)

Section access.
Context `{U : Unicode, R : Regexp, C : Cipher, UL : UrlLib, AR : Argon2, NL : NetLib, SQL : SqlFunctions}.
Context `{SA : SqlAverage, AQ : AdminRequest, TL : TimeLib}.
Context {RT : Type} (s : AdminServer RT).
Context (io : nat → bool) (clock : nat → Time) (hashPlaintext : string → string).
Context (error_text : store_err → string) (raw csrfRaw : option bytes) (Version : string).

(** A session of the database that has not expired. *)
Definition live_session (now : Time) (d : db) (token user csrf : string) : Prop :=
  ∃ row t, session_of hashPlaintext d token = Some row ∧ parse_time (SessionRow.ExpiresAt row) = Some t ∧
    (now ≤ t)%Z ∧ SessionRow.Username row = user ∧ SessionRow.Csrf row = csrf.

(** At most the session of this cookie is deleted, and only when it is over (or
    its end cannot be read): no other row of any table has changed. *)
Definition drops_dead_session (now : Time) (token : string) (d d' : db) : Prop :=
  d' = d ∨
  ∃ row, session_of hashPlaintext d token = Some row ∧
    (∀ t, parse_time (SessionRow.ExpiresAt row) = Some t → (t < now)%Z) ∧
    d' = set_sessions d (delete (hashToken hashPlaintext token) (admin_sessions (conf d))).

Lemma Session_cases now token c r c' :
  Session hashPlaintext io now token c = (r, c') →
  match r with
  | Ok (Some (user, csrf)) => tables c' = tables c ∧ live_session now (tables c) token user csrf
  | _ => drops_dead_session now token (tables c) (tables c')
  end.
Proof.
  unfold Session. rewrite attempt_bind.
  destruct (exec io _ c) as [[row|e] c1] eqn:E; cbn [fst snd].
  - apply exec_inv in E. destruct (admin_sessions _ !! _) as [row'|] eqn:Erow; [|done]. injection E as <- E.
    assert (∀ r c', (∀ t0, parse_time (SessionRow.ExpiresAt row') = Some t0 → (t0 < now)%Z) →
      (attempt (delete_session hashPlaintext io token);; mret None) c1 = (r, c') →
      r = Ok (None : option (string * string)) ∧ drops_dead_session now token (tables c) (tables c')) as Hdel.
    { intros r0 c0 Hdead. rewrite attempt_bind. intros [= <- <-]. split; [done|]. rewrite E. unfold delete_session, exec.
      destruct (io _); [|by left]. right. exists row'. by rewrite <- E. }
    destruct (parse_time _) as [t|] eqn:Et; [|intros Hr; apply Hdel in Hr as [-> Hr]; done].
    destruct (Z.ltb_spec t now); [intros Hr; apply Hdel in Hr as [-> Hr]; [done|by intros ? [= <-]]|]. intros [= <- <-]. split; [done|].
    exists row', t. by split_and!.
  - intros [= <- <-]. unfold exec in E. destruct (io _); [|injection E as _ <-; by left].
    destruct (admin_sessions _ !! _); [done|]. injection E as _ <-. by left.
Qed.

(** C15. Access control: a request under /api/v1/, except a login, reaches a
    handler only with the cookie of a session that the database holds and that
    has not expired, and, unless it only reads, with the CSRF token of that
    session in header and cookie; nothing has changed by then, and the handler
    sees the user of the session whatever the client sent.  A request with such
    a session but without its CSRF token is answered with 403 and changes
    nothing.  Every other one is answered with 401, and the only change it can
    make is that the row of its own cookie is deleted, when that session is over
    or its end cannot be read. *)
Theorem access_control dist_has files r w a w' :
  let path := URL.Path (HttpRequest.URL r) in
  has_prefix path "/api/v1/" = true →
  (path =? "/api/v1/auth/login")%string && (HttpRequest.Method r =? "POST")%string = false →
  mux s io clock hashPlaintext error_text raw csrfRaw Version dist_has files r w = (a, w') →
  (∃ token user csrf w1,
     request_Cookie r sessionCookie = Some token ∧
     live_session (clock 1) (tables (w_conn w)) token user csrf ∧
     (safe_method (HttpRequest.Method r) = true ∨ csrf_ok r csrf = true) ∧
     tables (w_conn w1) = tables (w_conn w) ∧ w_limiter w1 = w_limiter w ∧ w_runtime w1 = w_runtime w ∧
     Get (HttpRequest.header (HttpRequest.set_header r (Header_Set (HttpRequest.header r) admin_header user)))
       admin_header = user ∧
     api s io clock hashPlaintext error_text Version
       (HttpRequest.set_header r (Header_Set (HttpRequest.header r) admin_header user)) w1 = (a, w')) ∨
  (w_limiter w' = w_limiter w ∧ w_runtime w' = w_runtime w ∧
   (Response.status a = 403%Z ∧ tables (w_conn w') = tables (w_conn w) ∧
      (∃ token user csrf, request_Cookie r sessionCookie = Some token ∧
         live_session (clock 1) (tables (w_conn w)) token user csrf ∧
         safe_method (HttpRequest.Method r) = false ∧ csrf_ok r csrf = false) ∨
    Response.status a = 401%Z ∧
      match request_Cookie r sessionCookie with
      | Some token => drops_dead_session (clock 1) token (tables (w_conn w)) (tables (w_conn w'))
      | None => tables (w_conn w') = tables (w_conn w)
      end)).
Proof.
  intros path Hp Hl. unfold mux. fold path.
  assert ((path =? "/_nocyber/healthz") = false ∧ (path =? "/_nocyber/readyz") = false)%string as [-> ->].
  { split; apply String.eqb_neq; intros Hx; rewrite Hx in Hp; vm_compute in Hp; discriminate. }
  cbn [andb]. rewrite Hl, Hp. clear Hl Hp. unfold requireAuth.
  destruct (request_Cookie r sessionCookie) as [token|] eqn:Ecookie; [|by intros [= <- <-]; right; split_and!; [..|right]].
  unfold mbind, Admin_bind, store.
  destruct (Session hashPlaintext io (clock 1) token (w_conn w)) as [r1 c1] eqn:E.
  apply Session_cases in E. destruct r1 as [[[user csrf]|]|e].
  - destruct E as [Ht Hlive]. destruct (negb _ && negb _) eqn:Eg.
    + intros [= <- <-]. right. split; [done|]. split; [done|]. left. simpl. split; [done|]. split; [done|].
      to_prop. by exists token, user, csrf.
    + intros Ha. left. exists token, user, csrf, (mk_world c1 (w_limiter w) (w_runtime w)). split_and!; try done.
      * apply andb_false_iff in Eg as [Eg|Eg]; to_prop; auto.
      * unfold Get, Values, Header_Set. simpl. by rewrite lookup_insert_eq.
  - intros [= <- <-]. right. split; [done|]. split; [done|]. by right.
  - intros [= <- <-]. right. split; [done|]. split; [done|]. by right.
Qed.
End access.

(** ** The login limiter *)

(** One login request: when it is limited, answered and from where. *)
Section logins.
Context `{U : Unicode, R : Regexp, C : Cipher, UL : UrlLib, AR : Argon2, NL : NetLib, AQ : AdminRequest}.
Context {RT : Type} (s : AdminServer RT) (hashPlaintext : string → string).

Record visit : Type := mk_visit {
  v_request : HttpRequest.t; v_io : nat → bool; v_clock : nat → Time; v_raw : option bytes; v_csrf : option bytes;
}.
Definition answer (v : visit) (w : world RT) : Response.t * world RT :=
  login s (v_io v) (v_clock v) hashPlaintext (v_raw v) (v_csrf v) (v_request v) w.

(** The times of the wrong passwords of an address since its last login. *)
Fixpoint wrong_passwords (ip : string) (vs : list visit) (w : world RT) (wrong : list Time) : list Time :=
  match vs with
  | [] => wrong
  | v :: vs =>
      let '(a, w) := answer v w in
      wrong_passwords ip vs w
        (if (remote_host (v_request v) =? ip)%string
         then if (Response.status a =? 401)%Z then wrong ++ [v_clock v 2]
              else if (Response.status a =? 200)%Z then [] else wrong
         else wrong)
  end.

(** Requests that are answered one after the other. *)
Fixpoint in_order (now : Time) (vs : list visit) : Prop :=
  match vs with
  | [] => True
  | v :: vs => (now ≤ v_clock v 0 ≤ v_clock v 2)%Z ∧ in_order (v_clock v 2) vs
  end.

Definition within_minute (a : Time) (ts : list Time) : nat := countb (λ t, (a <? t) && (t <=? a + minute))%Z ts.

Lemma limiter_step_eq {A} (f : loginLimiter → A * loginLimiter) (w : world RT) a l :
  f (w_limiter w) = (a, l) → limiter_step f w = (a, mk_world (w_conn w) l (w_runtime w)).
Proof. unfold limiter_step. by intros ->. Qed.

Lemma login_cases v w a w' :
  answer v w = (a, w') →
  let ip := remote_host (v_request v) in
  let '(allowed, l) := limiter_allow ip (v_clock v 0) (w_limiter w) in
  if (Response.status a =? 401)%Z then allowed = true ∧ w_limiter w' = limiter_fail ip (v_clock v 2) l
  else if (Response.status a =? 200)%Z then w_limiter w' = limiter_success ip l
  else w_limiter w' = l.
Proof.
  unfold answer, login. intros H. cbv zeta in *. set (ip := remote_host (v_request v)) in *.
  destruct (limiter_allow ip _ _) as [allowed l] eqn:El. revert H.
  unfold mbind at 1, Admin_bind at 1. cbv beta. rewrite (limiter_step_eq _ _ _ _ El).
  destruct allowed; cbn [negb]; [|by intros [= <- <-]].
  unfold decodeJSON, decodeJSONLimit. destruct (decoded _ _ _) as [message|[username password]]; [by intros [= <- <-]|].
  unfold mbind, Admin_bind, store.
  destruct (Login _ _ _ _ _ _ _ _) as [[[[token csrf] exp]|e] c1]; by intros [= <- <-].
Qed.

(** What the limiter remembers of an address is, for the last minute, exactly
    its wrong passwords, and there are never more than five in a minute. *)
Definition recent_count (t0 : Time) (ts : list Time) : nat := countb (λ t, (t0 - minute <? t)%Z) ts.
Definition limiter_inv (ip : string) (now : Time) (l : gmap string (list Time)) (wrong : list Time) : Prop :=
  (∀ t0, (now ≤ t0)%Z → recent_count t0 (default [] (l !! ip)) = recent_count t0 wrong) ∧
  (∀ a, within_minute a wrong ≤ 5).

Lemma limiter_allow_other ip ip' t l : ip ≠ ip' → (limiter_allow ip t l).2 !! ip' = l !! ip'.
Proof. intros H. by apply lookup_insert_ne. Qed.
Lemma limiter_allow_inv ip ip' now t l wrong :
  (now ≤ t)%Z → limiter_inv ip now l wrong → limiter_inv ip t (limiter_allow ip' t l).2 wrong.
Proof.
  intros Ht [H1 H2]. split; [|done]. intros t0 Ht0. rewrite <- H1 by lia.
  destruct (decide (ip' = ip)) as [->|Hne]; [|by rewrite limiter_allow_other].
  unfold limiter_allow. simpl. rewrite lookup_insert_eq. simpl. apply countb_filter. intros x Hx. to_prop. lia.
Qed.
Lemma limiter_allowed ip now t l wrong :
  (now ≤ t)%Z → limiter_inv ip now l wrong → (limiter_allow ip t l).1 = true → recent_count t wrong < 5.
Proof.
  intros Ht [H1 _]. unfold limiter_allow. simpl. rewrite length_filter_countb. intros H. to_prop.
  rewrite <- H1 by done. exact H.
Qed.
Lemma limiter_fail_inv ip t t' l wrong :
  (t ≤ t')%Z → limiter_inv ip t l wrong → recent_count t wrong < 5 →
  limiter_inv ip t' (limiter_fail ip t' l) (wrong ++ [t']).
Proof.
  intros Ht [H1 H2] H. split.
  - intros t0 Ht0. unfold limiter_fail, recent_count. rewrite lookup_insert_eq. simpl. rewrite !countb_app.
    f_equal. apply H1. lia.
  - intros a. unfold within_minute. rewrite countb_app. simpl. destruct (_ && _) eqn:E; [|specialize (H2 a); unfold within_minute in H2; lia].
    assert (countb (λ x, (a <? x) && (x <=? a + minute))%Z wrong ≤ recent_count t wrong); [|lia].
    apply countb_mono. intros x Hx. to_prop. lia.
Qed.

Lemma wrong_passwords_inv ip now vs w wrong :
  in_order now vs → limiter_inv ip now (w_limiter w) wrong →
  ∀ a, within_minute a (wrong_passwords ip vs w wrong) ≤ 5.
Proof.
  revert now w wrong. induction vs as [|v vs IH]; intros now w wrong Ho Hi a; [apply Hi|].
  destruct Ho as [[Hn Hc] Ho]. cbn [wrong_passwords]. destruct (answer v w) as [r w'] eqn:E.
  apply login_cases in E. cbv zeta in E. set (ip' := remote_host (v_request v)) in *.
  pose proof (limiter_allow_inv ip ip' _ _ _ _ Hn Hi) as Hl.
  pose proof (limiter_allowed ip _ _ _ _ Hn Hi) as Ha.
  destruct (limiter_allow ip' _ _) as [allowed l] eqn:El. cbn [fst snd] in *.
  apply (IH _ _ _ Ho). clear IH Ho.
  assert (∀ l', l' !! ip = l !! ip → limiter_inv ip (v_clock v 2) l' wrong) as Hsame.
  { intros l' Hl'. split; [|apply Hl]. intros t0 Ht0. rewrite Hl'. apply Hl. lia. }
  destruct (String.eqb_spec ip' ip) as [Heq|Hne].
  - rewrite Heq in *. destruct (Z.eqb_spec (Response.status r) 401) as [|].
    + destruct E as [-> ->]. rewrite El in Ha. eapply limiter_fail_inv; eauto.
    + destruct (Z.eqb_spec (Response.status r) 200) as [|]; rewrite E; [|by apply Hsame].
      split; [|by intros; compute; lia]. intros. unfold limiter_success. by rewrite lookup_delete_eq.
  - destruct (Response.status r =? 401)%Z; [destruct E as [_ ->]|destruct (Response.status r =? 200)%Z; rewrite E];
      apply Hsame; [by apply lookup_insert_ne|by apply lookup_delete_ne|done].
Qed.

(** C16. The login limit: when logins are answered one after the other,
    whatever they say and wherever they come from, no address has more than
    five wrong passwords refused in any minute since its last login; the
    further ones are not looked at. *)
Theorem login_failures_bounded ip now vs w a :
  w_limiter w = ∅ → in_order now vs → within_minute a (wrong_passwords ip vs w []) ≤ 5.
Proof.
  intros Hw Ho. eapply wrong_passwords_inv; [exact Ho|]. rewrite Hw. split; [done|]. intros. compute. lia.
Qed.
End logins.

(** ** Witnesses *)

Section admin_witnesses.
#[local] Existing Instances Demo.url Demo.cipher Demo.argon Demo.net Demo.sql Demo.average Demo.times Demo.requests literal_regexp.

Definition demo_server : AdminServer unit :=
  mk_server "up" false 0 None None None None None "" (λ _ _ _, None).
Definition demo_admin_world : world unit := mk_world Demo.database ∅ ().

(** A logout with the cookie of the session but without the CSRF token. *)
Definition demo_logout : HttpRequest.t :=
  Demo.request "POST" "/api/v1/auth/logout" [] [(sessionCookie, [Demo.token])].
Definition demo_visit_to_api (r : HttpRequest.t) : Response.t * world unit :=
  mux demo_server Demo.io (λ _, hour) demo_hash (λ _, ""%string) None None "1.0" (λ _, false)
    (λ _, writeJSON 200 PFiles) r demo_admin_world.

Lemma access_control_witness :
  let out := demo_visit_to_api demo_logout in
  Response.status out.1 = 403%Z ∧ tables (w_conn out.2) = tables (w_conn demo_admin_world) ∧
  is_Some (session_of demo_hash (tables (w_conn out.2)) Demo.token).
Proof.
  intros out.
  assert (has_prefix (URL.Path (HttpRequest.URL demo_logout)) "/api/v1/" = true) as H1 by (vm_compute; reflexivity).
  assert ((Response.status out.1 =? 403)%Z = true) as H403 by (vm_compute; reflexivity). apply Z.eqb_eq in H403.
  destruct (access_control demo_server Demo.io (λ _, hour) demo_hash (λ _, ""%string) None None "1.0" (λ _, false)
    (λ _, writeJSON 200 PFiles) demo_logout demo_admin_world out.1 out.2 H1 eq_refl (surjective_pairing out))
    as [(t & u & c & w1 & _ & _ & [H|H] & _)|(_ & _ & [(Hs & Ht & _)|(Hs & _)])].
  - discriminate H.
  - discriminate H.
  - split; [exact Hs|]. split; [exact Ht|]. rewrite Ht.
    apply (bool_decide_unpack _). vm_compute. exact I.
  - exfalso. rewrite Hs in H403. discriminate H403.
Defined.

(** Six logins with the wrong password, five seconds apart. *)
Definition demo_visits : list visit :=
  map (λ n, mk_visit (Demo.request "POST" "/api/v1/auth/login" (B "wrong") []) Demo.io
              (λ i, (Z.of_nat n * 5 + Z.of_nat i) * second)%Z None None) (seq 0 6).

Lemma login_failures_bounded_witness :
  let wrong := wrong_passwords demo_server demo_hash "9.9.9.9" demo_visits demo_admin_world [] in
  within_minute 0 wrong ≤ 5 ∧ length wrong = 5.
Proof.
  intros wrong.
  assert (in_order 0 demo_visits) as Ho by (repeat split; vm_compute; discriminate).
  split; [|vm_compute; reflexivity].
  exact (login_failures_bounded demo_server demo_hash "9.9.9.9" 0 demo_visits demo_admin_world 0 eq_refl Ho).
Defined.
End admin_witnesses.
