(* ===== verification/MainTheorems.v ===== *)
(** * Theorems on the whole program

    The two servers around one database: when a change an administrator makes
    is in force on the data plane. *)

From S2P Require Export RuntimeTheorems AdminTheorems Demo.

(** ** Reading *)

(** A computation that leaves the tables alone. *)
Definition reads {A} (m : Store A) : Prop := ∀ P, keeps P m.

Lemma reads_tables {A} (m : Store A) c r c' : reads m → m c = (r, c') → tables c' = tables c.
Proof. intros H E. specialize (H (λ d, d = tables c) c eq_refl). by rewrite E in H. Qed.

Section reading.
Context `{U : Unicode, R : Regexp, C : Cipher, UL : UrlLib, NL : NetLib, H : !HostLib}.
Context (io : nat → bool) (cfg : StartupConfig.t).

Lemma reads_ListProfiles : reads (ListProfiles io).
Proof. intros P. apply keeps_query. Qed.
Lemma reads_load_key key : reads (load_key key).
Proof.
  intros P. unfold load_key, decrypt. destruct (bool_decide _); [apply keeps_ret|].
  keeps_step; [|apply keeps_ret]. case_match; [apply keeps_ret|apply keeps_fail].
Qed.
Lemma reads_GetAIEndpoint : reads (GetAIEndpoint io).
Proof.
  intros P. unfold GetAIEndpoint. keeps_step. destruct a; [|apply keeps_ret].
  keeps_step; [apply reads_load_key|apply keeps_ret].
Qed.
Lemma reads_load_nodes rows : reads (load_nodes rows).
Proof.
  induction rows as [|[slot r] rows IH]; intros P; simpl; [apply keeps_ret|].
  keeps_step; [apply reads_load_key|]. keeps_step; [apply IH|apply keeps_ret].
Qed.
Lemma reads_ListAINodes : reads (ListAINodes io).
Proof. intros P. unfold ListAINodes. keeps_step. apply reads_load_nodes. Qed.
Lemma reads_loadRules : reads (loadRules io).
Proof. intros P. unfold loadRules, ListHashes. keeps_step. keeps_step. apply keeps_ret. Qed.

(** What [GetConfig] makes of the row. *)
Definition read_config (bootstrap : string) (r : SettingRow.t) : result config_err Config.t :=
  let c := SettingRow.Value r in
  let c := if (Config.UpstreamURL c =? "")%string then Config.set_upstream c bootstrap else c in
  match NormalizeAdminFrameAncestors (Config.AdminFrameAncestors c) with
  | Ok l => Ok (Config.set_ancestors c l)
  | Err e => Err e
  end.
Lemma GetConfig_row now b c a c' r :
  settings (conf (tables c)) = Some r → GetConfig io now b c = (Ok a, c') →
  read_config b r = Ok a ∧ tables c' = tables c.
Proof.
  intros Hr (row & c1 & [-> Ht]%query_inv & H1)%bind_inv. rewrite Hr in H1. cbv zeta in H1.
  apply bind_inv in H1 as (l & c2 & [Hl ->]%lift_config_inv & H1).
  injection H1 as <- <-. unfold read_config. cbv zeta. by rewrite Hl.
Qed.

Lemma read_config_upstream b r a :
  read_config b r = Ok a → (if (Config.UpstreamURL a =? "")%string then Config.set_upstream a b else a) = a.
Proof.
  unfold read_config. cbv zeta. destruct (NormalizeAdminFrameAncestors _) as [l|]; [|done]. intros [= <-]. simpl.
  destruct (String.eqb_spec (Config.UpstreamURL (SettingRow.Value r)) "") as [E|E]; simpl.
  - by destruct (String.eqb_spec b "").
  - by rewrite (proj2 (String.eqb_neq _ _) E).
Qed.

(** With a row, [GetConfig] only reads, and so does a reload. *)
Lemma GetConfig_tables now b c row :
  settings (conf (tables c)) = Some row → tables (GetConfig io now b c).2 = tables c.
Proof.
  intros Hr. unfold GetConfig, mbind, Store_bind.
  assert (∀ A (r : result config_err A) c, (lift_config r c).2 = c) as Hlift by (by intros A []).
  destruct (query _ _ c) as [[row'|e] c1] eqn:E.
  - apply query_inv in E as [-> E]. rewrite Hr. cbv zeta.
    pose proof (Hlift _ (NormalizeAdminFrameAncestors (Config.AdminFrameAncestors
      (if (Config.UpstreamURL (SettingRow.Value row) =? "")%string
       then Config.set_upstream (SettingRow.Value row) b else SettingRow.Value row))) c1) as Hc.
    destruct (lift_config _ c1) as [[l|e] c2]; cbn [snd] in *; by rewrite Hc.
  - cbn [snd]. unfold query, exec in E. destruct (io _); [done|]. by injection E as _ <-.
Qed.
Lemma reload_tables now rt c row :
  settings (conf (tables c)) = Some row → tables (reload io cfg now rt c).2 = tables c.
Proof.
  intros Hrow. unfold reload.
  assert (tables (reload_reads io cfg now c).2 = tables c) as Hreads.
  { unfold reload_reads, mbind at 1, Store_bind at 1. pose proof (GetConfig_tables now (upstream_text cfg) c row Hrow) as Hg.
    destruct (GetConfig _ _ _ c) as [[a|e] c1]; [|done]. rewrite <- Hg. cbn [snd].
    apply (λ P (Hk : keeps P _), Hk c1 : P (tables c1) → _) with (P := λ d, d = tables c1); [|done].
    keeps_step; [apply reads_ListProfiles|]. keeps_step; [apply reads_GetAIEndpoint|].
    keeps_step; [apply reads_ListAINodes|apply keeps_ret]. }
  destruct (reload_reads _ _ _ c) as [[[[[stored ps] e] ns]|e] c1]; [|done]. cbn [snd] in Hreads. rewrite <- Hreads.
  pose proof (reads_loadRules (λ d, d = tables c1) c1 eq_refl) as Hl.
  destruct (loadRules io c1) as [[rules|e'] c2]; [|done]. cbn [snd] in Hl. by destruct (NewEngine _).
Qed.

(** What is in force after a reload, as far as it is read off the tables:
    [s] is the state, [a] the configuration and [rules] the snapshot. *)
Record in_force (a : Config.t) (rules : gmap string HashMatch.t) (s : runtimeState.t) : Prop := {
  if_enabled : runtimeState.enabled s = Config.Enabled a;
  if_paths : runtimeState.paths s = list_to_set (Config.ProtectedPaths a);
  if_limit : runtimeState.auditBodyLimit s = Config.MaxBodyBytes a;
  if_ancestors : runtimeState.adminFrameAncestors s = Config.AdminFrameAncestors a;
  if_rules : runtimeState.rules s = rules;
  if_engine : ∃ gate profiles endpoint,
    NewEngine (engine_config gate a profiles endpoint) = Ok (runtimeState.engine s);
}.

Lemma reload_ok now rt c rt' c' row :
  settings (conf (tables c)) = Some row → reload io cfg now rt c = (Ok (), rt', c') →
  tables c' = tables c ∧
  ∃ a rules s c1 c2,
    read_config (upstream_text cfg) row = Ok a ∧ tables c1 = tables c ∧ loadRules io c1 = (Ok rules, c2) ∧
    runtime.state rt' = Some s ∧
    in_force a rules s.
Proof.
  intros Hrow. unfold reload, reload_reads.
  match goal with |- match ?x with _ => _ end = _ → _ => destruct x as [[x1|] c1] eqn:E end; [|done].
  apply bind_inv in E as (a & c2 & [Ha Ht2]%(GetConfig_row _ _ _ _ _ _ Hrow) & E).
  rewrite (read_config_upstream _ _ _ Ha) in E.
  apply bind_inv in E as (ps & c3 & Ht3%(reads_tables _ _ _ _ reads_ListProfiles) & E).
  apply bind_inv in E as (e & c4 & Ht4%(reads_tables _ _ _ _ reads_GetAIEndpoint) & E).
  apply bind_inv in E as (ns & c5 & Ht5%(reads_tables _ _ _ _ reads_ListAINodes) & E).
  injection E as <- <-.
  destruct (loadRules io c5) as [[rules|] c6] eqn:El; [|done].
  pose proof (reads_tables _ _ _ _ reads_loadRules El) as Ht6.
  destruct (NewEngine _) as [eng|] eqn:Ee; [|done]. cbv zeta. intros [= <- <-].
  split; [congruence|]. eexists a, rules, _, c5, c6. split_and!; [done|congruence|done|reflexivity|].
  split; try done. simpl. eauto.
Qed.
End reading.

(** ** A saved configuration *)

Section configuration.
Context `{U : Unicode, R : Regexp, C : Cipher, UL : UrlLib, AR : Argon2, NL : NetLib, H : !HostLib}.
Context `{SQL : SqlFunctions, SA : SqlAverage, AQ : AdminRequest, TL : TimeLib}.
Context (io : nat → bool) (cfg : StartupConfig.t) (now started : Time) (test : AIEndpoint.t → option Duration).
Context (updater : string → string → option string → updater_answer).
Context (clock : nat → Time) (hashPlaintext : string → string) (error_text : store_err → string).
Abbreviation server := (adminServer cfg io now started test updater) (only parsing).

(** The rules of the database are those in force. *)
Definition rules_of (d : db) : gmap string HashMatch.t :=
  snapshot_of (rows_desc "trusted" d) (rows_desc "risk" d).

(** What the database holds is what the two servers work with. *)
Definition live (d : db) (saved : Config.t) (g : Guard.t) : Prop :=
  ∃ row s u,
    settings (conf d) = Some row ∧ read_config (upstream_text cfg) row = Ok saved ∧
    runtime.state (Guard.rt g) = Some s ∧ in_force saved (rules_of d) s ∧
    url_parse (Config.UpstreamURL saved) = Some u ∧ Guard.upstream g = Some (target_of u).

Lemma loadRules_tables c rules c' : loadRules io c = (Ok rules, c') → rules = rules_of (tables c).
Proof.
  unfold loadRules, ListHashes. intros (t & c1 & [-> H1]%query_inv & Hl)%bind_inv.
  apply bind_inv in Hl as (r & c2 & [-> H2]%query_inv & Hl). injection Hl as <- _. by rewrite H1.
Qed.

Lemma on_reload_ok g c g' c' row :
  settings (conf (tables c)) = Some row → on_reload cfg io now g c = (true, g', c') →
  tables c' = tables c ∧ ∃ saved, live (tables c) saved g'.
Proof.
  intros Hrow. unfold on_reload. destruct (reload _ _ _ _ _) as [[[[]|] rt] c1] eqn:E; [|done].
  destruct (reload_ok _ _ _ _ _ _ _ _ Hrow E) as (Ht & a & rules & s & c2 & c3 & Ha & Ht2 & Hl & Hs & Hf).
  rewrite <- Ht in Hrow. destruct (GetConfig _ _ _ _) as [[latest|] c4] eqn:Eg; [|done].
  destruct (GetConfig_row _ _ _ _ _ _ _ Hrow Eg) as [Ha' Ht4]. rewrite Ha in Ha'. injection Ha' as <-.
  destruct (url_parse _) as [u|] eqn:Eu; [|done]. unfold guard_SetUpstream, SetUpstream.
  destruct (_ || _); [done|]. intros [= <- <-]. split; [congruence|]. exists a, row, s, u.
  apply loadRules_tables in Hl. rewrite Ht2 in Hl. subst rules.
  split_and!; congruence || done.
Qed.

Lemma on_reload_tables g c row :
  settings (conf (tables c)) = Some row → tables (on_reload cfg io now g c).2 = tables c.
Proof.
  intros Hrow. unfold on_reload. pose proof (reload_tables io cfg now (Guard.rt g) c row Hrow) as Ht.
  destruct (reload _ _ _ _ c) as [[[u|e] rt] c1]; [|done]. cbn [snd] in Ht. rewrite <- Ht in *.
  pose proof (GetConfig_tables io now (upstream_text cfg) c1 row Hrow) as Hg.
  destruct (GetConfig _ _ _ c1) as [[latest|e] c2]; [|done]. cbn [snd] in Hg.
  destruct (url_parse _); [|done]. by destruct (guard_SetUpstream _ _ _).
Qed.

(** A part of a handler that ends with a reload: how it can end. *)
Lemma reload_then (k : Admin Guard.t Response.t) w a w' row :
  settings (conf (tables (w_conn w))) = Some row → reloadRuntime server k w = (a, w') →
  (Response.status a = 503%Z ∧ tables (w_conn w') = tables (w_conn w)) ∨
  ∃ g c saved, on_reload cfg io now (w_runtime w) (w_conn w) = (true, g, c) ∧ tables c = tables (w_conn w) ∧
    live (tables (w_conn w)) saved g ∧ k (mk_world c (w_limiter w) g) = (a, w').
Proof.
  intros Hrow. unfold reloadRuntime. cbn [OnReload adminServer].
  destruct (on_reload _ _ _ _ _) as [[ok g] c] eqn:E. destruct ok.
  - intros Hk. right. destruct (on_reload_ok _ _ _ _ _ Hrow E) as (Ht & saved & Hl). by exists g, c, saved.
  - intros [= <- <-]. left. split; [done|]. simpl. pose proof (on_reload_tables (w_runtime w) _ _ Hrow) as Ht.
    by rewrite E in Ht.
Qed.

(** The row that a configuration [c] is saved as. *)
Definition saved_row (c : Config.t) (d : db) : option SettingRow.t :=
  match NormalizeAdminFrameAncestors (Config.AdminFrameAncestors c) with
  | Ok l => Some (stored_config (clock 1) (Config.set_ancestors c l) (wrap64 (settings_version d + 1)))
  | Err _ => None
  end.

(** C14. A saved configuration is in force: a PUT of the configuration either
    changes nothing, neither in the database nor in the running program, or
    the database holds the configuration of the request as the version after
    the one the administrator had seen.  Then the answer is 503, or the data
    plane already works with what was saved: switched on or off, with its
    paths, body limit, frame ancestors and upstream, a new engine for it, and
    the rules of the database; and the answer 200 shows exactly that
    configuration. *)
Theorem saved_config_is_live r w a w' :
  putConfig server io clock error_text r w = (a, w') →
  (tables (w_conn w') = tables (w_conn w) ∧ w_runtime w' = w_runtime w ∧
   (Response.status a = 400 ∨ Response.status a = 409 ∨ Response.status a = 500)%Z) ∨
  (∃ input expected row,
     decoded r decode_config maxBody = inr (input, Some expected) ∧ (1 ≤ expected)%Z ∧
     (settings (conf (tables (w_conn w))) = None ∨ settings_version (tables (w_conn w)) = expected) ∧
     saved_row (trim_upstream input) (tables (w_conn w)) = Some row ∧
     tables (w_conn w') = set_settings (tables (w_conn w)) (Some row) ∧
     (Response.status a = 503%Z ∨
      ∃ saved, live (tables (w_conn w')) saved (w_runtime w') ∧
        (Response.status a = 500%Z ∨ (Response.status a = 200%Z ∧ Response.body a = PConfig saved)))).
Proof.
  unfold putConfig, decodeJSON, decodeJSONLimit, check. intros Hp.
  destruct (decoded _ _ _) as [message|[input [expected|]]]; [injection Hp as <- <-; left; auto| |injection Hp as <- <-; left; auto].
  destruct (Z.leb_spec 1 expected); [|injection Hp as <- <-; left; auto].
  cbv zeta in Hp. destruct (ValidateConfig _); [|injection Hp as <- <-; left; auto].
  destruct (url_parse _) as [u|]; [|injection Hp as <- <-; left; auto].
  cbn [ValidateUpstream adminServer] in Hp. destruct (is_ok _); [|injection Hp as <- <-; left; auto].
  unfold on_ok at 1, store at 1, mbind at 1, Admin_bind at 1 in Hp.
  destruct (PutConfig _ _ _ _ _) as [[[]|e] c1] eqn:Ep.
  2:{ apply PutConfig_err in Ep. left.
      destruct (contains _ _); injection Hp as <- <-; cbn; auto. }
  apply PutConfig_ok in Ep as (l & Hl & _ & Hver & Ht).
  right. eexists input, expected, _. split; [done|]. split; [done|]. split; [destruct Hver as [?|[?|?]]; auto; lia|].
  split; [unfold saved_row; by rewrite Hl|]. set (row := stored_config _ _ _) in *.
  assert (settings (conf (tables c1)) = Some row) as Hrow by (by rewrite Ht).
  destruct (reload_then _ (mk_world c1 _ _) _ _ _ Hrow Hp) as [[Hs Htc]|(g & c & saved & Hr & Htc & Hlive & Hk)].
  - cbn [w_conn] in Htc. rewrite Htc. auto.
  - cbn [w_conn] in *. unfold on_ok, store, mbind, Admin_bind in Hk. cbn [w_conn] in Hk.
    rewrite <- Htc in Hrow.
    destruct (GetConfig _ _ _ _) as [[saved'|e] c2] eqn:Eg.
    + destruct (GetConfig_row _ _ _ _ _ _ _ Hrow Eg) as [Ha Ht2]. injection Hk as <- <-. cbn.
      rewrite Ht2, Htc, Ht. rewrite Ht in Hlive. split; [done|]. right. exists saved. split; [done|]. right.
      split; [done|]. destruct Hlive as (row' & s & u' & Hrow' & Hread & _). simpl in Hrow'. injection Hrow' as <-.
      change (FixedUpstreamURL server) with (upstream_text cfg) in Ha. congruence.
    + pose proof (GetConfig_tables io (clock 1) (FixedUpstreamURL server) c _ Hrow) as Ht2. rewrite Eg in Ht2.
      injection Hk as <- <-. cbn in *. rewrite Ht2, Htc. split; [done|]. right. exists saved. auto.
Qed.
End configuration.

(** ** An added rule *)

Section rules.
Context `{U : Unicode, R : Regexp, C : Cipher, UL : UrlLib, AR : Argon2, NL : NetLib, H : !HostLib, CL : !CIDRLib}.
Context `{SQL : SqlFunctions, SA : SqlAverage, AQ : AdminRequest, TL : TimeLib}.
Context (io : nat → bool) (cfg : StartupConfig.t) (now started : Time) (test : AIEndpoint.t → option Duration).
Context (updater : string → string → option string → updater_answer).
Context (clock : nat → Time) (hashPlaintext : string → string) (error_text : store_err → string).
Abbreviation server := (adminServer cfg io now started test updater) (only parsing).

(** The snapshot holds the enabled risk row of a digest, otherwise the enabled
    trusted row. *)
Lemma rules_of_lookup d sha :
  rules_wf hashPlaintext d → to_lower sha = sha →
  rules_of d !! sha = match enabled_row "risk" sha d with
                      | Some e => Some (match_of "risk" e)
                      | None => match_of "trusted" <$> enabled_row "trusted" sha d
                      end.
Proof.
  intros Hwf Hl. unfold rules_of, snapshot_of. rewrite !add_rules_lookup by (by eapply rows_nodup).
  rewrite !(find_row hashPlaintext) by done. destruct (enabled_row "risk" sha d); [done|].
  by destruct (enabled_row "trusted" sha d).
Qed.

Lemma path_kind_cases path : path_kind path = "risk"%string ∨ path_kind path = "trusted"%string.
Proof. unfold path_kind. destruct (contains _ _); auto. Qed.

Lemma keeps_conf_add x kind h label content source fp hn k :
  keeps (λ d, conf d = k) (AddHashSourceWithTrace hashPlaintext io x kind h label content source fp hn).
Proof.
  unfold AddHashSourceWithTrace. repeat keeps_step; [|apply select_keeps].
  apply keeps_exec. intros d y d' Hd. unfold upsert_hash, take_id, set_table. intros [= _ <-].
  destruct (table kind d !! _), (kind =? "risk")%string; done.
Qed.

(** The rule that a POST of a rule answers with is in the snapshot of the
    runtime, under its digest. *)
Lemma posted_rule r path w a w' row :
  (∀ n, io n = true) → rules_wf hashPlaintext (tables (w_conn w)) →
  settings (conf (tables (w_conn w))) = Some row →
  HttpRequest.Method r = "POST"%string →
  hashCollection server io clock hashPlaintext error_text r path w = (a, w') → Response.status a = 201%Z →
  ∃ i e s, decoded r decode_hash maxRuleBody = inr i ∧ Response.body a = PRule e ∧
    let sha := to_lower (effective_digest hashPlaintext (hashInput.SHA256 i) (hashInput.Content i)) in
    HashEntry.Label e = trim_space (hashInput.Label i) ∧
    rules_wf hashPlaintext (tables (w_conn w')) ∧
    enabled_row (path_kind path) sha (tables (w_conn w')) = Some e ∧
    (∀ other, kind_ok other = true → other ≠ path_kind path →
       table other (tables (w_conn w')) = table other (tables (w_conn w))) ∧
    runtime.state (Guard.rt (w_runtime w')) = Some s ∧
    runtimeState.rules s !! sha =
      match enabled_row "risk" sha (tables (w_conn w')) with
      | Some e => Some (match_of "risk" e)
      | None => match_of "trusted" <$> enabled_row "trusted" sha (tables (w_conn w'))
      end.
Proof.
  intros Hio Hwf Hrow Hm Hh Hs. unfold hashCollection in Hh. cbv zeta in Hh. rewrite Hm in Hh. cbn -[path_kind] in Hh.
  unfold decodeJSONLimit in Hh. destruct (decoded _ _ _) as [message|i]; [by injection Hh as <- <-|].
  unfold check in Hh.
  destruct (negb _); [|by injection Hh as <- <-].
  unfold on_ok, store, mbind, Admin_bind in Hh.
  match type of Hh with context [AddHashSourceWithTrace ?h ?io ?t ?k ?x ?l ?y ?src ?f ?n ?c] =>
    pose proof (add_keeps h io t k x l y src f n c Hwf) as Hwf';
    pose proof (keeps_conf_add t k x l y src f n _ c eq_refl) as Hconf;
    destruct (AddHashSourceWithTrace h io t k x l y src f n c) as [[e|err] c1] eqn:Ea
  end; [|by injection Hh as <- <-].
  cbn [fst snd] in Hwf', Hconf. rewrite <- Hconf in Hrow.
  destruct (reload_then io cfg now started test updater _ (mk_world c1 _ _) _ _ _ Hrow Hh)
    as [[Hs' _]|(g & c & saved & _ & Htc & Hlive & Hk)]; [rewrite Hs in Hs'; discriminate|].
  injection Hk as <- <-. destruct Hlive as (row' & s & u & _ & _ & Hst & Hf & _).
  cbn [w_conn w_runtime] in *. rewrite Htc. exists i, e, s. split; [done|]. split; [done|]. cbv zeta.
  apply add_result in Ea as (Hpat & Hk & He & Hen & Hlab & Hoth); [|done].
  set (sha := to_lower (effective_digest hashPlaintext (hashInput.SHA256 i) (hashInput.Content i))) in *.
  assert (to_lower sha = sha) as Hidem by (apply to_lower_idem; by apply hex_ascii).
  split_and!; try done.
  - unfold enabled_row. by rewrite Hidem, He, Hen.
  - rewrite (if_rules _ _ _ Hf). by apply rules_of_lookup.
Qed.

(** A request that the adapter judges by a risk rule of its state is blocked
    for that rule, when the database can record it. *)
Lemma adapter_blocks A s req body aw request key name field m :
  (∀ n, ae_io A n = true) →
  selection (engine_env A s (aw_conn aw)) (runtimeState.engine s) (audit_request_of A req body) =
    Some (request, key, name, field) →
  runtimeState.rules s !! Field.SHA256 field = Some m → HashMatch.Kind m = "risk"%string →
  let d := (adapter_Evaluate A (Some s) None req body aw).1 in
  Decision.Blocked d = true ∧ Decision.Reason d = ReasonRiskHashMatch ∧ Decision.Hash d = Field.SHA256 field ∧
  Decision.Field d = name.
Proof.
  intros Hio Hsel Hm Hk. unfold adapter_Evaluate. cbn [requestState fst].
  set (w0 := @Engine.mk_world fixed_window_limiter 0 (Some (aw_limiter aw)) []).
  unshelve epose proof (known_risk_blocked (RL := fixed_window_limiter) (engine_env A s (aw_conn aw))
    (runtimeState.engine s) (audit_request_of A req body) request key name field _ m _ Hsel eq_refl _ _ eq_refl
    eq_refl _ w0) as Hb.
  - unfold snapshot_LookupHash. by rewrite Hm.
  - rewrite Hk. by vm_compute.
  - intros ev. unfold record_blocked. by rewrite RecordBlockedEvent_runs.
  - by destruct (Evaluate _ _ _ w0) as [result ew].
Qed.

(** C13. An added risk rule blocks: when a POST of a risk rule has been answered
    with 201, the data plane answers with 403, for the rule and without asking
    a reviewer, every request that is audited, whose body is read and decoded
    within the limit and whose selected text has the digest of the rule,
    provided the database records the block.  There is no moment at which the
    administrator has the answer and the rule is not in force. *)
Theorem added_risk_rule_blocks r path w a w' row i A now' aw req body replay auditBody request key name field s :
  (∀ n, io n = true) → (∀ n, ae_io A n = true) → rules_wf hashPlaintext (tables (w_conn w)) →
  settings (conf (tables (w_conn w))) = Some row →
  HttpRequest.Method r = "POST"%string → path_kind path = "risk"%string →
  decoded r decode_hash maxRuleBody = inr i →
  hashCollection server io clock hashPlaintext error_text r path w = (a, w') → Response.status a = 201%Z →
  let g := w_runtime w' in
  let p := public cfg A now' g aw in
  let limit := AuditBodyLimit (runtime.state (Guard.rt g)) None in
  URL.Path (HttpRequest.URL req) ≠ "/_nocyber/healthz"%string →
  URL.Path (HttpRequest.URL req) ≠ "/_nocyber/readyz"%string →
  shouldAudit p req = true → (0 < limit)%Z →
  captureBody (HttpRequest.Body req) limit = (body, replay, true, None) →
  decodeAuditBody body (join (Values (HttpRequest.header req) "Content-Encoding") ",") limit = Ok auditBody →
  runtime.state (Guard.rt g) = Some s →
  selection (engine_env A s (aw_conn aw)) (runtimeState.engine s) (audit_request_of A req auditBody) =
    Some (request, key, name, field) →
  Field.SHA256 field = to_lower (effective_digest hashPlaintext (hashInput.SHA256 i) (hashInput.Content i)) →
  ∃ d, (serve cfg A now' g aw req).1 = Answered (writeBlocked d) ∧ status (writeBlocked d) = 403%Z ∧
    Decision.Reason d = ReasonRiskHashMatch ∧ Decision.Hash d = Field.SHA256 field.
Proof.
  intros Hio HioA Hwf Hrow Hm Hkind Hi Hh Hst g p limit Hp1 Hp2 Haudit Hlim Hcap Hdec Hs Hsel Hsha.
  destruct (posted_rule _ _ _ _ _ _ Hio Hwf Hrow Hm Hh Hst) as (i' & e & s' & Hi' & _ & Hrule).
  rewrite Hi in Hi'. injection Hi' as <-. rewrite Hkind in Hrule.
  destruct Hrule as (_ & _ & Hen & _ & Hs' & Hlook). rewrite Hen in Hlook.
  fold g in Hs'. rewrite Hs in Hs'. injection Hs' as <-. rewrite <- Hsha in Hlook.
  unfold serve, Proxy.Handler. fold p. rewrite (proj2 (String.eqb_neq _ _) Hp1), (proj2 (String.eqb_neq _ _) Hp2).
  change (Auditor_ p) with (Some (auditor A (runtime.state (Guard.rt g)) aw)). rewrite Haudit.
  set (auth := auditor A _ aw). unfold audit_request.
  assert (bodyLimit p auth req = limit) as ->.
  { unfold bodyLimit. cbn. fold limit. by rewrite (proj2 (Z.ltb_lt _ _) Hlim). }
  rewrite Hcap. cbn [negb].
  match goal with |- context [decodeAuditBody body (join (Values (HttpRequest.header ?r') _) _) limit] =>
    change (HttpRequest.header r') with (HttpRequest.header req) end.
  rewrite Hdec. cbn [Auditor.Evaluate auth auditor]. rewrite Hs.
  assert (selection (engine_env A s (aw_conn aw)) (runtimeState.engine s)
            (audit_request_of A (HttpRequest.set_Body req (Some replay)) auditBody) = Some (request, key, name, field))
    as Hsel' by exact Hsel.
  destruct (adapter_blocks A s _ auditBody aw request key name field _ HioA Hsel' Hlook eq_refl) as (Hb & Hr & Hd & _).
  destruct (adapter_Evaluate A (Some s) None (HttpRequest.set_Body req (Some replay)) auditBody aw) as [d aw'].
  cbn [fst] in *. rewrite Hb. by exists d.
Qed.
End rules.

(** ** Witnesses *)

Section main_witnesses.
#[local] Existing Instances Demo.url Demo.cipher Demo.argon Demo.net Demo.host Demo.cidr Demo.sql Demo.average
  Demo.times Demo.requests literal_regexp.

Definition demo_startup : StartupConfig.t :=
  StartupConfig.mk (Url.mk "https" "up" "up" "" false "" "" "" "") "127.0.0.1:8080" "127.0.0.1:9090" "/data" (B "key")
    "" [] 1024 4 second second false "".
Definition demo_guard : Guard.t (R := literal_regexp) :=
  Guard.mk _ (runtime.mk _ None (NewConcurrencyGate 1) []) (URL.mk "https" "old" "" "") None.
Definition demo_main_world : world Guard.t := mk_world Demo.database ∅ demo_guard.
Definition demo_admin_server : AdminServer Guard.t :=
  adminServer demo_startup Demo.io hour 0 (λ _, None) (λ _ _ _, None).

Definition demo_put_config : Response.t * world Guard.t :=
  putConfig demo_admin_server Demo.io (λ _, hour) (λ _, ""%string) (Demo.request "PUT" "/api/v1/config" [] [])
    demo_main_world.

Lemma saved_config_is_live_witness :
  Response.status demo_put_config.1 = 200%Z ∧
  ∃ saved, live demo_startup (tables (w_conn demo_put_config.2)) saved (w_runtime demo_put_config.2) ∧
    Response.body demo_put_config.1 = PConfig saved ∧ Config.Version saved = 2%Z.
Proof.
  assert (Response.status demo_put_config.1 = 200%Z) as Hs by (vm_compute; reflexivity). split; [exact Hs|].
  destruct (saved_config_is_live Demo.io demo_startup hour 0 (λ _, None) (λ _ _ _, None) (λ _, hour) (λ _, ""%string)
              (Demo.request "PUT" "/api/v1/config" [] []) demo_main_world demo_put_config.1 demo_put_config.2
              (surjective_pairing _))
    as [(_ & _ & [H|[H|H]])|(i & e & row & _ & _ & _ & _ & _ & [H|(saved & Hl & [H|[_ Hb]])])];
    try (rewrite Hs in H; discriminate H).
  exists saved. split; [exact Hl|]. split; [exact Hb|].
  assert (match Response.body demo_put_config.1 with PConfig c => Config.Version c | _ => 0%Z end = 2%Z) as Hv
    by (vm_compute; reflexivity).
  rewrite Hb in Hv. exact Hv.
Defined.

(** The rule "attack" is posted; then a request with that text arrives. *)
Definition demo_post_rule : HttpRequest.t := Demo.request "POST" "/api/v1/risk-hashes" (B "attack") [].
Definition demo_posted : Response.t * world Guard.t :=
  hashCollection demo_admin_server Demo.io (λ _, hour) demo_hash (λ _, ""%string) demo_post_rule "/risk-hashes"
    demo_main_world.
Definition demo_attack : HttpRequest.t :=
  Demo.request "POST" "/v1/responses" (json_text "{'instructions':'attack'}") [("User-Agent", ["codex_cli_rs/1"])]%string.
Definition demo_environment : adapter_env :=
  mk_adapter_env Demo.io (λ n, Z.of_nat n * second)%Z 0 (0, 0)%Z (λ _, None) demo_hash (λ s, s) (mk_random None 1 2) []
    (λ _ _, (AIVerdict.zero, Some ErrAIUnavailable, 0%Z)) (λ _, false) (λ _ _, None).
Definition demo_traffic : adapter_world :=
  mk_adapter_world (w_conn demo_posted.2) (mk_event_queue [] 0 0) [] (NewFixedWindowLimiter 10 second).
Definition demo_live_state : option runtimeState.t := runtime.state (Guard.rt (w_runtime demo_posted.2)).

Definition demo_text : bytes := json_text "{'instructions':'attack'}".
Definition demo_selected : option (Request.t * string * string * Field.t) :=
  s ← demo_live_state;
  selection (engine_env demo_environment s (aw_conn demo_traffic)) (runtimeState.engine s)
    (audit_request_of demo_environment demo_attack demo_text).

Lemma demo_database_wf : rules_wf demo_hash (tables (w_conn demo_main_world)).
Proof. split; intros k e H; vm_compute in H; discriminate H. Qed.

Lemma added_risk_rule_blocks_witness :
  ∃ d, (serve demo_startup demo_environment hour (w_runtime demo_posted.2) demo_traffic demo_attack).1 =
       Answered (writeBlocked d) ∧ Decision.Reason d = ReasonRiskHashMatch ∧
       Decision.Hash d = demo_hash "attack".
Proof.
  assert (match settings (conf (tables (w_conn demo_main_world))) with Some _ => true | None => false end = true) as Hrow
    by (vm_compute; reflexivity).
  destruct (settings (conf (tables (w_conn demo_main_world)))) as [row|] eqn:Er; [|discriminate Hrow].
  assert ((λ x, (x.1.2, Field.SHA256 x.2)) <$> demo_selected = Some ("instructions", demo_hash "attack")%string) as Hsel
    by (vm_compute; reflexivity).
  unfold demo_selected in Hsel. destruct demo_live_state as [s|] eqn:Es; [|discriminate Hsel].
  cbn [mbind option_bind] in Hsel.
  destruct (selection _ _ _) as [[[[rq key] name] field]|] eqn:Esel; [|discriminate Hsel].
  injection Hsel as _ Hsha. unfold demo_live_state in Es.
  set (limit := AuditBodyLimit (runtime.state (Guard.rt (w_runtime demo_posted.2))) None).
  destruct (added_risk_rule_blocks Demo.io demo_startup hour 0 (λ _, None) (λ _ _ _, None) (λ _, hour) demo_hash
    (λ _, ""%string) demo_post_rule "/risk-hashes" demo_main_world demo_posted.1 demo_posted.2 row
    (hashInput.mk "" "r" "attack" "" "") demo_environment hour demo_traffic demo_attack demo_text
    (captureBody (HttpRequest.Body demo_attack) limit).1.1.2 demo_text rq key name field s
    (λ _, eq_refl) (λ _, eq_refl) demo_database_wf Er eq_refl
    ltac:(vm_compute; reflexivity) ltac:(vm_compute; reflexivity) (surjective_pairing _) ltac:(vm_compute; reflexivity)
    ltac:(discriminate) ltac:(discriminate) ltac:(vm_compute; reflexivity) ltac:(vm_compute; reflexivity)
    ltac:(vm_compute; reflexivity) ltac:(vm_compute; reflexivity) Es Esel
    ltac:(rewrite Hsha; vm_compute; reflexivity)) as (d & H1 & _ & H3 & H4).
  exists d. split; [exact H1|]. split; [exact H3|]. rewrite H4. exact Hsha.
Defined.
End main_witnesses.
