(* ===== verification/Invariant.v ===== *)
(** * The database under the whole program

    The data plane, the event writer, the background review, the cleanup and
    the administration server all work on one database.  A step of the program
    is one request, one job or one round of a loop; no step breaks the
    well-formedness of the rules, the events, the evidence and the jobs. *)

From S2P Require Export MainTheorems.

(** ** What a store operation leaves alone *)

Definition event_view (d : db) : gmap Z EventRow.t * gmap Z EvidenceRow.t := (audit_events d, blocked_evidence d).

(** The part [p] of the tables stays as it is; ids may be taken. *)
Definition aside {V A} (p : db → V) (m : Store A) : Prop :=
  ∀ v n, keeps (λ d, p d = v ∧ (n ≤ next_id d)%Z) m.

Section asides.
Context `{U : Unicode} (hash : string → string) (io : nat → bool).

Lemma aside_exec {V A} (p : db → V) (f : db → result store_err (A * db)) v n :
  (∀ d a d', f d = Ok (a, d') → p d' = p d ∧ (next_id d ≤ next_id d')%Z) →
  keeps (λ d, p d = v ∧ (n ≤ next_id d)%Z) (exec io f).
Proof.
  intros H. apply keeps_exec. intros d a d' [<- Hn] Hf. destruct (H d a d' Hf) as [Hp Hn']. split; [done|lia].
Qed.

Lemma events_wf_view d d' :
  event_view d' = event_view d → (next_id d ≤ next_id d')%Z → events_wf d → events_wf d'.
Proof.
  unfold event_view. intros [= He Hb] Hn [H1 H2 H3 H4 H5 H6]. split; rewrite ?He, ?Hb; try done.
  - intros i r Hi. specialize (H1 i r Hi). simpl in *. lia.
  - intros i r Hi. specialize (H3 i r Hi). simpl in *. lia.
Qed.

Lemma aside_rules {A} (m : Store A) : aside rule_rows m → keeps (rules_wf hash) m.
Proof. intros H c Hc. destruct (H (rule_rows (tables c)) (next_id (tables c)) c) as [Hv _]; [done|]. by eapply rules_wf_rows. Qed.
Lemma aside_events {A} (m : Store A) : aside event_view m → keeps events_wf m.
Proof.
  intros H c Hc. destruct (H (event_view (tables c)) (next_id (tables c)) c) as [Hv Hn]; [done|].
  by eapply events_wf_view.
Qed.
Lemma aside_jobs {A} (m : Store A) : aside review_jobs m → keeps jobs_wf m.
Proof.
  intros H c Hc. destruct (H (review_jobs (tables c)) (next_id (tables c)) c) as [Hv Hn]; [done|].
  by eapply jobs_wf_same.
Qed.

(** What the program relies on. *)
Record db_wf (d : db) : Prop := {
  db_rules : rules_wf hash d;
  db_events : events_wf d;
  db_jobs : jobs_wf d;
}.

Lemma keeps_db {A} (m : Store A) :
  keeps (rules_wf hash) m → keeps events_wf m → keeps jobs_wf m → keeps db_wf m.
Proof. intros H1 H2 H3 c [? ? ?]. split; [by apply H1|by apply H2|by apply H3]. Qed.

(** An operation on the configuration tables. *)
Definition worked_on (d : db) := (rule_rows d, event_view d, review_jobs d).
Lemma keeps_elsewhere {A} (m : Store A) : aside worked_on m → keeps db_wf m.
Proof.
  intros H. apply keeps_db; [apply aside_rules|apply aside_events|apply aside_jobs]; intros v n c [<- Hn];
    destruct (H (worked_on (tables c)) n c) as [[= ? ? ? ? ?] ?]; try done; split; unfold rule_rows, event_view in *; congruence.
Qed.
Lemma keeps_reads {A} (m : Store A) : reads m → keeps db_wf m.
Proof. intros H. apply H. Qed.
End asides.

Lemma keeps_truncate `{SQL : SqlFunctions} io P : keeps P (truncate_wal io).
Proof. intros c Hc. by apply (keeps_query io P (λ _, wal_checkpoint (statements c))). Qed.

Lemma keeps_lift {A} P (r : result config_err A) : keeps P (lift_config r).
Proof. intros c. by destruct r. Qed.

Lemma keeps_lookup {A B} io P (f : db → option A) (g : db → A → B) :
  keeps P (exec io (λ d, match f d with Some a => Ok (g d a, d) | None => Err ErrNoRows end)).
Proof. apply keeps_exec. intros d x d' Hd Hf. destruct (f d); by simplify_eq. Qed.

(** Walking through an operation down to its statements. *)
Ltac store_walk :=
  repeat match goal with
  | |- aside _ _ => intros ?v ?n
  | |- reads _ => intros ?P
  | |- keeps _ (attempt _) => apply keeps_attempt
  | |- keeps _ (transaction _ _) => apply keeps_transaction
  | |- keeps _ (query _ _) => apply keeps_query
  | |- keeps _ (truncate_wal _) => apply keeps_truncate
  | |- keeps _ (guard_ok _ _) => apply keeps_guard
  | |- keeps _ (lift_config ?r) => apply keeps_lift
  | |- keeps _ (encrypt_payload _) => apply keeps_encrypt_payload
  | |- keeps _ (check_content _ _ _ _ _) => apply check_content_keeps
  | |- keeps _ (exec _ (λ d, match @?f d with Some a => Ok (_, d) | None => Err ErrNoRows end)) => apply keeps_lookup
  | |- keeps _ (match ?x with _ => _ end) => destruct x
  | |- keeps _ _ => keeps_step
  end.
(** A statement's function, evaluated on every branch. *)
Ltac statement_cases :=
  apply aside_exec; unfold worked_on, event_view, rule_rows, take_id, set_table, table;
  let d := fresh "d" in let x := fresh "x" in let d' := fresh "d'" in let Hd := fresh "Hd" in
  intros d x d' Hd; repeat (case_match; simplify_eq/=); simplify_eq/=; (split; [done|simpl; lia]).

Section operations.
Context `{U : Unicode, R : Regexp, C : Cipher, UL : UrlLib, AR : Argon2, SQL : SqlFunctions, SA : SqlAverage}.
Context (hash : string → string) (io : nat → bool).

(** *** Rules *)

Ltac other_tables := store_walk; unfold upsert_hash, select_by_sha, select_by_id, update_row; statement_cases.

Lemma add_db t kind h label content source fp hn :
  keeps (db_wf hash) (AddHashSourceWithTrace hash io t kind h label content source fp hn).
Proof.
  apply keeps_db; [apply add_keeps|apply aside_events|apply aside_jobs]; unfold AddHashSourceWithTrace; other_tables.
Qed.
Lemma update_db kind id label enabled content :
  keeps (db_wf hash) (UpdateHashWithContent hash io kind id label enabled content).
Proof.
  apply keeps_db; [apply update_keeps|apply aside_events|apply aside_jobs]; unfold UpdateHashWithContent; other_tables.
Qed.
Lemma store_context_db t kind h content fp hn : keeps (db_wf hash) (StoreHashContext hash io t kind h content fp hn).
Proof.
  apply keeps_db; [apply store_context_keeps|apply aside_events|apply aside_jobs]; unfold StoreHashContext; other_tables.
Qed.
Lemma delete_db kind id : keeps (db_wf hash) (DeleteHash io kind id).
Proof. apply keeps_db; [apply delete_keeps|apply aside_events|apply aside_jobs]; unfold DeleteHash; other_tables. Qed.

(** *** Events and jobs *)

Lemma aside_rules_jobs m : aside rule_rows m → aside review_jobs m → keeps events_wf m → keeps (db_wf hash) (m : Store unit).
Proof. intros. by apply keeps_db; [apply aside_rules| |apply aside_jobs]. Qed.

Lemma event_op_db o : keeps (db_wf hash) (run_event_op io o).
Proof.
  apply aside_rules_jobs; [| |apply run_event_op_wf]; destruct o; simpl;
    unfold RecordAuditEvent, RecordBlockedEvent, insertEvent, DeleteEvent, DeleteEventsBefore, deleteEvents, Cleanup,
      migrateEventContractV2, insert_event_row, insert_evidence, delete_events_where;
    other_tables.
Qed.

Lemma job_op_db o : keeps (db_wf hash) (run_job_op hash io o).
Proof.
  apply keeps_db; [| |apply run_job_op_wf].
  - destruct (promotes o) eqn:E.
    + destruct o; try done. apply promote_keeps_rules.
    + intros c. apply rules_wf_rows, (rows_job_invariant hash io (rule_rows (tables c)) o E c eq_refl).
  - apply aside_events. destruct o; simpl;
    unfold CreateReviewJob, ClaimReviewJob, ScheduleReviewRetry, RequeueStaleReviewJobs, RecordReviewVote,
      CompleteReviewJob, PromoteHash, promote_body, validateHash, validateHashContent, validateAPIKeyTrace, insert_job, update_jobs, insert_promotion.
    all: other_tables.
Qed.

(** *** The configuration and the sessions *)

Ltac only_settings :=
  store_walk; unfold insert_client_profile, update_client_profile, upsert_node, insert_session; statement_cases.
Ltac settings_op := apply keeps_elsewhere; only_settings.

Lemma put_config_db t c v : keeps (db_wf hash) (PutConfig io t c v).
Proof. unfold PutConfig, put_config. settings_op. Qed.
Lemma get_config_db t b : keeps (db_wf hash) (GetConfig io t b).
Proof. unfold GetConfig, PutConfig, put_config. settings_op. Qed.
Lemma save_profile_db t p : keeps (db_wf hash) (SaveProfile io t p).
Proof.
  apply keeps_elsewhere. unfold SaveProfile. cbv zeta. intros v n. do 2 keeps_step. clear. keeps_step; [|apply keeps_ret].
  apply aside_exec. unfold insert_client_profile, update_client_profile, take_id.
  intros d x d'; repeat case_match; intros [= _ <-]; try done. split; [done|simpl; lia].
Qed.
Lemma delete_profile_db id : keeps (db_wf hash) (DeleteProfile io id).
Proof. unfold DeleteProfile. settings_op. Qed.
Lemma save_endpoint_db e : keeps (db_wf hash) (SaveAIEndpoint io e).
Proof. unfold SaveAIEndpoint. settings_op. Qed.
Lemma save_node_db n : keeps (db_wf hash) (SaveAINode io n).
Proof. unfold SaveAINode. settings_op. Qed.
Lemma login_db t raw csrf user pw : keeps (db_wf hash) (Login hash io t raw csrf user pw).
Proof. unfold Login. settings_op. Qed.
Lemma logout_db token : keeps (db_wf hash) (Logout hash io token).
Proof. unfold Logout, delete_session. settings_op. Qed.
Lemma session_db t token : keeps (db_wf hash) (Session hash io t token).
Proof. unfold Session, delete_session. settings_op. Qed.
Lemma ensure_admin_db salt user pw : keeps (db_wf hash) (EnsureAdmin io salt user pw).
Proof. unfold EnsureAdmin. settings_op. Qed.

(** *** Reading *)

Lemma reads_overview t : reads (Overview io t).
Proof. unfold Overview. store_walk. Qed.
Lemma reads_recent t n : reads (ListRecentEvents io t n).
Proof. unfold ListRecentEvents. store_walk. Qed.
Lemma reads_filtered t page size f : reads (ListEventsFiltered io t page size f).
Proof. unfold ListEventsFiltered. store_walk. Qed.
Lemma reads_event t id : reads (GetEvent io t id).
Proof. unfold GetEvent, latestReviewForSHA, ListReviewVotes. store_walk. Qed.
Lemma reads_evidence t id : reads (GetEvidence io t id).
Proof. unfold GetEvidence. store_walk. Qed.
Lemma reads_votes id : reads (ListReviewVotes io id).
Proof. unfold ListReviewVotes. store_walk. Qed.
Lemma reads_jobs n : reads (ListReviewJobs io n).
Proof. unfold ListReviewJobs. store_walk. Qed.
Lemma reads_due t n : reads (ListDueReviewJobs io t n).
Proof. unfold ListDueReviewJobs. store_walk. Qed.
Lemma reads_summaries kind : reads (ListHashSummaries io kind).
Proof. unfold ListHashSummaries. store_walk. Qed.
Lemma reads_hash kind id : reads (GetHash io kind id).
Proof. unfold GetHash, select_by_id. store_walk. Qed.
End operations.

(** ** The administration server *)

(** The handler keeps [P] of the tables and [Q] of the runtime. *)
Definition keeps_world {RT A} (P : db → Prop) (Q : RT → Prop) (m : Admin RT A) : Prop :=
  ∀ w, P (tables (w_conn w)) ∧ Q (w_runtime w) → P (tables (w_conn (m w).2)) ∧ Q (w_runtime (m w).2).
(** A reload does. *)
Definition keeps_reload {RT} (P : db → Prop) (Q : RT → Prop) (s : AdminServer RT) : Prop :=
  match OnReload s with
  | Some f => ∀ rt c, P (tables c) ∧ Q rt → P (tables (f rt c).2) ∧ Q (f rt c).1.2
  | None => True
  end.

Section worlds.
Context {RT : Type} (P : db → Prop) (Q : RT → Prop) (s : AdminServer RT).
Context (Hs : keeps_reload P Q s).
Implicit Types (k : Admin RT Response.t).

Lemma world_ret {A} (a : A) : keeps_world P Q (mret a : Admin RT A).
Proof. by intros w. Qed.
Lemma world_bind {A B} (m : Admin RT A) (f : A → Admin RT B) :
  keeps_world P Q m → (∀ a, keeps_world P Q (f a)) → keeps_world P Q (m ≫= f).
Proof.
  intros Hm Hf w Hw. specialize (Hm w Hw). unfold mbind, Admin_bind. destruct (m w) as [a w']. by apply Hf.
Qed.
Lemma world_store {A} (m : Store A) : keeps P m → keeps_world P Q (store m : Admin RT _).
Proof.
  intros Hm w [Hw HQ]. specialize (Hm _ Hw). unfold store. by destruct (m (w_conn w)).
Qed.
Lemma world_on_ok {A} (m : Store A) e (k : A → Admin RT Response.t) :
  keeps P m → (∀ a, keeps_world P Q (k a)) → keeps_world P Q (on_ok m e k).
Proof.
  intros Hm Hk. apply world_bind; [by apply world_store|]. intros [a|err]; [apply Hk|apply world_ret].
Qed.
Lemma world_check b e k : keeps_world P Q k → keeps_world P Q (check b e k).
Proof. intros Hk. destruct b; [done|apply world_ret]. Qed.
Lemma world_limiter {A} (f : gmap string (list Time) → A * gmap string (list Time)) :
  keeps_world P Q (limiter_step f : Admin RT A).
Proof. intros w Hw. unfold limiter_step. by destruct (f (w_limiter w)). Qed.
Lemma world_reload k : keeps_world P Q k → keeps_world P Q (reloadRuntime s k).
Proof.
  intros Hk. unfold reloadRuntime, keeps_reload in *. destruct (OnReload s) as [f|]; [|done].
  intros w Hw. specialize (Hs (w_runtime w) _ Hw). destruct (f _ _) as [[[] rt] c]; [by apply Hk|done].
Qed.
Lemma world_decode `{AQ : AdminRequest} {A} r (parse : bytes → option A) limit (k : A → Admin RT Response.t) :
  (∀ a, keeps_world P Q (k a)) → keeps_world P Q (decodeJSONLimit r parse limit k).
Proof. intros Hk. unfold decodeJSONLimit. destruct (decoded _ _ _); [apply world_ret|apply Hk]. Qed.
End worlds.

Ltac world_step :=
  match goal with
  | H : ∀ _, keeps_world _ _ (?k _) |- keeps_world _ _ (?k _) => apply H
  | |- keeps_world _ _ (mret _) => apply world_ret
  | |- keeps_world _ _ (on_ok _ _ _) => apply world_on_ok; [|intros ?]
  | |- keeps_world _ _ (check _ _ _) => apply world_check
  | |- keeps_world _ _ (decodeJSON _ _ _) => apply world_decode; intros ?
  | |- keeps_world _ _ (decodeJSONLimit _ _ _ _) => apply world_decode; intros ?
  | |- keeps_world _ _ (reloadRuntime _ _) => apply world_reload; [assumption|]
  | |- keeps_world _ _ (store _ ≫= _) => apply world_bind; [apply world_store|intros ?]
  | |- keeps_world _ _ (limiter_step _ ≫= _) => apply world_bind; [apply world_limiter|intros ?]
  | |- keeps_world _ _ (match ?x with _ => _ end) => destruct x
  | |- keeps _ _ => by eauto with db_ops
  end.

Create HintDb db_ops.
#[export] Hint Resolve add_db update_db delete_db put_config_db get_config_db save_profile_db delete_profile_db
  save_endpoint_db save_node_db login_db logout_db session_db keeps_reads reads_overview reads_recent reads_filtered
  reads_event reads_evidence reads_votes reads_jobs reads_summaries reads_hash reads_ListProfiles reads_GetAIEndpoint
  reads_ListAINodes : db_ops.

Section handlers.
Context `{U : Unicode, R : Regexp, C : Cipher, UL : UrlLib, AR : Argon2, NL : NetLib, SQL : SqlFunctions}.
Context `{SA : SqlAverage, AQ : AdminRequest, TL : TimeLib}.
Context {RT : Type} (s : AdminServer RT).
Context (io : nat → bool) (clock : nat → Time) (hash : string → string).
Context (error_text : store_err → string) (raw csrfRaw : option bytes) (Version : string).
Context (Q : RT → Prop) (Hs : keeps_reload (db_wf hash) Q s).
Abbreviation kept := (keeps_world (db_wf hash) Q) (only parsing).

Lemma deletion_db o {A} (m : Store A) : run_event_op io o = (m;; mret ()) → keeps (db_wf hash) m.
Proof. intros H. apply keeps_unit. rewrite <- H. apply event_op_db. Qed.
Lemma delete_event_db id : keeps (db_wf hash) (DeleteEvent io id).
Proof. by apply (deletion_db (EDelete id)). Qed.
Lemma delete_before_db t : keeps (db_wf hash) (DeleteEventsBefore io t).
Proof. by apply (deletion_db (EDeleteBefore t)). Qed.

Lemma save_nodes_world nodes k : kept k → kept (save_nodes io nodes k : Admin RT Response.t).
Proof. intros Hk. induction nodes; simpl; [done|]. world_step; [world_step|done]. Qed.
Hint Resolve delete_event_db delete_before_db : db_ops.

Lemma login_world r : kept (login s io clock hash raw csrfRaw r).
Proof. unfold login. repeat world_step. Qed.
Lemma readyz_world : kept (readyz s io clock).
Proof. unfold readyz. repeat world_step. Qed.

Lemma api_world r : kept (api s io clock hash error_text Version r).
Proof.
  unfold api. cbv zeta. repeat match goal with |- kept (if ?b then _ else _) => destruct b end.
  all: unfold logout, overview, getConfig, putConfig, putAI, testAI, asyncNodes, testAsyncNode, reviewJobs, systemUpdate,
    reviewVotes, hashCollection, hashItem, profileCollection, profileItem, save_profile, admin_deleteEvents, events, eventItem.
  all: repeat world_step.
  - apply world_bind; [|intros ?]; repeat world_step.
  - apply save_nodes_world. repeat world_step.
  - unfold systemRollback. world_step.
Qed.

Lemma admin_world dist_has files r :
  kept (admin_Handler s io clock hash error_text raw csrfRaw Version dist_has files r).
Proof.
  intros w Hw. unfold admin_Handler, securityHeaders.
  assert (kept (mux s io clock hash error_text raw csrfRaw Version dist_has files r)) as Hm; [|specialize (Hm w Hw); by destruct (mux _ _ _ _ _ _ _ _ _ _ _ _)].
  unfold mux. repeat world_step; [apply readyz_world|apply login_world|].
  unfold requireAuth. repeat world_step. apply api_world.
Qed.
End handlers.

(** ** The whole program *)

(** What a run of the program works on: the two servers, the database with the
    queues of the data plane, and the failed logins. *)
Module Program.
Record t `{R : Regexp} : Type := mk {
  guard : Guard.t;
  plane : adapter_world;
  limiter : gmap string (list Time);
}.
Definition tables `{R : Regexp} (p : t) : db := Db.tables (aw_conn (plane p)).
End Program.
Definition set_conn (w : adapter_world) (c : conn) : adapter_world :=
  mk_adapter_world c (aw_events w) (aw_jobs w) (aw_limiter w).

Section program.
Context `{U : Unicode, R : Regexp, C : Cipher, UL : UrlLib, AR : Argon2, NL : NetLib, H : !HostLib, CL : !CIDRLib}.
Context `{SQL : SqlFunctions, SA : SqlAverage, AQ : AdminRequest, TL : TimeLib}.
Context (cfg : StartupConfig.t) (hash : string → string).
Context (format_confidence : float64 → string) (error_text : audit_err → string).

(** One step: every step meets its own pattern of I/O errors, clock readings
    and answers of the outside world. *)
Inductive program_step : Program.t → Program.t → Prop :=
| step_admin io now started test updater clock store_text raw csrfRaw version dist_has files r g w l a c' l' g' :
    admin_Handler (adminServer cfg io now started test updater) io clock hash store_text raw csrfRaw version
      dist_has files r (mk_world (aw_conn w) l g) = (a, mk_world c' l' g') →
    program_step (Program.mk _ g w l) (Program.mk _ g' (set_conn w c') l')
| step_request A pinned req body g w l :
    ae_hash A = hash →
    program_step (Program.mk _ g w l)
      (Program.mk _ g (adapter_Evaluate A (runtime.state (Guard.rt g)) pinned req body w).2 l)
| step_observe A now req reason g w l :
    program_step (Program.mk _ g w l)
      (Program.mk _ g (mk_adapter_world (aw_conn w) (Observe A now req reason (aw_events w)) (aw_jobs w) (aw_limiter w)) l)
| step_write io now g w l q c :
    write_event io now (aw_events w) (aw_conn w) = (q, c) →
    program_step (Program.mk _ g w l) (Program.mk _ g (mk_adapter_world c q (aw_jobs w) (aw_limiter w)) l)
| step_work io clk now nodes schedule g w l queue promoted c g' c' :
    worker_job hash io clk format_confidence error_text nodes schedule (aw_jobs w) (aw_conn w) = (Ok (queue, promoted), c) →
    onPromotion cfg io now promoted g c = (g', c') →
    program_step (Program.mk _ g w l) (Program.mk _ g' (mk_adapter_world c' (aw_events w) queue (aw_limiter w)) l)
| step_recover io clk g w l queue c :
    recoverDue hash io clk (aw_jobs w) (aw_conn w) = (Ok queue, c) →
    program_step (Program.mk _ g w l) (Program.mk _ g (mk_adapter_world c (aw_events w) queue (aw_limiter w)) l)
| step_cleanup io now g w l :
    program_step (Program.mk _ g w l) (Program.mk _ g (set_conn w (cleanup_run io now (aw_conn w)).2) l).

(** *** Every step keeps the tables well formed *)

Lemma reload_db io now rt c : db_wf hash (tables c) → db_wf hash (tables (reload io cfg now rt c).2).
Proof.
  intros Hc. unfold reload.
  assert (keeps (db_wf hash) (reload_reads io cfg now)) as Hr.
  { unfold reload_reads. repeat keeps_step; eauto with db_ops. }
  specialize (Hr c Hc). destruct (reload_reads io cfg now c) as [[[[[stored ps] e] ns]|e] c1]; [|done].
  cbn [snd] in Hr. pose proof (reads_loadRules io (db_wf hash) c1 Hr) as Hl.
  destruct (loadRules io c1) as [[rules|e'] c2]; [|done]. by destruct (NewEngine _).
Qed.
Lemma on_reload_db io now g c : db_wf hash (tables c) → db_wf hash (tables (on_reload cfg io now g c).2).
Proof.
  intros Hc. unfold on_reload. pose proof (reload_db io now (Guard.rt g) c Hc) as Hr.
  destruct (reload _ _ _ _ c) as [[[u|e] rt] c1]; [|done]. cbn [snd] in Hr.
  pose proof (get_config_db hash io now (upstream_text cfg) c1 Hr) as Hg.
  destruct (GetConfig _ _ _ c1) as [[latest|e] c2]; [|done].
  destruct (url_parse _); [|done]. by destruct (guard_SetUpstream _ _ _).
Qed.

Lemma effects_db A effects w :
  db_wf hash (tables (aw_conn w)) → db_wf hash (tables (aw_conn (foldl (apply_effect A) w effects))).
Proof.
  revert w. induction effects as [|e effects IH]; intros w Hw; [done|].
  apply IH. destruct e; try done. exact (event_op_db hash _ (EBlock _ _ _ _ _) _ Hw).
Qed.
Lemma evaluate_db A s pinned req body w :
  ae_hash A = hash → db_wf hash (tables (aw_conn w)) →
  db_wf hash (tables (aw_conn (adapter_Evaluate A s pinned req body w).2)).
Proof.
  intros HA Hw. unfold adapter_Evaluate. destruct (requestState _ _ _).1 as [st|]; [|done]. cbv zeta.
  destruct (Evaluate _ _ _ _) as [result ew]. cbn [snd aw_conn].
  pose proof (effects_db A (log ew) w Hw) as Hf.
  destruct (backfill_kind result); [|done]. rewrite HA. by apply store_context_db.
Qed.

Lemma process_db io clk nodes schedule job c :
  db_wf hash (tables c) →
  db_wf hash (tables (process hash io clk format_confidence error_text nodes schedule job c).2).
Proof.
  intros Hc. destruct (process_cases hash io clk format_confidence error_text nodes schedule job c) as (o & c' & -> & Ho).
  assert (∀ a b, unpromoted hash io a b → db_wf hash (tables a) → db_wf hash (tables b)) as Hu.
  { intros a b Hab. apply Hab. intros op _. apply job_op_db. }
  destruct o as [kind|]; [|by eapply Hu].
  destruct Ho as [(c1 & c2 & t & id & content & summary & fp & hn & H1 & Hp & H2) _].
  apply (Hu _ _ H2). pose proof (job_op_db hash io (JPromote t id (asyncReviewJob.Hash job) kind content summary fp hn) c1
    (Hu _ _ H1 Hc)) as Hj. cbn [run_job_op] in Hj. by rewrite Hp in Hj.
Qed.

Lemma recover_all_db io records queue : keeps (db_wf hash) (recover_all hash io records queue).
Proof.
  revert queue. induction records as [|record records IH]; intros queue; simpl; [apply keeps_ret|].
  apply keeps_bind; [|intros [job|] ? ? _; [destruct (enqueue job queue) as [[] ?]; [apply IH|apply keeps_ret]|apply IH]].
  unfold recover_one, LoadReviewJobSample, LoadReviewJobContent. keeps_step; [apply keeps_attempt, keeps_load|].
  destruct a as [sample|]; [|apply keeps_ret]. destruct (_ =? _)%string; [apply keeps_ret|].
  keeps_step; [apply keeps_attempt, keeps_load|apply keeps_ret].
Qed.
Lemma recoverDue_db io clk queue : keeps (db_wf hash) (recoverDue hash io clk queue).
Proof.
  unfold recoverDue. generalize (2 * minute)%Z as age. intros age.
  do 2 (apply keeps_bind; [apply keeps_time|intros ? ? ? _]).
  apply keeps_bind; [apply keeps_attempt; by refine (job_op_db hash io (JRequeue _ _ age))|intros ? ? ? _].
  apply keeps_bind; [apply keeps_time|intros t' ? ? _].
  apply keeps_bind; [apply keeps_attempt, reads_due|intros [records|] ? ? _; [apply recover_all_db|apply keeps_ret]].
Qed.
Lemma cleanup_db io now : keeps (db_wf hash) (cleanup_run io now).
Proof. unfold cleanup_run. keeps_step; [apply get_config_db|]. apply (event_op_db hash io (ECleanup now (Config.EventRetentionDays a))). Qed.

(** *** The runtime in force *)

(** The data plane has a state to work with. *)
Definition in_service (g : Guard.t) : Prop := is_Some (runtime.state (Guard.rt g)).

Lemma reload_state io now rt c :
  is_Some (runtime.state rt) ∨ (reload io cfg now rt c).1.1 = Ok () →
  is_Some (runtime.state (reload io cfg now rt c).1.2).
Proof.
  unfold reload. destruct (reload_reads io cfg now c) as [[[[[stored ps] e] ns]|e] c1]; [|by intros [|[=]]].
  destruct (loadRules io c1) as [[rules|e'] c2]; [|by intros [|[=]]].
  destruct (NewEngine _); [done|by intros [|[=]]].
Qed.
Lemma on_reload_state io now g c : in_service g → in_service (on_reload cfg io now g c).1.2.
Proof.
  intros Hg. unfold on_reload. pose proof (reload_state io now (Guard.rt g) c (or_introl Hg)) as Hr.
  destruct (reload _ _ _ _ c) as [[[u|e] rt] c1]; [|done]. cbn [fst snd] in Hr.
  destruct (GetConfig _ _ _ c1) as [[latest|e] c2]; [|done]. destruct (url_parse _); [|done].
  unfold guard_SetUpstream. by destruct (SetUpstream _ _).
Qed.
Lemma on_promotion_ok io now promoted g c :
  db_wf hash (tables c) → in_service g →
  db_wf hash (tables (onPromotion cfg io now promoted g c).2) ∧ in_service (onPromotion cfg io now promoted g c).1.
Proof.
  intros Hc Hg. unfold onPromotion. destruct promoted; [|done].
  pose proof (reload_db io now (Guard.rt g) c Hc) as Hd. pose proof (reload_state io now (Guard.rt g) c (or_introl Hg)) as Hr.
  by destruct (reload _ _ _ _ c) as [[r rt] c1].
Qed.
Lemma admin_server_reload io now started test updater :
  keeps_reload (db_wf hash) in_service (adminServer cfg io now started test updater).
Proof. intros g c [Hc Hg]. split; [by apply on_reload_db|by apply on_reload_state]. Qed.

Lemma save_all_db io now ps : keeps (db_wf hash) (save_all io now ps).
Proof.
  induction ps as [|p ps IH]; simpl; [apply keeps_ret|].
  apply keeps_bind; [apply keeps_attempt, save_profile_db|intros ? ? ? _; exact IH].
Qed.
Lemma seed_db io now : keeps (db_wf hash) (seedProfiles io now).
Proof.
  unfold seedProfiles. generalize DefaultClientProfiles as ps. intros ps.
  apply keeps_bind; [apply keeps_attempt, reads_ListProfiles|intros r ? ? _].
  destruct r as [[|q qs]|]; [apply save_all_db|apply keeps_ret|apply keeps_ret].
Qed.

Lemma startup_ok io now salt c g c' :
  startup cfg io now salt c = (Ok g, c') → db_wf hash (tables c) → db_wf hash (tables c') ∧ in_service g.
Proof.
  unfold startup. intros E Hc. pose proof (ensure_admin_db hash io salt "admin" (StartupConfig.InitialAdminPass cfg) c Hc) as He.
  destruct (EnsureAdmin _ _ _ _ c) as [[u|e] c1]; [|done]. cbn [snd] in He.
  assert (keeps (db_wf hash) (seedProfiles io now)) as Hs.
  { apply seed_db. }
  specialize (Hs c1 He). cbv zeta in E. set (rt0 := runtime.mk _ None _ _) in *. set (c2 := (seedProfiles io now c1).2) in *.
  pose proof (reload_db io now rt0 c2 Hs) as Hr. pose proof (reload_state io now rt0 c2) as Hst.
  destruct (reload io cfg now rt0 c2) as [[[[]|e] rt] c3]; [|done]. cbn [fst snd] in *.
  pose proof (get_config_db hash io now (upstream_text cfg) c3 Hr) as Hg.
  destruct (GetConfig _ _ _ c3) as [[stored|e] c4]; [|done]. destruct (url_parse _); [|done].
  injection E as <- <-. split; [done|]. apply Hst. by right.
Qed.

(** What holds of the program at any time. *)
Definition program_wf (p : Program.t) : Prop := db_wf hash (Program.tables p) ∧ in_service (Program.guard p).

Lemma program_step_wf p p' : program_step p p' → program_wf p → program_wf p'.
Proof.
  unfold program_wf, Program.tables.
  intros [] [Hd Hg]; simpl in *; try (split; [|done]).
  - pose proof (admin_world (adminServer cfg io now started test updater) io clock hash store_text raw csrfRaw version
      in_service (admin_server_reload _ _ _ _ _) dist_has files r (mk_world (aw_conn w) l g) (conj Hd Hg)) as Hw.
    rewrite H0 in Hw. exact Hw.
  - by apply evaluate_db.
  - done.
  - unfold write_event in H0. destruct (queued _); simplify_eq; [done|]. by apply (event_op_db hash io (ERecord now _)).
  - assert (db_wf hash (tables c)) as Hk.
    { unfold worker_job in H0. destruct (aw_jobs w) as [|job rest]; [by injection H0 as <- <- <-|].
      apply bind_inv in H0 as (o & c1 & Hp & [= <- <- <-]). pose proof (process_db io clk nodes schedule job _ Hd) as Hk.
      by rewrite Hp in Hk. }
    pose proof (on_promotion_ok io now promoted g c Hk Hg) as Ho. by rewrite H1 in Ho.
  - pose proof (recoverDue_db io clk (aw_jobs w) _ Hd) as Hk. by rewrite H0 in Hk.
  - by apply cleanup_db.
Qed.

Lemma rtc_wf p p' : rtc program_step p p' → program_wf p → program_wf p'.
Proof. induction 1; [done|]. intros Hp. by eapply IHrtc, program_step_wf. Qed.

(** C4. The program never breaks its database and never loses its runtime:
    started on a database whose rules, events, evidence and jobs are well
    formed, after any interleaving of administration requests, audited and
    unaudited data-plane requests, event writes, background reviews, recoveries
    and cleanups - whatever statements failed on the way - the text of
    every rule has the digest of the rule, every evidence belongs to an event
    that no other evidence belongs to and keeps within its bound, no job was
    tried more than three times and no two have one key, and the data plane has
    a state to decide with. *)
Theorem program_invariant io now salt c g c' w l p :
  db_wf hash (tables c) → startup cfg io now salt c = (Ok g, c') → aw_conn w = c' →
  rtc program_step (Program.mk _ g w l) p → program_wf p.
Proof.
  intros Hc Hs Hw Hp. eapply rtc_wf; [exact Hp|]. destruct (startup_ok io now salt c g c' Hs Hc) as [H1 H2].
  split; [|done]. unfold Program.tables. simpl. by rewrite Hw.
Qed.
End program.

(** ** Witness *)

Section program_witness.
#[local] Existing Instances Demo.url Demo.cipher Demo.argon Demo.net Demo.host Demo.cidr Demo.sql Demo.average
  Demo.times Demo.requests literal_regexp.

Lemma world_eta {RT A} (x : A * world RT) :
  x = (x.1, mk_world (w_conn x.2) (w_limiter x.2) (w_runtime x.2)).
Proof. by destruct x as [a []]. Qed.
Lemma demo_users_wf : db_wf demo_hash (tables Demo.users).
Proof.
  split; [apply empty_rules_wf|by eapply events_wf_view, demo_events_wf|by eapply jobs_wf_same, demo_jobs_wf].
Qed.

(** A login, a request, the event it queues and a cleanup. *)
Definition demo_start : result startup_err (Guard.t (R := literal_regexp)) * conn :=
  startup demo_startup Demo.io 0 None Demo.users.
Definition demo_running : Guard.t (R := literal_regexp) :=
  match demo_start.1 with Ok g => g | Err _ => demo_guard end.
Definition demo_plane : adapter_world :=
  mk_adapter_world demo_start.2 (mk_event_queue [] 0 0) [] (NewFixedWindowLimiter 10 second).
Definition demo_login : Response.t * world Guard.t :=
  admin_Handler demo_admin_server Demo.io (λ _, hour) demo_hash (λ _, ""%string) (Some (B "raw")) (Some (B "csrf")) ""
    (λ _, false) (λ _, writeHeader 200) (Demo.request "POST" "/api/v1/auth/login" (B "secret") [])
    (mk_world (aw_conn demo_plane) ∅ demo_running).
Definition demo_audited : adapter_world :=
  (adapter_Evaluate demo_environment (runtime.state (Guard.rt (w_runtime demo_login.2))) None demo_attack demo_text
     (set_conn demo_plane (w_conn demo_login.2))).2.
Definition demo_written : event_queue * conn :=
  write_event Demo.io hour (aw_events demo_audited) (aw_conn demo_audited).
Definition demo_after_write : adapter_world :=
  mk_adapter_world demo_written.2 demo_written.1 (aw_jobs demo_audited) (aw_limiter demo_audited).
Definition demo_end : Program.t :=
  Program.mk _ (w_runtime demo_login.2)
    (set_conn demo_after_write (cleanup_run Demo.io hour (aw_conn demo_after_write)).2) (w_limiter demo_login.2).

Lemma program_invariant_witness :
  program_wf demo_hash demo_end ∧ Response.status demo_login.1 = 200%Z ∧
  size (audit_events (Program.tables demo_end)) = 1.
Proof.
  split; [|split; vm_compute; reflexivity].
  assert (is_ok demo_start.1 = true) as Hs by (vm_compute; reflexivity).
  apply (program_invariant demo_startup demo_hash (λ _, ""%string) (λ _, ""%string) Demo.io 0 None Demo.users
           demo_running demo_start.2 demo_plane ∅ demo_end); [exact demo_users_wf| |reflexivity|].
  - unfold demo_running. change (startup _ _ _ _ _) with demo_start. destruct demo_start as [[g|e] c]; [reflexivity|discriminate Hs].
  - eapply rtc_l; [eapply step_admin; exact (world_eta demo_login)|].
    eapply rtc_l; [apply (step_request _ _ _ _ demo_environment None demo_attack demo_text); reflexivity|].
    eapply rtc_l; [apply (step_write _ _ _ _ Demo.io hour); apply surjective_pairing|].
    eapply rtc_l; [apply (step_cleanup _ _ _ _ Demo.io hour)|]. apply rtc_refl.
Defined.
End program_witness.
