(* ===== verification/Lifecycle.v ===== *)
(** * The goroutines of the program and its shutdown ([cmd/nocyber-guard/main.go])

    [boot] is [main] until both servers listen.  From then until [main]
    returns there are the main goroutine, the handlers of the two servers, the
    event writer, the background reviewer and the cleanup.  Each has a step relation of its own,
    on the state of the whole program and what the goroutines wait for: the
    channels that are closed, and the calls of [Shutdown].  A send on the
    closed channel of the events panics, which ends the request.

    Whether a channel is closed is told by how far the main goroutine has got,
    since it closes them all. *)

From S2P Require Export Invariant StoreOpen.

(** Where the main goroutine is: it waits for a signal or a failed server, in
    the two calls of [Shutdown], and in the deferred calls, the last first. *)
Inductive position : Type :=
| Serving
| DataShutdown
| AdminShutdown
| StopCleanup
| StopWriter
| StopAsync
| Exited.
#[export] Instance position_eq_dec : EqDecision position.
Proof. solve_decision. Defined.

Definition rank (p : position) : nat :=
  match p with
  | Serving => 0 | DataShutdown => 1 | AdminShutdown => 2 | StopCleanup => 3 | StopWriter => 4 | StopAsync => 5
  | Exited => 6
  end.

Module Life.
Record t `{R : Regexp} : Type := mk {
  prog : Program.t;
  main : position;
  expired : bool;              (** the twenty seconds of [shutdownCtx] are over *)
  data_requests : nat;         (** handlers that have not returned *)
  admin_requests : nat;
  hijacked : nat;              (** upgraded connections (WebSockets) that are still open *)
  cleanup_done : bool;
  writer_done : bool;
  async_done : bool;
  panics : nat;
  accepted : list Event.t;     (** every event that was put into the channel *)
  recorded : list Event.t;     (** every event the writer gave to the store *)
}.

Section fields.
Context `{R : Regexp}.
Implicit Types s : t.
Definition at_position s p := mk _ (prog s) p (expired s) (data_requests s) (admin_requests s) (hijacked s) (cleanup_done s) (writer_done s)
  (async_done s) (panics s) (accepted s) (recorded s).
Definition expire s := mk _ (prog s) (main s) true (data_requests s) (admin_requests s) (hijacked s) (cleanup_done s) (writer_done s)
  (async_done s) (panics s) (accepted s) (recorded s).
Definition with_requests s d a := mk _ (prog s) (main s) (expired s) d a (hijacked s) (cleanup_done s) (writer_done s)
  (async_done s) (panics s) (accepted s) (recorded s).
Definition with_hijacked s d h := mk _ (prog s) (main s) (expired s) d (admin_requests s) h (cleanup_done s) (writer_done s)
  (async_done s) (panics s) (accepted s) (recorded s).
Definition finish_cleanup s := mk _ (prog s) (main s) (expired s) (data_requests s) (admin_requests s) (hijacked s) true (writer_done s)
  (async_done s) (panics s) (accepted s) (recorded s).
Definition finish_writer s := mk _ (prog s) (main s) (expired s) (data_requests s) (admin_requests s) (hijacked s) (cleanup_done s) true
  (async_done s) (panics s) (accepted s) (recorded s).
Definition finish_async s := mk _ (prog s) (main s) (expired s) (data_requests s) (admin_requests s) (hijacked s) (cleanup_done s)
  (writer_done s) true (panics s) (accepted s) (recorded s).
Definition add_panic s := mk _ (prog s) (main s) (expired s) (data_requests s) (admin_requests s) (hijacked s) (cleanup_done s)
  (writer_done s) (async_done s) (S (panics s)) (accepted s) (recorded s).

Definition events s : list Event.t := queued (aw_events (Program.plane (prog s))).
(** A step of the program; what it appends to the channel is accepted. *)
Definition moves s (p : Program.t) :=
  mk _ p (main s) (expired s) (data_requests s) (admin_requests s) (hijacked s) (cleanup_done s) (writer_done s) (async_done s) (panics s)
    (accepted s ++ drop (length (events s)) (queued (aw_events (Program.plane p)))) (recorded s).
(** The writer has taken the oldest event. *)
Definition writes s (p : Program.t) :=
  mk _ p (main s) (expired s) (data_requests s) (admin_requests s) (hijacked s) (cleanup_done s) (writer_done s) (async_done s) (panics s)
    (accepted s) (recorded s ++ take 1 (events s)).

Definition has_reached s p : bool := (rank p <=? rank (main s))%nat.
Definition cleanup_cancelled s : bool := has_reached s StopCleanup.
Definition events_closed s : bool := has_reached s StopWriter.
Definition async_stopped s : bool := has_reached s StopAsync.

(** The state when both servers have been started. *)
Definition start (p : Program.t) : t := mk _ p Serving false 0 0 0 false false false 0 [] [].
End fields.
End Life.

Section steps.
Context `{U : Unicode, R : Regexp, C : Cipher, UL : UrlLib, AR : Argon2, NL : NetLib, H : !HostLib, CL : !CIDRLib}.
Context `{SQL : SqlFunctions, SA : SqlAverage, AQ : AdminRequest, TL : TimeLib}.
Context (cfg : StartupConfig.t) (hash : string → string).
Context (format_confidence : float64 → string) (error_text : audit_err → string).
Implicit Types s : Life.t.
Abbreviation program := (program_step cfg hash format_confidence error_text) (only parsing).

(** ** The main goroutine *)

(** A call of [Shutdown] returns when its server has no connection left with a
    request, or the time is over; upgraded connections are no longer the
    server's, and nothing waits for them.  A deferred call returns when the
    goroutine it stops has ended. *)
Inductive main_step : Life.t → Life.t → Prop :=
| main_stops s :
    Life.main s = Serving → main_step s (Life.at_position s DataShutdown)
| main_deadline s :
    Life.main s = DataShutdown ∨ Life.main s = AdminShutdown → Life.expired s = false → main_step s (Life.expire s)
| main_data_down s :
    Life.main s = DataShutdown → Life.data_requests s = 0 ∨ Life.expired s = true →
    main_step s (Life.at_position s AdminShutdown)
| main_admin_down s :
    Life.main s = AdminShutdown → Life.admin_requests s = 0 ∨ Life.expired s = true →
    main_step s (Life.at_position s StopCleanup)
| main_after_cleanup s :
    Life.main s = StopCleanup → Life.cleanup_done s = true → main_step s (Life.at_position s StopWriter)
| main_after_writer s :
    Life.main s = StopWriter → Life.writer_done s = true → main_step s (Life.at_position s StopAsync)
| main_after_async s :
    Life.main s = StopAsync → Life.async_done s = true → main_step s (Life.at_position s Exited).

(** ** The handlers *)

Definition is_audit (e : effect) : bool := match e with EAudit _ => true | _ => false end.
(** The effects before the first send. *)
Fixpoint before_send (l : list effect) : list effect :=
  match l with
  | [] => []
  | e :: l => if is_audit e then [] else e :: before_send l
  end.
(** An evaluation while the channel is closed: whether it panics, and what it
    has done until then. *)
Definition evaluate_closed (A : adapter_env) (current pinned : option runtimeState.t) (req : HttpRequest.t) (body : bytes)
    (w : adapter_world) : bool * adapter_world :=
  match (requestState current pinned false).1 with
  | None => (false, w)
  | Some st =>
      let '(_, ew) := Evaluate (engine_env A st (aw_conn w)) (runtimeState.engine st) (audit_request_of A req body)
                        (Engine.mk_world 0 (Some (aw_limiter w)) []) in
      if existsb is_audit (log ew)
      then let w' := foldl (apply_effect A) w (before_send (log ew)) in
           (true, mk_adapter_world (aw_conn w') (aw_events w') (aw_jobs w') (default (aw_limiter w) (Engine.limiter ew)))
      else (false, (adapter_Evaluate A current pinned req body w).2)
  end.

Definition state_of (p : Program.t) : option runtimeState.t := runtime.state (Guard.rt (Program.guard p)).
Definition with_plane (p : Program.t) (w : adapter_world) : Program.t := Program.mk _ (Program.guard p) w (Program.limiter p).

(** A connection that a server has accepted may send its request until the
    call of [Shutdown] has returned, and still afterwards when it returned
    because the time was over. *)
Definition may_arrive (s : Life.t) (until : position) : Prop :=
  (rank (Life.main s) ≤ rank until)%nat ∨ Life.expired s = true.

(** A handler may do several things before it returns.  When the upstream
    switches protocols, the reverse proxy takes the connection from the server
    and copies between the two ends until one of them closes; the request was
    audited before, and no event follows. *)
Inductive handler_step : Life.t → Life.t → Prop :=
| data_arrives s :
    may_arrive s DataShutdown →
    handler_step s (Life.with_requests s (S (Life.data_requests s)) (Life.admin_requests s))
| admin_arrives s :
    may_arrive s AdminShutdown →
    handler_step s (Life.with_requests s (Life.data_requests s) (S (Life.admin_requests s)))
| data_returns s n :
    Life.data_requests s = S n → handler_step s (Life.with_requests s n (Life.admin_requests s))
| data_hijacks s n :
    Life.data_requests s = S n → handler_step s (Life.with_hijacked s n (S (Life.hijacked s)))
| hijacked_closes s n :
    Life.hijacked s = S n → handler_step s (Life.with_hijacked s (Life.data_requests s) n)
| admin_returns s n :
    Life.admin_requests s = S n → handler_step s (Life.with_requests s (Life.data_requests s) n)
| data_evaluates s A pinned req body :
    Life.data_requests s ≠ 0 → ae_hash A = hash → Life.events_closed s = false →
    let p := Life.prog s in
    handler_step s (Life.moves s (with_plane p (adapter_Evaluate A (state_of p) pinned req body (Program.plane p)).2))
| data_evaluates_late s n A pinned req body panicked w :
    Life.data_requests s = S n → ae_hash A = hash → Life.events_closed s = true →
    let p := Life.prog s in
    evaluate_closed A (state_of p) pinned req body (Program.plane p) = (panicked, w) →
    handler_step s (if panicked : bool
                    then Life.add_panic (Life.with_requests (Life.moves s (with_plane p w)) n (Life.admin_requests s))
                    else Life.moves s (with_plane p w))
| data_observes s A now req reason :
    Life.data_requests s ≠ 0 → Life.events_closed s = false →
    let p := Life.prog s in let w := Program.plane p in
    handler_step s (Life.moves s (with_plane p
      (mk_adapter_world (aw_conn w) (Observe A now req reason (aw_events w)) (aw_jobs w) (aw_limiter w))))
| data_observes_late s n :
    Life.data_requests s = S n → Life.events_closed s = true →
    handler_step s (Life.add_panic (Life.with_requests s n (Life.admin_requests s)))
| admin_handles s io now started test updater clock store_text raw csrfRaw version dist_has files r a c' l' g' :
    Life.admin_requests s ≠ 0 →
    let p := Life.prog s in
    admin_Handler (adminServer cfg io now started test updater) io clock hash store_text raw csrfRaw version
      dist_has files r (mk_world (aw_conn (Program.plane p)) (Program.limiter p) (Program.guard p)) = (a, mk_world c' l' g') →
    handler_step s (Life.moves s (Program.mk _ g' (set_conn (Program.plane p) c') l')).

(** ** The background goroutines *)

(** [startEventWriter]: a closed channel is read until it is empty. *)
Inductive writer_step : Life.t → Life.t → Prop :=
| writer_writes s io now q c :
    Life.writer_done s = false → Life.events s ≠ [] →
    let p := Life.prog s in let w := Program.plane p in
    write_event io now (aw_events w) (aw_conn w) = (q, c) →
    writer_step s (Life.writes s (with_plane p (mk_adapter_world c q (aw_jobs w) (aw_limiter w))))
| writer_ends s :
    Life.writer_done s = false → Life.events s = [] → Life.events_closed s = true →
    writer_step s (Life.finish_writer s).

(** [asyncRuntime.start]: of several ready channels one is chosen. *)
Inductive async_step : Life.t → Life.t → Prop :=
| async_works s io clk now nodes schedule queue promoted c g' c' :
    Life.async_done s = false →
    let p := Life.prog s in let w := Program.plane p in
    aw_jobs w ≠ [] →
    worker_job hash io clk format_confidence error_text nodes schedule (aw_jobs w) (aw_conn w) = (Ok (queue, promoted), c) →
    onPromotion cfg io now promoted (Program.guard p) c = (g', c') →
    async_step s (Life.moves s (Program.mk _ g' (mk_adapter_world c' (aw_events w) queue (aw_limiter w)) (Program.limiter p)))
| async_recovers s io clk queue c :
    Life.async_done s = false →
    let p := Life.prog s in let w := Program.plane p in
    recoverDue hash io clk (aw_jobs w) (aw_conn w) = (Ok queue, c) →
    async_step s (Life.moves s (with_plane p (mk_adapter_world c (aw_events w) queue (aw_limiter w))))
| async_stops s :
    Life.async_done s = false → Life.async_stopped s = true → async_step s (Life.finish_async s).

(** [startCleanup]; a run under the cancelled context is one whose statements
    fail. *)
Inductive cleanup_step : Life.t → Life.t → Prop :=
| cleanup_runs s io now :
    Life.cleanup_done s = false →
    let p := Life.prog s in
    cleanup_step s (Life.moves s (with_plane p (set_conn (Program.plane p) (cleanup_run io now (aw_conn (Program.plane p))).2)))
| cleanup_stops s :
    Life.cleanup_done s = false → Life.cleanup_cancelled s = true → cleanup_step s (Life.finish_cleanup s).

(** ** The process *)

(** What happens without the clients. *)
Inductive background_step (s s' : Life.t) : Prop :=
| by_main : main_step s s' → background_step s s'
| by_writer : writer_step s s' → background_step s s'
| by_async : async_step s s' → background_step s s'
| by_cleanup : cleanup_step s s' → background_step s s'.
(** The other goroutines end with [main]. *)
Inductive life_step (s s' : Life.t) : Prop :=
| by_handler : Life.main s ≠ Exited → handler_step s s' → life_step s s'
| by_background : Life.main s ≠ Exited → background_step s s' → life_step s s'.
End steps.

(** ** From the first line of [main] to the two servers *)

Inductive boot_err : Type :=
| BootConfig (e : config_error)
| BootOpen (e : store_err)
| BootStart (e : startup_err).

Section boot.
Context `{U : Unicode, R : Regexp, UL : UrlLib, AR : Argon2, NL : NetLib, H : !HostLib, CL : !CIDRLib, SL : ScanLib}.
Context `{AE : AEAD} (hash : string → string) (rand : nat → bytes).

(** The cipher of a process: AES-GCM under its master key. *)
Definition process_cipher (cfg : StartupConfig.t) : Cipher := store_cipher (StartupConfig.MasterKey cfg) rand.

(** The configuration, and the program as both servers are started; every
    error ends the process with code 2. *)
Definition boot (o : os) (opn : opening) (io start_io : nat → bool) (now : Time) (salt : option bytes) (f : db_file) :
    result boot_err (StartupConfig.t * Program.t) :=
  match (Load o).1 with
  | Err e => Err (BootConfig e)
  | Ok cfg =>
      match Open (C := process_cipher cfg) hash io opn (StartupConfig.DataDir cfg) now f with
      | (Err e, _, _) => Err (BootOpen e)
      | (Ok _, _, f) =>
          match startup (C := process_cipher cfg) cfg start_io now salt (data f) with
          | (Err e, _) => Err (BootStart e)
          | (Ok g, c) =>
              Ok (cfg, Program.mk _ g (mk_adapter_world c (mk_event_queue [] 0 0) [] (NewFixedWindowLimiter 60 minute)) ∅)
          end
      end
  end.
End boot.
