(* ===== verification/LifecycleTheorems.v ===== *)
(** * Theorems on the goroutines and the shutdown *)

From S2P Require Export Lifecycle.

(** ** The channel of events *)

(** Appending within the capacity of the channel. *)
Definition grows (l l' : list Event.t) : Prop :=
  (∃ new, l' = l ++ new) ∧ (length l ≤ eventQueueCapacity → length l' ≤ eventQueueCapacity)%nat.
#[export] Instance grows_preorder : PreOrder grows.
Proof.
  split.
  - intros l. split; [exists []; by rewrite app_nil_r|done].
  - intros l1 l2 l3 [[n1 ->] H1] [[n2 ->] H2]. split; [exists (n1 ++ n2); by rewrite app_assoc|auto].
Qed.

Lemma enqueue_grows n ev q : grows (queued q) (queued (enqueue_event n ev q).2).
Proof.
  unfold enqueue_event. destruct (Nat.ltb_spec (length (queued q)) eventQueueCapacity).
  - split; [by eexists|]. intros _. simpl. rewrite length_app. simpl. lia.
  - by destruct (_ || _).
Qed.

Section channel.
Context `{U : Unicode, R : Regexp, NL : NetLib, CL : !CIDRLib}.

Lemma effects_grow A effects w :
  grows (queued (aw_events w)) (queued (aw_events (foldl (apply_effect A) w effects))).
Proof.
  revert w. induction effects as [|e effects IH]; intros w; [reflexivity|]. simpl.
  etrans; [|apply IH]. destruct e; try reflexivity. apply enqueue_grows.
Qed.
Lemma effects_silent A effects w :
  existsb is_audit effects = false → aw_events (foldl (apply_effect A) w effects) = aw_events w.
Proof.
  revert w. induction effects as [|e effects IH]; intros w; [done|]. simpl. intros [He Hs]%orb_false_iff.
  rewrite IH by done. by destruct e.
Qed.
Lemma before_send_silent effects : existsb is_audit (before_send effects) = false.
Proof. induction effects as [|e effects IH]; [done|]. simpl. destruct (is_audit e) eqn:E; [done|]. simpl. by rewrite E. Qed.

Lemma evaluate_grows A s pinned req body w :
  grows (queued (aw_events w)) (queued (aw_events (adapter_Evaluate A s pinned req body w).2)).
Proof.
  unfold adapter_Evaluate. destruct (requestState _ _ _).1 as [st|]; [|reflexivity].
  cbv zeta. destruct (Evaluate _ _ _ _) as [result ew]. cbn [snd aw_events]. apply effects_grow.
Qed.
Lemma evaluate_closed_silent A s pinned req body w :
  aw_events (evaluate_closed A s pinned req body w).2 = aw_events w.
Proof.
  unfold evaluate_closed, adapter_Evaluate. destruct (requestState _ _ _).1 as [st|]; [|done].
  destruct (Evaluate _ _ _ _) as [result ew]. destruct (existsb is_audit (log ew)) eqn:E.
  - cbn [snd aw_events]. apply effects_silent, before_send_silent.
  - cbv zeta. cbn [snd aw_events]. by apply effects_silent.
Qed.
End channel.

(** ** What holds of every state *)

Section invariant.
Context `{U : Unicode, R : Regexp, C : Cipher, UL : UrlLib, AR : Argon2, NL : NetLib, H : !HostLib, CL : !CIDRLib}.
Context `{SQL : SqlFunctions, SA : SqlAverage, AQ : AdminRequest, TL : TimeLib}.
Context (cfg : StartupConfig.t) (hash : string → string).
Context (format_confidence : float64 → string) (error_text : audit_err → string).
Implicit Types s : Life.t.
Abbreviation step := (life_step cfg hash format_confidence error_text) (only parsing).

(** How far the goroutines are from [main]'s position. *)
Record orderly (s : Life.t) : Prop := {
  or_channel : Life.accepted s = Life.recorded s ++ Life.events s;
  or_bound : (length (Life.events s) ≤ eventQueueCapacity)%nat;
  or_writer : Life.writer_done s = true → Life.events_closed s = true ∧ Life.events s = [];
  or_cleanup_ended : (3 < rank (Life.main s))%nat → Life.cleanup_done s = true;
  or_writer_ended : (4 < rank (Life.main s))%nat → Life.writer_done s = true;
  or_async_ended : (5 < rank (Life.main s))%nat → Life.async_done s = true;
  or_panics : Life.expired s = false → Life.panics s = 0;
  or_data : Life.expired s = false → (1 < rank (Life.main s))%nat → Life.data_requests s = 0;
  or_admin : Life.expired s = false → (2 < rank (Life.main s))%nat → Life.admin_requests s = 0;
}.

Lemma orderly_moves s p :
  grows (Life.events s) (queued (aw_events (Program.plane p))) →
  (Life.writer_done s = true → queued (aw_events (Program.plane p)) = Life.events s) →
  orderly s → orderly (Life.moves s p).
Proof.
  intros [[new Hn] Hl] Hq []. split; simpl; try done.
  - change (Life.events (Life.moves s p)) with (queued (aw_events (Program.plane p))).
    rewrite or_channel0, Hn, drop_app_length. by rewrite app_assoc.
  - by apply Hl.
  - intros Hw. destruct (or_writer0 Hw) as [Hc He]. split; [done|].
    change (Life.events (Life.moves s p)) with (queued (aw_events (Program.plane p))). by rewrite Hq.
Qed.
(** Steps that leave the channel alone. *)
Lemma orderly_beside s p :
  aw_events (Program.plane p) = aw_events (Program.plane (Life.prog s)) → orderly s → orderly (Life.moves s p).
Proof. intros E. apply orderly_moves; unfold Life.events; by rewrite E. Qed.

Lemma orderly_main s s' : main_step s s' → orderly s → orderly s'.
Proof.
  intros [] []; destruct s0; simpl in *; split; simpl in *; subst; simpl in *; unfold Life.events_closed, Life.has_reached in *; simpl in *;
    try done; try lia; try (intros; destruct_or!; congruence); naive_solver lia.
Qed.

Lemma open_writer s : orderly s → Life.events_closed s = false → Life.writer_done s = false.
Proof. intros Ho Hc. destruct (Life.writer_done s) eqn:E; [|done]. by destruct (or_writer s Ho E); congruence. Qed.
Lemma closed_rank s : Life.events_closed s = true → (3 < rank (Life.main s))%nat.
Proof. unfold Life.events_closed, Life.has_reached. intros Hr%Nat.leb_le. simpl in Hr. lia. Qed.

(** A handler that is late is one that was left behind. *)
Lemma orderly_returns s n : Life.data_requests s = S n → orderly s → orderly (Life.with_requests s n (Life.admin_requests s)).
Proof. intros Hn []. split; simpl; try done. intros He Hr. specialize (or_data0 He Hr). congruence. Qed.
Lemma orderly_panic s n :
  Life.data_requests s = S n → Life.events_closed s = true → orderly s →
  orderly (Life.add_panic (Life.with_requests s n (Life.admin_requests s))).
Proof.
  intros Hn Hc%closed_rank Ho. pose proof (orderly_returns s n Hn Ho) as [].
  split; simpl in *; try done. intros He. pose proof (or_data s Ho He ltac:(lia)). congruence.
Qed.

Lemma orderly_handler s s' : handler_step cfg hash s s' → orderly s → orderly s'.
Proof.
  intros Hs Ho. destruct Hs.
  - destruct H0 as [Hr|He], Ho; split; simpl in *; try done; [lia|congruence].
  - destruct H0 as [Hr|He], Ho; split; simpl in *; try done; [lia|congruence].
  - by apply orderly_returns.
  - destruct Ho. split; simpl; try done. intros He Hr. specialize (or_data0 He Hr). congruence.
  - by destruct Ho.
  - destruct Ho. split; simpl; try done. intros He Hr. specialize (or_admin0 He Hr). congruence.
  - apply orderly_moves; [apply evaluate_grows|by rewrite (open_writer s)|done].
  - pose proof (evaluate_closed_silent A (state_of p) pinned req body (Program.plane p)) as Hq. rewrite H3 in Hq. simpl in Hq.
    assert (orderly (Life.moves s (with_plane p w))) as Hm by (apply orderly_beside; done).
    destruct panicked; [|done]. by apply (orderly_panic (Life.moves s (with_plane p w))).
  - apply orderly_moves; [apply enqueue_grows|by rewrite (open_writer s)|done].
  - by apply orderly_panic.
  - by apply orderly_beside.
Qed.

Lemma orderly_background s s' : background_step cfg hash format_confidence error_text s s' → orderly s → orderly s'.
Proof.
  intros [Hm|Hw|Ha|Hc] Ho; [by eapply orderly_main|..].
  - destruct Hw.
    + unfold write_event in H2. fold (Life.events s) in *. subst p w. unfold Life.events in H1. destruct (queued _) as [|ev rest] eqn:E; [done|].
      injection H2 as <- <-. destruct Ho. split; simpl; try done; unfold Life.events in *; rewrite ?E in *; simpl in *.
      * rewrite or_channel0. by rewrite <- app_assoc.
      * lia.
      * congruence.
    + destruct Ho. split; simpl; try done.
  - destruct Ha; [by apply orderly_beside..|]. by destruct Ho.
  - destruct Hc; [by apply orderly_beside|]. by destruct Ho.
Qed.

Lemma orderly_step s s' : step s s' → orderly s → orderly s'.
Proof. intros []; [by eapply orderly_handler|by eapply orderly_background]. Qed.

(** The program stays well formed: every step is one of the program, but for
    requests that find the channel closed. *)
Lemma evaluate_closed_db A current pinned req body w :
  ae_hash A = hash → db_wf hash (tables (aw_conn w)) →
  db_wf hash (tables (aw_conn (evaluate_closed A current pinned req body w).2)).
Proof.
  intros HA Hw. pose proof (evaluate_db hash A current pinned req body w HA Hw) as He.
  unfold evaluate_closed. destruct (requestState _ _ _).1 as [st|]; [|done].
  destruct (Evaluate _ _ _ _) as [result ew]. destruct (existsb _ _); [|done]. by apply effects_db.
Qed.
Lemma life_step_wf s s' : step s s' → program_wf hash (Life.prog s) → program_wf hash (Life.prog s').
Proof.
  intros Hs Hp. assert (∀ p, program_step cfg hash format_confidence error_text (Life.prog s) p → program_wf hash p) as Hstep
    by eauto using program_step_wf.
  revert Hp Hstep. destruct Hs as [_ []|_ [[]|[]|[]|[]]]; intros Hp Hstep; try exact Hp;
    try (repeat match goal with v := _ |- _ => subst v end; destruct (Life.prog s0); apply Hstep; by econstructor).
  destruct Hp as [Hd Hg].
  pose proof (evaluate_closed_db A (state_of p) pinned req body (Program.plane p) H1 Hd) as Hk. rewrite H3 in Hk.
  by destruct panicked.
Qed.

Lemma orderly_start g c jobs limiter l :
  orderly (Life.start (Program.mk _ g (mk_adapter_world c (mk_event_queue [] 0 0) jobs limiter) l)).
Proof. split; simpl; try done; try lia. Qed.
Lemma orderly_run s s' : rtc step s s' → orderly s → orderly s'.
Proof. induction 1; eauto using orderly_step. Qed.
Lemma life_run_wf s s' : rtc step s s' → program_wf hash (Life.prog s) → program_wf hash (Life.prog s').
Proof. induction 1; eauto using life_step_wf. Qed.

(** ** The shutdown ends *)

#[local] Opaque eventQueueCapacity.
Definition pending (done : bool) : nat := if done then 0 else 1.
(** What is left to do: positions of [main], events in the closed channel and
    goroutines to end. *)
Definition remaining (s : Life.t) : nat :=
  (6 - rank (Life.main s)) * (eventQueueCapacity + 5) +
  (if Life.events_closed s then length (Life.events s) else eventQueueCapacity) +
  (pending (Life.expired s) + pending (Life.cleanup_done s) + pending (Life.writer_done s) + pending (Life.async_done s)).

Lemma remaining_position s p :
  orderly s → rank p = S (rank (Life.main s)) → (rank p ≤ 6)%nat →
  (remaining (Life.at_position s p) < remaining s)%nat.
Proof.
  intros Ho Hp Hl. unfold remaining, Life.events_closed, Life.has_reached. simpl. rewrite Hp.
  change (Life.events (Life.at_position s p)) with (Life.events s).
  pose proof (or_bound s Ho). replace (6 - rank (Life.main s)) with (S (6 - S (rank (Life.main s)))) by lia.
  simpl Nat.mul. repeat case_match; repeat match goal with H : (_ <=? _)%nat = _ |- _ =>
    first [apply Nat.leb_le in H|apply Nat.leb_gt in H] end; simpl in *; lia.
Qed.
Lemma remaining_moves s p :
  (Life.events_closed s = true → aw_events (Program.plane p) = aw_events (Program.plane (Life.prog s))) →
  remaining (Life.moves s p) = remaining s.
Proof.
  intros E. unfold remaining. change (Life.events_closed (Life.moves s p)) with (Life.events_closed s). simpl.
  destruct (Life.events_closed s); [|done]. unfold Life.events. simpl. by rewrite E.
Qed.

Definition progresses (s : Life.t) : Prop :=
  ∃ s', background_step cfg hash format_confidence error_text s s' ∧ (remaining s' < remaining s)%nat.
Lemma main_progresses s p :
  orderly s → main_step s (Life.at_position s p) → rank p = S (rank (Life.main s)) → (rank p ≤ 6)%nat → progresses s.
Proof. intros Ho Hm Hp Hl. eexists. split; [by apply by_main|by apply remaining_position]. Qed.
Lemma shutdown_progresses s :
  orderly s → Life.main s = DataShutdown ∨ Life.main s = AdminShutdown → progresses s.
Proof.
  intros Ho Hm. destruct (Life.expired s) eqn:Ex.
  - destruct Hm as [E|E].
    + apply (main_progresses s AdminShutdown Ho); [by constructor; auto|by rewrite E|simpl; lia].
    + apply (main_progresses s StopCleanup Ho); [by constructor; auto|by rewrite E|simpl; lia].
  - eexists. split; [by apply by_main, main_deadline|].
    unfold remaining, Life.events_closed, Life.has_reached, Life.events. simpl. rewrite Ex. simpl. lia.
Qed.
Lemma writer_progresses s : orderly s → Life.main s = StopWriter → Life.writer_done s = false → progresses s.
Proof.
  intros Ho E Hw. assert (Life.events_closed s = true) as Hc by (unfold Life.events_closed, Life.has_reached; by rewrite E).
  destruct (Life.events s) as [|ev rest] eqn:He.
  - eexists. split; [by apply by_writer, writer_ends|]. unfold remaining. change (Life.events_closed (Life.finish_writer s)) with (Life.events_closed s).
    rewrite Hc. change (Life.events (Life.finish_writer s)) with (Life.events s). simpl. rewrite Hw. simpl. lia.
  - eexists. split.
    + apply by_writer, (writer_writes s (λ _, false) 0); [done|by rewrite He|apply surjective_pairing].
    + unfold Life.events in He. unfold write_event. rewrite He. unfold remaining. simpl.
      match goal with |- context [Life.events_closed (Life.writes s ?p)] =>
        change (Life.events_closed (Life.writes s p)) with (Life.events_closed s) end.
      rewrite Hc. unfold Life.events. simpl. rewrite He. simpl. lia.
Qed.
Lemma background_progress s : orderly s → Life.main s ≠ Serving → Life.main s ≠ Exited → progresses s.
Proof.
  intros Ho Hs He. destruct (Life.main s) eqn:E; try done; try (by apply shutdown_progresses; auto).
  - destruct (Life.cleanup_done s) eqn:Ed.
    + apply (main_progresses s StopWriter Ho); [by constructor|by rewrite E|simpl; lia].
    + eexists. split; [by apply by_cleanup, cleanup_stops; unfold Life.cleanup_cancelled, Life.has_reached; rewrite ?E|].
      unfold remaining, Life.events_closed, Life.has_reached, Life.events. simpl. rewrite Ed. simpl. lia.
  - destruct (Life.writer_done s) eqn:Ed; [|by apply writer_progresses].
    apply (main_progresses s StopAsync Ho); [by constructor|by rewrite E|simpl; lia].
  - destruct (Life.async_done s) eqn:Ed.
    + apply (main_progresses s Exited Ho); [by constructor|by rewrite E|simpl; lia].
    + eexists. split; [by apply by_async, async_stops; unfold Life.async_stopped, Life.has_reached; rewrite ?E|].
      unfold remaining, Life.events_closed, Life.has_reached, Life.events. simpl. rewrite Ed. simpl. lia.
Qed.

Lemma remaining_main s s' : orderly s → main_step s s' → (remaining s' ≤ remaining s)%nat.
Proof.
  intros Ho Hm. destruct Hm; try (apply Nat.lt_le_incl, remaining_position; [done|by rewrite H0|simpl; lia]).
  unfold remaining, Life.events_closed, Life.has_reached, Life.events. simpl. destruct (Life.expired s); simpl; lia.
Qed.
Lemma remaining_step s s' : orderly s → step s s' → (remaining s' ≤ remaining s)%nat.
Proof.
  intros Ho Hs. revert Ho. destruct Hs as [_ []|_ [Hm|[]|[]|[]]]; intros Ho; try (by apply remaining_main); try done;
    try (rewrite remaining_moves; [done|]; by intros; try congruence).
  - pose proof (evaluate_closed_silent A (state_of p) pinned req body (Program.plane p)) as Hq. rewrite H3 in Hq.
    assert (remaining (Life.moves s0 (with_plane p w)) = remaining s0) as <- by (by apply remaining_moves).
    by destruct panicked.
  - subst p w. unfold write_event in H2. unfold Life.events in H1. unfold remaining.
    match goal with |- context [Life.events_closed (Life.writes s0 ?p)] =>
      change (Life.events_closed (Life.writes s0 p)) with (Life.events_closed s0) end.
    unfold Life.events. destruct (queued _); [done|]. injection H2 as <- <-. simpl. destruct (Life.events_closed s0); lia.
  - unfold remaining. change (Life.events_closed (Life.finish_writer s0)) with (Life.events_closed s0). simpl.
    unfold Life.events. simpl. lia.
  - unfold remaining. change (Life.events_closed (Life.finish_async s0)) with (Life.events_closed s0). simpl.
    unfold Life.events. simpl. lia.
  - unfold remaining. change (Life.events_closed (Life.finish_cleanup s0)) with (Life.events_closed s0). simpl.
    unfold Life.events. simpl. lia.
Qed.

Lemma remaining_bound s : orderly s → (remaining s ≤ 7 * (eventQueueCapacity + 5))%nat.
Proof.
  intros Ho. pose proof (or_bound s Ho). unfold remaining.
  assert ((6 - rank (Life.main s)) * (eventQueueCapacity + 5) ≤ 6 * (eventQueueCapacity + 5))%nat by (apply Nat.mul_le_mono_r; lia).
  destruct (Life.events_closed s), (Life.expired s), (Life.cleanup_done s), (Life.writer_done s), (Life.async_done s); simpl pending; lia.
Qed.
Lemma background_stays s s' :
  background_step cfg hash format_confidence error_text s s' → Life.main s ≠ Serving → Life.main s' ≠ Serving.
Proof. by intros [[]|[]|[]|[]] Hs. Qed.
Lemma background_exits n s :
  (remaining s ≤ n)%nat → orderly s → Life.main s ≠ Serving →
  ∃ s', bsteps (background_step cfg hash format_confidence error_text) n s s' ∧ Life.main s' = Exited.
Proof.
  revert s. induction n as [|n IH]; intros s Hn Ho Hs; (destruct (decide (Life.main s = Exited)) as [E|E]; [exists s; by split; [constructor|]|]);
    destruct (background_progress s Ho Hs E) as (s1 & H1 & Hlt); [lia|].
  destruct (IH s1) as (s' & Hb & He); [lia|by eapply orderly_background|by eapply background_stays|].
  exists s'. split; [by eapply bsteps_l|done].
Qed.

End invariant.

(** ** The start *)

(** What setting up the file leaves true of its content. *)
Definition setup_keeps {A} (P : db → Prop) (m : Setup A) : Prop := ∀ f, P (tables (data f)) → P (tables (data (m f).2)).

Section setup.
Context `{U : Unicode, C : Cipher} (hash : string → string) (io : nat → bool).
Implicit Types P : db → Prop.

Lemma setup_ret {A} P (a : A) : setup_keeps P (mret a).
Proof. by intros f. Qed.
Lemma setup_bind {A B} P (m : Setup A) (k : A → Setup B) :
  setup_keeps P m → (∀ a, setup_keeps P (k a)) → setup_keeps P (m ≫= k).
Proof.
  intros Hm Hk f Hf. unfold mbind, Setup_bind. specialize (Hm f Hf). destruct (m f) as [[a|e] f']; [by apply Hk|done].
Qed.
Lemma setup_alter {A} P (g : gmap string (list string) → list string → result store_err (A * (gmap string (list string) * list string))) :
  setup_keeps P (alter_schema io g).
Proof. intros f Hf. unfold alter_schema. destruct (io _); [|done]. by destruct (g _ _) as [[a [s ixs]]|e]. Qed.
Lemma setup_all {A} P (run : A → Setup unit) l : (∀ a, setup_keeps P (run a)) → setup_keeps P (run_all run l).
Proof. intros Hr. induction l; simpl; [apply setup_ret|]. by apply setup_bind. Qed.
Lemma setup_columns {A} P needed (m : Store A) : keeps P m → setup_keeps P (with_columns needed m).
Proof.
  intros Hm f Hf. unfold with_columns. destruct (forallb _ _); [|done].
  specialize (Hm (data f) Hf). by destruct (m (data f)).
Qed.
Lemma setup_column P tc : setup_keeps P (ensureColumn io tc).
Proof.
  destruct tc as [table column]. apply setup_bind; [apply setup_alter|intros []]; [apply setup_ret|apply setup_alter].
Qed.

Lemma record_db v at_ : keeps (db_wf hash) (exec io (record_version_or_ignore v at_)).
Proof. apply keeps_elsewhere. intros ? n. unfold record_version_or_ignore, record_version. statement_cases. Qed.
Lemma fill_aside {V} (p : db → V) items :
  (∀ kind d m, p (set_table kind d m) = p d) → aside p (fill_all io items).
Proof.
  intros Hp v n. induction items as [|[[kind sha] content] items IH]; simpl; [apply keeps_ret|].
  apply keeps_bind; [|intros ? ? ? _; exact IH]. apply aside_exec. intros d a d' [= _ <-]. split; [apply Hp|].
  unfold set_table. by destruct (_ =? _)%string.
Qed.
Lemma plaintext_aside {V} (p : db → V) at_ :
  (∀ kind d m, p (set_table kind d m) = p d) → (∀ d m, p (set_migrations d m) = p d) →
  aside p (migrateRulePlaintextV4 hash io at_).
Proof.
  intros Hp Hm v n. unfold migrateRulePlaintextV4, rule_candidates.
  apply keeps_bind; [apply keeps_query|intros [] ? ? _; [apply keeps_ret|]].
  apply keeps_bind; [|intros m ? ? _].
  { do 3 (apply keeps_bind; [apply keeps_query|intros ? ? ? _]). apply keeps_ret. }
  apply keeps_transaction, keeps_bind; [by apply fill_aside|intros ? ? ? _].
  apply aside_exec. unfold record_version. intros d u d' E. case_match; [done|]. injection E as _ <-. by rewrite Hm.
Qed.
Lemma plaintext_rules at_ : keeps (rules_wf hash) (migrateRulePlaintextV4 hash io at_).
Proof.
  unfold migrateRulePlaintextV4. apply keeps_bind; [apply keeps_query|intros [] c _ _; [apply keeps_ret|]].
  intros c1 Hc. unfold mbind, Store_bind. pose proof (rule_candidates_tables hash io c1) as Ht.
  destruct (rule_candidates hash io c1) as [[m|e] c2] eqn:E; simpl in Ht; [|simpl; by rewrite Ht].
  apply rule_candidates_spec in E as (_ & Hm & _). rewrite <- Ht in Hc.
  destruct (transaction _ _ c2) as [r c3] eqn:E3. by apply (backfill_transaction hash io m at_ c2 r c3 Hc Hm E3).
Qed.
Lemma plaintext_db at_ : keeps (db_wf hash) (migrateRulePlaintextV4 hash io at_).
Proof.
  apply keeps_db; [apply plaintext_rules|apply aside_events|apply aside_jobs]; apply plaintext_aside;
    intros; unfold event_view, set_table; by try destruct (_ =? _)%string.
Qed.
(** The migration of the events asks none of the functions of SQL. *)
Lemma events_db at_ : keeps (db_wf hash) (migrateEventContractV2 io at_).
Proof. pose (SQL := Demo.sql). exact (event_op_db hash io (EMigrate at_)). Qed.
Lemma migrate_file_db now : setup_keeps (db_wf hash) (migrate_file hash io now).
Proof.
  unfold migrate_file. cbv zeta.
  repeat first [apply setup_all; intros ? | apply setup_column | apply setup_alter
    | apply setup_columns; first [apply record_db|apply plaintext_db|apply events_db]
    | apply setup_bind; [|intros ?]].
Qed.
Lemma Open_db opn dir now f : db_wf hash (tables (data f)) → db_wf hash (tables (data (Open hash io opn dir now f).2)).
Proof.
  intros Hf. unfold Open. destruct (negb (dir_ok opn)); [done|]. cbv zeta. destruct (negb (driver_ok opn)); [done|].
  assert (setup_keeps (db_wf hash) (run_all (run_pragma io) pragma_statements;; migrate_file hash io now)) as Hk.
  { apply setup_bind; [apply setup_all; intros ?; apply setup_alter|intros _; apply migrate_file_db]. }
  specialize (Hk f Hf).
  by destruct ((run_all (run_pragma io) pragma_statements;; migrate_file hash io now) f) as [[u|e] f'].
Qed.
End setup.

Section boot.
Context `{U : Unicode, R : Regexp, UL : UrlLib, AR : Argon2, NL : NetLib, H : !HostLib, CL : !CIDRLib, SL : ScanLib, AE : AEAD}.

Lemma boot_orderly hash rand o opn io start_io now salt f cfg p :
  boot hash rand o opn io start_io now salt f = Ok (cfg, p) → orderly (Life.start p).
Proof.
  unfold boot. destruct (Load o).1 as [cfg'|e]; [|done]. destruct (Open _ _ _ _ _ _) as [[[dsn|e] h] f']; [|done].
  destruct (startup _ _ _ _ _) as [[g|e] c]; [|done]. intros [= <- <-]. apply orderly_start.
Qed.
(** A program that has been started is well formed. *)
Lemma boot_wf hash rand o opn io start_io now salt f cfg p :
  db_wf hash (tables (data f)) → boot hash rand o opn io start_io now salt f = Ok (cfg, p) →
  program_wf hash p.
Proof.
  intros Hf. unfold boot. destruct (Load o).1 as [cfg'|e]; [|done].
  pose proof (Open_db (C := process_cipher rand cfg') hash io opn (StartupConfig.DataDir cfg') now f Hf) as Ho.
  destruct (Open _ _ _ _ _ _) as [[[dsn|e] h] f']; [|done]. simpl in Ho.
  destruct (startup _ _ _ _ _) as [[g|e] c] eqn:Es; [|done]. intros [= <- <-].
  by eapply (startup_ok (C := process_cipher rand cfg')).
Qed.
End boot.

(** ** The whole process *)

Section process.
Context `{U : Unicode, R : Regexp, UL : UrlLib, AR : Argon2, NL : NetLib, H : !HostLib, CL : !CIDRLib, SL : ScanLib}.
Context `{SQL : SqlFunctions, SA : SqlAverage, AQ : AdminRequest, TL : TimeLib, AE : AEAD}.
Context (hash : string → string) (rand : nat → bytes).
Context (format_confidence : float64 → string) (error_text : audit_err → string).
Implicit Types s : Life.t.

(** C5. From the first line of [main] to its return: started on a file whose
    rules, events, evidence and jobs are well formed, the program keeps them so,
    however the goroutines and the requests interleave and whatever fails, and
    the events given to the store are those that were accepted for it, in
    order, but for the ones still in the channel.  When [main] returns, the
    channel is empty and the writer, the background reviewer and the cleanup
    have ended, so that none of them works on the closed database.  When both
    calls of [Shutdown] return before their time is over, no request is cut off:
    none has met the closed channel of the events, and no handler is left of
    any request but the upgraded connections (WebSockets), for which nothing
    waits and which end with the process. *)
Theorem orderly_shutdown o opn io start_io now salt f cfg p s :
  db_wf hash (tables (data f)) →
  boot hash rand o opn io start_io now salt f = Ok (cfg, p) →
  rtc (life_step (C := process_cipher rand cfg) cfg hash format_confidence error_text) (Life.start p) s →
  program_wf hash (Life.prog s) ∧
  Life.accepted s = Life.recorded s ++ Life.events s ∧
  (Life.main s = Exited →
     Life.recorded s = Life.accepted s ∧ Life.cleanup_done s = true ∧ Life.writer_done s = true ∧ Life.async_done s = true) ∧
  (Life.expired s = false →
     Life.panics s = 0 ∧ (Life.main s = Exited → Life.data_requests s = 0 ∧ Life.admin_requests s = 0)).
Proof.
  intros Hf Hb Hr. pose proof (boot_wf _ _ _ _ _ _ _ _ _ _ _ Hf Hb) as Hp. pose proof (boot_orderly _ _ _ _ _ _ _ _ _ _ _ Hb) as Ho.
  pose proof (life_run_wf (C := process_cipher rand cfg) cfg hash format_confidence error_text _ _ Hr Hp) as Hw.
  pose proof (orderly_run (C := process_cipher rand cfg) cfg hash format_confidence error_text _ _ Hr Ho) as Hs.
  split; [done|]. destruct Hs. split; [done|]. split.
  - intros E. rewrite E in *. simpl in *. destruct or_writer0 as [_ He]; [auto with lia|].
    rewrite or_channel0, He, app_nil_r. auto with lia.
  - intros E. split; [auto|]. intros Em. rewrite Em in *. simpl in *. auto with lia.
Qed.

(** C32. The shutdown ends: once the main goroutine has left its wait for a
    signal, then in every state the program can be in and whatever the clients
    do, some goroutine of the program can take a step that brings the end
    nearer, no step of any other moves it away, and the goroutines alone reach
    the end of [main] within a bounded number of steps. *)
Theorem shutdown_completes o opn io start_io now salt f cfg p s :
  boot hash rand o opn io start_io now salt f = Ok (cfg, p) →
  rtc (life_step (C := process_cipher rand cfg) cfg hash format_confidence error_text) (Life.start p) s →
  Life.main s ≠ Serving →
  let background := background_step (C := process_cipher rand cfg) cfg hash format_confidence error_text in
  (Life.main s ≠ Exited → ∃ s', background s s' ∧ (remaining s' < remaining s)%nat) ∧
  (∀ s', life_step (C := process_cipher rand cfg) cfg hash format_confidence error_text s s' → (remaining s' ≤ remaining s)%nat) ∧
  ∃ s', bsteps background (7 * (eventQueueCapacity + 5)) s s' ∧ Life.main s' = Exited.
Proof.
  intros Hb Hr Hs background. pose proof (boot_orderly _ _ _ _ _ _ _ _ _ _ _ Hb) as Ho.
  pose proof (orderly_run (C := process_cipher rand cfg) cfg hash format_confidence error_text _ _ Hr Ho) as Hk.
  split; [by apply background_progress|]. split; [by intros s'; apply remaining_step|].
  apply background_exits; [by apply remaining_bound|done..].
Qed.
End process.

(** A handler that is still running when the time of [Shutdown] is over meets
    the closed channel. *)
Lemma late_request_panics `{U : Unicode, R : Regexp, C : Cipher, UL : UrlLib, AR : Argon2, NL : NetLib, H : !HostLib,
    CL : !CIDRLib, SQL : SqlFunctions, SA : SqlAverage, AQ : AdminRequest, TL : TimeLib} cfg hash fc et p :
  ∃ s, rtc (life_step cfg hash fc et) (Life.start p) s ∧ Life.main s = StopWriter ∧ Life.panics s = 1.
Proof.
  eexists. split.
  - eapply rtc_l; [apply by_handler; [done|]; apply data_arrives; left; simpl; lia|].
    eapply rtc_l; [apply by_background, by_main, main_stops; done|].
    eapply rtc_l; [apply by_background, by_main, main_deadline; auto|].
    eapply rtc_l; [apply by_background, by_main, main_data_down; auto|].
    eapply rtc_l; [apply by_background, by_main, main_admin_down; auto|].
    eapply rtc_l; [apply by_background, by_cleanup, cleanup_stops; done|].
    eapply rtc_l; [apply by_background, by_main, main_after_cleanup; done|].
    eapply rtc_l; [by apply by_handler, (data_observes_late _ _ _ 0)|]. apply rtc_refl.
  - done.
Qed.

(** An upgraded connection is cut off: [main] returns within the time of
    [Shutdown] while it is open. *)
Lemma websocket_cut_off `{U : Unicode, R : Regexp, C : Cipher, UL : UrlLib, AR : Argon2, NL : NetLib, H : !HostLib,
    CL : !CIDRLib, SQL : SqlFunctions, SA : SqlAverage, AQ : AdminRequest, TL : TimeLib} cfg hash fc et g c jobs limiter l :
  ∃ s, rtc (life_step cfg hash fc et)
         (Life.start (Program.mk _ g (mk_adapter_world c (mk_event_queue [] 0 0) jobs limiter) l)) s ∧
    Life.main s = Exited ∧ Life.expired s = false ∧ Life.hijacked s = 1.
Proof.
  eexists. split.
  - eapply rtc_l; [apply by_handler; [done|]; apply data_arrives; left; simpl; lia|].
    eapply rtc_l; [by apply by_handler, (data_hijacks _ _ _ 0)|].
    eapply rtc_l; [apply by_background, by_main, main_stops; done|].
    eapply rtc_l; [apply by_background, by_main, main_data_down; auto|].
    eapply rtc_l; [apply by_background, by_main, main_admin_down; auto|].
    eapply rtc_l; [apply by_background, by_cleanup, cleanup_stops; done|].
    eapply rtc_l; [apply by_background, by_main, main_after_cleanup; done|].
    eapply rtc_l; [apply by_background, by_writer, writer_ends; done|].
    eapply rtc_l; [apply by_background, by_main, main_after_writer; done|].
    eapply rtc_l; [apply by_background, by_async, async_stops; done|].
    eapply rtc_l; [apply by_background, by_main, main_after_async; done|]. apply rtc_refl.
  - done.
Qed.

(** ** Witnesses: one request, whose event is written during the shutdown *)

Section life_witnesses.
#[local] Existing Instances Demo.url Demo.argon Demo.net Demo.host Demo.cidr Demo.sql Demo.average
  Demo.times Demo.requests literal_regexp.
#[local] Instance demo_scan : ScanLib := {| Sscan_int64 := λ _, None; ParseDuration := λ _, None |}.
#[local] Instance demo_aead : AEAD := {| Sum256 := λ b, b; gcm_Seal := λ _ _ t _, t; gcm_Open := λ _ _ t _, Some t |}.
Definition demo_rand (n : nat) : bytes := B "123456789012".

Definition demo_environ (k : string) : option string :=
  (list_to_map [("NCG_UPSTREAM_URL", "up"); ("NCG_LISTEN_ADDR", "127.0.0.1:8080"); ("NCG_ADMIN_LISTEN_ADDR", "127.0.0.1:9090");
                ("NCG_DATA_DIR", "/data"); ("NCG_MASTER_KEY", "key")]%string : gmap string string) !! k.
Definition demo_os : os := mk_os demo_environ ∅ (λ _, true) None true None None true None true.
(** A new file, but for the administrator. *)
Definition demo_boot : result boot_err (StartupConfig.t * Program.t) :=
  boot demo_hash demo_rand demo_os (mk_opening true true) Demo.io Demo.io 0 None (mk_file ∅ [] Demo.users).
Definition demo_cfg : StartupConfig.t := match demo_boot with Ok (cfg, _) => cfg | Err _ => demo_startup end.
#[local] Instance demo_process : Cipher := process_cipher demo_rand demo_cfg.
Definition demo_begin : Program.t :=
  match demo_boot with Ok (_, p) => p | Err _ => Program.mk _ demo_guard demo_plane ∅ end.
Lemma demo_booted : demo_boot = Ok (demo_cfg, demo_begin).
Proof.
  assert (is_ok demo_boot = true) as Hb by (vm_compute; reflexivity).
  unfold demo_cfg, demo_begin. destruct demo_boot as [[cfg p]|e]; [reflexivity|discriminate Hb].
Qed.

Definition demo_life : Life.t := Life.with_requests (Life.start demo_begin) 1 0.
Definition demo_evaluated : Life.t :=
  Life.moves demo_life (with_plane demo_begin
    (adapter_Evaluate demo_environment (state_of demo_begin) None demo_attack demo_text (Program.plane demo_begin)).2).
Definition demo_stopping : Life.t :=
  Life.at_position (Life.finish_cleanup (Life.at_position (Life.at_position
    (Life.with_requests (Life.at_position demo_evaluated DataShutdown) 0 0) AdminShutdown) StopCleanup)) StopWriter.
Definition demo_drained : Life.t :=
  let w := Program.plane (Life.prog demo_stopping) in
  let x := write_event Demo.io hour (aw_events w) (aw_conn w) in
  Life.writes demo_stopping (with_plane (Life.prog demo_stopping) (mk_adapter_world x.2 x.1 (aw_jobs w) (aw_limiter w))).
Definition demo_exited : Life.t :=
  Life.at_position (Life.finish_async (Life.at_position (Life.finish_writer demo_drained) StopAsync)) Exited.

Abbreviation demo_step := (life_step demo_cfg demo_hash (λ _, ""%string) (λ _, ""%string)) (only parsing).

Lemma demo_to_stopping : rtc demo_step (Life.start demo_begin) demo_stopping.
Proof.
  eapply rtc_l; [apply by_handler; [done|]; apply data_arrives; left; simpl; lia|].
  eapply rtc_l; [apply by_handler; [done|]; apply (data_evaluates _ _ demo_life demo_environment None demo_attack demo_text); done|].
  eapply rtc_l; [apply by_background, by_main, main_stops; done|].
  eapply rtc_l; [by apply by_handler, (data_returns _ _ _ 0)|].
  eapply rtc_l; [apply by_background, by_main, main_data_down; auto|].
  eapply rtc_l; [apply by_background, by_main, main_admin_down; auto|].
  eapply rtc_l; [apply by_background, by_cleanup, cleanup_stops; done|].
  eapply rtc_l; [apply by_background, by_main, main_after_cleanup; done|]. apply rtc_refl.
Qed.
Lemma demo_to_exit : rtc demo_step demo_stopping demo_exited.
Proof.
  eapply rtc_l; [apply by_background, by_writer, (writer_writes demo_stopping Demo.io hour); [done|done| |apply surjective_pairing]|].
  { assert (length (Life.events demo_stopping) = 1) as E by (vm_compute; reflexivity). by destruct (Life.events _). }
  eapply rtc_l; [apply by_background, by_writer, writer_ends; [done|done| |done]|].
  { assert (length (Life.events demo_drained) = 0) as E by (vm_compute; reflexivity). by apply nil_length_inv. }
  eapply rtc_l; [apply by_background, by_main, main_after_writer; done|].
  eapply rtc_l; [apply by_background, by_async, async_stops; done|].
  eapply rtc_l; [apply by_background, by_main, main_after_async; done|]. apply rtc_refl.
Qed.

Lemma orderly_shutdown_witness :
  Life.recorded demo_exited = Life.accepted demo_exited ∧ length (Life.recorded demo_exited) = 1 ∧ Life.panics demo_exited = 0.
Proof.
  destruct (orderly_shutdown demo_hash demo_rand (λ _, ""%string) (λ _, ""%string) demo_os (mk_opening true true) Demo.io Demo.io
    0 None (mk_file ∅ [] Demo.users) demo_cfg demo_begin demo_exited demo_users_wf demo_booted) as (_ & _ & He & Hp).
  - etrans; [exact demo_to_stopping|exact demo_to_exit].
  - split; [by apply He|]. split; [vm_compute; reflexivity|by apply Hp].
Defined.

Lemma shutdown_completes_witness :
  ∃ s', bsteps (background_step demo_cfg demo_hash (λ _, ""%string) (λ _, ""%string)) (7 * (eventQueueCapacity + 5))
          demo_stopping s' ∧ Life.main s' = Exited.
Proof.
  destruct (shutdown_completes demo_hash demo_rand (λ _, ""%string) (λ _, ""%string) demo_os (mk_opening true true) Demo.io Demo.io
    0 None (mk_file ∅ [] Demo.users) demo_cfg demo_begin demo_stopping demo_booted demo_to_stopping) as (_ & _ & H); [discriminate|].
  exact H.
Defined.
End life_witnesses.
